(* ===== verification/_CoqProject ===== *)
-Q . S2P
Prelude.v
Error.v
Config.v
Tables.v
Gf.v
Simd.v
CoefGen.v
Vandermonde.v
IdStorage.v
EncVec.v
Common.v
Packets.v
F64.v
Feedback.v
Packet.v
Policy.v
Window.v
LinComb.v
Encoder.v
BTree.v
Buffer.v
Matrix.v
Dense.v
Elim.v
Decoder.v
Recovery.v
Delivery.v
Reports.v
Consumer.v
Transport.v
Sender.v
Session.v
EndToEnd.v
ClosedLoop.v
Lossless.v
CliSend.v
CliRecv.v
CliBench.v
CliDemo.v
CliMain.v
Examples.v
FileTransfer.v
UdpFec.v
Testing.v
TestsGf.v
TestsWire.v
TestsCodec.v
Pipeline.v
KernelProps.v
TestsSession.v
