(* ===== verification/Prelude.v ===== *)
(** * delp: a verification development

    delp (src/) is a forward-error-correction codec in the style of Tetrys (RFC
    9407): a sender emits source packets and, at a configurable rate, coded
    packets that carry linear combinations over GF(2^8) or GF(2^4) of the symbols
    in its window; a receiver repairs losses by incremental Gaussian elimination
    and delivers symbols in order.  This library models the codec, its wire
    format, its policies, the transport adapters and the command-line tool, and
    proves them correct from the field arithmetic up to a whole file transfer.

    ** The parts, bottom up

    - Prelude.v (this file): outcomes of calls, machine words, slices, while
      loops.  Error.v: error.rs.  Config.v: config.rs, both builders.
    - Fields.  Tables.v: gf/tables.rs, the const-evaluated EXP and LOG tables.
      Gf.v: gf/mod.rs, gf2_8.rs, gf2_4.rs; the [Field] trait is a class, and both
      instances are fields whose product is the product of polynomials modulo the
      primitive one.  Simd.v: gf/simd.rs; the SSSE3, AVX2 and NEON kernels at
      the level of their intrinsics compute what the scalar loop computes.
      CoefGen.v: wire/ev/coef_gen.rs; every square Cauchy system is nonsingular.
      Vandermonde.v: every square Vandermonde system on a run of IDs is.
    - Wire format.  IdStorage.v and EncVec.v: wire/ev/id_storage.rs and mod.rs.
      Common.v, Packets.v, Feedback.v, Packet.v: the header, source and coded
      packets, feedback packets with their SACK vector, and DelpPacket::parse.
      F64.v: the IEEE doubles that loss rates are computed with.
    - Policies.  Policy.v: policy/mod.rs and defaults.rs; each trait is a class,
      what the codec asks of its implementations a class of laws ([FecLaws],
      [CongestionLaws], [WindowPolicyLaws]) which every default discharges.
    - Encoder.  Window.v: codec/encoder/window.rs.  LinComb.v: the linear
      combinations that specify payloads.  Encoder.v: codec/encoder/mod.rs.
    - Decoder.  BTree.v: BTreeMap on [gmap] with sorted keys.  Buffer.v:
      codec/decoder/buffer.rs.  Matrix.v: the matrix of codec/decoder/matrix.rs as
      code; Dense.v and Elim.v: the meaning of its coefficient rows and the
      invariant elimination keeps.  Decoder.v: codec/decoder/mod.rs.  Recovery.v:
      completeness of the elimination and the erasure-code guarantee.  Delivery.v:
      when delivery is complete.  Reports.v: what window updates acknowledge.
    - Composition.  Consumer.v: the interface of a program that feeds packets to a
      decoder and keeps what it delivers ([Consumer], [ConsumerLaws]).
      Transport.v, Sender.v, Session.v: transport/mod.rs and receiver.rs, sender.rs,
      session.rs.  EndToEnd.v and Lossless.v: from any encoder session through a lossy network to any
      consumer.  ClosedLoop.v: a sender and a receiver with feedback over a channel
      that loses, duplicates and delays in both directions, as a step relation
      ([World], [step]) with an executable scheduler ([act], [run]).
    - delp-cli.  CliMain.v: main.rs, the commands, their defaults and the dispatch.
      CliSend.v: send.rs and the options of main.rs.  CliRecv.v: recv.rs,
      and the file transfer from one to the other.  CliBench.v: bench.rs.
      CliDemo.v: demo.rs.  The receiver, the benchmark and the transport's
      receiver are three instances of [Consumer].
    - Examples (src/examples/).  Examples.v: the two library objects with the
      datagrams in the sockets between them ([Path]), and the simulation of every
      operation on them by steps of ClosedLoop.v.  FileTransfer.v: file_transfer.rs.
      UdpFec.v: udp_fec.rs.  Each is a step relation of the three tasks.
    - Tests.  Testing.v: what a test is.  TestsGf.v, TestsWire.v, TestsCodec.v: the
      test modules of the source files, one Module per file, each test a call
      that must not panic.  TestsSession.v: the files of src/tests/ that run whole
      sessions (altc.rs, cauchy_unlimited_session.rs, stress.rs,
      async_transport.rs).  Pipeline.v and KernelProps.v: proptest_codec.rs, one
      more [Consumer], and proptest_simd.rs, whose properties are proved for every
      value they may draw.

    Definitions keep the source's names (a method [m] of a type whose name is not
    needed to tell it apart is [m]); Rust's [&mut self] is explicit state passing,
    and a handler that changes its object before it fails returns the object with
    the error ([Decoder.handler]).

    ** Conventions

    - [outcome E A] is [Ok], [Err] or [Panic].  A failed [assert!], an index or
      slice out of range, an [expect] or [unwrap] on the wrong variant and a
      division by zero are [Panic].
    - Machine integers are [Z] with the wrap-around of each operation written out
      ([u8], [u16], [u32], [u64]); [usize] has 64 bits.  The arithmetic is that of
      the release profile: additions wrap, [debug_assert!] is not executed; the one
      sum of the property-based tests that can overflow panics ([usize_add]).
    - A [Vec] or slice is a list, a [HashMap] or [BTreeMap] a [gmap]; iteration over
      a [BTreeMap] is over its sorted keys.  Memory is unbounded, except where the
      code can ask for more than [isize::MAX] bytes.
    - Loops over a collection are [mfor]; other loops have fuel or recur on the
      data.  Fuel that ends is [Panic], so a theorem that a call returns [Ok]
      shows the fuel is enough; [Matrix.matrix_loops_terminate] shows it for the
      loops of the matrix on arbitrary input ([S (size rows)] rounds, one per row),
      [Buffer.drain_loop_spec] for delivery (one round per buffered symbol), and
      [IdStorage.uncompressed_edges_fuel] and [compressed_edges_fuel] for the
      decoders of ID ranges (a round reads at least four bytes).

    ** Parameters

    Code outside src/ and the environment are arguments: the zerocopy cast of the
    common header ([HeaderCast], with its documented law; [ReprC.cast] is an
    instance), the instruction set the CPU offers ([Dispatch]: every theorem holds
    for every one, and sender and receiver may differ), the user's policies, the
    source symbols ([src]), SHA-256, the hash of an address, the clock that seeds
    the simulated loss.  The network is the list of datagrams that arrive.

    ** What is shown

    - End to end: any encoder session, any loss, delivery of true symbols in
      order without errors (end_to_end_delivery); recovery when enough Cauchy
      packets arrive (end_to_end_recovery), and delivery of everything as long as
      the window has not moved (end_to_end_complete); everything delivered when
      only coded packets are lost (all_sources_delivered).  A file transfer never
      writes a wrong file and never panics (file_transfer_safe), and completes when
      enough coded packets arrive for the lost source packets
      (file_transfer_recovers) or none was lost (file_transfer_complete); the tool's
      default options fit together (default_transfer).
    - With feedback: what the application has received is always an initial piece
      of what was submitted, and what is missing is still in the sender's window
      (closed_loop_reliable); nothing fails (closed_loop_never_fails); and as many
      new coded packets as symbols are missing repair the loss
      (closed_loop_repairs).  Both examples are runs of this loop
      (blob_transfer_exact, udp_fec_in_order).
    - Decoder: delivered symbols are true, ascending and accounted for with the
      gaps (decoder_delivers_truth); the handlers are total on honest packets
      (decoder_never_fails) and refuse wrong sizes; elimination is complete
      (decoder_solves, cauchy_erasure_recovery); its loops end on any input.
    - Encoder: every packet is what its header says (encoder_session_honest), no
      operation fails in a session (encoder_never_fails), a submission is accepted
      or refused for exactly one of two reasons (submit_source_errors), the coded
      packets are numbered without a gap (coded_packets_numbered); the builder
      accepts exactly the Cauchy windows whose columns are distinct
      (encoder_build_sound).
    - Fields, kernels and coefficients: gf_is_field, gf_mul_is_polynomial, the
      kernels' equivalence, nonsingularity (Cauchy, and Vandermonde for bursts), and
      what a generation rotation does.
    - The tests of the source files and of src/tests/ pass on the model
      (repository_tests_pass, session_tests_pass), and the property-based ones hold
      of every value (pipeline_properties, kernel_properties, proptests_pass), but
      for the seeds with which one of them overflows.
    - Transport: the receiver is its decoder behind a FIFO, whatever the application
      calls and the socket answers (receiver_queue_is_fifo), and its two dispatches
      are one (receiver_dispatch_equiv); a sender survives every socket error and
      every datagram, and what it puts on the wire is a part, in order, of an
      honest session (sender_never_panics); the sink and the plain sender put the
      same datagrams on the wire (sink_agrees_with_sender, sink_is_fifo); a session
      the builder accepts is consistent (session_compatible).
    - Round trips of every wire format; the policies' and the window's
      specifications.

    ** Bounds of the theorems

    Sessions submit at most 2^16 symbols and have a window below 256: beyond these
    the wire format truncates ID deltas and the number of IDs, which
    IdStorage.v and EncVec.v show on concrete inputs.  A session may contain
    targeted packets whose cover is strictly ascending, as the encoder's own
    selections are; with another order the packet does not name what it carries
    ([Encoder.targeted_unsorted_misnames]), and with a repeated ID the decoder can
    deliver a wrong symbol ([EndToEnd.duplicate_cover_delivers_wrong_symbol]).
    The halves of a DelpSession are separate objects: that each takes the other's
    datagrams off their socket is shown on runs ([Session.sender_half_takes_source]).
    The recovery theorems ask that the decoder's matrix have room: an equation that
    is evicted at max_matrix_rows is lost ([has_room] in decoder_solves and
    cauchy_erasure_recovery, fewer losses than rows in [repairable]); and the
    Cauchy ones that the lost symbols have distinct columns, which IDs 128 apart
    (7 in GF(2^4)) have not ([CoefGen.cauchy_ids_128_apart]).  delp recv must hear
    what it needs before a silence longer than its timeout ([CliRecv.heard]).
    The network may lose but not reorder the packets of an end-to-end theorem; decoder_delivers_truth allows
    reordering except of a source packet behind a coded packet that covers it,
    because the matrix then delivers wrong symbols
    ([Decoder.late_source_delivers_wrong_symbol]).  end_to_end_complete asks that
    every coded packet cover the first symbol, because the decoder gives up what
    lies before a packet's first ID ([CliRecv.targeted_packet_gives_up]).  In the closed
    loop packets arrive in any order and any number of times, with the same
    exception for an unknown source symbol ([in_front]).
    closed_loop_repairs asks that the missing symbols have different columns
    ([separable]): for Cauchy coefficients their IDs differ modulo the cycle, which a
    window can violate ([ClosedLoop.cauchy_window_collision]); for Vandermonde they
    are consecutive ([Vandermonde.vandermonde_gap_singular] shows why); and that
    the coded IDs do not wrap meanwhile.

    ** Not modelled

    Sockets, the tokio runtime, wakers and timers (arrivals are
    arguments; those of delp recv come with the times its two timers compare); the logging calls; the text of errors
    and console output; clap's argument parser; the measured times of the
    benchmark; the instructions that read the CPU's features; the criterion benches,
    which only measure the library; the longest test of stress.rs, which is
    too long to evaluate in the kernel; lib.rs and the module roots that only
    re-export. *)

From stdpp Require Export prelude list gmap.
From Corelib Require Export ssreflect.
From Stdlib Require Export ZArith Lia.

#[export] Set SsrOldRewriteGoalsOrder.
#[export] Set Warnings "-clear-no-such-hyp,-level-tolerance".
#[global] Open Scope general_if_scope.
#[global] Open Scope Z_scope.

(** ** Outcomes of a call

    A Rust call returns ([Ok]), returns an error value ([Err]), or unwinds
    ([Panic]: a failed [assert!], an out-of-range slice or index, an [expect]
    on [None]). *)
Inductive outcome (E A : Type) : Type :=
| Ok (a : A)
| Err (e : E)
| Panic.
Arguments Ok {E A} a.
Arguments Err {E A} e.
Arguments Panic {E A}.

#[export] Instance outcome_ret {E} : MRet (outcome E) := λ _ a, Ok a.
#[export] Instance outcome_bind {E} : MBind (outcome E) := λ _ _ f m,
  match m with
  | Ok a => f a
  | Err e => Err e
  | Panic => Panic
  end.
#[export] Instance outcome_fmap {E} : FMap (outcome E) := λ _ _ f m,
  match m with
  | Ok a => Ok (f a)
  | Err e => Err e
  | Panic => Panic
  end.

#[export] Instance outcome_eq_dec {E A} `{EqDecision E, EqDecision A} :
  EqDecision (outcome E A).
Proof. solve_decision. Defined.

Definition is_ok {E A} (m : outcome E A) : bool :=
  match m with Ok _ => true | _ => false end.

(** The value of a call known to succeed. *)
Definition ok_or {E A} (dflt : A) (m : outcome E A) : A :=
  match m with Ok a => a | _ => dflt end.
Lemma ok_or_eq {E A} (dflt : A) (m : outcome E A) : is_ok m = true → m = Ok (ok_or dflt m).
Proof. by destruct m. Qed.

(** The code never unwinds. *)
Definition no_panic {E A} (m : outcome E A) : Prop := m ≠ Panic.

(** [assert!(b)] *)
Definition rassert {E} (b : bool) : outcome E unit := if b then Ok tt else Panic.

(** A [for] loop over a list whose body may fail. *)
Fixpoint mfor {E S A} (f : S → A → outcome E S) (s : S) (l : list A) : outcome E S :=
  match l with
  | [] => Ok s
  | a :: l => s ← f s a; mfor f s l
  end.

(** [collect] of an iterator whose items may fail. *)
Fixpoint mmap {E A B} (f : A → outcome E B) (l : list A) : outcome E (list B) :=
  match l with
  | [] => Ok []
  | a :: l => b ← f a; bs ← mmap f l; Ok (b :: bs)
  end.

Section outcome_laws.
Context {E : Type}.

Lemma bind_Ok {A B} (f : A → outcome E B) (a : A) : (Ok a ≫= f) = f a.
Proof. done. Qed.
Lemma bind_Ok_inv {A B} (f : A → outcome E B) m b :
  (m ≫= f) = Ok b → ∃ a, m = Ok a ∧ f a = Ok b.
Proof. destruct m; naive_solver. Qed.
Lemma bind_assoc {A B C} (f : A → outcome E B) (g : B → outcome E C) m :
  ((m ≫= f) ≫= g) = (m ≫= λ a, f a ≫= g).
Proof. by destruct m. Qed.

Lemma Ok_inj {A} (a b : A) : Ok (E := E) a = Ok b → a = b.
Proof. by intros [= ->]. Qed.
Lemma mfor_app {S A} (f : S → A → outcome E S) l1 l2 s :
  mfor f s (l1 ++ l2) = (s' ← mfor f s l1; mfor f s' l2).
Proof.
  revert s; induction l1 as [|a l1 IH]; intros s; [done|]; simpl.
  destruct (f s a); simpl; [apply IH | done | done].
Qed.

(** A loop whose body always succeeds and preserves [P] succeeds. *)
Lemma mfor_total {S A} (P : S → Prop) (f : S → A → outcome E S) l s :
  P s → (∀ s a, P s → a ∈ l → ∃ s', f s a = Ok s' ∧ P s') →
  ∃ s', mfor f s l = Ok s' ∧ P s'.
Proof.
  revert s; induction l as [|a l IH]; intros s Hs Hf; simpl; [by exists s|].
  destruct (Hf s a) as (s1 & -> & Hs1); [done|set_solver|]; simpl.
  apply IH; [done|]. intros; apply Hf; set_solver.
Qed.

Lemma mmap_length {A B} (f : A → outcome E B) l bs :
  mmap f l = Ok bs → length bs = length l.
Proof.
  revert bs; induction l as [|a l IH]; intros bs; simpl; [naive_solver|].
  intros (b & ? & (bs' & ? & [= <-])%bind_Ok_inv)%bind_Ok_inv.
  by rw /= (IH bs').
Qed.

Lemma mmap_not_err {A B} (f : A → outcome E B) l : (∀ a err, f a ≠ Err err) → ∀ err, mmap f l ≠ Err err.
Proof.
  intros Hf. induction l as [|a l IH]; intros err; cbn; [done|].
  destruct (f a) as [b|err'|] eqn:Ha; [|by destruct (Hf a err')|done]. rw bind_Ok.
  destruct (mmap f l) as [bs|err'|]; [done|by destruct (IH err')|done].
Qed.
Lemma mmap_panics {A B} (f : A → outcome E B) l a : (∀ a err, f a ≠ Err err) → a ∈ l → f a = Panic → mmap f l = Panic.
Proof.
  intros Hf Hin Ha. induction l as [|x l IH]; cbn; [by apply elem_of_nil in Hin|].
  apply elem_of_cons in Hin as [<-|Hin]; [by rw Ha|]. destruct (f x) as [b|err|] eqn:Hx; [rw bind_Ok|by destruct (Hf x err)|done].
  by rw IH.
Qed.
Lemma mmap_pure {A B} (f : A → outcome E B) (g : A → B) l :
  (∀ a, a ∈ l → f a = Ok (g a)) → mmap f l = Ok (g <$> l).
Proof.
  induction l as [|a l IH]; intros H; simpl; [done|].
  rw H; [|by left]. rw bind_Ok IH; [done|]. intros b Hb. apply H. by right.
Qed.
End outcome_laws.

(** *** While loops

    [while_runs body s r]: the loop [while let ... { ... }] started in [s] stops
    with [r]; [body s] is [None] when the condition fails.  A derivation is a
    finite run. *)
Inductive while_runs {E S} (body : S → option (outcome E S)) : S → outcome E S → Prop :=
| while_stop s : body s = None → while_runs body s (Ok s)
| while_err s e : body s = Some (Err e) → while_runs body s (Err e)
| while_panic s : body s = Some Panic → while_runs body s Panic
| while_step s s1 r : body s = Some (Ok s1) → while_runs body s1 r → while_runs body s r.

(** A loop with fuel is the loop, if the fuel bounds a measure that every
    iteration decreases. *)
Lemma while_fuel {E S} (body : S → option (outcome E S)) (loop : nat → S → outcome E S) (measure : S → nat) :
  (∀ fuel s, loop fuel s = match body s, fuel with
     | None, _ => Ok s
     | Some _, O => Panic
     | Some m, Datatypes.S fuel => s1 ← m; loop fuel s1
     end) →
  (∀ s m, body s = Some m → (0 < measure s)%nat) →
  (∀ s s1, body s = Some (Ok s1) → (measure s1 < measure s)%nat) →
  ∀ fuel s, (measure s ≤ fuel)%nat → while_runs body s (loop fuel s).
Proof.
  intros Hloop Hpos Hdec. induction fuel as [|fuel IH]; intros s Hm; rw Hloop;
    destruct (body s) as [m|] eqn:Eb; try by apply while_stop.
  - specialize (Hpos _ _ Eb). lia.
  - destruct m as [s1|e|]; [|by apply while_err|by apply while_panic].
    eapply while_step; [exact Eb|]. apply IH. specialize (Hdec _ _ Eb). lia.
Qed.

(** ** Machine words

    Integers are kept in [Z]; a cast or a wrapping operation at width [w]
    reduces modulo [2^w]. *)
Definition u8 (z : Z) : Z := z mod 256.
Definition u16 (z : Z) : Z := z mod 65536.
Definition u32 (z : Z) : Z := z mod 4294967296.
Definition u64 (z : Z) : Z := z mod 18446744073709551616.

Definition is_u8 (z : Z) : Prop := 0 ≤ z < 256.
Definition is_u16 (z : Z) : Prop := 0 ≤ z < 65536.
Definition is_u32 (z : Z) : Prop := 0 ≤ z < 4294967296.
Definition is_u64 (z : Z) : Prop := 0 ≤ z < 18446744073709551616.

#[export] Instance is_u8_dec z : Decision (is_u8 z).
Proof. unfold is_u8. apply _. Defined.
#[export] Instance is_u32_dec z : Decision (is_u32 z).
Proof. unfold is_u32. apply _. Defined.

Abbreviation bytes := (list Z).
Abbreviation bytes_ok := (Forall is_u8).

Create HintDb word.

Lemma u8_is z : is_u8 (u8 z).
Proof. unfold is_u8, u8. apply Z.mod_pos_bound. lia. Qed.
Lemma u32_is z : is_u32 (u32 z).
Proof. unfold is_u32, u32. apply Z.mod_pos_bound. lia. Qed.
Lemma u8_small z : is_u8 z → u8 z = z.
Proof. apply Z.mod_small. Qed.
Lemma u16_small z : is_u16 z → u16 z = z.
Proof. apply Z.mod_small. Qed.
Lemma u32_small z : is_u32 z → u32 z = z.
Proof. apply Z.mod_small. Qed.
Lemma u64_small z : is_u64 z → u64 z = z.
Proof. apply Z.mod_small. Qed.

#[export] Hint Resolve u8_is u32_is : word.

(** *** Bits *)
Lemma testbit_high n z i : 0 ≤ z < 2 ^ n → 0 ≤ n ≤ i → Z.testbit z i = false.
Proof.
  intros Hz Hn. rw -(Z.mod_small z (2 ^ n)); [|done].
  apply Z.mod_pow2_bits_high. lia.
Qed.

Lemma bits_bound n z : 0 ≤ n → 0 ≤ z → (∀ i, n ≤ i → Z.testbit z i = false) → z < 2 ^ n.
Proof.
  intros Hn Hz H. destruct (decide (z = 0)) as [->|Hz0]; [lia|].
  destruct (decide (z < 2 ^ n)) as [|Hge]; [done|exfalso].
  assert (n ≤ Z.log2 z) by (apply Z.log2_le_pow2; lia).
  assert (Z.testbit z (Z.log2 z) = true) as Ht by (apply Z.bit_log2; lia).
  rw H in Ht; [done|lia].
Qed.

Lemma lxor_bound n a b : 0 ≤ n → 0 ≤ a < 2 ^ n → 0 ≤ b < 2 ^ n → 0 ≤ Z.lxor a b < 2 ^ n.
Proof.
  intros Hn Ha Hb.
  assert (0 ≤ Z.lxor a b) by (apply Z.lxor_nonneg; lia).
  split; [done|]. apply bits_bound; [done..|]. intros i Hi.
  by rw Z.lxor_spec (testbit_high n a) ?(testbit_high n b).
Qed.

Lemma lor_bound n a b : 0 ≤ n → 0 ≤ a < 2 ^ n → 0 ≤ b < 2 ^ n → 0 ≤ Z.lor a b < 2 ^ n.
Proof.
  intros Hn Ha Hb.
  assert (0 ≤ Z.lor a b) by (apply Z.lor_nonneg; lia).
  split; [done|]. apply bits_bound; [done..|]. intros i Hi.
  by rw Z.lor_spec (testbit_high n a) ?(testbit_high n b).
Qed.

Lemma land_bound n a b : 0 ≤ n → 0 ≤ a → 0 ≤ b < 2 ^ n → 0 ≤ Z.land a b < 2 ^ n.
Proof.
  intros Hn Ha Hb.
  assert (0 ≤ Z.land a b) by (apply Z.land_nonneg; lia).
  split; [done|]. apply bits_bound; [done..|]. intros i Hi.
  by rw Z.land_spec (testbit_high n b) ?andb_false_r.
Qed.

Lemma lxor_u8 a b : is_u8 a → is_u8 b → is_u8 (Z.lxor a b).
Proof. apply (lxor_bound 8). lia. Qed.
Lemma lor_u8 a b : is_u8 a → is_u8 b → is_u8 (Z.lor a b).
Proof. apply (lor_bound 8). lia. Qed.
#[export] Hint Resolve lxor_u8 lor_u8 : word.

Lemma land15 z : Z.land z 15 = z mod 16.
Proof. change 15 with (Z.ones 4). by rw Z.land_ones. Qed.

(** Goals [is_u8 c] and the like on constants and arithmetic terms. *)
Ltac word_bound :=
  repeat match goal with H : is_u8 _ |- _ => unfold is_u8 in H
                    | H : is_u16 _ |- _ => unfold is_u16 in H
                    | H : is_u32 _ |- _ => unfold is_u32 in H
                    | H : is_u64 _ |- _ => unfold is_u64 in H end;
  try unfold is_u8; try unfold is_u16; try unfold is_u32; try unfold is_u64;
  lia.

(** Exclusive or is an abelian group in which every element is its inverse. *)
Lemma lxor_cancel_l a b : Z.lxor a (Z.lxor a b) = b.
Proof. by rw -Z.lxor_assoc Z.lxor_nilpotent Z.lxor_0_l. Qed.
Lemma lxor_cancel_r a b : Z.lxor (Z.lxor b a) a = b.
Proof. by rw Z.lxor_assoc Z.lxor_nilpotent Z.lxor_0_r. Qed.
Lemma lxor_swap a b c d :
  Z.lxor (Z.lxor a b) (Z.lxor c d) = Z.lxor (Z.lxor a c) (Z.lxor b d).
Proof.
  rw !Z.lxor_assoc. f_equal. rw -!Z.lxor_assoc. f_equal. apply Z.lxor_comm.
Qed.
Lemma lxor_0_iff a b : Z.lxor a b = 0 ↔ a = b.
Proof. apply Z.lxor_eq_0_iff. Qed.

Lemma lxor_0_eq a b : Z.lxor a b = 0 → a = b.
Proof. apply lxor_0_iff. Qed.

(** A statement about all values below [n] is a computation. *)
Definition all_below (n : nat) (p : Z → bool) : bool := forallb (λ i, p (Z.of_nat i)) (seq 0 n).

Lemma all_below_spec n p z : all_below n p = true → 0 ≤ z < Z.of_nat n → p z = true.
Proof.
  intros H Hz. unfold all_below in H. rw forallb_forall in H.
  specialize (H (Z.to_nat z)). rw Z2Nat.id in H; [|lia]. apply H.
  apply in_seq. lia.
Qed.

(** ** Arrays, slices *)

(** [t[i]] on an array whose length covers the index type. *)
Definition tget (t : list Z) (i : Z) : Z := nth (Z.to_nat i) t 0.

(** [&buf[a..b]], [&buf[a..]], [buf[i]] *)
Definition slice {E} (buf : bytes) (a b : nat) : outcome E bytes :=
  if (a <=? b)%nat && (b <=? length buf)%nat then Ok (take (b - a) (drop a buf)) else Panic.
Definition slice_from {E} (buf : bytes) (a : nat) : outcome E bytes :=
  if (a <=? length buf)%nat then Ok (drop a buf) else Panic.
Definition index {E A} (l : list A) (i : nat) : outcome E A :=
  match l !! i with Some a => Ok a | None => Panic end.

Lemma slice_ok {E} buf a b :
  (a ≤ b ≤ length buf)%nat → slice (E:=E) buf a b = Ok (take (b - a) (drop a buf)).
Proof.
  intros [H1 H2]. unfold slice.
  by rw (proj2 (Nat.leb_le _ _) H1) (proj2 (Nat.leb_le _ _) H2).
Qed.
Lemma slice_from_ok {E} buf a :
  (a ≤ length buf)%nat → slice_from (E:=E) buf a = Ok (drop a buf).
Proof. intros H. unfold slice_from. by rw (proj2 (Nat.leb_le _ _) H). Qed.

(** The middle part of a concatenation. *)
Lemma slice_app {E} (x y z : bytes) a b :
  a = length x → b = (a + length y)%nat → slice (E:=E) (x ++ y ++ z) a b = Ok y.
Proof.
  intros -> ->. rw slice_ok; [|rw !length_app; lia].
  f_equal. rw drop_app_length. replace (_ + _ - _)%nat with (length y) by lia.
  apply take_app_length.
Qed.
Lemma slice_from_app {E} (x y : bytes) a :
  a = length x → slice_from (E:=E) (x ++ y) a = Ok y.
Proof.
  intros ->. rw slice_from_ok; [|rw length_app; lia].
  by rw drop_app_length.
Qed.

(** [v.resize(n, 0)] is stdpp's [resize n 0 v]. *)
Lemma resize_pad n (v : bytes) :
  (length v ≤ n)%nat → resize n 0 v = v ++ replicate (n - length v) 0.
Proof. intros. rw resize_spec take_ge //. Qed.

(** *** Big-endian integers *)
Definition u32_to_be_bytes (v : Z) : bytes :=
  [u8 (Z.shiftr v 24); u8 (Z.shiftr v 16); u8 (Z.shiftr v 8); u8 v].
Definition u32_from_be_bytes (b : bytes) : Z :=
  tget b 0 * 16777216 + tget b 1 * 65536 + tget b 2 * 256 + tget b 3.

Lemma u32_be_roundtrip v : is_u32 v → u32_from_be_bytes (u32_to_be_bytes v) = v.
Proof.
  intros H. unfold u32_from_be_bytes, u32_to_be_bytes, tget. simpl.
  rw !Z.shiftr_div_pow2; [|lia..]. unfold u8.
  change (2 ^ 24) with 16777216. change (2 ^ 16) with 65536. change (2 ^ 8) with 256.
  unfold is_u32 in H.
  Z.to_euclidean_division_equations. lia.
Qed.
Lemma u32_to_be_bytes_length v : length (u32_to_be_bytes v) = 4%nat.
Proof. done. Qed.
Lemma u32_to_be_bytes_ok v : bytes_ok (u32_to_be_bytes v).
Proof. repeat constructor; apply u8_is. Qed.
#[export] Hint Resolve u32_to_be_bytes_ok : word.

(** *** Vectors of bytes under exclusive or *)
Definition vxor (a b : bytes) : bytes := zip_with Z.lxor a b.

Lemma vxor_length a b : length a = length b → length (vxor a b) = length a.
Proof. intros H. unfold vxor. rw length_zip_with. lia. Qed.
Lemma vxor_ok a b : bytes_ok a → bytes_ok b → bytes_ok (vxor a b).
Proof.
  intros Ha. revert b; induction Ha; intros [|y b] Hb; simpl; [constructor..|].
  apply Forall_cons in Hb as [? ?]. constructor; [by apply lxor_u8|by apply IHHa].
Qed.
#[export] Hint Resolve vxor_ok : word.
