(* ===== verification/Error.v ===== *)
(** * error.rs: the codec's error values *)

From S2P Require Import Prelude.
From stdpp Require Import strings.
#[global] Open Scope Z_scope.

(** [DelpError]: one constructor per variant, with the variant's fields. *)
Inductive DelpError : Type :=
| InvalidSymbolSize (n : Z)
| InvalidWindowCapacity
| InvalidFecDenom
| SymbolSizeMismatch (expected actual : Z)
| WindowFull (capacity : Z)
| SourceIdExhausted
| CodedIdExhausted (used : Z)
| UnrecoverableGapError (first_missing : Z)
| BufferTooShort (needed available : nat)
| UnsupportedVersion (v : Z)
| UnknownPacketType (v : Z)
| InvalidHeaderLength (hdr_len_words : Z) (packet_len : nat)
| EncodingVectorOverflow (ev_len_words : Z)
| MalformedEncodingVector (reason : string)
| CoefficientFieldInconsistency
| DivisionByZero.

#[export] Instance DelpError_eq_dec : EqDecision DelpError.
Proof. solve_decision. Defined.

(** [Result<T>] of a call that may also unwind. *)
Abbreviation result := (outcome DelpError).
