(* ===== verification/Config.v ===== *)
(** * config.rs: encoder and decoder configuration and their builders *)

From S2P Require Import Prelude Error.

Inductive Field : Type := Gf2_8 | Gf2_4.
Inductive MatrixStrategy : Type := Vandermonde | Cauchy.
Inductive BackpressureMode : Type := Reject | EvictOldest.

#[export] Instance Field_eq_dec : EqDecision Field.
Proof. solve_decision. Defined.
#[export] Instance MatrixStrategy_eq_dec : EqDecision MatrixStrategy.
Proof. solve_decision. Defined.

Record EncoderConfig := {
  ec_symbol_size : Z;
  ec_window_capacity : Z;
  ec_field : Field;
  ec_fec_numer : Z;
  ec_fec_denom : Z;
  ec_backpressure : BackpressureMode;
  ec_matrix_strategy : MatrixStrategy }.

(** [EncoderConfigBuilder] holds the same fields before validation. *)
Record EncoderConfigBuilder := {
  eb_symbol_size : Z;
  eb_window_capacity : Z;
  eb_field : Field;
  eb_fec_numer : Z;
  eb_fec_denom : Z;
  eb_backpressure : BackpressureMode;
  eb_matrix_strategy : MatrixStrategy }.

Module EncoderBuilder.
Definition new (symbol_size : Z) : EncoderConfigBuilder := {|
  eb_symbol_size := symbol_size;
  eb_window_capacity := 256;
  eb_field := Gf2_8;
  eb_fec_numer := 1;
  eb_fec_denom := 4;
  eb_backpressure := Reject;
  eb_matrix_strategy := Vandermonde |}.

Definition window_capacity (n : Z) (b : EncoderConfigBuilder) : EncoderConfigBuilder := {|
  eb_symbol_size := eb_symbol_size b; eb_window_capacity := n;
  eb_field := eb_field b; eb_fec_numer := eb_fec_numer b;
  eb_fec_denom := eb_fec_denom b; eb_backpressure := eb_backpressure b;
  eb_matrix_strategy := eb_matrix_strategy b |}.

Definition field (f : Field) (b : EncoderConfigBuilder) : EncoderConfigBuilder := {|
  eb_symbol_size := eb_symbol_size b; eb_window_capacity := eb_window_capacity b;
  eb_field := f; eb_fec_numer := eb_fec_numer b;
  eb_fec_denom := eb_fec_denom b; eb_backpressure := eb_backpressure b;
  eb_matrix_strategy := eb_matrix_strategy b |}.

Definition fec_rate (numer denom : Z) (b : EncoderConfigBuilder) : EncoderConfigBuilder := {|
  eb_symbol_size := eb_symbol_size b; eb_window_capacity := eb_window_capacity b;
  eb_field := eb_field b; eb_fec_numer := numer;
  eb_fec_denom := denom; eb_backpressure := eb_backpressure b;
  eb_matrix_strategy := eb_matrix_strategy b |}.

Definition backpressure (m : BackpressureMode) (b : EncoderConfigBuilder)
  : EncoderConfigBuilder := {|
  eb_symbol_size := eb_symbol_size b; eb_window_capacity := eb_window_capacity b;
  eb_field := eb_field b; eb_fec_numer := eb_fec_numer b;
  eb_fec_denom := eb_fec_denom b; eb_backpressure := m;
  eb_matrix_strategy := eb_matrix_strategy b |}.

Definition matrix_strategy (s : MatrixStrategy) (b : EncoderConfigBuilder)
  : EncoderConfigBuilder := {|
  eb_symbol_size := eb_symbol_size b; eb_window_capacity := eb_window_capacity b;
  eb_field := eb_field b; eb_fec_numer := eb_fec_numer b;
  eb_fec_denom := eb_fec_denom b; eb_backpressure := eb_backpressure b;
  eb_matrix_strategy := s |}.

(** The window a Cauchy encoder may have. *)
Definition cauchy_max (f : Field) : Z := match f with Gf2_8 => 128 | Gf2_4 => 7 end.

Definition build (b : EncoderConfigBuilder) : result EncoderConfig :=
  if (eb_symbol_size b =? 0) || (65535 <? eb_symbol_size b) then
    Err (InvalidSymbolSize (eb_symbol_size b))
  else if eb_window_capacity b =? 0 then Err InvalidWindowCapacity
  else if eb_fec_denom b =? 0 then Err InvalidFecDenom
  else if bool_decide (eb_matrix_strategy b = Cauchy)
          && (cauchy_max (eb_field b) <? eb_window_capacity b)
  then Err InvalidWindowCapacity
  else Ok {|
    ec_symbol_size := eb_symbol_size b;
    ec_window_capacity := eb_window_capacity b;
    ec_field := eb_field b;
    ec_fec_numer := eb_fec_numer b;
    ec_fec_denom := eb_fec_denom b;
    ec_backpressure := eb_backpressure b;
    ec_matrix_strategy := eb_matrix_strategy b |}.
End EncoderBuilder.

Record DecoderConfig := {
  dc_symbol_size : Z;
  dc_field : Field;
  dc_max_matrix_rows : Z;
  dc_feedback_every : Z }.

Record DecoderConfigBuilder := {
  db_symbol_size : Z;
  db_field : Field;
  db_max_matrix_rows : Z;
  db_feedback_every : Z }.

Module DecoderBuilder.
Definition new (symbol_size : Z) : DecoderConfigBuilder := {|
  db_symbol_size := symbol_size; db_field := Gf2_8;
  db_max_matrix_rows := 512; db_feedback_every := 16 |}.

Definition field (f : Field) (b : DecoderConfigBuilder) : DecoderConfigBuilder := {|
  db_symbol_size := db_symbol_size b; db_field := f;
  db_max_matrix_rows := db_max_matrix_rows b; db_feedback_every := db_feedback_every b |}.
Definition max_matrix_rows (n : Z) (b : DecoderConfigBuilder) : DecoderConfigBuilder := {|
  db_symbol_size := db_symbol_size b; db_field := db_field b;
  db_max_matrix_rows := n; db_feedback_every := db_feedback_every b |}.
Definition feedback_every (n : Z) (b : DecoderConfigBuilder) : DecoderConfigBuilder := {|
  db_symbol_size := db_symbol_size b; db_field := db_field b;
  db_max_matrix_rows := db_max_matrix_rows b; db_feedback_every := n |}.

Definition build (b : DecoderConfigBuilder) : result DecoderConfig :=
  if (db_symbol_size b =? 0) || (65535 <? db_symbol_size b) then
    Err (InvalidSymbolSize (db_symbol_size b))
  else Ok {|
    dc_symbol_size := db_symbol_size b;
    dc_field := db_field b;
    dc_max_matrix_rows := db_max_matrix_rows b;
    dc_feedback_every := db_feedback_every b |}.

(** [From<&EncoderConfig>]: a decoder compatible with an encoder. *)
Definition from_encoder (enc : EncoderConfig) : DecoderConfigBuilder :=
  field (ec_field enc) (new (ec_symbol_size enc)).
End DecoderBuilder.

(** ** What [build] promises *)

Definition encoder_config_ok (c : EncoderConfig) : Prop :=
  1 ≤ ec_symbol_size c ≤ 65535 ∧ 1 ≤ ec_window_capacity c ∧ 1 ≤ ec_fec_denom c ∧
  (ec_matrix_strategy c = Cauchy →
   ec_window_capacity c ≤ EncoderBuilder.cauchy_max (ec_field c)).

(** Fields of type [usize] are not negative. *)
Definition builder_usize (b : EncoderConfigBuilder) : Prop :=
  0 ≤ eb_symbol_size b ∧ 0 ≤ eb_window_capacity b ∧
  0 ≤ eb_fec_numer b ∧ 0 ≤ eb_fec_denom b.

Lemma build_ok b c :
  builder_usize b → EncoderBuilder.build b = Ok c →
  encoder_config_ok c ∧ ec_field c = eb_field b ∧ ec_symbol_size c = eb_symbol_size b.
Proof.
  intros (H1 & H2 & H3 & H4). unfold EncoderBuilder.build, encoder_config_ok.
  destruct (bool_decide_reflect (eb_matrix_strategy b = Cauchy)) as [Hs|Hs];
    repeat case_match; intros [= <-]; simpl; try done; split_and!; try done; lia.
Qed.

(** The configuration with the builder's fields. *)
Definition config_of (b : EncoderConfigBuilder) : EncoderConfig := {|
  ec_symbol_size := eb_symbol_size b;
  ec_window_capacity := eb_window_capacity b;
  ec_field := eb_field b;
  ec_fec_numer := eb_fec_numer b;
  ec_fec_denom := eb_fec_denom b;
  ec_backpressure := eb_backpressure b;
  ec_matrix_strategy := eb_matrix_strategy b |}.

Lemma build_valid b : builder_usize b → encoder_config_ok (config_of b) →
  EncoderBuilder.build b = Ok (config_of b).
Proof.
  intros (H1 & H2 & H3 & H4) (Hs & Hw & Hd & Hc). cbn in *. unfold EncoderBuilder.build.
  rw (proj2 (Z.eqb_neq _ _)); [|lia]. rw (proj2 (Z.ltb_ge _ _)); [|lia].
  rw !(proj2 (Z.eqb_neq _ _)); [|lia..]. cbn.
  destruct (bool_decide_reflect (eb_matrix_strategy b = Cauchy)) as [Hst|Hst]; [|done]. cbn.
  rw (proj2 (Z.ltb_ge _ _)); [done|by apply Hc].
Qed.

(** [EncoderConfigBuilder::build] accepts what passes its checks, with the fields the
    builder holds, and refuses everything else with the error of the first check
    that fails.  What the bound on a Cauchy window is worth is in Vandermonde.v. *)
Lemma encoder_build_validates b : builder_usize b →
  (∀ c, EncoderBuilder.build b = Ok c ↔ c = config_of b ∧ encoder_config_ok c) ∧
  (∀ e, EncoderBuilder.build b = Err e →
    e = if bool_decide (1 ≤ eb_symbol_size b ≤ 65535) then
          if bool_decide (eb_window_capacity b = 0) then InvalidWindowCapacity
          else if bool_decide (eb_fec_denom b = 0) then InvalidFecDenom else InvalidWindowCapacity
        else InvalidSymbolSize (eb_symbol_size b)) ∧
  EncoderBuilder.build b ≠ Panic.
Proof.
  intros Hb. split_and!.
  - intros c. split.
    + intros Hc. destruct (build_ok b c Hb Hc) as [Hok _]. split; [|done]. revert Hc.
      unfold EncoderBuilder.build. repeat case_match; by intros [= <-].
    + intros [-> Hok]. by apply build_valid.
  - destruct Hb as (H1 & _). unfold EncoderBuilder.build. intros e.
    repeat case_match; intros [= <-]; repeat case_bool_decide; try done; lia.
  - unfold EncoderBuilder.build. by repeat case_match.
Qed.
