(* ===== verification/Tables.v ===== *)
(** * gf/tables.rs: the compile-time log/exp tables

    The tables are computed by the loops of the [const] initialisers, then
    frozen as constants.  The second half states what the tables contain, in
    terms of multiplication by the generator [x] of the polynomial ring. *)

From S2P Require Import Prelude.

(** ** GF(2^4), polynomial x^4 + x + 1 *)
Definition GF2_4_ORDER : nat := 16.
Definition GF2_4_POLY : Z := 19.

(** The [while i < GF2_4_ORDER - 1] loop: [n] iterations left. *)
Fixpoint gf2_4_exp_loop (n i : nat) (x : Z) (exp : list Z) : list Z :=
  match n with
  | O => exp
  | S n =>
      let exp := <[i := x]> exp in
      let x := u8 (Z.shiftl x 1) in
      let x :=
        if negb (Z.land x 16 =? 0)
        then let x := Z.lxor x (Z.land GF2_4_POLY 15) in
             let x := Z.lxor x 16 in
             Z.land x 15
        else x in
      gf2_4_exp_loop n (S i) x exp
  end.

Definition gf2_4_exp_init : list Z :=
  <[(GF2_4_ORDER - 1)%nat := 1]>
    (gf2_4_exp_loop (GF2_4_ORDER - 1) 0 1 (replicate GF2_4_ORDER 0)).
Definition GF2_4_EXP : list Z := Eval vm_compute in gf2_4_exp_init.

(** [log[EXP[i] as usize] = i as u8] for the [n] next values of [i]. *)
Fixpoint log_loop (exp : list Z) (n i : nat) (log : list Z) : list Z :=
  match n with
  | O => log
  | S n => log_loop exp n (S i) (<[Z.to_nat (tget exp (Z.of_nat i)) := u8 (Z.of_nat i)]> log)
  end.

Definition GF2_4_LOG : list Z :=
  Eval vm_compute in log_loop GF2_4_EXP (GF2_4_ORDER - 1) 0 (replicate GF2_4_ORDER 255).

(** ** GF(2^8), polynomial x^8 + x^4 + x^3 + x^2 + 1 *)
Definition GF2_8_ORDER : nat := 256.
Definition GF2_8_POLY : Z := 285.

Fixpoint gf2_8_exp_loop (n i : nat) (x : Z) (exp : list Z) : list Z :=
  match n with
  | O => exp
  | S n =>
      let exp := <[i := u8 x]> exp in
      let x := u16 (Z.shiftl x 1) in
      let x := if negb (Z.land x 256 =? 0) then Z.lxor x GF2_8_POLY else x in
      gf2_8_exp_loop n (S i) x exp
  end.

(** The second loop mirrors the first 255 entries into the upper half. *)
Fixpoint gf2_8_mirror_loop (n j : nat) (exp : list Z) : list Z :=
  match n with
  | O => exp
  | S n => gf2_8_mirror_loop n (S j) (<[(255 + j)%nat := tget exp (Z.of_nat j)]> exp)
  end.

Definition gf2_8_exp_init : list Z :=
  let exp := gf2_8_exp_loop 255 0 1 (replicate 512 0) in
  let exp := gf2_8_mirror_loop 255 0 exp in
  <[510%nat := tget exp 0]> exp.
Definition GF2_8_EXP : list Z := Eval vm_compute in gf2_8_exp_init.

Definition GF2_8_LOG : list Z :=
  Eval vm_compute in log_loop GF2_8_EXP 255 0 (replicate GF2_8_ORDER 255).

(** ** What the tables contain

    Bits of an integer below [2^n] are the coefficients of a polynomial of
    degree below [n] over GF(2); [xtime] multiplies by [x] modulo [poly] and
    [pmul] is the schoolbook product. *)
Section polynomial.
Context (n poly : Z).

Definition xtime (a : Z) : Z :=
  let y := Z.shiftl a 1 in if Z.testbit y n then Z.lxor y poly else y.

Definition xpow (k : nat) (a : Z) : Z := Nat.iter k xtime a.

Fixpoint pmul_upto (k : nat) (a b : Z) : Z :=
  match k with
  | O => 0
  | S k => Z.lxor (pmul_upto k a b) (if Z.testbit a (Z.of_nat k) then xpow k b else 0)
  end.
Definition pmul (a b : Z) : Z := pmul_upto (Z.to_nat n) a b.

Lemma xtime_lxor a b : xtime (Z.lxor a b) = Z.lxor (xtime a) (xtime b).
Proof.
  unfold xtime. rw Z.shiftl_lxor Z.lxor_spec.
  destruct (Z.testbit (Z.shiftl a 1) n), (Z.testbit (Z.shiftl b 1) n); simpl.
  - rw lxor_swap Z.lxor_nilpotent. by rw Z.lxor_0_r.
  - by rw !Z.lxor_assoc (Z.lxor_comm poly).
  - by rw Z.lxor_assoc.
  - done.
Qed.
Lemma xtime_0 : xtime 0 = 0.
Proof. unfold xtime. by rw Z.shiftl_0_l Z.testbit_0_l. Qed.

Lemma xpow_lxor k a b : xpow k (Z.lxor a b) = Z.lxor (xpow k a) (xpow k b).
Proof. induction k as [|k IH]; simpl; [done|]. by rw -xtime_lxor -IH. Qed.
Lemma xpow_0 k : xpow k 0 = 0.
Proof. induction k as [|k IH]; simpl; [done|]. by rw /xpow /= -/(xpow k 0) IH xtime_0. Qed.
Lemma xpow_add j k a : xpow (j + k) a = xpow j (xpow k a).
Proof. unfold xpow. apply Nat.iter_add. Qed.

Lemma pmul_lxor_r a b c : pmul a (Z.lxor b c) = Z.lxor (pmul a b) (pmul a c).
Proof.
  unfold pmul. induction (Z.to_nat n) as [|k IH]; simpl; [done|].
  rw IH lxor_swap. f_equal.
  destruct (Z.testbit a (Z.of_nat k)); [apply xpow_lxor|done].
Qed.
Lemma pmul_lxor_l a b c : pmul (Z.lxor a b) c = Z.lxor (pmul a c) (pmul b c).
Proof.
  unfold pmul. induction (Z.to_nat n) as [|k IH]; simpl; [done|].
  rw IH lxor_swap Z.lxor_spec. f_equal.
  destruct (Z.testbit a _), (Z.testbit b _); simpl;
    by rw ?Z.lxor_nilpotent ?Z.lxor_0_r ?Z.lxor_0_l.
Qed.
End polynomial.

(** A function that is additive for exclusive or is determined by its values
    on the powers of two. *)
Lemma additive_zero (k : nat) (f : Z → Z) :
  (∀ a b, f (Z.lxor a b) = Z.lxor (f a) (f b)) →
  (∀ i, (i < k)%nat → f (2 ^ Z.of_nat i) = 0) →
  ∀ a, 0 ≤ a < 2 ^ Z.of_nat k → f a = 0.
Proof.
  intros Hadd. assert (f 0 = 0) as H0.
  { specialize (Hadd 0 0). by rw !Z.lxor_nilpotent in Hadd. }
  induction k as [|k IH]; intros Hb a Ha.
  { assert (a = 0) as -> by (simpl in Ha; lia). done. }
  assert (∀ a, 0 ≤ a < 2 ^ Z.of_nat k → f a = 0) as IH'.
  { apply IH. intros i Hi. apply Hb. lia. }
  destruct (decide (a < 2 ^ Z.of_nat k)) as [?|Hge]; [apply IH'; lia|].
  rw Nat2Z.inj_succ Z.pow_succ_r in Ha; [|lia].
  rw -(lxor_cancel_r (2 ^ Z.of_nat k) a) Hadd (Hb k); [|lia]. rw Z.lxor_0_r.
  apply IH'.
  assert (0 ≤ Z.lxor a (2 ^ Z.of_nat k)) by (apply Z.lxor_nonneg; lia).
  split; [done|]. apply bits_bound; [lia|done|]. intros i Hi.
  rw Z.lxor_spec Z.pow2_bits_eqb; [|lia].
  destruct (Z.eqb_spec (Z.of_nat k) i) as [<-|Hne].
  - assert (Z.testbit a (Z.of_nat k) = true) as ->; [|done].
    apply Z.testbit_true; [lia|].
    replace (a / 2 ^ Z.of_nat k) with 1; [done|].
    apply Z.div_unique with (a - 2 ^ Z.of_nat k); lia.
  - rw xorb_false_r. apply (testbit_high (Z.of_nat (S k))); [|lia].
    rw Nat2Z.inj_succ Z.pow_succ_r; lia.
Qed.

(** ** Multiplication by logarithms

    The facts about the tables that make table multiplication the product of
    the polynomial ring: they are finite computations. *)
Section logarithms.
Context (n poly q : Z) (log : list Z).
Local Abbreviation xp k := (xpow n poly k 1).

(** [x] generates the multiplicative group, whose order is [q]. *)
Class LogTable : Prop := {
  lt_n : 0 < n;
  lt_q : 0 < q;
  lt_log : ∀ a, 0 < a < 2 ^ n → 0 ≤ tget log a < q ∧ xp (Z.to_nat (tget log a)) = a;
  lt_period : xp (Z.to_nat q) = 1;
  lt_range : ∀ k, (k < Z.to_nat q)%nat → 0 < xp k < 2 ^ n;
  lt_basis : ∀ i j, (i < Z.to_nat n)%nat → (j < Z.to_nat n)%nat →
    pmul n poly (xtime n poly (2 ^ Z.of_nat i)) (2 ^ Z.of_nat j)
    = xtime n poly (pmul n poly (2 ^ Z.of_nat i) (2 ^ Z.of_nat j));
  lt_one : ∀ j, (j < Z.to_nat n)%nat → pmul n poly 1 (2 ^ Z.of_nat j) = 2 ^ Z.of_nat j }.

Context `{LogTable}.
Local Abbreviation is_el a := (0 ≤ a < 2 ^ n).

Lemma is_el_pow a : is_el a → 0 ≤ a < 2 ^ Z.of_nat (Z.to_nat n).
Proof. pose proof lt_n. rw Z2Nat.id; lia. Qed.

Lemma pmul_1_l b : is_el b → pmul n poly 1 b = b.
Proof.
  intros Hb%is_el_pow. apply lxor_0_iff.
  apply (additive_zero (Z.to_nat n) (λ b, Z.lxor (pmul n poly 1 b) b)); [| |done].
  - intros a b'. rw pmul_lxor_r. apply lxor_swap.
  - intros i Hi. rw lt_one; [|done]. apply Z.lxor_nilpotent.
Qed.

Lemma pmul_xtime_l a b : is_el a → is_el b →
  pmul n poly (xtime n poly a) b = xtime n poly (pmul n poly a b).
Proof.
  intros Ha%is_el_pow Hb%is_el_pow. apply lxor_0_iff. revert a Ha.
  refine (additive_zero _ (λ a, Z.lxor _ _) _ _).
  { intros a a'. rw xtime_lxor !pmul_lxor_l xtime_lxor. apply lxor_swap. }
  intros i Hi. revert b Hb. refine (additive_zero _ (λ b, Z.lxor _ _) _ _).
  { intros b b'. rw !pmul_lxor_r xtime_lxor. apply lxor_swap. }
  intros j Hj. rw lt_basis; [|done..]. apply Z.lxor_nilpotent.
Qed.

Lemma xp_mod k : xp k = xp (k mod Z.to_nat q)%nat.
Proof.
  rw {1}(Nat.div_mod_eq k (Z.to_nat q)) Nat.add_comm xpow_add. f_equal.
  induction (k / Z.to_nat q)%nat as [|m IH]; [by rw Nat.mul_0_r|].
  by rw Nat.mul_succ_r xpow_add lt_period IH.
Qed.

Lemma xp_range k : 0 < xp k < 2 ^ n.
Proof.
  pose proof lt_q. rw xp_mod. apply lt_range. apply Nat.mod_upper_bound. lia.
Qed.

Lemma xp_mul k b : is_el b → pmul n poly (xp k) b = xpow n poly k b.
Proof.
  intros Hb. induction k as [|k IH]; [by apply pmul_1_l|].
  change (xp (S k)) with (xtime n poly (xp k)).
  pose proof (xp_range k). by rw pmul_xtime_l; [|lia|done]; rw IH.
Qed.

(** A nonzero element is a power of [x]; the product adds exponents. *)
Definition lg (a : Z) : nat := Z.to_nat (tget log a).

Lemma xp_lg a : 0 < a < 2 ^ n → xp (lg a) = a.
Proof. intros Ha. by destruct (lt_log a Ha). Qed.

Lemma pmul_log a b : 0 < a < 2 ^ n → 0 < b < 2 ^ n → pmul n poly a b = xp (lg a + lg b).
Proof.
  intros Ha Hb. rw -{1}(xp_lg a Ha) xp_mul; [|lia]. by rw xpow_add (xp_lg b Hb).
Qed.

Lemma pmul_0_l b : pmul n poly 0 b = 0.
Proof.
  unfold pmul. induction (Z.to_nat n) as [|k IH]; simpl; [done|].
  by rw IH Z.testbit_0_l.
Qed.
Lemma pmul_0_r a : pmul n poly a 0 = 0.
Proof.
  unfold pmul. induction (Z.to_nat n) as [|k IH]; simpl; [done|].
  rw IH xpow_0. by destruct (Z.testbit _ _).
Qed.

Lemma pmul_nonzero a b : 0 < a < 2 ^ n → 0 < b < 2 ^ n → 0 < pmul n poly a b < 2 ^ n.
Proof. intros Ha Hb. rw pmul_log; [|done..]. apply xp_range. Qed.
Lemma pmul_range a b : is_el a → is_el b → is_el (pmul n poly a b).
Proof.
  intros Ha Hb. destruct (decide (a = 0)) as [->|]; [rw pmul_0_l; lia|].
  destruct (decide (b = 0)) as [->|]; [rw pmul_0_r; lia|].
  pose proof (pmul_nonzero a b). lia.
Qed.
Lemma pmul_comm a b : is_el a → is_el b → pmul n poly a b = pmul n poly b a.
Proof.
  intros Ha Hb. destruct (decide (a = 0)) as [->|]; [by rw pmul_0_l pmul_0_r|].
  destruct (decide (b = 0)) as [->|]; [by rw pmul_0_l pmul_0_r|].
  rw !pmul_log; [|lia..]. by rw Nat.add_comm.
Qed.
Lemma pmul_assoc a b c : is_el a → is_el b → is_el c →
  pmul n poly (pmul n poly a b) c = pmul n poly a (pmul n poly b c).
Proof.
  intros Ha Hb Hc. destruct (decide (a = 0)) as [->|]; [by rw !pmul_0_l|].
  destruct (decide (b = 0)) as [->|]; [by rw pmul_0_r !pmul_0_l pmul_0_r|].
  rw (pmul_log a b); [|lia..]. rw xp_mul; [|done]. rw xpow_add.
  rw -(xp_mul _ c); [|done]. rw (xp_lg b); [|lia].
  rw -xp_mul; [|by apply pmul_range]. by rw (xp_lg a); [|lia].
Qed.

(** The inverse of [x^k] is [x^(q-k)]. *)
Lemma pmul_inv a : 0 < a < 2 ^ n → pmul n poly a (xp (Z.to_nat q - lg a)) = 1.
Proof.
  intros Ha. pose proof (xp_range (Z.to_nat q - lg a)).
  rw -{1}(xp_lg a Ha) xp_mul; [|lia]. rw -xpow_add.
  destruct (lt_log a Ha) as [? _]. unfold lg.
  replace (_ + _)%nat with (Z.to_nat q) by lia. apply lt_period.
Qed.
End logarithms.

(** The two tables: by computation. *)
Definition log_table_check (n poly q : Z) (log : list Z) : bool :=
  let xps := (λ k, xpow n poly k 1) <$> seq 0 (Z.to_nat q) in
  all_below (Z.to_nat (2 ^ n)) (λ a, (a =? 0) ||
    ((0 <=? tget log a) && (tget log a <? q) && (tget xps (tget log a) =? a)))
  && (xpow n poly (Z.to_nat q) 1 =? 1)
  && forallb (λ x, (0 <? x) && (x <? 2 ^ n)) xps
  && forallb (λ i, forallb (λ j,
       pmul n poly (xtime n poly (2 ^ Z.of_nat i)) (2 ^ Z.of_nat j)
       =? xtime n poly (pmul n poly (2 ^ Z.of_nat i) (2 ^ Z.of_nat j)))
       (seq 0 (Z.to_nat n))) (seq 0 (Z.to_nat n))
  && forallb (λ j, pmul n poly 1 (2 ^ Z.of_nat j) =? 2 ^ Z.of_nat j) (seq 0 (Z.to_nat n)).

Lemma tget_map_seq (f : nat → Z) m k :
  (k < m)%nat → tget (f <$> seq 0 m) (Z.of_nat k) = f k.
Proof.
  intros Hk. unfold tget. rw Nat2Z.id.
  by rw nth_lookup list_lookup_fmap lookup_seq_lt.
Qed.

Lemma log_table_sound n poly q log :
  0 < n → 0 < q → log_table_check n poly q log = true → LogTable n poly q log.
Proof.
  intros Hn Hq H. unfold log_table_check in H.
  rw !andb_true_iff in H. destruct H as [[[[Hlog Hper] Hrange] Hbasis] Hone].
  assert (∀ k, (k < Z.to_nat q)%nat →
    tget ((λ k, xpow n poly k 1) <$> seq 0 (Z.to_nat q)) (Z.of_nat k) = xpow n poly k 1)
    as Hxp by (intros k Hk; by rw (tget_map_seq (λ k, xpow n poly k 1))).
  split; [done|done| | | | |].
  - intros a Ha. apply (all_below_spec _ _ a) in Hlog; [|lia].
    cbv beta in Hlog. destruct (Z.eqb_spec a 0); [lia|]. rw orb_false_l !andb_true_iff in Hlog.
    destruct Hlog as [[H1 H2] H3%Z.eqb_eq]. split; [lia|].
    rw -{2}H3 -Hxp; [|lia]. by rw Z2Nat.id; [|lia].
  - by apply Z.eqb_eq in Hper.
  - intros k Hk. rw forallb_forall in Hrange.
    specialize (Hrange (xpow n poly k 1)). rw andb_true_iff in Hrange.
    rw Z.ltb_lt in Hrange. rw Z.ltb_lt in Hrange. apply Hrange.
    apply list_elem_of_In, list_elem_of_fmap. exists k. split; [done|].
    apply elem_of_seq. lia.
  - intros i j Hi Hj. rw forallb_forall in Hbasis. specialize (Hbasis i).
    rw forallb_forall in Hbasis. apply Z.eqb_eq, Hbasis; apply in_seq; lia.
  - intros j Hj. rw forallb_forall in Hone. apply Z.eqb_eq, Hone, in_seq. lia.
Qed.

#[export] Instance gf2_8_table : LogTable 8 GF2_8_POLY 255 GF2_8_LOG.
Proof. apply log_table_sound; [lia..|]. vm_compute. done. Qed.
#[export] Instance gf2_4_table : LogTable 4 GF2_4_POLY 15 GF2_4_LOG.
Proof. apply log_table_sound; [lia..|]. vm_compute. done. Qed.

(** [EXP] holds the powers of [x]: 510 entries for GF(2^8), so that the sum of
    two logarithms is an index without reduction, and 15 for GF(2^4). *)
Definition exp_table_check (n poly : Z) (m : nat) (exp : list Z) : bool :=
  forallb (λ k, tget exp (Z.of_nat k) =? xpow n poly k 1) (seq 0 m).

Lemma exp_table_sound n poly m exp k :
  exp_table_check n poly m exp = true → (k < m)%nat →
  tget exp (Z.of_nat k) = xpow n poly k 1.
Proof.
  intros H Hk. unfold exp_table_check in H. rw forallb_forall in H.
  apply Z.eqb_eq, H, in_seq. lia.
Qed.

Lemma gf2_8_exp k : (k < 511)%nat → tget GF2_8_EXP (Z.of_nat k) = xpow 8 GF2_8_POLY k 1.
Proof. apply exp_table_sound. by vm_compute. Qed.
Lemma gf2_4_exp k : (k < 16)%nat → tget GF2_4_EXP (Z.of_nat k) = xpow 4 GF2_4_POLY k 1.
Proof. apply exp_table_sound. by vm_compute. Qed.
