(* ===== verification/Gf.v ===== *)
(** * gf/mod.rs, gf/gf2_8.rs, gf/gf2_4.rs: the two Galois fields

    The [Field] trait is the class [GfField]; its provided methods are
    definitions over the class and [Gf2_8], [Gf2_4] are its two instances.
    [GfLaws] is what the rest of the codec relies on. *)

From S2P Require Import Prelude Error Config Tables.

(** ** The trait *)
Class GfField := {
  ORDER : Z;
  COEF_BITS : Z;
  ZERO : Z;
  ONE : Z;
  gf_add : Z → Z → Z;
  gf_mul : Z → Z → Z;
  gf_inv : Z → result Z;
  alpha_pow : Z → Z;
  from_u8 : Z → Z;
  to_u8 : Z → Z }.

Section provided.
Context `{GfField}.
Definition gf_sub (a b : Z) : Z := gf_add a b.
Definition gf_div (a b : Z) : result Z := i ← gf_inv b; Ok (gf_mul a i).
Definition vandermonde (src_id coded_id : Z) : Z :=
  let modulus := u64 (ORDER - 1) in
  let exp := u64 (src_id * coded_id) mod modulus in
  alpha_pow (u32 exp).
End provided.

(** ** GF(2^8) *)
Definition gf2_8_mul_raw (a b : Z) : Z :=
  if (a =? 0) || (b =? 0) then 0
  else tget GF2_8_EXP (tget GF2_8_LOG a + tget GF2_8_LOG b).

Definition gf2_8_inv (a : Z) : result Z :=
  _ ← rassert (negb (a =? 0));
  let log_a := tget GF2_8_LOG a in
  Ok (tget GF2_8_EXP (255 - log_a)).

Definition gf2_8_alpha_pow (exp : Z) : Z := tget GF2_8_EXP (exp mod 255).

Definition Gf2_8_field : GfField := {|
  ORDER := Z.of_nat GF2_8_ORDER; COEF_BITS := 8; ZERO := 0; ONE := 1;
  gf_add := Z.lxor;
  gf_mul := gf2_8_mul_raw;
  gf_inv := gf2_8_inv;
  alpha_pow := gf2_8_alpha_pow;
  from_u8 := λ v, v;
  to_u8 := λ v, v |}.

(** ** GF(2^4) *)
Definition gf2_4_mul_raw (a b : Z) : Z :=
  if (a =? 0) || (b =? 0) then 0
  else let sum := tget GF2_4_LOG a + tget GF2_4_LOG b in
       tget GF2_4_EXP (sum mod (Z.of_nat GF2_4_ORDER - 1)).

Definition gf2_4_inv (a : Z) : result Z :=
  _ ← rassert (negb (a =? 0));
  let log_a := tget GF2_4_LOG a in
  Ok (tget GF2_4_EXP ((Z.of_nat GF2_4_ORDER - 1 - log_a) mod (Z.of_nat GF2_4_ORDER - 1))).

Definition gf2_4_alpha_pow (exp : Z) : Z :=
  tget GF2_4_EXP (exp mod (Z.of_nat GF2_4_ORDER - 1)).

Definition Gf2_4_field : GfField := {|
  ORDER := Z.of_nat GF2_4_ORDER; COEF_BITS := 4; ZERO := 0; ONE := 1;
  gf_add := Z.lxor;
  gf_mul := gf2_4_mul_raw;
  gf_inv := gf2_4_inv;
  alpha_pow := gf2_4_alpha_pow;
  from_u8 := λ v, Z.land v 15;
  to_u8 := λ v, v |}.

(** [Gf2_4::new] keeps the low nibble. *)
Definition Gf2_4_new (v : Z) : Z := Z.land v 15.

Definition mul_packed_byte (byte coef : Z) : Z :=
  let hi_in := Z.land (Z.shiftr byte 4) 15 in
  let lo_in := Z.land byte 15 in
  let c_hi := Z.land (Z.shiftr coef 4) 15 in
  let c_lo := Z.land coef 15 in
  let hi_out := gf2_4_mul_raw hi_in c_hi in
  let lo_out := gf2_4_mul_raw lo_in c_lo in
  Z.lor (u8 (Z.shiftl hi_out 4)) lo_out.

Definition mul_acc_byte (dst src coef : Z) : Z := Z.lxor dst (mul_packed_byte src coef).

(** The field selected by a configuration. *)
Definition gf_field (f : Field) : GfField :=
  match f with Gf2_8 => Gf2_8_field | Gf2_4 => Gf2_4_field end.

(** ** Laws *)
Section laws.
Context (K : GfField).
Definition elem (a : Z) : Prop := 0 ≤ a < ORDER.

Class GfLaws : Prop := {
  gf_order : ORDER = 16 ∨ ORDER = 256;
  gf_zero_one : ZERO = 0 ∧ ONE = 1;
  gf_add_spec a b : gf_add a b = Z.lxor a b;
  gf_mul_elem a b : elem a → elem b → elem (gf_mul a b);
  gf_mul_comm a b : elem a → elem b → gf_mul a b = gf_mul b a;
  gf_mul_assoc a b c : elem a → elem b → elem c →
    gf_mul (gf_mul a b) c = gf_mul a (gf_mul b c);
  gf_mul_1_l a : elem a → gf_mul ONE a = a;
  gf_mul_add_r a b c : elem a → elem b → elem c →
    gf_mul a (gf_add b c) = gf_add (gf_mul a b) (gf_mul a c);
  gf_inv_spec a : elem a → a ≠ 0 →
    ∃ b, gf_inv a = Ok b ∧ elem b ∧ b ≠ 0 ∧ gf_mul a b = ONE;
  gf_inv_0 : gf_inv 0 = Panic;
  gf_alpha_elem e : 0 ≤ e → elem (alpha_pow e) ∧ alpha_pow e ≠ 0;
  gf_alpha_add i j : 0 ≤ i → 0 ≤ j →
    gf_mul (alpha_pow i) (alpha_pow j) = alpha_pow (i + j);
  gf_alpha_0 : alpha_pow 0 = ONE }.
End laws.
Arguments elem {K} a.

Section table_field.
(** Both fields multiply through a log table that satisfies [LogTable]. *)
Context (n poly q : Z) (log : list Z) `{!LogTable n poly q log}.
Context (K : GfField).
Hypothesis Hn : ORDER = 2 ^ n ∧ (n = 4 ∨ n = 8) ∧ q = 2 ^ n - 1.
Hypothesis H01 : ZERO = 0 ∧ ONE = 1.
Hypothesis Hadd : ∀ a b, gf_add a b = Z.lxor a b.
Hypothesis Hmul : ∀ a b, elem a → elem b → gf_mul a b = pmul n poly a b.
Hypothesis Hinv : ∀ a, elem a → a ≠ 0 →
  gf_inv a = Ok (xpow n poly (Z.to_nat q - lg log a) 1).
Hypothesis Hinv0 : gf_inv 0 = Panic.
Hypothesis Hpow : ∀ e, 0 ≤ e → alpha_pow e = xpow n poly (Z.to_nat e) 1.

Lemma table_field_laws : GfLaws K.
Proof.
  destruct Hn as (Ho & Hn48 & Hq), H01 as [H0 H1].
  assert (elem 1) as He1 by (unfold elem; rw Ho; destruct Hn48 as [-> | ->]; lia).
  assert (∀ a b, elem a → elem b → elem (Z.lxor a b)) as Hx.
  { unfold elem. rw Ho. intros. apply lxor_bound; lia. }
  assert (∀ k, elem (xpow n poly k 1) ∧ xpow n poly k 1 ≠ 0) as Hxp.
  { intros k. unfold elem. rw Ho. pose proof (xp_range n poly q log k). lia. }
  assert (∀ a, elem a ↔ 0 ≤ a < 2 ^ n) as Hel by (intros; unfold elem; by rw Ho).
  split.
  - rw Ho. destruct Hn48 as [-> | ->]; [by left|by right].
  - done.
  - done.
  - intros a b Ha Hb. rw Hmul; [|done..]. apply Hel in Ha, Hb. apply Hel.
    by apply (pmul_range n poly q log).
  - intros a b Ha Hb. rw !Hmul; [|done..]. apply Hel in Ha, Hb. by apply (pmul_comm n poly q log).
  - intros a b c Ha Hb Hc. rw (Hmul a b); [|done..]. rw (Hmul b c); [|done..].
    assert (elem (pmul n poly a b)) by (apply Hel in Ha, Hb; apply Hel; by apply (pmul_range n poly q log)).
    assert (elem (pmul n poly b c)) by (apply Hel in Hb, Hc; apply Hel; by apply (pmul_range n poly q log)).
    rw !Hmul; [|done..]. apply Hel in Ha, Hb, Hc. by apply (pmul_assoc n poly q log).
  - intros a Ha. rw H1 Hmul; [|done..]. apply Hel in Ha. by apply (pmul_1_l n poly q log).
  - intros a b c Ha Hb Hc. rw !Hadd !Hmul; [|by auto..]. apply pmul_lxor_r.
  - intros a Ha Ha0. eexists. split; [by apply Hinv|].
    destruct (Hxp (Z.to_nat q - lg log a)%nat) as [He Hne].
    split_and!; [by apply He..|done|]. rw H1 Hmul; [|done..].
    apply Hel in Ha. apply (pmul_inv n poly q log). lia.
  - done.
  - intros e He. rw Hpow; [|done]. apply Hxp.
  - intros i j Hi Hj. rw !Hpow; [|lia..]. rw Hmul; [|by apply Hxp..].
    rw Z2Nat.inj_add; [|done..]. rw xpow_add. apply (xp_mul n poly q log).
    apply Hel, Hxp.
  - rw Hpow; [|lia]. by rw H1.
Qed.
End table_field.

Lemma gf2_8_mul_pmul a b : is_u8 a → is_u8 b → gf2_8_mul_raw a b = pmul 8 GF2_8_POLY a b.
Proof.
  intros Ha Hb. unfold gf2_8_mul_raw.
  destruct (Z.eqb_spec a 0) as [->|Ha0]; [by rw pmul_0_l|].
  destruct (Z.eqb_spec b 0) as [->|Hb0]; [by rw pmul_0_r|].
  unfold is_u8 in *.
  rw (pmul_log 8 GF2_8_POLY 255 GF2_8_LOG); [|lia..].
  destruct (lt_log 8 GF2_8_POLY 255 GF2_8_LOG a) as [? _]; [lia|].
  destruct (lt_log 8 GF2_8_POLY 255 GF2_8_LOG b) as [? _]; [lia|].
  rw -gf2_8_exp; [|unfold lg; lia]. unfold lg. f_equal. simpl. lia.
Qed.

Lemma gf2_4_mul_pmul a b :
  0 ≤ a < 16 → 0 ≤ b < 16 → gf2_4_mul_raw a b = pmul 4 GF2_4_POLY a b.
Proof.
  intros Ha Hb. unfold gf2_4_mul_raw.
  destruct (Z.eqb_spec a 0) as [->|Ha0]; [by rw pmul_0_l|].
  destruct (Z.eqb_spec b 0) as [->|Hb0]; [by rw pmul_0_r|].
  rw (pmul_log 4 GF2_4_POLY 15 GF2_4_LOG); [|lia..].
  destruct (lt_log 4 GF2_4_POLY 15 GF2_4_LOG a) as [? _]; [lia|].
  destruct (lt_log 4 GF2_4_POLY 15 GF2_4_LOG b) as [? _]; [lia|].
  rw (xp_mod 4 GF2_4_POLY 15 GF2_4_LOG).
  pose proof (Nat.mod_upper_bound (lg GF2_4_LOG a + lg GF2_4_LOG b) (Z.to_nat 15)).
  change (Z.to_nat 15) with 15%nat in *.
  rw -gf2_4_exp; [|lia].
  unfold lg. simpl orb. cbv iota zeta. f_equal.
  change (Z.of_nat GF2_4_ORDER - 1) with (Z.of_nat 15).
  rw Nat2Z.inj_mod Nat2Z.inj_add !Z2Nat.id; lia.
Qed.

#[export] Instance gf2_8_laws : GfLaws Gf2_8_field.
Proof.
  apply (table_field_laws 8 GF2_8_POLY 255 GF2_8_LOG).
  - split_and!; [done|by right|done].
  - done.
  - done.
  - intros a b Ha Hb. by apply gf2_8_mul_pmul.
  - intros a Ha Ha0. change (0 ≤ a < 256) in Ha.
    change (@gf_inv Gf2_8_field a) with (gf2_8_inv a). unfold gf2_8_inv.
    rw (proj2 (Z.eqb_neq a 0) Ha0). cbn [negb rassert]. rw bind_Ok. f_equal.
    destruct (lt_log 8 GF2_8_POLY 255 GF2_8_LOG a) as [? _]; [lia|].
    rw -gf2_8_exp; [|unfold lg; lia]. f_equal. unfold lg. lia.
  - done.
  - intros e He. change (@alpha_pow Gf2_8_field e) with (gf2_8_alpha_pow e).
    unfold gf2_8_alpha_pow.
    pose proof (Z.mod_pos_bound e 255).
    rw (xp_mod 8 GF2_8_POLY 255 GF2_8_LOG). rw -gf2_8_exp.
    + f_equal. change (Z.to_nat 255) with 255%nat. rw Nat2Z.inj_mod Z2Nat.id; lia.
    + pose proof (Nat.mod_upper_bound (Z.to_nat e) 255).
      change (Z.to_nat 255) with 255%nat. lia.
Qed.

#[export] Instance gf2_4_laws : GfLaws Gf2_4_field.
Proof.
  apply (table_field_laws 4 GF2_4_POLY 15 GF2_4_LOG).
  - split_and!; [done|by left|done].
  - done.
  - done.
  - intros a b Ha Hb. by apply gf2_4_mul_pmul.
  - intros a Ha Ha0. change (0 ≤ a < 16) in Ha.
    change (@gf_inv Gf2_4_field a) with (gf2_4_inv a). unfold gf2_4_inv.
    rw (proj2 (Z.eqb_neq a 0) Ha0). cbn [negb rassert]. rw bind_Ok. f_equal.
    destruct (lt_log 4 GF2_4_POLY 15 GF2_4_LOG a) as [? _]; [lia|].
    rw (xp_mod 4 GF2_4_POLY 15 GF2_4_LOG).
    pose proof (Nat.mod_upper_bound (15 - lg GF2_4_LOG a) 15).
    change (Z.to_nat 15) with 15%nat.
    rw -gf2_4_exp; [|lia].
    f_equal. change (Z.of_nat GF2_4_ORDER - 1) with (Z.of_nat 15).
    unfold lg. rw Nat2Z.inj_mod. f_equal. lia.
  - done.
  - intros e He. change (@alpha_pow Gf2_4_field e) with (gf2_4_alpha_pow e).
    unfold gf2_4_alpha_pow.
    rw (xp_mod 4 GF2_4_POLY 15 GF2_4_LOG). rw -gf2_4_exp.
    + f_equal. change (Z.to_nat 15) with 15%nat. rw Nat2Z.inj_mod Z2Nat.id; [done|lia].
    + pose proof (Nat.mod_upper_bound (Z.to_nat e) 15).
      change (Z.to_nat 15) with 15%nat. lia.
Qed.

#[export] Instance gf_field_laws f : GfLaws (gf_field f).
Proof. destruct f; apply _. Qed.

(** ** Consequences of the laws, shared by the codec *)
Section derived.
Context (K : GfField) `{!GfLaws K}.

Lemma elem_0 : elem 0.
Proof. unfold elem. destruct (gf_order K) as [-> | ->]; lia. Qed.
Lemma elem_1 : elem 1.
Proof. unfold elem. destruct (gf_order K) as [-> | ->]; lia. Qed.
Lemma elem_u8 a : elem a → is_u8 a.
Proof. unfold elem, is_u8. destruct (gf_order K) as [-> | ->]; lia. Qed.
Lemma elem_lxor a b : elem a → elem b → elem (Z.lxor a b).
Proof.
  unfold elem. destruct (gf_order K) as [-> | ->].
  - apply (lxor_bound 4). lia.
  - apply (lxor_bound 8). lia.
Qed.
Lemma gf_mul_lxor_r a b c : elem a → elem b → elem c →
  gf_mul a (Z.lxor b c) = Z.lxor (gf_mul a b) (gf_mul a c).
Proof. intros. rw -(gf_add_spec K b c) gf_mul_add_r; [|done..]. apply gf_add_spec, _. Qed.
Lemma gf_mul_lxor_l a b c : elem a → elem b → elem c →
  gf_mul (Z.lxor a b) c = Z.lxor (gf_mul a c) (gf_mul b c).
Proof.
  intros. rw (gf_mul_comm K _ c); [|by auto using elem_lxor..].
  rw gf_mul_lxor_r; [|done..]. f_equal; by apply gf_mul_comm.
Qed.
Lemma gf_mul_0_r a : elem a → gf_mul a 0 = 0.
Proof.
  intros Ha. pose proof (gf_mul_lxor_r a 0 0 Ha elem_0 elem_0) as H.
  by rw !Z.lxor_nilpotent in H.
Qed.
Lemma gf_mul_0_l a : elem a → gf_mul 0 a = 0.
Proof. intros Ha. rw (gf_mul_comm K 0 a elem_0 Ha). by apply gf_mul_0_r. Qed.
Lemma gf_mul_1 a : elem a → gf_mul 1 a = a.
Proof. intros Ha. destruct (gf_zero_one K) as [_ <-]. by apply gf_mul_1_l. Qed.
Lemma gf_mul_1_r a : elem a → gf_mul a 1 = a.
Proof. intros Ha. rw (gf_mul_comm K a 1 Ha elem_1). by apply gf_mul_1. Qed.

Lemma gf_inv_ex a : elem a → a ≠ 0 →
  ∃ b, gf_inv a = Ok b ∧ elem b ∧ b ≠ 0 ∧ gf_mul a b = 1 ∧ gf_mul b a = 1.
Proof.
  intros Ha Ha0. destruct (gf_inv_spec K a Ha Ha0) as (b & ? & ? & ? & Hb).
  destruct (gf_zero_one K) as [_ Hone]. exists b. rw Hone in Hb.
  split_and!; try done. rw -Hb. by apply gf_mul_comm.
Qed.

(** No zero divisors. *)
Lemma gf_mul_eq_0 a b : elem a → elem b → gf_mul a b = 0 → a = 0 ∨ b = 0.
Proof.
  intros Ha Hb H. destruct (decide (a = 0)) as [|Ha0]; [by left|right].
  destruct (gf_inv_ex a Ha Ha0) as (i & _ & Hi & _ & _ & Hia).
  rw -(gf_mul_1 b Hb) -Hia gf_mul_assoc; [|done..]. rw H. by apply gf_mul_0_r.
Qed.

Lemma gf_div_spec a b : elem a → elem b → b ≠ 0 →
  ∃ q, gf_div a b = Ok q ∧ elem q ∧ gf_mul q b = a.
Proof.
  intros Ha Hb Hb0. destruct (gf_inv_ex b Hb Hb0) as (i & Hi & Hie & _ & _ & Hib).
  unfold gf_div. rw Hi. eexists. split; [done|]. split; [by apply gf_mul_elem|].
  rw gf_mul_assoc; [|done..]. rw Hib. by apply gf_mul_1_r.
Qed.

Lemma vandermonde_elem s c : elem (vandermonde s c) ∧ vandermonde s c ≠ 0.
Proof.
  unfold vandermonde. apply gf_alpha_elem; [done|]. unfold u32.
  apply Z.mod_pos_bound. lia.
Qed.
End derived.

(** ** Scalars acting on payload bytes

    A payload byte is one element of GF(2^8), or two packed elements of
    GF(2^4) both multiplied by the same scalar.  [smul] is the byte-level
    reference that the kernels of gf/simd.rs implement. *)
Definition nib_hi (b : Z) : Z := Z.land (Z.shiftr b 4) 15.
Definition nib_lo (b : Z) : Z := Z.land b 15.
Definition nib_pack (hi lo : Z) : Z := Z.lor (u8 (Z.shiftl hi 4)) lo.

Definition smul (f : Field) (c b : Z) : Z :=
  match f with
  | Gf2_8 => gf2_8_mul_raw b c
  | Gf2_4 => nib_pack (gf2_4_mul_raw (nib_hi b) c) (gf2_4_mul_raw (nib_lo b) c)
  end.

(** A valid coefficient of the field. *)
Abbreviation coef_ok f := (@elem (gf_field f)).

Lemma nib_pack_check b : is_u8 b → nib_pack (nib_hi b) (nib_lo b) = b.
Proof.
  intros H. apply Z.eqb_eq.
  apply (all_below_spec 256 (λ b, nib_pack (nib_hi b) (nib_lo b) =? b)); [by vm_compute|done].
Qed.
Lemma nib_hi_range b : 0 ≤ nib_hi b < 16.
Proof.
  unfold nib_hi. change 15 with (Z.ones 4). rw Z.land_ones; [|lia].
  apply Z.mod_pos_bound. lia.
Qed.
Lemma nib_lo_range b : 0 ≤ nib_lo b < 16.
Proof.
  unfold nib_lo. change 15 with (Z.ones 4). rw Z.land_ones; [|lia].
  apply Z.mod_pos_bound. lia.
Qed.
Lemma nib_hi_lxor a b : nib_hi (Z.lxor a b) = Z.lxor (nib_hi a) (nib_hi b).
Proof.
  unfold nib_hi. rw Z.shiftr_lxor. apply Z.bits_inj'. intros i Hi.
  rw Z.lxor_spec !Z.land_spec Z.lxor_spec.
  by destruct (Z.testbit 15 i); rw ?andb_true_r ?andb_false_r.
Qed.
Lemma nib_lo_lxor a b : nib_lo (Z.lxor a b) = Z.lxor (nib_lo a) (nib_lo b).
Proof.
  unfold nib_lo. apply Z.bits_inj'. intros i Hi.
  rw Z.lxor_spec !Z.land_spec Z.lxor_spec.
  by destruct (Z.testbit 15 i); rw ?andb_true_r ?andb_false_r.
Qed.

(** Facts about two nibbles are checked over the 256 pairs. *)
Lemma nib_pair_check (p : Z → Z → bool) h l :
  all_below 16 (λ h, all_below 16 (p h)) = true →
  0 ≤ h < 16 → 0 ≤ l < 16 → p h l = true.
Proof.
  intros H Hh Hl. apply (all_below_spec 16 (p h)); [|lia].
  apply (all_below_spec 16 (λ h, all_below 16 (p h))); [done|lia].
Qed.
Lemma nib_hi_pack h l : 0 ≤ h < 16 → 0 ≤ l < 16 → nib_hi (nib_pack h l) = h.
Proof.
  intros. apply Z.eqb_eq.
  apply (nib_pair_check (λ h l, nib_hi (nib_pack h l) =? h)); [by vm_compute|done..].
Qed.
Lemma nib_lo_pack h l : 0 ≤ h < 16 → 0 ≤ l < 16 → nib_lo (nib_pack h l) = l.
Proof.
  intros. apply Z.eqb_eq.
  apply (nib_pair_check (λ h l, nib_lo (nib_pack h l) =? l)); [by vm_compute|done..].
Qed.
Lemma nib_pack_u8 h l : 0 ≤ l < 16 → is_u8 (nib_pack h l).
Proof. intros. apply lor_u8; [apply u8_is|word_bound]. Qed.
Lemma nib_pack_small l : nib_pack 0 l = l.
Proof. done. Qed.
Lemma nib_small b : 0 ≤ b < 16 → nib_hi b = 0 ∧ nib_lo b = b.
Proof. intros H. by rw -{1 2}(nib_pack_small b) nib_hi_pack ?nib_lo_pack. Qed.
Lemma nib_eq a b : is_u8 a → is_u8 b → nib_hi a = nib_hi b → nib_lo a = nib_lo b → a = b.
Proof. intros Ha Hb H1 H2. by rw -(nib_pack_check a) // -(nib_pack_check b) // H1 H2. Qed.

Create HintDb gf.
#[export] Hint Resolve elem_0 elem_1 elem_lxor gf_mul_elem nib_hi_range nib_lo_range
  nib_pack_u8 : gf.

(** Range side conditions on nibbles and scalars. *)
Ltac nib_side := first [done | apply nib_hi_range | apply nib_lo_range | eauto with gf].

Section scalar_action.
Local Abbreviation mul4 := gf2_4_mul_raw.
Lemma mul4_range a b : 0 ≤ a < 16 → 0 ≤ b < 16 → 0 ≤ mul4 a b < 16.
Proof. apply (gf_mul_elem Gf2_4_field). Qed.
Local Hint Resolve mul4_range : gf.

Lemma smul_hi c b : 0 ≤ c < 16 → nib_hi (smul Gf2_4 c b) = mul4 (nib_hi b) c.
Proof. intros. apply nib_hi_pack; auto with gf. Qed.
Lemma smul_lo c b : 0 ≤ c < 16 → nib_lo (smul Gf2_4 c b) = mul4 (nib_lo b) c.
Proof. intros. apply nib_lo_pack; auto with gf. Qed.

Lemma smul_u8 f c b : coef_ok f c → is_u8 b → is_u8 (smul f c b).
Proof.
  intros Hc Hb. destruct f; simpl in *.
  - by apply (gf_mul_elem Gf2_8_field).
  - apply nib_pack_u8. apply mul4_range; [auto with gf|done].
Qed.

Lemma smul_lxor_r f c a b : coef_ok f c → is_u8 a → is_u8 b →
  smul f c (Z.lxor a b) = Z.lxor (smul f c a) (smul f c b).
Proof.
  intros Hc Ha Hb. destruct f.
  - by apply (gf_mul_lxor_l Gf2_8_field).
  - change (0 ≤ c < 16) in Hc.
    assert (∀ b, is_u8 b → is_u8 (smul Gf2_4 c b)) as Hu by (intros; by apply smul_u8).
    apply nib_eq; [auto with word..| |];
      rw ?nib_hi_lxor ?nib_lo_lxor ?smul_hi ?smul_lo; try done;
      rw ?nib_hi_lxor ?nib_lo_lxor; apply (gf_mul_lxor_l Gf2_4_field);
      nib_side.
Qed.

Lemma smul_lxor_l f c d b : coef_ok f c → coef_ok f d → is_u8 b →
  smul f (Z.lxor c d) b = Z.lxor (smul f c b) (smul f d b).
Proof.
  intros Hc Hd Hb. destruct f.
  - by apply (gf_mul_lxor_r Gf2_8_field).
  - pose proof (elem_lxor Gf2_4_field c d Hc Hd) as Hcd.
    change (0 ≤ c < 16) in Hc. change (0 ≤ d < 16) in Hd.
    change (0 ≤ Z.lxor c d < 16) in Hcd.
    assert (∀ c, 0 ≤ c < 16 → is_u8 (smul Gf2_4 c b)) as Hu by (intros; by apply smul_u8).
    apply nib_eq; [auto with word..| |];
      rw ?nib_hi_lxor ?nib_lo_lxor ?smul_hi ?smul_lo; try done;
      apply (gf_mul_lxor_r Gf2_4_field);
      nib_side.
Qed.

Lemma smul_smul f c d b : coef_ok f c → coef_ok f d → is_u8 b →
  smul f c (smul f d b) = smul f (@gf_mul (gf_field f) c d) b.
Proof.
  intros Hc Hd Hb. destruct f; cbn [gf_field] in *.
  - cbn [smul]. change (@gf_mul Gf2_8_field) with gf2_8_mul_raw.
    rw (gf_mul_comm Gf2_8_field c d Hc Hd : gf2_8_mul_raw c d = gf2_8_mul_raw d c).
    by apply (gf_mul_assoc Gf2_8_field).
  - change (@gf_mul Gf2_4_field) with mul4.
    change (0 ≤ c < 16) in Hc. change (0 ≤ d < 16) in Hd.
    assert (0 ≤ mul4 c d < 16) as Hcd by auto with gf.
    assert (∀ c b, 0 ≤ c < 16 → is_u8 b → is_u8 (smul Gf2_4 c b)) as Hu
      by (intros; by apply smul_u8).
    assert (∀ b, 0 ≤ b < 16 → mul4 (mul4 b d) c = mul4 b (mul4 c d)) as Hm.
    { intros b' Hb'. rw (gf_mul_comm Gf2_4_field c d Hc Hd : mul4 c d = mul4 d c).
      by apply (gf_mul_assoc Gf2_4_field). }
    apply nib_eq; [by auto..| |].
    + rw !smul_hi //. by rw Hm; [|nib_side].
    + rw !smul_lo //. by rw Hm; [|nib_side].
Qed.

Lemma smul_0_l f b : is_u8 b → smul f 0 b = 0.
Proof.
  intros Hb. destruct f; cbn [smul].
  - by apply (gf_mul_0_r Gf2_8_field).
  - rw !(gf_mul_0_r Gf2_4_field : ∀ a, 0 ≤ a < 16 → mul4 a 0 = 0); auto with gf.
Qed.
Lemma smul_0_r f c : coef_ok f c → smul f c 0 = 0.
Proof.
  intros Hc. destruct f; cbn [smul].
  - by apply (gf_mul_0_l Gf2_8_field).
  - change (nib_hi 0) with 0. change (nib_lo 0) with 0.
    by rw !(gf_mul_0_l Gf2_4_field : ∀ a, 0 ≤ a < 16 → mul4 0 a = 0).
Qed.
Lemma smul_1 f b : is_u8 b → smul f 1 b = b.
Proof.
  intros Hb. destruct f; cbn [smul].
  - by apply (gf_mul_1_r Gf2_8_field).
  - rw !(gf_mul_1_r Gf2_4_field : ∀ a, 0 ≤ a < 16 → mul4 a 1 = a); auto with gf.
    by apply nib_pack_check.
Qed.

(** On coefficients the action is the field's product. *)
Lemma smul_coef f c d : coef_ok f c → coef_ok f d →
  smul f c d = @gf_mul (gf_field f) c d.
Proof.
  intros Hc Hd. rw (gf_mul_comm (gf_field f) c d); [|done..].
  destruct f; [done|]. change (0 ≤ d < 16) in Hd. change (0 ≤ c < 16) in Hc. cbn [smul].
  destruct (nib_small d Hd) as [-> ->].
  by rw (gf_mul_0_l Gf2_4_field c Hc : mul4 0 c = 0).
Qed.
End scalar_action.

(** ** The arithmetic of the two fields *)
Definition field_width (f : Field) : Z := match f with Gf2_8 => 8 | Gf2_4 => 4 end.
Definition field_poly (f : Field) : Z := match f with Gf2_8 => GF2_8_POLY | Gf2_4 => GF2_4_POLY end.

(** C21: the log/exp multiplication of both fields is the carry-less product of
    polynomials over GF(2), reduced by the field's primitive polynomial. *)
Theorem gf_mul_is_polynomial f a b : coef_ok f a → coef_ok f b →
  @gf_mul (gf_field f) a b = pmul (field_width f) (field_poly f) a b.
Proof. destruct f; [by apply gf2_8_mul_pmul|by apply gf2_4_mul_pmul]. Qed.

Lemma gf_mul_is_polynomial_witness :
  @gf_mul (gf_field Gf2_8) 87 131 = pmul 8 GF2_8_POLY 87 131.
Proof.
  apply (gf_mul_is_polynomial Gf2_8); unfold elem; change (@ORDER (gf_field Gf2_8)) with 256; lia.
Defined.

(** C20: [Gf2_8] and [Gf2_4] are fields of characteristic 2: closed, commutative
    and associative products that distribute over XOR, unit 1, and for every
    non-zero [b] an inverse and a quotient; inverting zero panics. *)
Theorem gf_is_field f a b c : coef_ok f a → coef_ok f b → coef_ok f c →
  coef_ok f (@gf_mul (gf_field f) a b) ∧
  @gf_mul (gf_field f) a b = @gf_mul (gf_field f) b a ∧
  @gf_mul (gf_field f) (@gf_mul (gf_field f) a b) c = @gf_mul (gf_field f) a (@gf_mul (gf_field f) b c) ∧
  @gf_mul (gf_field f) a (Z.lxor b c) = Z.lxor (@gf_mul (gf_field f) a b) (@gf_mul (gf_field f) a c) ∧
  @gf_mul (gf_field f) 1 a = a ∧
  (b ≠ 0 → ∃ i q, @gf_inv (gf_field f) b = Ok i ∧ @gf_mul (gf_field f) b i = 1 ∧
    @gf_div (gf_field f) a b = Ok q ∧ coef_ok f q ∧ @gf_mul (gf_field f) q b = a) ∧
  @gf_inv (gf_field f) 0 = Panic.
Proof.
  intros Ha Hb Hc. split_and!.
  - by apply gf_mul_elem; [apply _|..].
  - by apply gf_mul_comm; [apply _|..].
  - by apply gf_mul_assoc; [apply _|..].
  - by apply gf_mul_lxor_r; [apply _|..].
  - by apply gf_mul_1; [apply _|..].
  - intros Hb0. destruct (gf_inv_ex (gf_field f) b Hb Hb0) as (i & Hi & _ & _ & Hbi & _).
    destruct (gf_div_spec (gf_field f) a b Ha Hb Hb0) as (q & ? & ? & ?). by exists i, q.
  - apply gf_inv_0, _.
Qed.

Lemma gf_is_field_witness :
  ∃ i q, @gf_inv (gf_field Gf2_4) 7 = Ok i ∧ @gf_mul (gf_field Gf2_4) 7 i = 1 ∧
    @gf_div (gf_field Gf2_4) 9 7 = Ok q ∧ coef_ok Gf2_4 q ∧ @gf_mul (gf_field Gf2_4) q 7 = 9.
Proof.
  apply (gf_is_field Gf2_4 9 7 3); [unfold elem; change (@ORDER (gf_field Gf2_4)) with 16; lia..|lia].
Defined.
