(* ===== verification/Simd.v ===== *)
(** * gf/simd.rs: bulk multiply-accumulate kernels

    Registers are lists of bytes (16 or 32 of them, lowest address first) and
    each intrinsic of [core::arch] the kernels use is a function on such
    lists.  The CPU's answer to feature detection is the parameter [Dispatch]
    of the entry points; every kernel is shown equal to the byte-at-a-time
    reference. *)

From S2P Require Import Prelude Error Config Tables Gf.

(** ** Nibble tables *)
Record NibbleTables := { nt_lo : list Z; nt_hi : list Z }.

Definition nibbles : list Z := Z.of_nat <$> seq 0 16.

Definition for_gf2_8 (coef : Z) : NibbleTables := {|
  nt_lo := (λ x, gf2_8_mul_raw x coef) <$> nibbles;
  nt_hi := (λ x, gf2_8_mul_raw (u8 (Z.shiftl x 4)) coef) <$> nibbles |}.

Definition for_gf2_4 (coef : Z) : NibbleTables :=
  let c_lo := Z.land coef 15 in
  let c_hi := Z.shiftr coef 4 in {|
  nt_lo := (λ x, gf2_4_mul_raw x c_lo) <$> nibbles;
  nt_hi := (λ x, u8 (Z.shiftl (gf2_4_mul_raw x c_hi) 4)) <$> nibbles |}.

(** The static tables hold [for_gf2_8 c] and [for_gf2_4 c] at index [c]. *)
Definition gf2_8_tbl (c : Z) : NibbleTables := for_gf2_8 c.
Definition gf2_4_tbl (c : Z) : NibbleTables := for_gf2_4 c.

Inductive Dispatch : Type := Avx2 | Ssse3 | Neon | Scalar.

(** What the program is built for and what the CPU it runs on has.  [dispatch]
    reads the [OnceLock] and fills it the first time. *)
Inductive Arch : Type := X86 | Aarch64 | OtherArch.
Record Host := { ho_arch : Arch; ho_avx2 : bool; ho_ssse3 : bool; ho_neon : bool }.

Definition detect (h : Host) : Dispatch :=
  match ho_arch h with
  | X86 => if ho_avx2 h then Avx2 else if ho_ssse3 h then Ssse3 else Scalar
  | Aarch64 => if ho_neon h then Neon else Scalar
  | OtherArch => Scalar
  end.
Definition dispatch (cell : option Dispatch) (h : Host) : option Dispatch * Dispatch :=
  match cell with Some d => (cell, d) | None => (Some (detect h), detect h) end.

(** ** Scalar fallback *)
Definition scalar_byte (t : NibbleTables) (s : Z) : Z :=
  Z.lxor (tget (nt_lo t) (Z.land s 15)) (tget (nt_hi t) (Z.shiftr s 4)).

Definition scalar_mul_acc (dst src : bytes) (t : NibbleTables) : bytes :=
  zip_with (λ d s, Z.lxor d (scalar_byte t s)) dst src
  ++ drop (length src) dst.

Definition scalar_mul_scale (dst : bytes) (t : NibbleTables) : bytes :=
  scalar_byte t <$> dst.

(** ** Intrinsics *)
Definition loadu (w : nat) (buf : bytes) (off : nat) : result bytes :=
  rest ← slice_from buf off;
  if (w <=? length rest)%nat then Ok (take w rest) else Panic.
Definition storeu (buf : bytes) (off : nat) (v : bytes) : result bytes :=
  rest ← slice_from buf off;
  if (length v <=? length rest)%nat
  then Ok (take off buf ++ v ++ drop (length v) rest) else Panic.

(** [_mm_set1_epi8], [_mm_and_si128], [_mm_xor_si128] at either width. *)
Definition set1 (w : nat) (b : Z) : bytes := replicate w b.
Definition vand (a b : bytes) : bytes := zip_with Z.land a b.

(** [_mm_srli_epi16(v, 4)]: a logical shift of each little-endian 16-bit lane. *)
Fixpoint srli_epi16_4 (v : bytes) : bytes :=
  match v with
  | l :: h :: v =>
      let lane := Z.shiftr (l + 256 * h) 4 in
      u8 lane :: u8 (Z.shiftr lane 8) :: srli_epi16_4 v
  | _ => v
  end.

(** [pshufb]: a set top bit clears the byte, else the low nibble indexes. *)
Definition shuffle_byte (tbl : bytes) (i : Z) : Z :=
  if Z.testbit i 7 then 0 else tget tbl (Z.land i 15).
Definition shuffle_epi8_128 (tbl idx : bytes) : bytes := shuffle_byte tbl <$> idx.
(** [vpshufb] works on each 128-bit half with its own half of the table. *)
Definition shuffle_epi8_256 (tbl idx : bytes) : bytes :=
  (shuffle_byte (take 16 tbl) <$> take 16 idx)
  ++ (shuffle_byte (drop 16 tbl) <$> drop 16 idx).
Definition broadcastsi128 (v : bytes) : bytes := v ++ v.

(** NEON: [vshrq_n_u8::<4>] and [vqtbl1q_u8]. *)
Definition vshrq_4 (v : bytes) : bytes := (λ b, Z.shiftr b 4) <$> v.
Definition vqtbl1q (tbl idx : bytes) : bytes :=
  (λ i, if i <? 16 then tget tbl i else 0) <$> idx.

(** ** SSSE3, 16 bytes per iteration *)
Definition ssse3_prod (t : NibbleTables) (inp : bytes) : bytes :=
  let mask_0f := set1 16 15 in
  let lo_n := vand inp mask_0f in
  let hi_n := vand (srli_epi16_4 inp) mask_0f in
  vxor (shuffle_epi8_128 (nt_lo t) lo_n) (shuffle_epi8_128 (nt_hi t) hi_n).

Definition ssse3_mul_acc (dst src : bytes) (t : NibbleTables) : result bytes :=
  let chunks := (length dst / 16)%nat in
  let tail := (length dst mod 16)%nat in
  dst ← mfor (λ dst i,
      let off := (i * 16)%nat in
      inp ← loadu 16 src off;
      let prod := ssse3_prod t inp in
      cur ← loadu 16 dst off;
      storeu dst off (vxor cur prod)) dst (seq 0 chunks);
  let base := (chunks * 16)%nat in
  d ← slice dst base (base + tail);
  s ← slice src base (base + tail);
  Ok (take base dst ++ scalar_mul_acc d s t ++ drop (base + tail) dst).

Definition ssse3_mul_scale (dst : bytes) (t : NibbleTables) : result bytes :=
  let chunks := (length dst / 16)%nat in
  let tail := (length dst mod 16)%nat in
  dst ← mfor (λ dst i,
      let off := (i * 16)%nat in
      inp ← loadu 16 dst off;
      storeu dst off (ssse3_prod t inp)) dst (seq 0 chunks);
  let base := (chunks * 16)%nat in
  d ← slice dst base (base + tail);
  Ok (take base dst ++ scalar_mul_scale d t ++ drop (base + tail) dst).

(** ** AVX2, two 32-byte chains per iteration, remainder through SSSE3 *)
Definition avx2_prod (t : NibbleTables) (inp : bytes) : bytes :=
  let mask_0f := set1 32 15 in
  let lo_n := vand inp mask_0f in
  let hi_n := vand (srli_epi16_4 inp) mask_0f in
  vxor (shuffle_epi8_256 (broadcastsi128 (nt_lo t)) lo_n)
       (shuffle_epi8_256 (broadcastsi128 (nt_hi t)) hi_n).

Definition avx2_mul_acc (dst src : bytes) (t : NibbleTables) : result bytes :=
  let unrolled := (length dst / 64)%nat in
  let rem := (length dst mod 64)%nat in
  dst ← mfor (λ dst i,
      let off := (i * 64)%nat in
      inp_a ← loadu 32 src off;
      let prod_a := avx2_prod t inp_a in
      cur_a ← loadu 32 dst off;
      inp_b ← loadu 32 src (off + 32);
      let prod_b := avx2_prod t inp_b in
      cur_b ← loadu 32 dst (off + 32);
      dst ← storeu dst off (vxor cur_a prod_a);
      storeu dst (off + 32) (vxor cur_b prod_b)) dst (seq 0 unrolled);
  let base := (unrolled * 64)%nat in
  d ← slice dst base (base + rem);
  s ← slice src base (base + rem);
  d ← ssse3_mul_acc d s t;
  Ok (take base dst ++ d ++ drop (base + rem) dst).

Definition avx2_mul_scale (dst : bytes) (t : NibbleTables) : result bytes :=
  let unrolled := (length dst / 64)%nat in
  let rem := (length dst mod 64)%nat in
  dst ← mfor (λ dst i,
      let off := (i * 64)%nat in
      inp_a ← loadu 32 dst off;
      let prod_a := avx2_prod t inp_a in
      inp_b ← loadu 32 dst (off + 32);
      let prod_b := avx2_prod t inp_b in
      dst ← storeu dst off prod_a;
      storeu dst (off + 32) prod_b) dst (seq 0 unrolled);
  let base := (unrolled * 64)%nat in
  d ← slice dst base (base + rem);
  d ← ssse3_mul_scale d t;
  Ok (take base dst ++ d ++ drop (base + rem) dst).

(** ** NEON, 16 bytes per iteration.  The pointers [sp] and [dp] advance by 16
    each time round, so iteration [i] reads and writes at offset [16 i]. *)
Definition neon_prod (t : NibbleTables) (inp : bytes) : bytes :=
  let mask_0f := set1 16 15 in
  let lo_n := vand inp mask_0f in
  let hi_n := vshrq_4 inp in
  vxor (vqtbl1q (nt_lo t) lo_n) (vqtbl1q (nt_hi t) hi_n).

Definition neon_mul_acc (dst src : bytes) (t : NibbleTables) : result bytes :=
  let len := length dst in
  let chunks := (len / 16)%nat in
  let tail := (len mod 16)%nat in
  '(dst, _) ← mfor (λ '(dst, p) _,
      inp ← loadu 16 src p;
      let prod := neon_prod t inp in
      cur ← loadu 16 dst p;
      dst ← storeu dst p (vxor cur prod);
      Ok (dst, (p + 16)%nat)) (dst, 0%nat) (seq 0 chunks);
  if (0 <? tail)%nat then
    let base := (chunks * 16)%nat in
    d ← slice dst base (base + tail);
    s ← slice src base (base + tail);
    Ok (take base dst ++ scalar_mul_acc d s t ++ drop (base + tail) dst)
  else Ok dst.

Definition neon_mul_scale (dst : bytes) (t : NibbleTables) : result bytes :=
  let len := length dst in
  let chunks := (len / 16)%nat in
  let tail := (len mod 16)%nat in
  '(dst, _) ← mfor (λ '(dst, p) _,
      inp ← loadu 16 dst p;
      dst ← storeu dst p (neon_prod t inp);
      Ok (dst, (p + 16)%nat)) (dst, 0%nat) (seq 0 chunks);
  if (0 <? tail)%nat then
    let base := (chunks * 16)%nat in
    d ← slice dst base (base + tail);
    Ok (take base dst ++ scalar_mul_scale d t ++ drop (base + tail) dst)
  else Ok dst.

(** ** Entry points *)
Definition mul_acc_raw (dst src : bytes) (t : NibbleTables) (d : Dispatch) : result bytes :=
  match d with
  | Avx2 => avx2_mul_acc dst src t
  | Ssse3 => ssse3_mul_acc dst src t
  | Neon => neon_mul_acc dst src t
  | Scalar => Ok (scalar_mul_acc dst src t)
  end.

Definition mul_scale_raw (buf : bytes) (t : NibbleTables) (d : Dispatch) : result bytes :=
  match d with
  | Avx2 => avx2_mul_scale buf t
  | Ssse3 => ssse3_mul_scale buf t
  | Neon => neon_mul_scale buf t
  | Scalar => Ok (scalar_mul_scale buf t)
  end.

Section entry_points.
(** What feature detection found. *)
Context (cpu : Dispatch).

Definition mul_acc_gf2_8 (dst src : bytes) (coef : Z) : result bytes :=
  _ ← rassert (length dst =? length src)%nat;
  if coef =? 0 then Ok dst
  else let t := gf2_8_tbl coef in mul_acc_raw dst src t cpu.

Definition mul_scale_gf2_8 (buf : bytes) (coef : Z) : result bytes :=
  if coef =? 0 then Ok (replicate (length buf) 0)
  else if coef =? 1 then Ok buf
  else let t := gf2_8_tbl coef in mul_scale_raw buf t cpu.

Definition mul_acc_gf2_4 (dst src : bytes) (coef : Z) : result bytes :=
  _ ← rassert (length dst =? length src)%nat;
  let c := Z.land coef 15 in
  if c =? 0 then Ok dst
  else let packed := Z.lor (u8 (Z.shiftl c 4)) c in
       let t := gf2_4_tbl packed in mul_acc_raw dst src t cpu.

Definition mul_scale_gf2_4 (buf : bytes) (coef : Z) : result bytes :=
  let c := Z.land coef 15 in
  if c =? 0 then Ok (replicate (length buf) 0)
  else let packed := Z.lor (u8 (Z.shiftl c 4)) c in
       let t := gf2_4_tbl packed in mul_scale_raw buf t cpu.

(** The [match field] that callers write around the pair of kernels. *)
Definition mul_acc (f : Field) (dst src : bytes) (coef : Z) : result bytes :=
  match f with
  | Gf2_8 => mul_acc_gf2_8 dst src coef
  | Gf2_4 => mul_acc_gf2_4 dst src coef
  end.
Definition mul_scale (f : Field) (buf : bytes) (coef : Z) : result bytes :=
  match f with
  | Gf2_8 => mul_scale_gf2_8 buf coef
  | Gf2_4 => mul_scale_gf2_4 buf coef
  end.
End entry_points.

(** ** Reference implementations of the source ("test oracles") *)
Definition mul_acc_gf2_8_reference (dst src : bytes) (coef : Z) : bytes :=
  zip_with (λ d s, Z.lxor d (gf2_8_mul_raw s coef)) dst src ++ drop (length src) dst.
Definition mul_scale_gf2_8_reference (buf : bytes) (coef : Z) : bytes :=
  (λ b, gf2_8_mul_raw b coef) <$> buf.
Definition mul_acc_gf2_4_reference (dst src : bytes) (coef : Z) : bytes :=
  let c := Z.land coef 15 in
  zip_with (λ d s,
    let hi := u8 (Z.shiftl (gf2_4_mul_raw (Z.land (Z.shiftr s 4) 15) c) 4) in
    let lo := gf2_4_mul_raw (Z.land s 15) c in
    Z.lxor d (Z.lor hi lo)) dst src ++ drop (length src) dst.

(** ** Kernels compute the reference *)

(** A buffer half way through a pass: the first [n] bytes hold the result. *)
Definition partial (fin dst : bytes) (n : nat) : bytes := take n fin ++ drop n dst.

Lemma loadu_ok w buf m : (m + w ≤ length buf)%nat → loadu w buf m = Ok (take w (drop m buf)).
Proof.
  intros. unfold loadu. rw slice_from_ok; [|lia]. rw bind_Ok length_drop.
  by rw (proj2 (Nat.leb_le w (length buf - m))); [|lia].
Qed.

Section passes.
Context (fin dst : bytes).
Hypothesis Hlen : length fin = length dst.

Lemma partial_length n : length (partial fin dst n) = length dst.
Proof. unfold partial. rw length_app length_take length_drop. lia. Qed.

Lemma partial_0 : partial fin dst 0 = dst.
Proof. done. Qed.

Lemma partial_drop n : (n ≤ length dst)%nat → drop n (partial fin dst n) = drop n dst.
Proof. intros. unfold partial. apply drop_app_length'. rw length_take. lia. Qed.

Lemma partial_drop_ge n m :
  (n ≤ m)%nat → (n ≤ length dst)%nat → drop m (partial fin dst n) = drop m dst.
Proof.
  intros ? ?. replace m with (n + (m - n))%nat by lia.
  by rw -!drop_drop partial_drop.
Qed.

(** A load at or beyond the frontier sees the original bytes. *)
Lemma loadu_partial w n m : (n ≤ m)%nat → (m + w ≤ length dst)%nat →
  loadu w (partial fin dst n) m = Ok (take w (drop m dst)).
Proof.
  intros ? ?. unfold loadu. rw slice_from_ok; [|rw partial_length; lia].
  rw bind_Ok partial_drop_ge; [|lia..]. rw length_drop.
  by rw (proj2 (Nat.leb_le w (length dst - m))); [|lia].
Qed.

(** A store of the next block of the result advances the frontier. *)
Lemma storeu_partial w n : (n + w ≤ length dst)%nat →
  storeu (partial fin dst n) n (take w (drop n fin)) = Ok (partial fin dst (n + w)).
Proof.
  intros ?. unfold storeu. rw slice_from_ok; [|rw partial_length; lia].
  rw bind_Ok partial_drop; [|lia]. rw length_take !length_drop.
  rw (proj2 (Nat.leb_le _ _)); [|lia]. f_equal. unfold partial.
  rw take_app_length'; [|rw length_take; lia].
  rw app_assoc. f_equal.
  - apply take_take_drop.
  - rw drop_drop. f_equal. lia.
Qed.

(** The scalar tail completes the pass. *)
Lemma partial_tail n t : (n + t = length dst)%nat →
  take n (partial fin dst n) ++ drop n fin ++ drop (n + t) (partial fin dst n) = fin.
Proof.
  intros ?. unfold partial at 1. rw take_app_length'; [|rw length_take; lia].
  rw (drop_ge (partial fin dst n)); [|rw partial_length; lia].
  by rw app_nil_r take_drop.
Qed.

(** A loop whose body moves the frontier by [w] runs to [k * w]. *)
Lemma passes_loop (w k : nat) (body : bytes → nat → result bytes) :
  (∀ i, (i < k)%nat → body (partial fin dst (i * w)) i = Ok (partial fin dst (i * w + w))) →
  mfor body dst (seq 0 k) = Ok (partial fin dst (k * w)).
Proof.
  intros Hbody. induction k as [|k IH]; [done|].
  rw seq_S mfor_app IH; [|intros; apply Hbody; lia]. rw bind_Ok /= Hbody; [|lia].
  rw bind_Ok. do 2 f_equal. lia.
Qed.
End passes.

(** *** One register *)
Definition tables_ok (t : NibbleTables) : Prop :=
  length (nt_lo t) = 16%nat ∧ length (nt_hi t) = 16%nat.

Lemma u8_hi_nibble s : is_u8 s → Z.shiftr s 4 = nib_hi s.
Proof.
  intros H. unfold nib_hi. rw land15 Z.shiftr_div_pow2; [|lia].
  rw Z.mod_small; [done|]. unfold is_u8 in H. change (2 ^ 4) with 16.
  Z.to_euclidean_division_equations. lia.
Qed.

(** The shift of 16-bit lanes leaves each byte's high nibble in place. *)
Lemma srli_mask k v : length v = (2 * k)%nat → bytes_ok v →
  vand (srli_epi16_4 v) (set1 (2 * k) 15) = nib_hi <$> v.
Proof.
  revert v. induction k as [|k IH]; intros v Hv Hok.
  { by destruct v. }
  destruct v as [|l [|h v]]; [done|simpl in Hv; lia|].
  rw !Forall_cons in Hok. destruct Hok as (Hl & Hh & Hok).
  replace (2 * S k)%nat with (S (S (2 * k))) by lia.
  rw (_ : set1 (S (S (2 * k))) 15 = 15 :: 15 :: set1 (2 * k) 15) //.
  cbn [srli_epi16_4 vand zip_with fmap list_fmap].
  f_equal; [|f_equal].
  - rw -u8_hi_nibble // land15 !Z.shiftr_div_pow2 //. unfold u8, is_u8 in *.
    change (2 ^ 4) with 16. Z.to_euclidean_division_equations. lia.
  - rw -u8_hi_nibble // land15 !Z.shiftr_div_pow2 //. unfold u8, is_u8 in *.
    change (2 ^ 4) with 16. change (2 ^ 8) with 256.
    Z.to_euclidean_division_equations. lia.
  - apply IH; [simpl in Hv; lia|done].
Qed.

Lemma vand_mask v : vand v (set1 (length v) 15) = nib_lo <$> v.
Proof. induction v as [|b v IH]; [done|]. cbn. f_equal. apply IH. Qed.

Lemma shuffle_nibble tbl i : 0 ≤ i < 16 → shuffle_byte tbl i = tget tbl i.
Proof.
  intros H. unfold shuffle_byte. rw (testbit_high 4); [|done|lia].
  rw land15. by rw Z.mod_small.
Qed.

Lemma vxor_fmap {A} (f g : A → Z) l : vxor (f <$> l) (g <$> l) = (λ a, Z.lxor (f a) (g a)) <$> l.
Proof. induction l as [|a l IH]; [done|]. cbn. f_equal. apply IH. Qed.

Lemma scalar_byte_nib t s : is_u8 s →
  scalar_byte t s = Z.lxor (tget (nt_lo t) (nib_lo s)) (tget (nt_hi t) (nib_hi s)).
Proof. intros. unfold scalar_byte. by rw u8_hi_nibble. Qed.

Lemma fmap_scalar_byte t v : bytes_ok v →
  ((λ s, Z.lxor (tget (nt_lo t) (nib_lo s)) (tget (nt_hi t) (nib_hi s))) <$> v)
  = scalar_byte t <$> v.
Proof.
  induction 1 as [|s v Hs Hv IH]; [done|]. cbn. rw scalar_byte_nib //. f_equal. apply IH.
Qed.

Lemma ssse3_prod_spec t v : length v = 16%nat → bytes_ok v →
  ssse3_prod t v = scalar_byte t <$> v.
Proof.
  intros Hv Hok. unfold ssse3_prod, shuffle_epi8_128.
  rw (srli_mask 8) // -Hv vand_mask -!list_fmap_compose vxor_fmap -fmap_scalar_byte //.
  apply list_fmap_ext. intros _ s _. unfold compose.
  rw !shuffle_nibble; [done|nib_side..].
Qed.

Lemma shuffle_256 tbl idx : length tbl = 16%nat → length idx = 32%nat →
  shuffle_epi8_256 (broadcastsi128 tbl) idx = shuffle_byte tbl <$> idx.
Proof.
  intros Ht Hi. unfold shuffle_epi8_256, broadcastsi128.
  rw take_app_length' // drop_app_length' // -fmap_app take_drop //.
Qed.

Lemma avx2_prod_spec t v : tables_ok t → length v = 32%nat → bytes_ok v →
  avx2_prod t v = scalar_byte t <$> v.
Proof.
  intros [Hlo Hhi] Hv Hok. unfold avx2_prod.
  rw (srli_mask 16) // -Hv vand_mask !shuffle_256 ?length_fmap //.
  rw -!list_fmap_compose vxor_fmap -fmap_scalar_byte //.
  apply list_fmap_ext. intros _ s _. unfold compose.
  rw !shuffle_nibble; [done|nib_side..].
Qed.

Lemma neon_prod_spec t v : length v = 16%nat → bytes_ok v →
  neon_prod t v = scalar_byte t <$> v.
Proof.
  intros Hv Hok. unfold neon_prod, vqtbl1q, vshrq_4.
  rw -Hv vand_mask -!list_fmap_compose vxor_fmap -fmap_scalar_byte //.
  apply list_fmap_ext. intros i s Hs. unfold compose.
  rw u8_hi_nibble; [|exact (Forall_lookup_1 _ _ _ _ Hok Hs)].
  rw !(proj2 (Z.ltb_lt _ _)); [done|nib_side..].
Qed.

(** *** Whole buffers *)
Definition acc_byte (t : NibbleTables) (d s : Z) : Z := Z.lxor d (scalar_byte t s).

Lemma scalar_mul_acc_eq dst src t : length dst = length src →
  scalar_mul_acc dst src t = zip_with (acc_byte t) dst src.
Proof. intros H. unfold scalar_mul_acc. rw drop_ge; [|lia]. by rw app_nil_r. Qed.

Lemma zip_acc_vxor t a b :
  vxor a (scalar_byte t <$> b) = zip_with (acc_byte t) a b.
Proof. unfold vxor. by rw zip_with_fmap_r. Qed.

Section whole.
Context (t : NibbleTables) (Ht : tables_ok t).
Context (dst src : bytes) (Hlen : length dst = length src) (Hsrc : bytes_ok src).
Local Abbreviation fin := (zip_with (acc_byte t) dst src).

Lemma fin_length : length fin = length dst.
Proof. rw length_zip_with. lia. Qed.

Lemma fin_block w n :
  zip_with (acc_byte t) (take w (drop n dst)) (take w (drop n src)) = take w (drop n fin).
Proof. by rw zip_with_drop zip_with_take. Qed.

Lemma src_block w n : bytes_ok (take w (drop n src)).
Proof. by apply Forall_take, Forall_drop. Qed.

(** One 16-byte step of the SSSE3 and NEON kernels. *)
Lemma acc_step16 prod n : (n + 16 ≤ length dst)%nat →
  (∀ v, length v = 16%nat → bytes_ok v → prod v = scalar_byte t <$> v) →
  (inp ← loadu 16 src n;
   cur ← loadu 16 (partial fin dst n) n;
   storeu (partial fin dst n) n (vxor cur (prod inp)))
  = Ok (partial fin dst (n + 16)).
Proof.
  intros Hn Hprod. rw (loadu_ok 16 src); [|lia]. rw bind_Ok.
  rw loadu_partial; [|by rw fin_length|lia..]. rw bind_Ok Hprod.
  - rw zip_acc_vxor fin_block. apply storeu_partial; [apply fin_length|lia].
  - rw length_take length_drop. lia.
  - apply src_block.
Qed.

Lemma acc_tail n r : (n + r = length dst)%nat →
  (d ← slice (partial fin dst n) n (n + r);
   s ← slice src n (n + r);
   Ok (take n (partial fin dst n) ++ scalar_mul_acc d s t
       ++ drop (n + r) (partial fin dst n))) = Ok (E:=DelpError) fin.
Proof.
  intros Hn. pose proof fin_length.
  rw (slice_ok (partial fin dst n)); [|rw partial_length //; lia].
  rw bind_Ok slice_ok; [|lia]. rw bind_Ok partial_drop //; [|lia].
  replace (n + r - n)%nat with r by lia.
  rw scalar_mul_acc_eq; [|rw !length_take !length_drop; lia].
  rw fin_block (take_ge (drop n fin)); [|rw length_drop; lia].
  by rw partial_tail.
Qed.

Lemma ssse3_mul_acc_spec : ssse3_mul_acc dst src t = Ok fin.
Proof.
  unfold ssse3_mul_acc. pose proof (Nat.div_mod_eq (length dst) 16).
  rw (passes_loop fin dst fin_length 16); [rw bind_Ok; apply acc_tail; lia|].
  intros i Hi. apply (acc_step16 (ssse3_prod t)); [|intros; by apply ssse3_prod_spec].
  lia.
Qed.

Lemma neon_mul_acc_spec : neon_mul_acc dst src t = Ok fin.
Proof.
  unfold neon_mul_acc. pose proof (Nat.div_mod_eq (length dst) 16).
  match goal with |- context [mfor ?b] => set (body := b) end.
  assert (∀ k, (k ≤ length dst / 16)%nat →
    mfor body (dst, 0%nat) (seq 0 k) = Ok (partial fin dst (k * 16), (k * 16)%nat)) as Hl.
  { induction k as [|k IH]; intros Hk; [done|]. rw seq_S mfor_app IH; [|lia].
    rw bind_Ok. cbn [mfor]. unfold body at 1.
    pose proof (acc_step16 (neon_prod t) (k * 16)%nat) as Hs.
    apply bind_Ok_inv in Hs as (inp & Hinp & (cur & Hcur & Hst)%bind_Ok_inv);
      [|lia|intros; by apply neon_prod_spec].
    rw Hinp bind_Ok Hcur bind_Ok Hst !bind_Ok. do 3 f_equal; lia. }
  rw Hl; [|done]. rw bind_Ok. case_match eqn:E.
  - apply acc_tail. lia.
  - apply Nat.ltb_ge in E. f_equal. unfold partial.
    rw drop_ge; [|lia]. rw app_nil_r take_ge //. rw fin_length. lia.
Qed.
End whole.

(** *** AVX2: two blocks per iteration, then the SSSE3 kernel on the rest *)
Section avx2_acc.
Context (t : NibbleTables) (Ht : tables_ok t).
Context (dst src : bytes) (Hlen : length dst = length src) (Hsrc : bytes_ok src).
Local Abbreviation fin := (zip_with (acc_byte t) dst src).

Lemma avx2_block n : (n + 32 ≤ length dst)%nat →
  vxor (take 32 (drop n dst)) (avx2_prod t (take 32 (drop n src))) = take 32 (drop n fin).
Proof.
  intros Hn. rw avx2_prod_spec //; [|rw length_take length_drop; lia|by apply src_block].
  by rw zip_acc_vxor fin_block.
Qed.

Lemma avx2_mul_acc_spec : avx2_mul_acc dst src t = Ok fin.
Proof.
  unfold avx2_mul_acc. pose proof (Nat.div_mod_eq (length dst) 64).
  pose proof (fin_length t dst src Hlen) as Hfin.
  rw (passes_loop fin dst Hfin 64).
  - rw bind_Ok. set (n := (length dst / 64 * 64)%nat).
    rw (slice_ok (partial fin dst n)); [|rw partial_length //; lia].
    rw bind_Ok slice_ok; [|lia]. rw bind_Ok partial_drop //; [|lia].
    replace (n + length dst mod 64 - n)%nat with (length dst mod 64)%nat by lia.
    rw ssse3_mul_acc_spec //; [|rw !length_take !length_drop; lia|by apply src_block].
    rw fin_block (take_ge (drop n fin)); [|rw length_drop; lia].
    by rw bind_Ok partial_tail; [|lia..].
  - intros i Hi. set (n := (i * 64)%nat).
    rw (loadu_ok 32 src n); [|lia]. rw bind_Ok (loadu_partial fin dst Hfin 32 n n); [|lia..].
    rw bind_Ok (loadu_ok 32 src (n + 32)); [|lia].
    rw bind_Ok (loadu_partial fin dst Hfin 32 n (n + 32)); [|lia..].
    rw bind_Ok !avx2_block; [|lia..]. rw storeu_partial //; [|lia].
    rw bind_Ok storeu_partial //; [|lia]. do 2 f_equal. lia.
Qed.
End avx2_acc.

(** *** Scaling in place *)
Section scale.
Context (t : NibbleTables) (Ht : tables_ok t) (dst : bytes) (Hok : bytes_ok dst).
Local Abbreviation fin := (scalar_byte t <$> dst).

Lemma scale_length : length fin = length dst.
Proof. apply length_fmap. Qed.

Lemma scale_block w n prod : (n + w ≤ length dst)%nat →
  (∀ v, length v = w → bytes_ok v → prod v = scalar_byte t <$> v) →
  prod (take w (drop n dst)) = take w (drop n fin).
Proof.
  intros Hn Hprod. rw Hprod; [by rw fmap_take fmap_drop|rw length_take length_drop; lia|].
  by apply Forall_take, Forall_drop.
Qed.

Lemma scale_step16 prod n : (n + 16 ≤ length dst)%nat →
  (∀ v, length v = 16%nat → bytes_ok v → prod v = scalar_byte t <$> v) →
  (inp ← loadu 16 (partial fin dst n) n; storeu (partial fin dst n) n (prod inp))
  = Ok (partial fin dst (n + 16)).
Proof.
  intros Hn Hprod. rw loadu_partial; [|apply scale_length|lia..].
  rw bind_Ok (scale_block 16) //. apply storeu_partial; [apply scale_length|lia].
Qed.

Lemma scale_tail n r : (n + r = length dst)%nat →
  (d ← slice (partial fin dst n) n (n + r);
   Ok (take n (partial fin dst n) ++ scalar_mul_scale d t
       ++ drop (n + r) (partial fin dst n))) = Ok (E:=DelpError) fin.
Proof.
  intros Hn. pose proof scale_length.
  rw slice_ok; [|rw partial_length //; lia]. rw bind_Ok partial_drop //; [|lia].
  replace (n + r - n)%nat with r by lia. unfold scalar_mul_scale.
  rw fmap_take fmap_drop (take_ge (drop n fin)); [|rw length_drop; lia].
  by rw partial_tail.
Qed.

Lemma ssse3_mul_scale_spec : ssse3_mul_scale dst t = Ok fin.
Proof.
  unfold ssse3_mul_scale. pose proof (Nat.div_mod_eq (length dst) 16).
  rw (passes_loop fin dst scale_length 16); [rw bind_Ok; apply scale_tail; lia|].
  intros i Hi. apply (scale_step16 (ssse3_prod t)); [lia|].
  intros; by apply ssse3_prod_spec.
Qed.

Lemma neon_mul_scale_spec : neon_mul_scale dst t = Ok fin.
Proof.
  unfold neon_mul_scale. pose proof (Nat.div_mod_eq (length dst) 16).
  match goal with |- context [mfor ?b] => set (body := b) end.
  assert (∀ k, (k ≤ length dst / 16)%nat →
    mfor body (dst, 0%nat) (seq 0 k) = Ok (partial fin dst (k * 16), (k * 16)%nat)) as Hl.
  { induction k as [|k IH]; intros Hk; [done|]. rw seq_S mfor_app IH; [|lia].
    rw bind_Ok. cbn [mfor]. unfold body at 1.
    pose proof (scale_step16 (neon_prod t) (k * 16)%nat) as Hs.
    apply bind_Ok_inv in Hs as (inp & Hinp & Hst);
      [|lia|intros; by apply neon_prod_spec].
    rw Hinp bind_Ok Hst !bind_Ok. do 3 f_equal; lia. }
  rw Hl; [|done]. rw bind_Ok. case_match eqn:E.
  - apply scale_tail. lia.
  - apply Nat.ltb_ge in E. f_equal. unfold partial.
    rw drop_ge; [|lia]. rw app_nil_r take_ge //. rw scale_length. lia.
Qed.
End scale.

Lemma avx2_mul_scale_spec t dst : tables_ok t → bytes_ok dst →
  avx2_mul_scale dst t = Ok (scalar_byte t <$> dst).
Proof.
  intros Ht Hok. unfold avx2_mul_scale. pose proof (Nat.div_mod_eq (length dst) 64).
  pose proof (scale_length t dst) as Hfin. set (fin := scalar_byte t <$> dst) in *.
  assert (∀ n, (n + 32 ≤ length dst)%nat →
    avx2_prod t (take 32 (drop n dst)) = take 32 (drop n fin)) as Hb.
  { intros n Hn. apply (scale_block t dst Hok 32); [done|]. intros; by apply avx2_prod_spec. }
  rw (passes_loop fin dst Hfin 64).
  - rw bind_Ok. set (n := (length dst / 64 * 64)%nat).
    rw (slice_ok (partial fin dst n)); [|rw partial_length //; lia].
    rw bind_Ok partial_drop //; [|lia].
    replace (n + length dst mod 64 - n)%nat with (length dst mod 64)%nat by lia.
    rw ssse3_mul_scale_spec //; [|by apply Forall_take, Forall_drop].
    rw bind_Ok fmap_take fmap_drop -/fin (take_ge (drop n fin)); [|rw length_drop; lia].
    by rw partial_tail; [|lia..].
  - intros i Hi. set (n := (i * 64)%nat).
    rw (loadu_partial fin dst Hfin 32 n n); [|lia..].
    rw bind_Ok (loadu_partial fin dst Hfin 32 n (n + 32)); [|lia..].
    rw bind_Ok !Hb; [|lia..]. rw storeu_partial //; [|lia].
    rw bind_Ok storeu_partial //; [|lia]. do 2 f_equal. lia.
Qed.

Lemma mul_acc_raw_spec t d dst src : tables_ok t → length dst = length src → bytes_ok src →
  mul_acc_raw dst src t d = Ok (zip_with (acc_byte t) dst src).
Proof.
  intros Ht Hlen Hsrc. destruct d; cbn.
  - by apply avx2_mul_acc_spec.
  - by apply ssse3_mul_acc_spec.
  - by apply neon_mul_acc_spec.
  - by rw scalar_mul_acc_eq.
Qed.

Lemma mul_scale_raw_spec t d buf : tables_ok t → bytes_ok buf →
  mul_scale_raw buf t d = Ok (scalar_byte t <$> buf).
Proof.
  intros Ht Hok. destruct d; cbn.
  - by apply avx2_mul_scale_spec.
  - by apply ssse3_mul_scale_spec.
  - by apply neon_mul_scale_spec.
  - done.
Qed.

(** *** The tables hold products *)
Lemma tables_ok_gf2_8 c : tables_ok (gf2_8_tbl c).
Proof. split; apply length_fmap. Qed.
Lemma tables_ok_gf2_4 c : tables_ok (gf2_4_tbl c).
Proof. split; apply length_fmap. Qed.
#[export] Hint Resolve tables_ok_gf2_8 tables_ok_gf2_4 : gf.

Lemma tget_nibbles (f : Z → Z) i : 0 ≤ i < 16 → tget (f <$> nibbles) i = f i.
Proof.
  intros Hi. unfold nibbles. rw -list_fmap_compose -{1}(Z2Nat.id i); [|lia].
  rw tget_map_seq; [|lia]. unfold compose. by rw Z2Nat.id; [|lia].
Qed.

Lemma byte_split_check s : is_u8 s →
  Z.lxor (nib_lo s) (u8 (Z.shiftl (nib_hi s) 4)) = s ∧ is_u8 (u8 (Z.shiftl (nib_hi s) 4)).
Proof.
  intros Hs. split; [|apply u8_is]. apply Z.eqb_eq.
  apply (all_below_spec 256
    (λ s, Z.lxor (nib_lo s) (u8 (Z.shiftl (nib_hi s) 4)) =? s)); [by vm_compute|done].
Qed.

Lemma scalar_byte_gf2_8 c s : is_u8 c → is_u8 s →
  scalar_byte (gf2_8_tbl c) s = smul Gf2_8 c s.
Proof.
  intros Hc Hs. rw scalar_byte_nib //. unfold gf2_8_tbl, for_gf2_8. cbn [nt_lo nt_hi].
  rw !tget_nibbles; [|nib_side..].
  destruct (byte_split_check s Hs) as [Hsplit Hu].
  rw -{3}Hsplit. symmetry. apply (gf_mul_lxor_l Gf2_8_field); [|done..].
  pose proof (nib_lo_range s). change (0 ≤ nib_lo s < 256). lia.
Qed.

Lemma packed_check c : 0 ≤ c < 16 →
  Z.land (Z.lor (u8 (Z.shiftl c 4)) c) 15 = c ∧ Z.shiftr (Z.lor (u8 (Z.shiftl c 4)) c) 4 = c.
Proof.
  intros Hc. rw -!Z.eqb_eq -andb_true_iff.
  apply (all_below_spec 16 (λ c, (Z.land (Z.lor (u8 (Z.shiftl c 4)) c) 15 =? c)
    && (Z.shiftr (Z.lor (u8 (Z.shiftl c 4)) c) 4 =? c))); [by vm_compute|done].
Qed.

Lemma scalar_byte_gf2_4 c s : 0 ≤ c < 16 → is_u8 s →
  scalar_byte (gf2_4_tbl (Z.lor (u8 (Z.shiftl c 4)) c)) s = smul Gf2_4 c s.
Proof.
  intros Hc Hs. rw scalar_byte_nib //. unfold gf2_4_tbl, for_gf2_4. cbn [nt_lo nt_hi].
  destruct (packed_check c Hc) as [-> ->].
  rw !tget_nibbles; [|nib_side..]. unfold nib_pack.
  assert (0 ≤ gf2_4_mul_raw (nib_hi s) c < 16) by (apply mul4_range; nib_side).
  assert (0 ≤ gf2_4_mul_raw (nib_lo s) c < 16) by (apply mul4_range; nib_side).
  apply Z.eqb_eq. apply (nib_pair_check
    (λ h l, Z.lxor l (u8 (Z.shiftl h 4)) =? Z.lor (u8 (Z.shiftl h 4)) l)); [|done..].
  by vm_compute.
Qed.

Lemma zip_acc_smul t f c dst src : bytes_ok src →
  (∀ s, is_u8 s → scalar_byte t s = smul f c s) →
  zip_with (acc_byte t) dst src = vxor dst (smul f c <$> src).
Proof.
  intros Hsrc Ht. unfold vxor. rw zip_with_fmap_r. revert dst.
  induction Hsrc as [|s src Hs Hsrc IH]; intros [|d dst]; simpl; try done.
  f_equal; [|apply IH]. unfold acc_byte. by rw Ht.
Qed.

Lemma fmap_scalar_smul t f c buf : bytes_ok buf →
  (∀ s, is_u8 s → scalar_byte t s = smul f c s) → scalar_byte t <$> buf = smul f c <$> buf.
Proof.
  intros Hb Ht. induction Hb as [|s b Hs Hb IH]; [done|]. cbn. by rw Ht // IH.
Qed.

Lemma vxor_zero a c f b : c = 0 → length a = length b → bytes_ok b →
  vxor a (smul f c <$> b) = a.
Proof.
  intros -> Hl Hb. unfold vxor. revert a Hl. induction Hb as [|x b Hx Hb IH];
    intros [|y a] [=]; [done|]. cbn. rw smul_0_l // Z.lxor_0_r. by rw (IH a).
Qed.

(** ** What the entry points compute: [dst[i] ^= coef * src[i]] and
    [buf[i] = coef * buf[i]], on every CPU. *)
Lemma mul_acc_spec cpu f dst src c :
  length dst = length src → bytes_ok src → coef_ok f c →
  mul_acc cpu f dst src c = Ok (vxor dst (smul f c <$> src)).
Proof.
  intros Hlen Hsrc Hc. destruct f; cbn.
  - unfold mul_acc_gf2_8. rw (proj2 (Nat.eqb_eq _ _) Hlen). cbn.
    destruct (Z.eqb_spec c 0) as [->|Hc0]; [by rw vxor_zero|].
    rw mul_acc_raw_spec; [|auto with gf..|done|done]. f_equal.
    apply zip_acc_smul; [done|]. intros. by apply scalar_byte_gf2_8.
  - change (0 ≤ c < 16) in Hc.
    unfold mul_acc_gf2_4. rw (proj2 (Nat.eqb_eq _ _) Hlen). cbn.
    rw land15 Z.mod_small //.
    destruct (Z.eqb_spec c 0) as [->|Hc0]; [by rw vxor_zero|].
    rw mul_acc_raw_spec; [|auto with gf..|done|done]. f_equal.
    apply zip_acc_smul; [done|]. intros. by apply scalar_byte_gf2_4.
Qed.

Lemma fmap_const (f : Z → Z) z buf : (∀ b, b ∈ buf → f b = z) → f <$> buf = replicate (length buf) z.
Proof.
  induction buf as [|b buf IH]; intros H; [done|]. cbn. rw H; [|by left]. f_equal.
  apply IH. intros. apply H. by right.
Qed.

Lemma mul_scale_spec cpu f buf c : bytes_ok buf → coef_ok f c →
  mul_scale cpu f buf c = Ok (smul f c <$> buf).
Proof.
  intros Hb Hc. rw Forall_forall in Hb. pose proof (proj2 (Forall_forall _ _) Hb) as Hb'.
  assert (c = 0 → Ok (E:=DelpError) (replicate (length buf) 0) = Ok (smul f c <$> buf)) as H0.
  { intros ->. f_equal. symmetry. apply fmap_const. intros. apply smul_0_l. auto. }
  destruct f; cbn.
  - unfold mul_scale_gf2_8. destruct (Z.eqb_spec c 0) as [Hc0|Hc0]; [by apply H0|].
    destruct (Z.eqb_spec c 1) as [->|Hc1].
    { f_equal. rw -{1}(list_fmap_id buf). apply list_fmap_ext. intros i b Hi.
      symmetry. apply (smul_1 Gf2_8), Hb, list_elem_of_lookup. by exists i. }
    rw mul_scale_raw_spec; [|auto with gf|done]. f_equal.
    apply fmap_scalar_smul; [done|]. intros. by apply scalar_byte_gf2_8.
  - change (0 ≤ c < 16) in Hc. unfold mul_scale_gf2_4. rw land15 Z.mod_small //.
    destruct (Z.eqb_spec c 0) as [Hc0|Hc0]; [by apply H0|].
    rw mul_scale_raw_spec; [|auto with gf|done]. f_equal.
    apply fmap_scalar_smul; [done|]. intros. by apply scalar_byte_gf2_4.
Qed.

(** ** The entry points against the source's reference implementations *)
Definition mul_acc_reference (f : Field) (dst src : bytes) (coef : Z) : bytes :=
  match f with
  | Gf2_8 => mul_acc_gf2_8_reference dst src coef
  | Gf2_4 => mul_acc_gf2_4_reference dst src coef
  end.

Lemma mul_acc_reference_smul f dst src c : length dst = length src → coef_ok f c →
  mul_acc_reference f dst src c = vxor dst (smul f c <$> src).
Proof.
  intros Hlen Hc. assert (drop (length src) dst = []) as Hd by (apply drop_ge; lia).
  destruct f; cbn [mul_acc_reference]; unfold mul_acc_gf2_8_reference, mul_acc_gf2_4_reference, vxor;
    rw Hd app_nil_r zip_with_fmap_r; [done|].
  change (0 ≤ c < 16) in Hc. by rw land15 Z.mod_small.
Qed.

(** C22: on every CPU, for every buffer length, [mul_acc] computes the source's
    scalar reference [dst[i] ^= coef * src[i]] (two nibbles at a time in
    GF(2^4)); buffers of different lengths panic. *)
Theorem mul_acc_every_cpu cpu f dst src c : bytes_ok src → coef_ok f c →
  mul_acc cpu f dst src c =
    if (length dst =? length src)%nat then Ok (mul_acc_reference f dst src c) else Panic.
Proof.
  intros Hs Hc. destruct (Nat.eqb_spec (length dst) (length src)) as [Hl|Hl].
  - by rw mul_acc_spec // mul_acc_reference_smul.
  - apply Nat.eqb_neq in Hl. destruct f; cbn; unfold mul_acc_gf2_8, mul_acc_gf2_4; by rw Hl.
Qed.

Lemma mul_acc_every_cpu_witness :
  let src := Z.of_nat <$> seq 100 37 in
  mul_acc Avx2 Gf2_4 (replicate 37 170) src 13 = Ok (mul_acc_reference Gf2_4 (replicate 37 170) src 13).
Proof.
  intros src. apply (mul_acc_every_cpu Avx2 Gf2_4 (replicate 37 170) src 13).
  - apply (bool_decide_unpack _). vm_compute. exact I.
  - unfold elem. change (@ORDER (gf_field Gf2_4)) with 16. lia.
Defined.

(** On every CPU [mul_scale] multiplies every byte by the scalar, it keeps
    the length, and scaling by an inverse restores the buffer. *)
Theorem mul_scale_every_cpu cpu f buf c : bytes_ok buf → coef_ok f c →
  mul_scale cpu f buf c = Ok (smul f c <$> buf) ∧
  length (smul f c <$> buf) = length buf ∧
  (∀ i, coef_ok f i → @gf_mul (gf_field f) i c = 1 →
    mul_scale cpu f (smul f c <$> buf) i = Ok buf).
Proof.
  intros Hb Hc. split_and!; [by apply mul_scale_spec|apply length_fmap|].
  intros i Hi Hic. pose proof (proj1 (Forall_forall _ _) Hb) as Hb'. rw mul_scale_spec //.
  - f_equal. rw -list_fmap_compose. rw -{2}(list_fmap_id buf). apply list_fmap_ext. intros k b Hk.
    apply list_elem_of_lookup_2 in Hk. cbn. rw smul_smul //; [|by apply Hb'].
    rw Hic. by apply smul_1, Hb'.
  - apply Forall_fmap. eapply Forall_impl; [exact Hb|]. intros b. by apply smul_u8.
Qed.

Lemma mul_scale_every_cpu_witness :
  mul_scale Neon Gf2_8 (Z.of_nat <$> seq 0 20) 29 = Ok (smul Gf2_8 29 <$> (Z.of_nat <$> seq 0 20)).
Proof.
  apply (mul_scale_every_cpu Neon Gf2_8 (Z.of_nat <$> seq 0 20) 29).
  - apply (bool_decide_unpack _). vm_compute. exact I.
  - unfold elem. change (@ORDER (gf_field Gf2_8)) with 256. lia.
Defined.
