(* ===== verification/CoefGen.v ===== *)
(** * wire/ev/coef_gen.rs: Vandermonde and Cauchy coefficients *)

From S2P Require Import Prelude Error Config Tables Gf.

(** ** Vandermonde *)
Definition vandermonde_coef (field : Field) (src_id coded_id : Z) : Z :=
  match field with
  | Gf2_8 => @to_u8 Gf2_8_field (@vandermonde Gf2_8_field src_id coded_id)
  | Gf2_4 => @to_u8 Gf2_4_field (@vandermonde Gf2_4_field src_id coded_id)
  end.

Definition vandermonde_packed_gf2_4 (src_id_hi src_id_lo coded_id : Z) : Z :=
  let hi := Z.land (@to_u8 Gf2_4_field (@vandermonde Gf2_4_field src_id_hi coded_id)) 15 in
  let lo := Z.land (@to_u8 Gf2_4_field (@vandermonde Gf2_4_field src_id_lo coded_id)) 15 in
  Z.lor (u8 (Z.shiftl hi 4)) lo.

Definition vandermonde_batch (field : Field) (source_ids : list Z) (coded_id : Z) : list Z :=
  match field with
  | Gf2_8 => (λ sid, @to_u8 Gf2_8_field (@vandermonde Gf2_8_field sid coded_id)) <$> source_ids
  | Gf2_4 => (λ sid, Z.land (@to_u8 Gf2_4_field (@vandermonde Gf2_4_field sid coded_id)) 15)
               <$> source_ids
  end.

(** [VandermondeRow] *)
Record VandermondeRow := { vr_field : Field; vr_coded_id : Z }.
Definition VandermondeRow_coef (r : VandermondeRow) (src_id : Z) : Z :=
  vandermonde_coef (vr_field r) src_id (vr_coded_id r).

(** ** Cauchy *)
Definition cauchy_coef_gf2_8 (src_id coded_id generation : Z) : result Z :=
  let x := u8 (Z.land src_id 127) in
  let y_offset := Z.land (u32 (coded_id + u32 (generation * 7))) 127 in
  let y := u8 (128 + u8 y_offset) in
  let denom := @from_u8 Gf2_8_field (Z.lxor x y) in
  i ← @gf_inv Gf2_8_field denom;
  Ok (@to_u8 Gf2_8_field i).

Definition cauchy_batch_gf2_8 (source_ids : list Z) (coded_id generation : Z) : result (list Z) :=
  mmap (λ sid, cauchy_coef_gf2_8 sid coded_id generation) source_ids.

Definition cauchy_coef_gf2_4 (src_id coded_id generation : Z) : result Z :=
  let x := u8 (src_id mod 7) in
  let y_offset := u8 (u32 (coded_id + u32 (generation * 3)) mod 7) in
  let y := u8 (8 + y_offset) in
  let denom := @from_u8 Gf2_4_field (Z.lxor x y) in
  i ← @gf_inv Gf2_4_field denom;
  Ok (@to_u8 Gf2_4_field i).

Definition cauchy_batch_gf2_4 (source_ids : list Z) (coded_id generation : Z) : result (list Z) :=
  mmap (λ sid, cauchy_coef_gf2_4 sid coded_id generation) source_ids.

(** The [debug_assertions] helpers. *)
Definition verify_cauchy_2x2_nonsingular (s0 s1 c0 c1 : Z) : result bool :=
  a00 ← cauchy_coef_gf2_8 s0 c0 0;
  a01 ← cauchy_coef_gf2_8 s0 c1 0;
  a10 ← cauchy_coef_gf2_8 s1 c0 0;
  a11 ← cauchy_coef_gf2_8 s1 c1 0;
  let det := @gf_add Gf2_8_field (@gf_mul Gf2_8_field a00 a11) (@gf_mul Gf2_8_field a01 a10) in
  Ok (negb (det =? 0)).
Definition verify_cauchy_gf2_4_2x2_nonsingular (s0 s1 c0 c1 : Z) : result bool :=
  a00 ← cauchy_coef_gf2_4 s0 c0 0;
  a01 ← cauchy_coef_gf2_4 s0 c1 0;
  a10 ← cauchy_coef_gf2_4 s1 c0 0;
  a11 ← cauchy_coef_gf2_4 s1 c1 0;
  let det := @gf_add Gf2_4_field (@gf_mul Gf2_4_field a00 a11) (@gf_mul Gf2_4_field a01 a10) in
  Ok (negb (det =? 0)).

(** ** The evaluation points

    [cx] and [cy] are the x- and y-coordinates the two formulas compute. *)
Definition cx (f : Field) (src : Z) : Z :=
  match f with Gf2_8 => src mod 128 | Gf2_4 => src mod 7 end.
Definition cy (f : Field) (coded gen : Z) : Z :=
  match f with
  | Gf2_8 => 128 + (coded + gen * 7) mod 128
  | Gf2_4 => 8 + (coded + gen * 3) mod 7
  end.
Definition cauchy_coef (f : Field) (src coded gen : Z) : result Z :=
  match f with
  | Gf2_8 => cauchy_coef_gf2_8 src coded gen
  | Gf2_4 => cauchy_coef_gf2_4 src coded gen
  end.
Definition cauchy_batch (f : Field) (ids : list Z) (coded gen : Z) : result (list Z) :=
  match f with
  | Gf2_8 => cauchy_batch_gf2_8 ids coded gen
  | Gf2_4 => cauchy_batch_gf2_4 ids coded gen
  end.

Lemma cauchy_points f src coded gen : 
  0 ≤ cx f src < ORDER (GfField := gf_field f) `div` 2 ∧
  ORDER (GfField := gf_field f) `div` 2 ≤ cy f coded gen < ORDER (GfField := gf_field f).
Proof.
  destruct f; cbn [cx cy gf_field]; unfold ORDER, Gf2_8_field, Gf2_4_field.
  - change (Z.of_nat GF2_8_ORDER) with 256. change (256 `div` 2) with 128.
    pose proof (Z.mod_pos_bound src 128). pose proof (Z.mod_pos_bound (coded + gen * 7) 128). lia.
  - change (Z.of_nat GF2_4_ORDER) with 16. change (16 `div` 2) with 8.
    pose proof (Z.mod_pos_bound src 7). pose proof (Z.mod_pos_bound (coded + gen * 3) 7). lia.
Qed.

(** The code's formulas are the inverse of the sum of the two points. *)
Lemma cauchy_coef_inv f src coded gen :
  is_u32 src → 0 ≤ coded < 128 → is_u8 gen →
  cauchy_coef f src coded gen = @gf_inv (gf_field f) (Z.lxor (cx f src) (cy f coded gen)).
Proof.
  intros Hs Hc Hg. pose proof (cauchy_points f src coded gen) as [Hx Hy].
  destruct f; cbn [cauchy_coef cx cy gf_field] in *;
    unfold cauchy_coef_gf2_8, cauchy_coef_gf2_4, ORDER, Gf2_8_field, Gf2_4_field in *.
  - change (Z.of_nat GF2_8_ORDER) with 256 in *. change (256 `div` 2) with 128 in *.
    change 127 with (Z.ones 7). rw !Z.land_ones; [|lia..].
    change (2 ^ 7) with 128. unfold u8, u32. unfold is_u32, is_u8 in *.
    rw (Z.mod_small (gen * 7) 4294967296); [|lia]. rw (Z.mod_small (coded + gen * 7) 4294967296); [|lia].
    rw (Z.mod_small (src mod 128) 256); [|lia].
    rw (Z.mod_small ((coded + gen * 7) mod 128) 256); [|lia]. rw (Z.mod_small (128 + _) 256); [|lia].
    change (gf_inv ?x) with (gf2_8_inv x). cbn [from_u8 to_u8].
    by destruct (gf2_8_inv _).
  - change (Z.of_nat GF2_4_ORDER) with 16 in *. change (16 `div` 2) with 8 in *.
    unfold u8, u32. unfold is_u32, is_u8 in *.
    rw (Z.mod_small (gen * 3) 4294967296); [|lia]. rw (Z.mod_small (coded + gen * 3) 4294967296); [|lia].
    rw (Z.mod_small (src mod 7) 256); [|lia].
    rw (Z.mod_small ((coded + gen * 3) mod 7) 256); [|lia]. rw (Z.mod_small (8 + _) 256); [|lia].
    change (gf_inv ?x) with (gf2_4_inv x). cbn [from_u8 to_u8]. rw land15 Z.mod_small.
    + by destruct (gf2_4_inv _).
    + apply (lxor_bound 4); lia.
Qed.

Lemma cauchy_sum_elem f src coded gen :
  coef_ok f (Z.lxor (cx f src) (cy f coded gen)) ∧ Z.lxor (cx f src) (cy f coded gen) ≠ 0.
Proof.
  pose proof (cauchy_points f src coded gen) as [Hx Hy].
  pose proof (gf_order (gf_field f)). split.
  - apply elem_lxor; [apply _|..]; unfold elem; lia.
  - intros Heq%lxor_0_eq. lia.
Qed.

(** ** Cauchy matrices have trivial kernels *)
Section kernel.
Context (K : GfField) `{!GfLaws K}.
Local Notation "a ⊗ b" := (gf_mul a b) (at level 40, left associativity).
Local Notation "a ⊕ b" := (Z.lxor a b) (at level 50, left associativity).

(** The inverse as a total function. *)
Definition ginv (a : Z) : Z := match gf_inv a with Ok b => b | _ => 0 end.

Lemma ginv_spec a : elem a → a ≠ 0 →
  gf_inv a = Ok (ginv a) ∧ elem (ginv a) ∧ ginv a ≠ 0 ∧ a ⊗ ginv a = 1.
Proof.
  intros Ha Ha0. unfold ginv. destruct (gf_inv_ex K a Ha Ha0) as (b & -> & ? & ? & ? & _).
  done.
Qed.
Lemma ginv_elem a : elem a → a ≠ 0 → elem (ginv a).
Proof. intros. by apply ginv_spec. Qed.
Local Hint Resolve ginv_elem : gf.

(** Finite sums over a list. *)
Definition gsum {A} (f : A → Z) (l : list A) : Z := foldr (λ a s, f a ⊕ s) 0 l.

Lemma gsum_elem {A} (f : A → Z) l : (∀ a, a ∈ l → elem (f a)) → elem (gsum f l).
Proof.
  induction l as [|a l IH]; intros H; simpl; [apply elem_0, _|].
  apply elem_lxor; [apply _|apply H; by left|apply IH; intros; apply H; by right].
Qed.
Lemma gsum_ext {A} (f g : A → Z) l : (∀ a, a ∈ l → f a = g a) → gsum f l = gsum g l.
Proof.
  induction l as [|a l IH]; intros H; simpl; [done|].
  rw H; [|by left]. f_equal. apply IH. intros. apply H. by right.
Qed.
Lemma gsum_zero {A} (f : A → Z) l : (∀ a, a ∈ l → f a = 0) → gsum f l = 0.
Proof.
  induction l as [|a l IH]; intros H; simpl; [done|].
  rw H; [|by left]. apply IH. intros. apply H. by right.
Qed.
Lemma gsum_lxor {A} (f g : A → Z) l : gsum (λ a, f a ⊕ g a) l = gsum f l ⊕ gsum g l.
Proof. induction l as [|a l IH]; simpl; [done|]. by rw IH lxor_swap. Qed.
Lemma gsum_mul {A} c (f : A → Z) l : elem c → (∀ a, a ∈ l → elem (f a)) →
  c ⊗ gsum f l = gsum (λ a, c ⊗ f a) l.
Proof.
  intros Hc. induction l as [|a l IH]; intros H; simpl; [by apply gf_mul_0_r|].
  assert (∀ a, a ∈ l → elem (f a)) by (intros; apply H; by right).
  rw gf_mul_lxor_r //; [|apply H; by left|by apply gsum_elem]. by rw IH.
Qed.

(** A point [x] with the scalar [v] that multiplies its row. *)
Definition cterm (y : Z) (p : Z * Z) : Z := p.2 ⊗ ginv (p.1 ⊕ y).
Definition csum (xv : list (Z * Z)) (y : Z) : Z := gsum (cterm y) xv.

(** [(s + b) v / b = v + v s / b], the step that eliminates one point. *)
Lemma cauchy_split s b v : elem s → elem b → elem v → b ≠ 0 →
  (s ⊕ b) ⊗ (v ⊗ ginv b) = (v ⊗ s) ⊗ ginv b ⊕ v.
Proof.
  intros Hs Hb Hv Hb0. destruct (ginv_spec b Hb Hb0) as (_ & Hi & _ & Hbi).
  rw gf_mul_lxor_l //; [|by apply gf_mul_elem]. f_equal.
  - rw -gf_mul_assoc //. by rw (gf_mul_comm K s v).
  - rw (gf_mul_comm K v) // -gf_mul_assoc // Hbi. by apply gf_mul_1.
Qed.

(** [1/b + 1/c = (b + c) / (b c)] *)
Lemma ginv_diff b c : elem b → elem c → b ≠ 0 → c ≠ 0 →
  ginv b ⊕ ginv c = (b ⊕ c) ⊗ (ginv b ⊗ ginv c).
Proof.
  intros Hb Hc Hb0 Hc0. destruct (ginv_spec b Hb Hb0) as (_ & Hbi & _ & Hb1).
  destruct (ginv_spec c Hc Hc0) as (_ & Hci & _ & Hc1).
  rw gf_mul_lxor_l //; [|by apply gf_mul_elem].
  rw -gf_mul_assoc // Hb1 gf_mul_1 // Z.lxor_comm. f_equal.
  rw (gf_mul_comm K (ginv b)) // -gf_mul_assoc // Hc1. by rw gf_mul_1.
Qed.

Lemma mul_shuffle d v a b : elem d → elem v → elem a → elem b →
  d ⊗ (v ⊗ a ⊗ b) = v ⊗ (d ⊗ (b ⊗ a)).
Proof.
  intros. rw (gf_mul_comm K b a) // (gf_mul_assoc K v a b) //.
  assert (elem (a ⊗ b)) by auto with gf.
  rw -(gf_mul_assoc K d v) // (gf_mul_comm K d v) //. by apply gf_mul_assoc.
Qed.

Definition points_ok (xv : list (Z * Z)) (ys : list Z) : Prop :=
  NoDup xv.*1 ∧ NoDup ys ∧ Forall (λ p, elem p.1 ∧ elem p.2) xv ∧ Forall elem ys ∧
  (∀ x y, x ∈ xv.*1 → y ∈ ys → x ≠ y).

Lemma points_sum x y : elem x → elem y → x ≠ y → elem (x ⊕ y) ∧ x ⊕ y ≠ 0.
Proof. intros Hx Hy Hne. split; [by apply elem_lxor|]. by intros ?%lxor_0_eq. Qed.

Section eliminate.
Context (x0 v0 y0 : Z) (xv : list (Z * Z)).
Hypothesis Hx0 : elem x0.
Hypothesis Hv0 : elem v0.
Hypothesis Hxv : ∀ p, p ∈ xv → elem p.1 ∧ elem p.2 ∧ x0 ≠ p.1.

(** A point at which all inverses exist. *)
Definition clear_of (y : Z) : Prop := elem y ∧ x0 ≠ y ∧ ∀ p, p ∈ xv → p.1 ≠ y.

Lemma clear_term y p : clear_of y → p ∈ xv → elem (p.1 ⊕ y) ∧ p.1 ⊕ y ≠ 0.
Proof. intros (Hy & _ & H) Hp. apply points_sum; [by apply Hxv|done|by apply H]. Qed.

Definition vs (p : Z * Z) : Z := p.2 ⊗ (x0 ⊕ p.1).
Lemma vs_elem p : p ∈ xv → elem (vs p).
Proof.
  intros Hp. destruct (Hxv p Hp) as (? & ? & ?). apply gf_mul_elem; [apply _|done|].
  by apply elem_lxor.
Qed.

(** The equation at [y], multiplied by [x0 + y]. *)
Lemma cauchy_scaled y : clear_of y → csum ((x0, v0) :: xv) y = 0 →
  v0 ⊕ gsum (λ p, vs p ⊗ ginv (p.1 ⊕ y)) xv ⊕ gsum snd xv = 0.
Proof.
  intros Hc Hz. pose proof Hc as (Hy & Hne & _).
  destruct (points_sum x0 y) as [Ha Ha0]; [done..|].
  assert (∀ p, p ∈ xv → elem (cterm y p)) as Hct.
  { intros p Hp. destruct (clear_term y p Hc Hp), (Hxv p Hp) as (? & ? & ?).
    apply gf_mul_elem; auto with gf. }
  apply (f_equal (gf_mul (x0 ⊕ y))) in Hz. unfold csum in Hz. cbn in Hz.
  rw gf_mul_0_r // in Hz. rw gf_mul_lxor_r // in Hz;
    [|apply gf_mul_elem; auto with gf|by apply gsum_elem].
  rw gsum_mul // in Hz. rw -Hz Z.lxor_assoc -gsum_lxor. f_equal.
  - unfold cterm. cbn. destruct (ginv_spec _ Ha Ha0) as (_ & Hi & _ & H1).
    rw (gf_mul_comm K v0) // -gf_mul_assoc // H1. symmetry. by apply gf_mul_1.
  - apply gsum_ext. intros p Hp.
    destruct (clear_term y p Hc Hp), (Hxv p Hp) as (? & ? & ?).
    unfold vs. rw -cauchy_split //; [|by apply elem_lxor]. unfold cterm. f_equal.
    by rw Z.lxor_assoc lxor_cancel_l.
Qed.

Definition reduced : list (Z * Z) := (λ p, (p.1, vs p ⊗ ginv (p.1 ⊕ y0))) <$> xv.

(** Two such equations eliminate [x0]. *)
Lemma cauchy_eliminate y :
  clear_of y → clear_of y0 → y ≠ y0 →
  csum ((x0, v0) :: xv) y = 0 → csum ((x0, v0) :: xv) y0 = 0 → csum reduced y = 0.
Proof.
  intros Hc Hc0 Hne Hy%cauchy_scaled Hy0%cauchy_scaled; [|done..].
  pose proof Hc as (Hey & _). pose proof Hc0 as (Hey0 & _).
  assert (∀ p, p ∈ xv → elem (vs p ⊗ ginv (p.1 ⊕ y0))) as Hw.
  { intros p Hp. destruct (clear_term y0 p Hc0 Hp). apply gf_mul_elem;
      [apply _|by apply vs_elem|by apply ginv_elem]. }
  assert (∀ p, p ∈ xv → elem (vs p ⊗ ginv (p.1 ⊕ y0) ⊗ ginv (p.1 ⊕ y))) as Hw'.
  { intros p Hp. destruct (clear_term y p Hc Hp). apply gf_mul_elem;
      [apply _|by apply Hw|by apply ginv_elem]. }
  assert (csum reduced y = gsum (λ p, vs p ⊗ ginv (p.1 ⊕ y0) ⊗ ginv (p.1 ⊕ y)) xv) as ->.
  { unfold csum, reduced, gsum. by rw foldr_fmap. }
  destruct (points_sum y y0) as [Hs Hs0]; [done..|].
  destruct (gf_mul_eq_0 K (y ⊕ y0) (gsum (λ p, vs p ⊗ ginv (p.1 ⊕ y0) ⊗ ginv (p.1 ⊕ y)) xv));
    [done|by apply gsum_elem| |done|done].
  rw gsum_mul //.
  rw (gsum_ext _ (λ p, vs p ⊗ ginv (p.1 ⊕ y) ⊕ vs p ⊗ ginv (p.1 ⊕ y0))).
  - rw gsum_lxor -(Z.lxor_nilpotent (gsum (λ p, vs p ⊗ ginv (p.1 ⊕ y)) xv)). f_equal.
    rw -Hy in Hy0. rw !Z.lxor_assoc in Hy0. apply (f_equal (Z.lxor v0)) in Hy0.
    rw !lxor_cancel_l in Hy0. apply (f_equal (λ z, z ⊕ gsum snd xv)) in Hy0.
    by rw !lxor_cancel_r in Hy0.
  - intros p Hp. destruct (clear_term y p Hc Hp), (clear_term y0 p Hc0 Hp).
    pose proof (vs_elem p Hp).
    rw -gf_mul_lxor_r; [|auto with gf..]. rw ginv_diff //.
    rw lxor_swap Z.lxor_nilpotent Z.lxor_0_l.
    apply mul_shuffle; auto with gf.
Qed.

(** The reduced equations have only the zero solution when [xv] does. *)
Lemma reduced_zero : clear_of y0 → Forall (λ p, p.2 = 0) reduced →
  ∀ p, p ∈ xv → p.2 = 0.
Proof.
  intros Hc Hred p Hp. apply Forall_fmap in Hred. rw Forall_forall in Hred.
  specialize (Hred p Hp). cbn in Hred.
  destruct (clear_term y0 p Hc Hp) as [Hs Hs0].
  destruct (ginv_spec _ Hs Hs0) as (_ & Hi & Hi0 & _).
  destruct (points_sum x0 p.1) as [Hd Hd0]; [done|by apply Hxv..|].
  apply gf_mul_eq_0 in Hred as [Hred|]; [|done|apply _|by apply vs_elem|done].
  by apply gf_mul_eq_0 in Hred as [|]; [| |apply _|apply Hxv|].
Qed.
End eliminate.

(** A column combination that vanishes at as many points as it has terms is
    trivial: every square Cauchy matrix is nonsingular. *)
Lemma cauchy_kernel_trivial xv ys :
  points_ok xv ys → length ys = length xv → (∀ y, y ∈ ys → csum xv y = 0) →
  Forall (λ p, p.2 = 0) xv.
Proof.
  remember (length xv) as k eqn:Hk. revert xv ys Hk.
  induction k as [|k IH]; intros [|[x0 v0] xv] ys Hk; try done.
  injection Hk as Hk.
  intros (Hnx & Hny & Hxv & Hys & Hdisj) Hlen Hz.
  destruct ys as [|y0 ys]; [done|]. injection Hlen as Hlen.
  apply NoDup_cons in Hnx as [Hx0 Hnx]. apply NoDup_cons in Hny as [Hy0 Hny].
  apply Forall_cons in Hxv as [[Hex0 Hev0] Hxv]. rw Forall_forall in Hys.
  cbn [fst snd] in *. rw Forall_forall in Hxv.
  assert (∀ p, p ∈ xv → elem p.1 ∧ elem p.2 ∧ x0 ≠ p.1) as Hxv'.
  { intros p Hp. destruct (Hxv p Hp). split_and!; [done..|]. intros ->.
    apply Hx0, list_elem_of_fmap. by exists p. }
  assert (∀ y, y ∈ y0 :: ys → clear_of x0 xv y) as Hcl.
  { intros y Hy. split_and!; [by apply Hys|apply Hdisj; [by left|done]|].
    intros p Hp. apply Hdisj; [|done]. right. apply list_elem_of_fmap. by exists p. }
  assert (y0 ∈ y0 :: ys) as Hin0 by (by left).
  assert (Forall (λ p, p.2 = 0) (reduced x0 y0 xv)) as Hred.
  { apply (IH _ ys); [by rw length_fmap| |done|].
    - split_and!; [by rw -list_fmap_compose|done| | |].
      + apply Forall_fmap, Forall_forall. intros p Hp. cbn.
        destruct (clear_term x0 xv Hxv' y0 p (Hcl y0 Hin0) Hp).
        split; [by apply Hxv|]. apply gf_mul_elem; [apply _|by apply (vs_elem x0 xv)|].
        by apply ginv_elem.
      + apply Forall_forall. intros y Hy. apply Hys. by right.
      + intros x y Hx Hy. apply Hdisj; [|by right]. right.
        by rw -list_fmap_compose in Hx.
    - intros y Hy. assert (y ∈ y0 :: ys) by (by right).
      apply (cauchy_eliminate x0 v0 y0 xv); auto. by intros ->. }
  assert (∀ p, p ∈ xv → p.2 = 0) as Hv.
  { apply (reduced_zero x0 y0 xv); auto. }
  constructor; [|by apply Forall_forall]. cbn.
  specialize (Hz y0 Hin0).
  change (v0 ⊗ ginv (x0 ⊕ y0) ⊕ gsum (cterm y0) xv = 0) in Hz.
  assert (gsum (cterm y0) xv = 0) as Hrest.
  { apply gsum_zero. intros p Hp. unfold cterm. rw (Hv p Hp).
    destruct (clear_term x0 xv Hxv' y0 p (Hcl y0 Hin0) Hp). apply gf_mul_0_l; auto with gf. }
  rw Hrest Z.lxor_0_r in Hz.
  destruct (points_sum x0 y0) as [Hs Hs0]; [done|by apply Hys|apply Hdisj; by left|].
  destruct (ginv_spec _ Hs Hs0) as (_ & Hi & Hi0 & _).
  by apply gf_mul_eq_0 in Hz as [|].
Qed.
End kernel.

(** ** The code's coefficients *)

(** Valid coded IDs lie in the strategy's cycle: 128 for GF(2^8), 7 for GF(2^4). *)
Definition cauchy_cycle (f : Field) : Z := match f with Gf2_8 => 128 | Gf2_4 => 7 end.

(** No input reaches the inversion of zero. *)
Lemma cauchy_coef_ok f src coded gen :
  is_u32 src → 0 ≤ coded < cauchy_cycle f → is_u8 gen →
  cauchy_coef f src coded gen = Ok (ginv (gf_field f) (Z.lxor (cx f src) (cy f coded gen))) ∧
  coef_ok f (ginv (gf_field f) (Z.lxor (cx f src) (cy f coded gen))) ∧
  ginv (gf_field f) (Z.lxor (cx f src) (cy f coded gen)) ≠ 0.
Proof.
  intros Hs Hc Hg. destruct (cauchy_sum_elem f src coded gen) as [He He0].
  destruct (ginv_spec (gf_field f) _ He He0) as (Hi & ? & ? & _).
  split_and!; [|done..]. rw cauchy_coef_inv //. destruct f; simpl in Hc; lia.
Qed.

Lemma cauchy_batch_ok f ids coded gen :
  Forall is_u32 ids → 0 ≤ coded < cauchy_cycle f → is_u8 gen →
  cauchy_batch f ids coded gen =
    Ok ((λ s, ginv (gf_field f) (Z.lxor (cx f s) (cy f coded gen))) <$> ids).
Proof.
  intros Hids Hc Hg. rw Forall_forall in Hids.
  destruct f; cbn [cauchy_batch]; unfold cauchy_batch_gf2_8, cauchy_batch_gf2_4;
    apply mmap_pure; intros s Hs;
    [apply (cauchy_coef_ok Gf2_8)|apply (cauchy_coef_ok Gf2_4)]; auto.
Qed.

(** [dot f v c] is the sum of the products of two lists. *)
Fixpoint dot (f : Field) (v c : list Z) : Z :=
  match v, c with
  | a :: v, b :: c => Z.lxor (@gf_mul (gf_field f) a b) (dot f v c)
  | _, _ => 0
  end.

Lemma dot_csum f y srcs v : length v = length srcs →
  dot f v ((λ s, ginv (gf_field f) (Z.lxor (cx f s) y)) <$> srcs)
  = csum (gf_field f) (zip (cx f <$> srcs) v) y.
Proof.
  revert v; induction srcs as [|s srcs IH]; intros [|a v] [=]; [done|].
  cbn [fmap list_fmap dot zip_with]. rw (IH v) //.
Qed.

(** A combination of the sources' columns that every one of as many coded
    packets maps to zero is the zero combination. *)
Lemma cauchy_columns_independent f srcs (rows : list (Z * Z)) v :
  Forall is_u32 srcs → NoDup (cx f <$> srcs) →
  Forall (λ r, 0 ≤ r.1 < cauchy_cycle f ∧ is_u8 r.2) rows →
  NoDup ((λ r, cy f r.1 r.2) <$> rows) →
  length v = length srcs → length rows = length srcs → Forall (coef_ok f) v →
  (∀ r, r ∈ rows → ∃ c, cauchy_batch f srcs r.1 r.2 = Ok c ∧ dot f v c = 0) →
  Forall (λ a, a = 0) v.
Proof.
  intros Hs Hx Hr Hy Hv Hlen He Hz.
  assert (length (zip (cx f <$> srcs) v) = length srcs) as Hzl.
  { rw length_zip_with length_fmap. lia. }
  assert ((zip (cx f <$> srcs) v).*1 = cx f <$> srcs) as H1
    by (apply fst_zip; rw length_fmap; lia).
  assert ((zip (cx f <$> srcs) v).*2 = v) as H2 by (apply snd_zip; rw length_fmap; lia).
  pose proof (cauchy_points f) as Hp.
  rw -H2 Forall_fmap.
  apply (cauchy_kernel_trivial (gf_field f) _ ((λ r, cy f r.1 r.2) <$> rows)).
  - split_and!; [by rw H1|done| | |].
    + apply Forall_forall. intros [x a] Hin. cbn. split.
      * assert (x ∈ (zip (cx f <$> srcs) v).*1) as Hin1
          by (apply list_elem_of_fmap; by exists (x, a)).
        rw H1 in Hin1. apply list_elem_of_fmap in Hin1 as (s & -> & _).
        specialize (Hp s 0 0). unfold elem. lia.
      * rw Forall_forall in He. apply He. rw -H2. apply list_elem_of_fmap. by exists (x, a).
    + apply Forall_fmap, Forall_forall. intros r _. specialize (Hp 0 r.1 r.2).
      unfold elem. pose proof (gf_order (gf_field f)). simpl. lia.
    + intros x y Hxin Hyin. rw H1 in Hxin.
      apply list_elem_of_fmap in Hxin as (s & -> & _), Hyin as (r & -> & _).
      specialize (Hp s r.1 r.2). lia.
  - rw Hzl length_fmap. done.
  - intros y Hyin. apply list_elem_of_fmap in Hyin as (r & -> & Hin).
    destruct (Hz r Hin) as (c & Hc & Hd). rw Forall_forall in Hr. destruct (Hr r Hin).
    rw cauchy_batch_ok // in Hc. injection Hc as <-. by rw -dot_csum.
Qed.

(** Within a generation, different coded IDs are different points. *)
Lemma cy_inj f c c' gen : 0 ≤ c < cauchy_cycle f → 0 ≤ c' < cauchy_cycle f →
  cy f c gen = cy f c' gen → c = c'.
Proof.
  assert (∀ m d, 0 < m → 0 ≤ c < m → 0 ≤ c' < m → (c + d) mod m = (c' + d) mod m → c = c') as Hmod.
  { intros m d Hm Hc Hc' Heq. rw -(Z.mod_small c m) // -(Z.mod_small c' m) //.
    replace c with (c + d - d) by lia. replace c' with (c' + d - d) by lia.
    by rw -Zminus_mod_idemp_l Heq Zminus_mod_idemp_l. }
  intros Hc Hc' Heq. destruct f; cbn [cy cauchy_cycle] in *;
    (eapply Hmod; [|exact Hc|exact Hc'|apply Z.add_reg_l in Heq; exact Heq]); lia.
Qed.

(** Rotating the generation permutes the coded IDs of generation 0: the row
    of [(coded, gen)] is the row of [(coded + gen * K) mod cycle] there. *)
Definition cauchy_rotated (f : Field) (coded gen : Z) : Z :=
  match f with Gf2_8 => (coded + gen * 7) mod 128 | Gf2_4 => (coded + gen * 3) mod 7 end.

Lemma cauchy_rotation_permutes f src coded gen :
  is_u32 src → 0 ≤ coded < cauchy_cycle f → is_u8 gen →
  0 ≤ cauchy_rotated f coded gen < cauchy_cycle f ∧
  cauchy_coef f src coded gen = cauchy_coef f src (cauchy_rotated f coded gen) 0.
Proof.
  intros Hs Hc Hg.
  assert (0 ≤ cauchy_rotated f coded gen < cauchy_cycle f) as Hr
    by (destruct f; simpl; apply Z.mod_pos_bound; lia).
  split; [done|].
  destruct (cauchy_coef_ok f src coded gen) as [-> _]; [done..|].
  destruct (cauchy_coef_ok f src (cauchy_rotated f coded gen) 0) as [-> _]; [done..|].
  do 3 f_equal. destruct f; simpl; by rw Z.add_0_r Z.mod_mod.
Qed.

(** ** Vandermonde coefficients *)
Lemma vandermonde_coef_ok f src coded :
  coef_ok f (vandermonde_coef f src coded) ∧ vandermonde_coef f src coded ≠ 0.
Proof. destruct f; cbn [vandermonde_coef gf_field to_u8]; apply vandermonde_elem, _. Qed.

Lemma vandermonde_batch_map f ids coded :
  vandermonde_batch f ids coded = (λ s, vandermonde_coef f s coded) <$> ids.
Proof.
  destruct f; [done|]. cbn. apply list_fmap_ext. intros i s _.
  destruct (vandermonde_coef_ok Gf2_4 s coded) as [H _].
  cbn in H |- *. rw land15 Z.mod_small //.
Qed.

(** ** What the decoder relies on *)

(** No input of the encoder's range makes the Cauchy formulas panic, and the
    coefficient is the inverse of the sum of the two evaluation points: a
    non-zero element of the field, the only one with that product. *)
Theorem cauchy_coef_total f src coded gen :
  is_u32 src → 0 ≤ coded < cauchy_cycle f → is_u8 gen →
  ∃ c, cauchy_coef f src coded gen = Ok c ∧ coef_ok f c ∧ c ≠ 0 ∧
    @gf_mul (gf_field f) (Z.lxor (cx f src) (cy f coded gen)) c = 1.
Proof.
  intros Hs Hc Hg. destruct (cauchy_coef_ok f src coded gen) as (Hr & He & H0); [done..|].
  eexists. split_and!; [exact Hr|done..|].
  destruct (cauchy_sum_elem f src coded gen) as [Hse Hs0].
  by destruct (ginv_spec (gf_field f) _ Hse Hs0) as (_ & _ & _ & ?).
Qed.

Lemma cauchy_coef_total_witness :
  ∃ c, cauchy_coef Gf2_8 1000 127 3 = Ok c ∧ coef_ok Gf2_8 c ∧ c ≠ 0 ∧
    @gf_mul (gf_field Gf2_8) (Z.lxor (cx Gf2_8 1000) (cy Gf2_8 127 3)) c = 1.
Proof. apply (cauchy_coef_total Gf2_8 1000 127 3); [word_bound|cbn; lia|word_bound]. Defined.

(** C23: every square submatrix of the Cauchy code is non-singular: if as many
    coded packets as sources, at distinct evaluation points, all annihilate a
    combination of the sources, that combination is zero. *)
Theorem cauchy_nonsingular f srcs (rows : list (Z * Z)) v :
  Forall is_u32 srcs → NoDup (cx f <$> srcs) →
  Forall (λ r, 0 ≤ r.1 < cauchy_cycle f ∧ is_u8 r.2) rows →
  NoDup ((λ r, cy f r.1 r.2) <$> rows) →
  length v = length srcs → length rows = length srcs → Forall (coef_ok f) v →
  (∀ r, r ∈ rows → ∃ c, cauchy_batch f srcs r.1 r.2 = Ok c ∧ dot f v c = 0) →
  Forall (λ a, a = 0) v.
Proof. apply cauchy_columns_independent. Qed.

Lemma cauchy_nonsingular_witness : Forall (λ a, a = 0) [0; 0].
Proof.
  apply (cauchy_nonsingular Gf2_4 [5; 6] [(0, 0); (3, 1)] [0; 0]).
  - apply (bool_decide_unpack _). vm_compute. exact I.
  - apply (bool_decide_unpack _). vm_compute. exact I.
  - repeat constructor; cbn; lia.
  - apply (bool_decide_unpack _). vm_compute. exact I.
  - reflexivity.
  - reflexivity.
  - repeat constructor; unfold elem; change (@ORDER (gf_field Gf2_4)) with 16; lia.
  - apply Forall_forall. repeat constructor; (eexists; split; [vm_compute; reflexivity|reflexivity]).
Defined.

(** A generation is not a fresh matrix: the row of a coded ID in generation
    [gen] is the row of a rotated coded ID in generation 0, for every source. *)
Theorem cauchy_generation_rotates f coded gen :
  0 ≤ coded < cauchy_cycle f → is_u8 gen →
  ∃ coded', 0 ≤ coded' < cauchy_cycle f ∧
    ∀ ids, Forall is_u32 ids → cauchy_batch f ids coded gen = cauchy_batch f ids coded' 0.
Proof.
  intros Hc Hg. exists (cauchy_rotated f coded gen).
  destruct (cauchy_rotation_permutes f 0 coded gen) as [Hr _]; [word_bound|done..|].
  split; [done|]. intros ids Hids. rw !cauchy_batch_ok //. f_equal.
  apply list_fmap_ext. intros _ s _. do 2 f_equal.
  destruct f; cbn [cy cauchy_rotated]; by rw Z.add_0_r Z.mod_mod.
Qed.

Lemma cauchy_generation_rotates_witness :
  ∃ coded', 0 ≤ coded' < 7 ∧
    ∀ ids, Forall is_u32 ids → cauchy_batch Gf2_4 ids 5 4 = cauchy_batch Gf2_4 ids coded' 0.
Proof. apply (cauchy_generation_rotates Gf2_4 5 4); [cbn; lia|word_bound]. Defined.

(** The column of a source is that of the source 128 later, for every packet. *)
Lemma cauchy_ids_128_apart src coded gen :
  cauchy_coef_gf2_8 (src + 128) coded gen = cauchy_coef_gf2_8 src coded gen.
Proof.
  unfold cauchy_coef_gf2_8. assert (Z.land (src + 128) 127 = Z.land src 127) as ->; [|done].
  change 127 with (Z.ones 7). rw !Z.land_ones; [|lia..]. change (2 ^ 7) with 128.
  rw -(Z.mod_add src 1 128) //.
Qed.
