(* ===== verification/Vandermonde.v ===== *)
(** * What Vandermonde coefficients can repair

    A coded packet's row over consecutive source IDs is a geometric progression
    in its point [alpha^coded].  As many packets at distinct points as there are
    IDs in a burst therefore determine it: a polynomial with more roots than its
    degree is zero.  Over IDs with gaps the property fails. *)

From S2P Require Import Prelude Error Config Tables Gf CoefGen.

(** ** Polynomials over a field, as coefficient lists *)
Section polynomials.
Context (K : GfField) `{!GfLaws K}.
Local Notation "a ⊗ b" := (gf_mul a b) (at level 40, left associativity).
Local Notation "a ⊕ b" := (Z.lxor a b) (at level 50, left associativity).

Definition peval (v : list Z) (z : Z) : Z := foldr (λ a s, a ⊕ z ⊗ s) 0 v.

(** The quotient by [X - z0]. *)
Fixpoint pquot (v : list Z) (z0 : Z) : list Z :=
  match v with
  | [] => []
  | _ :: v => match v with [] => [] | _ :: _ => peval v z0 :: pquot v z0 end
  end.

Lemma peval_elem v z : Forall elem v → elem z → elem (peval v z).
Proof.
  intros Hv Hz. induction Hv as [|a v Ha _ IH]; [apply elem_0, _|].
  apply elem_lxor; [apply _|done|]. by apply gf_mul_elem; [apply _|..].
Qed.

Lemma pquot_elem v z0 : Forall elem v → elem z0 → Forall elem (pquot v z0).
Proof.
  intros Hv Hz. induction Hv as [|a v Ha Hv IH]; [constructor|].
  destruct v as [|b v]; [constructor|]. constructor; [by apply peval_elem|done].
Qed.

Lemma length_pquot a v z0 : length (pquot (a :: v) z0) = length v.
Proof. revert a. induction v as [|b v IH]; intros a; [done|].
  change (S (length (pquot (b :: v) z0)) = S (length v)). by rw (IH b). Qed.

(** [p(z) - p(z0) = (z - z0) q(z)] *)
Lemma peval_quot v z z0 : Forall elem v → elem z → elem z0 →
  peval v z ⊕ peval v z0 = (z ⊕ z0) ⊗ peval (pquot v z0) z.
Proof.
  intros Hv Hz Hz0. assert (elem (z ⊕ z0)) as Hd by by apply elem_lxor.
  induction Hv as [|a v Ha Hv IH]; [by rw gf_mul_0_r|].
  destruct v as [|b v]; [cbn; by rw !gf_mul_0_r // !Z.lxor_0_r Z.lxor_nilpotent|].
  set (w := b :: v) in *. change (pquot (a :: w) z0) with (peval w z0 :: pquot w z0).
  change (peval (?c :: ?u) ?x) with (c ⊕ x ⊗ peval u x).
  pose proof (peval_elem w z Hv Hz) as E1. pose proof (peval_elem w z0 Hv Hz0) as E0.
  pose proof (peval_elem (pquot w z0) z (pquot_elem w z0 Hv Hz0) Hz) as Eq.
  rw lxor_swap Z.lxor_nilpotent Z.lxor_0_l.
  rw gf_mul_lxor_r //; [|by apply gf_mul_elem]. rw gf_mul_lxor_l //.
  rw -gf_mul_assoc // (gf_mul_comm K (z ⊕ z0) z) // gf_mul_assoc // -IH gf_mul_lxor_r //.
  rw (Z.lxor_comm (z ⊗ peval w z)) -Z.lxor_assoc. rw (Z.lxor_assoc (z ⊗ peval w z0)).
  by rw (Z.lxor_comm (z ⊗ peval w z0)) lxor_cancel_r Z.lxor_comm.
Qed.

Lemma pquot_zero v z0 : Forall elem v → elem z0 →
  Forall (λ a, a = 0) (pquot v z0) → peval v z0 = 0 → Forall (λ a, a = 0) v.
Proof.
  intros Hv Hz0. induction Hv as [|a v Ha Hv IH]; intros Hq Hp; [done|].
  change (a ⊕ z0 ⊗ peval v z0 = 0) in Hp. destruct v as [|b v].
  { cbn in Hp. rw gf_mul_0_r // Z.lxor_0_r in Hp. by constructor. }
  apply Forall_cons in Hq as [H0 Hq]. rw H0 gf_mul_0_r // Z.lxor_0_r in Hp.
  constructor; [done|by apply IH].
Qed.

(** A polynomial with as many distinct roots as coefficients is zero. *)
Lemma roots_zero v zs : Forall elem v → Forall elem zs → NoDup zs → length zs = length v →
  (∀ z, z ∈ zs → peval v z = 0) → Forall (λ a, a = 0) v.
Proof.
  remember (length v) as k eqn:Hk. revert v zs Hk.
  induction k as [|k IH]; intros [|a v] [|z0 zs] Hk Hv Hzs Hnd Hlen Hroot; try done.
  apply Forall_cons in Hzs as [Hz0 Hzs]. apply NoDup_cons in Hnd as [Hnin Hnd].
  injection Hlen as Hlen. injection Hk as Hk.
  assert (peval (a :: v) z0 = 0) as H0 by (apply Hroot; by left).
  apply (pquot_zero _ z0); [done..| |done]. apply (IH _ zs); try done.
  - by rw length_pquot.
  - by apply pquot_elem.
  - intros z Hz. rw Forall_forall in Hzs. pose proof (Hzs z Hz) as Hze.
    assert (z ≠ z0) as Hne by (by intros ->).
    pose proof (peval_quot (a :: v) z z0 Hv Hze Hz0) as Hq.
    rw H0 Hroot in Hq; [|by right]. symmetry in Hq. destruct (points_sum K z z0) as [Hs Hs0]; [done..|].
    apply gf_mul_eq_0 in Hq as [|]; [done|done|apply _|done|].
    apply peval_elem; [by apply pquot_elem|done].
Qed.
End polynomials.

(** ** The code's coefficients as powers of one point *)
Definition alpha_order (f : Field) : Z := ORDER (GfField := gf_field f) - 1.
Definition alpha (f : Field) (e : Z) : Z := @alpha_pow (gf_field f) e.

(** The point of a coded packet. *)
Definition van_point (f : Field) (coded : Z) : Z := alpha f coded.

Lemma alpha_order_pos f : 0 < alpha_order f < 256.
Proof. by destruct f. Qed.

Lemma alpha_mod f e : alpha f (e mod alpha_order f) = alpha f e.
Proof.
  destruct f; unfold alpha, alpha_order; cbn [gf_field alpha_pow Gf2_8_field Gf2_4_field];
    unfold gf2_8_alpha_pow, gf2_4_alpha_pow; rw Z.mod_mod //.
Qed.

Lemma alpha_powers_distinct f : NoDup (alpha f <$> seqZ 0 (alpha_order f)).
Proof. destruct f; apply (bool_decide_unpack _); vm_compute; exact I. Qed.

Lemma alpha_inj f i j : alpha f i = alpha f j → i mod alpha_order f = j mod alpha_order f.
Proof.
  intros Heq. rw -(alpha_mod f i) -(alpha_mod f j) in Heq. pose proof (alpha_order_pos f) as Hq.
  pose proof (Z.mod_pos_bound i (alpha_order f) ltac:(lia)) as Hi.
  pose proof (Z.mod_pos_bound j (alpha_order f) ltac:(lia)) as Hj.
  set (a := i mod _) in *. set (b := j mod _) in *. clearbody a b.
  assert (∀ x, 0 ≤ x < alpha_order f → (alpha f <$> seqZ 0 (alpha_order f)) !! Z.to_nat x = Some (alpha f x)) as Hl.
  { intros x Hx. rw list_lookup_fmap (proj2 (lookup_seqZ _ _ _ x)) //. lia. }
  pose proof (Hl a Hi) as Ha. rw Heq in Ha.
  pose proof (NoDup_lookup _ _ _ _ (alpha_powers_distinct f) Ha (Hl b Hj)). lia.
Qed.

Lemma alpha_ok f e : 0 ≤ e → coef_ok f (alpha f e) ∧ alpha f e ≠ 0.
Proof. intros He. by apply gf_alpha_elem; [apply _|]. Qed.

Lemma vandermonde_alpha f src coded : is_u32 src → is_u32 coded →
  vandermonde_coef f src coded = alpha f (src * coded).
Proof.
  intros Hs Hc. rw -alpha_mod. unfold is_u32 in *. pose proof (alpha_order_pos f) as Hq.
  assert (@vandermonde (gf_field f) src coded = alpha f ((src * coded) mod alpha_order f)) as Hv.
  { unfold vandermonde. assert (u64 (src * coded) = src * coded) as ->.
    { apply u64_small. assert (0 ≤ src * coded < 4294967296 * 4294967296) by nia. word_bound. }
    change (ORDER - 1) with (alpha_order f). rw (u64_small (alpha_order f)); [|word_bound].
    rw u32_small //. pose proof (Z.mod_pos_bound (src * coded) (alpha_order f)). word_bound. }
  rw -Hv. by destruct f.
Qed.

Lemma coef_mul_ok f a b : coef_ok f a → coef_ok f b → coef_ok f (@gf_mul (gf_field f) a b).
Proof. apply gf_mul_elem, _. Qed.

(** A row over consecutive IDs is a scaled polynomial evaluation. *)
Lemma dot_peval f c v : 0 ≤ c → Forall (coef_ok f) v → ∀ s0, 0 ≤ s0 →
  dot f v ((λ s, alpha f (s * c)) <$> seqZ s0 (Z.of_nat (length v)))
  = @gf_mul (gf_field f) (alpha f (s0 * c)) (peval (gf_field f) v (van_point f c)).
Proof.
  intros Hc Hv. induction Hv as [|a v Ha Hv IH]; intros s0 Hs0.
  { cbn. rw gf_mul_0_r //. by apply alpha_ok, Z.mul_nonneg_nonneg. }
  destruct (alpha_ok f (s0 * c)) as [He _]; [lia|]. destruct (alpha_ok f c) as [Hz _]; [done|].
  pose proof (peval_elem (gf_field f) v (van_point f c) Hv Hz) as Hp.
  cbn [length]. rw seqZ_cons; [|lia].
  replace (Z.pred (Z.of_nat (S (length v)))) with (Z.of_nat (length v)) by lia.
  cbn [fmap list_fmap dot]. rw IH; [|lia].
  set (z := van_point f c) in *. set (p := peval (gf_field f) v z) in *.
  change (peval (gf_field f) (a :: v) z) with (Z.lxor a (@gf_mul (gf_field f) z p)).
  assert (coef_ok f (@gf_mul (gf_field f) z p)) as Hzp by by apply coef_mul_ok.
  rw (gf_mul_lxor_r (gf_field f)) // (gf_mul_comm _ a) //. f_equal.
  rw -(gf_mul_assoc (gf_field f)) //. f_equal. unfold z, van_point, alpha.
  rw gf_alpha_add; [|lia..]. f_equal. lia.
Qed.

(** ** Bursts *)

(** A combination of [k] consecutive sources that [k] coded packets at distinct
    points map to zero is the zero combination. *)
Lemma burst_columns_independent f s0 codeds v :
  0 ≤ s0 → s0 + Z.of_nat (length v) ≤ 4294967296 → Forall is_u32 codeds →
  NoDup (van_point f <$> codeds) → length codeds = length v → Forall (coef_ok f) v →
  (∀ c, c ∈ codeds → dot f v (vandermonde_batch f (seqZ s0 (Z.of_nat (length v))) c) = 0) →
  Forall (λ a, a = 0) v.
Proof.
  intros Hs0 Hs Hu Hnd Hlen Hv Hz. rw Forall_forall in Hu.
  apply (roots_zero (gf_field f) v (van_point f <$> codeds)); [done| |done|by rw length_fmap|].
  - apply Forall_fmap, Forall_forall. intros c Hc. apply alpha_ok. by apply Hu.
  - intros z (c & -> & Hc)%list_elem_of_fmap. specialize (Hz c Hc). pose proof (Hu c Hc) as Hcu.
    rw vandermonde_batch_map (list_fmap_ext _ (λ s, alpha f (s * c)) (seqZ s0 (Z.of_nat (length v)))) in Hz.
    + rw dot_peval // in Hz; [|by destruct Hcu]. destruct (alpha_ok f (s0 * c)) as [He He0]; [by destruct Hcu; lia|].
      assert (coef_ok f (van_point f c)) as Hzc by (apply alpha_ok; by destruct Hcu).
      apply (gf_mul_eq_0 (gf_field f)) in Hz; [|done|by apply (peval_elem (gf_field f))].
      by destruct Hz.
    + intros i s Hi%lookup_seqZ. apply vandermonde_alpha; [word_bound|done].
Qed.

(** Distinct coded IDs of the encoder's cycle have distinct points. *)
Lemma van_points_distinct f codeds :
  Forall (λ c, 1 ≤ c < alpha_order f) codeds → NoDup codeds → NoDup (van_point f <$> codeds).
Proof.
  intros Hr. apply NoDup_fmap_2_strong. rw Forall_forall in Hr.
  intros i j Hi%Hr Hj%Hr Heq%alpha_inj. rw !Z.mod_small in Heq; lia.
Qed.

(** C24: every burst is repairable with Vandermonde coefficients: if as many
    coded packets as there are sources in a run of consecutive IDs, with
    distinct coded IDs of the encoder's cycle, all annihilate a combination of
    those sources, that combination is zero. *)
Theorem vandermonde_burst_nonsingular f s0 codeds v :
  0 ≤ s0 → s0 + Z.of_nat (length v) ≤ 4294967296 →
  Forall (λ c, 1 ≤ c < alpha_order f) codeds → NoDup codeds →
  length codeds = length v → Forall (coef_ok f) v →
  (∀ c, c ∈ codeds → dot f v (vandermonde_batch f (seqZ s0 (Z.of_nat (length v))) c) = 0) →
  Forall (λ a, a = 0) v.
Proof.
  intros Hs0 Hs Hr Hnd. apply burst_columns_independent; [done|done| |by apply van_points_distinct].
  pose proof (alpha_order_pos f). eapply Forall_impl; [exact Hr|]. intros c Hc. cbn beta in Hc. unfold is_u32. lia.
Qed.

Lemma vandermonde_burst_nonsingular_witness : Forall (λ a, a = 0) [0; 0; 0].
Proof.
  apply (vandermonde_burst_nonsingular Gf2_4 40 [3; 14; 9] [0; 0; 0]).
  - lia.
  - cbn. lia.
  - repeat constructor; cbn; lia.
  - apply (bool_decide_unpack _). vm_compute. exact I.
  - reflexivity.
  - repeat constructor; unfold elem; change (@ORDER (gf_field Gf2_4)) with 16; lia.
  - apply Forall_forall. repeat constructor.
Defined.

(** Over IDs with gaps it fails: coded packets 1 and 18 carry the same equation
    in sources 0 and 15. *)
Lemma vandermonde_gap_singular :
  vandermonde_batch Gf2_8 [0; 15] 1 = vandermonde_batch Gf2_8 [0; 15] 18.
Proof. vm_compute. reflexivity. Qed.

(** ** Which windows the builder accepts *)

Lemma cx_mod f x : cx f x = x mod EncoderBuilder.cauchy_max f.
Proof. by destruct f. Qed.

(** The columns of a run of IDs are distinct exactly when the run is not longer
    than the cycle of the points. *)
Lemma cx_run f s0 k : NoDup (cx f <$> seqZ s0 k) ↔ k ≤ EncoderBuilder.cauchy_max f.
Proof.
  set (m := EncoderBuilder.cauchy_max f). assert (0 < m) as Hm by (unfold m; destruct f; cbn; lia). split.
  - intros Hnd. destruct (Z.le_gt_cases k m) as [|Hgt]; [done|exfalso].
    assert (∀ i, 0 ≤ i < k → (cx f <$> seqZ s0 k) !! Z.to_nat i = Some (cx f (s0 + i))) as Hl.
    { intros i Hi. rw list_lookup_fmap lookup_seqZ_lt; [|lia]. cbn. do 2 f_equal. lia. }
    pose proof (Hl m ltac:(lia)) as Hlm. rw cx_mod -/m -{2}(Z.mul_1_l m) Z.mod_add in Hlm; [|lia].
    pose proof (Hl 0 ltac:(lia)) as Hl0. rw cx_mod -/m Z.add_0_r in Hl0.
    pose proof (NoDup_lookup _ _ _ _ Hnd Hlm Hl0). lia.
  - intros Hk. apply NoDup_fmap_2_strong; [|apply NoDup_seqZ].
    intros x y [Hx1 Hx2]%elem_of_seqZ [Hy1 Hy2]%elem_of_seqZ. rw !cx_mod -/m. intros Heq.
    pose proof (Z.div_mod x m ltac:(lia)). pose proof (Z.div_mod y m ltac:(lia)).
    destruct (Z.lt_trichotomy (x / m) (y / m)) as [|[|]]; nia.
Qed.

(** C38: what [EncoderConfigBuilder::build] accepts: exactly the configurations with
    a symbol size that fits 16 bits, a window, a rate, and for Cauchy a window such
    that among as many consecutive IDs, wherever they start, no two share a column
    (which is what makes its equations solvable); with the fields the builder holds.
    Every other one is refused with the error of the first check that fails.  For
    Vandermonde any window is accepted, although the documentation gives 254 as the
    maximum. *)
Theorem encoder_build_sound b : builder_usize b →
  (∀ c, EncoderBuilder.build b = Ok c ↔
    c = config_of b ∧ 1 ≤ eb_symbol_size b ≤ 65535 ∧ 1 ≤ eb_window_capacity b ∧ 1 ≤ eb_fec_denom b ∧
    (eb_matrix_strategy b = Cauchy → ∀ s0, NoDup (cx (eb_field b) <$> seqZ s0 (eb_window_capacity b)))) ∧
  (∀ e, EncoderBuilder.build b = Err e →
    e = if bool_decide (1 ≤ eb_symbol_size b ≤ 65535) then
          if bool_decide (eb_window_capacity b = 0) then InvalidWindowCapacity
          else if bool_decide (eb_fec_denom b = 0) then InvalidFecDenom else InvalidWindowCapacity
        else InvalidSymbolSize (eb_symbol_size b)) ∧
  EncoderBuilder.build b ≠ Panic.
Proof.
  intros Hb. destruct (encoder_build_validates b Hb) as (Hok & Herr & Hp). split_and!; [|done..].
  intros c. rw Hok. unfold encoder_config_ok.
  split; intros (-> & Hs & Hw & Hd & Hc); cbn [config_of ec_symbol_size ec_window_capacity ec_fec_denom] in *;
    split_and!; try done; try lia.
  - intros Hca s0. by apply cx_run, Hc.
  - intros Hca. by apply (cx_run _ 0), Hc.
Qed.

Lemma encoder_build_sound_witness :
  (∀ c, EncoderBuilder.build (EncoderBuilder.window_capacity 128 (EncoderBuilder.matrix_strategy Cauchy (EncoderBuilder.new 1200)))
    = Ok c → NoDup (cx Gf2_8 <$> seqZ 1000 128)) ∧
  EncoderBuilder.build (EncoderBuilder.window_capacity 129 (EncoderBuilder.matrix_strategy Cauchy (EncoderBuilder.new 1200)))
  = Err InvalidWindowCapacity.
Proof.
  split; [|vm_compute; reflexivity]. intros c Hc.
  apply (encoder_build_sound (EncoderBuilder.window_capacity 128 (EncoderBuilder.matrix_strategy Cauchy (EncoderBuilder.new 1200))))
    in Hc as (_ & _ & _ & _ & Hc); [by apply Hc|]. repeat split; cbn; lia.
Defined.

(** The default window of 256 symbols with Vandermonde: two sources of it have the
    same coefficient in every coded packet. *)
Lemma vandermonde_window_collision coded : is_u32 coded →
  (∃ c, EncoderBuilder.build (EncoderBuilder.new 1200) = Ok c ∧ ec_matrix_strategy c = Vandermonde ∧
        ec_window_capacity c = 256) ∧
  vandermonde_coef Gf2_8 255 coded = vandermonde_coef Gf2_8 0 coded.
Proof.
  intros Hc. split; [by eexists|]. rw !vandermonde_alpha //; [|word_bound..].
  rw -(alpha_mod Gf2_8 (255 * coded)) -(alpha_mod Gf2_8 (0 * coded)). f_equal. cbn [alpha_order].
  rw Z.mul_comm Z.mod_mul; [|lia]. by rw Zmod_0_l.
Qed.
