(* ===== verification/IdStorage.v ===== *)
(** * wire/ev/id_storage.rs: the four source-ID storage formats *)

From S2P Require Import Prelude Error.
From stdpp Require Import strings.
#[global] Open Scope Z_scope.

Inductive IdStorageFormat : Type := FmtNone | UncompressedEdges | CompressedList | CompressedEdges.

#[export] Instance IdStorageFormat_eq_dec : EqDecision IdStorageFormat.
Proof. solve_decision. Defined.

(** The arm [_ => unreachable!()] follows the four values of two bits. *)
Definition from_wire (v : Z) : result IdStorageFormat :=
  let v := Z.land v 3 in
  if v =? 0 then Ok FmtNone
  else if v =? 1 then Ok UncompressedEdges
  else if v =? 2 then Ok CompressedList
  else if v =? 3 then Ok CompressedEdges
  else Panic.

Definition wire_value (f : IdStorageFormat) : Z :=
  match f with
  | FmtNone => 0 | UncompressedEdges => 1 | CompressedList => 2 | CompressedEdges => 3
  end.

(** [ids.windows(2).all(|w| w[1] == w[0] + 1)] *)
Fixpoint is_contiguous (ids : list Z) : bool :=
  match ids with
  | a :: ((b :: _) as tl) => (b =? u32 (a + 1)) && is_contiguous tl
  | _ => true
  end.

Definition best_for (ids : list Z) : IdStorageFormat :=
  match ids with
  | [] => FmtNone
  | _ => if is_contiguous ids then FmtNone else CompressedList
  end.

(** ** BitWriter, BitReader *)
Record BitWriter := { bw_buf : bytes; bw_cur_byte : Z; bw_bit_pos : Z }.

Definition BitWriter_new : BitWriter := {| bw_buf := []; bw_cur_byte := 0; bw_bit_pos := 0 |}.

(** The body of the [for i in (0..nbits).rev()] loop. *)
Definition write_bit (w : BitWriter) (value i : Z) : BitWriter :=
  let bit := u8 (Z.land (Z.shiftr value i) 1) in
  let cur := Z.lor (u8 (Z.shiftl (bw_cur_byte w) 1)) bit in
  let pos := bw_bit_pos w + 1 in
  if pos =? 8
  then {| bw_buf := bw_buf w ++ [cur]; bw_cur_byte := 0; bw_bit_pos := 0 |}
  else {| bw_buf := bw_buf w; bw_cur_byte := cur; bw_bit_pos := pos |}.

Fixpoint write_bits (w : BitWriter) (value : Z) (nbits : nat) : BitWriter :=
  match nbits with
  | O => w
  | S i => write_bits (write_bit w value (Z.of_nat i)) value i
  end.

Definition finish (w : BitWriter) : bytes :=
  if 0 <? bw_bit_pos w
  then bw_buf w ++ [u8 (Z.shiftl (bw_cur_byte w) (8 - bw_bit_pos w))]
  else bw_buf w.

Record BitReader := { br_buf : bytes; br_byte_i : nat; br_bit_pos : Z }.

Definition BitReader_new (buf : bytes) : BitReader :=
  {| br_buf := buf; br_byte_i := 0; br_bit_pos := 0 |}.

(** [nbits] rounds; the [break] at the end of the buffer keeps the value. *)
Fixpoint read_bits_loop (nbits : nat) (r : BitReader) (val : Z) : Z * BitReader :=
  match nbits with
  | O => (val, r)
  | S n =>
      match br_buf r !! br_byte_i r with
      | None => (val, r)
      | Some byte =>
          let bit := Z.land (Z.shiftr byte (7 - br_bit_pos r)) 1 in
          let val := Z.lor (u32 (Z.shiftl val 1)) bit in
          let pos := br_bit_pos r + 1 in
          let r := if pos =? 8
                   then {| br_buf := br_buf r; br_byte_i := S (br_byte_i r); br_bit_pos := 0 |}
                   else {| br_buf := br_buf r; br_byte_i := br_byte_i r; br_bit_pos := pos |} in
          read_bits_loop n r val
      end
  end.
Definition read_bits (r : BitReader) (nbits : nat) : Z * BitReader := read_bits_loop nbits r 0.

Definition bytes_consumed (r : BitReader) : nat :=
  if 0 <? br_bit_pos r then S (br_byte_i r) else br_byte_i r.

Definition remaining_bits (r : BitReader) : Z :=
  u64 (Z.of_nat (length (br_buf r) - br_byte_i r) * 8 - br_bit_pos r).

(** ** Encoding *)

(** Blocks [(start, end_exclusive)]; the loop carries the open block. *)
Fixpoint to_blocks_loop (ids : list Z) (start prev : Z) (blocks : list (Z * Z))
  : list (Z * Z) :=
  match ids with
  | [] => blocks ++ [(start, u32 (prev + 1))]
  | id :: ids =>
      if negb (id =? u32 (prev + 1))
      then to_blocks_loop ids id id (blocks ++ [(start, u32 (prev + 1))])
      else to_blocks_loop ids start id blocks
  end.
Definition to_blocks (ids : list Z) : list (Z * Z) :=
  match ids with
  | [] => []
  | id :: ids => to_blocks_loop ids id id []
  end.

Fixpoint compressed_list_loop (ids : list Z) (prev : Z) (w : BitWriter) : BitWriter :=
  match ids with
  | [] => w
  | id :: ids =>
      let delta := u32 (id - prev) in
      compressed_list_loop ids id (write_bits w delta 16)
  end.
(** [ids[0]] unwinds on the empty slice. *)
Definition encode_compressed_list (ids : list Z) : result bytes :=
  match ids with
  | [] => Panic
  | first :: rest => Ok (finish (compressed_list_loop rest first BitWriter_new))
  end.

Definition encode_uncompressed_edges (ids : list Z) : result bytes :=
  match ids with
  | [] => Panic
  | base :: _ =>
      Ok (concat ((λ '(start, end_), u32_to_be_bytes (u32 (start - base))
                   ++ u32_to_be_bytes (u32 (end_ - base))) <$> to_blocks ids))
  end.

Fixpoint compressed_edges_loop (blocks : list (Z * Z)) (base prev : Z) (w : BitWriter)
  : BitWriter :=
  match blocks with
  | [] => w
  | (start, end_) :: blocks =>
      let d_start := u32 (u32 (start - base) - prev) in
      let d_len := u32 (end_ - start) in
      let w := write_bits w d_start 16 in
      let w := write_bits w d_len 16 in
      compressed_edges_loop blocks base (u32 (end_ - base)) w
  end.
Definition encode_compressed_edges (ids : list Z) : result bytes :=
  match ids with
  | [] => Panic
  | base :: _ => Ok (finish (compressed_edges_loop (to_blocks ids) base 0 BitWriter_new))
  end.

Definition encode (ids : list Z) (format : IdStorageFormat) : result bytes :=
  match format with
  | FmtNone => Ok []
  | CompressedList => encode_compressed_list ids
  | UncompressedEdges => encode_uncompressed_edges ids
  | CompressedEdges => encode_compressed_edges ids
  end.

(** ** Decoding *)

(** A range [start..end_] of u32 values. *)
Definition range_u32 (start end_ : Z) : list Z := seqZ start (end_ - start).

Fixpoint decode_list_loop (n : nat) (prev : Z) (r : BitReader) (ids : list Z)
  : list Z * BitReader :=
  match n with
  | O => (ids, r)
  | S n =>
      let '(delta, r) := read_bits r 16 in
      let prev := u32 (prev + delta) in
      decode_list_loop n prev r (ids ++ [prev])
  end.

Definition decode_compressed_list (buf : bytes) (nb_ids : nat) (first_src_id : Z)
  : result (list Z * nat) :=
  if (nb_ids =? 1)%nat then Ok ([first_src_id], 0%nat)
  else
    let needed := u64 (u64 (Z.of_nat nb_ids - 1) * 2) in
    if Z.of_nat (length buf) <? needed
    then Err (MalformedEncodingVector "CompressedList buffer too short")
    else
      let '(ids, r) :=
        decode_list_loop (nb_ids - 1) first_src_id (BitReader_new buf) [first_src_id] in
      Ok (ids, bytes_consumed r).

(** The [while ids.len() < nb_ids] loops consume at least one byte of [buf]
    per round, so [length buf] rounds are enough; without fuel the code would
    find the buffer exhausted as well. *)
Fixpoint uncompressed_edges_loop (fuel : nat) (buf : bytes) (nb_ids : nat) (first : Z)
    (off : nat) (ids : list Z) : result (list Z * nat) :=
  if (length ids <? nb_ids)%nat then
    if (length buf <? off + 8)%nat
    then Err (MalformedEncodingVector "UncompressedEdges truncated")
    else match fuel with
    | O => Err (MalformedEncodingVector "UncompressedEdges truncated")
    | S fuel =>
        a ← slice buf off (off + 4);
        b ← slice buf (off + 4) (off + 8);
        let start_delta := u32_from_be_bytes a in
        let end_delta := u32_from_be_bytes b in
        let start := u32 (first + start_delta) in
        let end_ := u32 (first + end_delta) in
        uncompressed_edges_loop fuel buf nb_ids first (off + 8) (ids ++ range_u32 start end_)
    end
  else Ok (take nb_ids ids, off).
Definition decode_uncompressed_edges (buf : bytes) (nb_ids : nat) (first_src_id : Z)
  : result (list Z * nat) :=
  uncompressed_edges_loop (length buf) buf nb_ids first_src_id 0 [].

Fixpoint compressed_edges_dec_loop (fuel : nat) (r : BitReader) (nb_ids : nat) (first abs : Z)
    (ids : list Z) : result (list Z * nat) :=
  if (length ids <? nb_ids)%nat then
    if remaining_bits r <? 32
    then Err (MalformedEncodingVector "CompressedEdges truncated")
    else match fuel with
    | O => Err (MalformedEncodingVector "CompressedEdges truncated")
    | S fuel =>
        let '(d_start, r) := read_bits r 16 in
        let '(d_len, r) := read_bits r 16 in
        let start := u32 (u32 (first + abs) + d_start) in
        let abs := u32 (u32 (start - first) + d_len) in
        compressed_edges_dec_loop fuel r nb_ids first abs
          (ids ++ range_u32 start (u32 (start + d_len)))
    end
  else Ok (take nb_ids ids, bytes_consumed r).
Definition decode_compressed_edges (buf : bytes) (nb_ids : nat) (first_src_id : Z)
  : result (list Z * nat) :=
  compressed_edges_dec_loop (length buf) (BitReader_new buf) nb_ids first_src_id 0 [].

Definition decode (buf : bytes) (nb_ids : nat) (first_src_id : Z) (format : IdStorageFormat)
  : result (list Z * nat) :=
  match format with
  | FmtNone => Ok ((λ i, u32 (first_src_id + i)) <$> seqZ 0 (u32 (Z.of_nat nb_ids)), 0%nat)
  | CompressedList => decode_compressed_list buf nb_ids first_src_id
  | UncompressedEdges => decode_uncompressed_edges buf nb_ids first_src_id
  | CompressedEdges => decode_compressed_edges buf nb_ids first_src_id
  end.

(** ** Whole bytes through the bit writer and reader *)

Definition bit_of (v i : Z) : Z := Z.land (Z.shiftr v i) 1.

Lemma bit_of_b2z v i : 0 ≤ i → bit_of v i = Z.b2z (Z.testbit v i).
Proof.
  intros Hi. unfold bit_of. change 1 with (Z.ones 1). rw Z.land_ones; [|lia].
  rw (Z.testbit_spec' v i Hi) Z.shiftr_div_pow2 //.
Qed.
Lemma bit_of_range v i : 0 ≤ i → 0 ≤ bit_of v i ≤ 1.
Proof. intros. rw bit_of_b2z //. destruct (Z.testbit v i); simpl; lia. Qed.

Lemma bit_of_shiftr v k i : 0 ≤ i → bit_of (Z.shiftr v k) i = bit_of v (k + i).
Proof. intros. unfold bit_of. by rw Z.shiftr_shiftr. Qed.

Lemma mod_pow2_succ x m : 0 ≤ m → x mod 2 ^ (m + 1) = 2 ^ m * bit_of x m + x mod 2 ^ m.
Proof.
  intros Hm. rw Z.pow_add_r; [|lia..]. rw Z.rem_mul_r; [|lia..].
  unfold bit_of. change 1 with (Z.ones 1) at 2. rw Z.land_ones; [|lia].
  rw Z.shiftr_div_pow2 //. lia.
Qed.

(** [(x << 1) | b] is [2 x + b]. *)
Lemma shift_in x b : 0 ≤ x → 0 ≤ b ≤ 1 → Z.lor (Z.shiftl x 1) b = 2 * x + b.
Proof.
  intros Hx Hb. rw Z.shiftl_mul_pow2; [|lia]. change (2 ^ 1) with 2.
  assert (b = 0 ∨ b = 1) as [-> | ->] by lia.
  - rw Z.lor_0_r. lia.
  - rw (Z.mul_comm x 2). destruct x as [|p|p]; [done|done|lia].
Qed.

Definition aligned (buf : bytes) : BitWriter :=
  {| bw_buf := buf; bw_cur_byte := 0; bw_bit_pos := 0 |}.

Lemma write_bit_step buf cur pos v i :
  0 ≤ cur < 2 ^ pos → 0 ≤ pos < 8 → 0 ≤ i →
  write_bit {| bw_buf := buf; bw_cur_byte := cur; bw_bit_pos := pos |} v i =
    if pos =? 7 then aligned (buf ++ [2 * cur + bit_of v i])
    else {| bw_buf := buf; bw_cur_byte := 2 * cur + bit_of v i; bw_bit_pos := pos + 1 |}.
Proof.
  intros Hc Hp Hi. pose proof (bit_of_range v i Hi).
  assert (2 ^ pos ≤ 2 ^ 7) by (apply Z.pow_le_mono_r; lia). change (2 ^ 7) with 128 in *.
  assert (Z.shiftl cur 1 = 2 * cur) as Hsh by (rw Z.shiftl_mul_pow2; lia).
  unfold write_bit. cbn [bw_buf bw_cur_byte bw_bit_pos]. fold (bit_of v i).
  rw (u8_small (bit_of v i)); [|word_bound].
  rw (u8_small (Z.shiftl cur 1)); [|rw Hsh; word_bound].
  rw shift_in; [|lia..].
  destruct (Z.eqb_spec (pos + 1) 8), (Z.eqb_spec pos 7); try lia; done.
Qed.

(** The last [m] bits of a byte, taken from bits [k + m - 1 .. k] of [v]. *)
Lemma write_rest m buf cur v k : (0 < m ≤ 8)%nat → 0 ≤ cur < 2 ^ (8 - Z.of_nat m) →
  write_bits {| bw_buf := buf; bw_cur_byte := cur; bw_bit_pos := 8 - Z.of_nat m |} v (m + k)
  = write_bits (aligned (buf ++ [cur * 2 ^ Z.of_nat m + Z.shiftr v (Z.of_nat k) mod 2 ^ Z.of_nat m])) v k.
Proof.
  revert cur. induction m as [|m IH]; intros cur Hm Hc; [lia|].
  cbn [Nat.add write_bits]. rw write_bit_step; [|lia..].
  replace (Z.of_nat (m + k)) with (Z.of_nat k + Z.of_nat m) by lia.
  rw -bit_of_shiftr; [|lia].
  set (x := Z.shiftr v (Z.of_nat k)). pose proof (bit_of_range x (Z.of_nat m)).
  rw Nat2Z.inj_succ -Z.add_1_r (mod_pow2_succ x); [|lia].
  rw Z.pow_add_r; [|lia..]. change (2 ^ 1) with 2.
  destruct (Z.eqb_spec (8 - (Z.of_nat m + 1)) 7) as [Hm0|Hm0].
  - assert (m = 0%nat) as -> by lia. cbn [Nat.add Z.of_nat]. change (2 ^ 0) with 1.
    rw Z.mod_1_r. do 4 f_equal. lia.
  - replace (8 - (Z.of_nat m + 1) + 1) with (8 - Z.of_nat m) by lia. rw IH; [|lia|].
    + do 4 f_equal. fold x. lia.
    + replace (8 - Z.of_nat (S m)) with (8 - Z.of_nat m - 1) in Hc by lia.
      assert (2 ^ (8 - Z.of_nat m) = 2 * 2 ^ (8 - Z.of_nat m - 1)) as ->; [|lia].
      rw -Z.pow_succ_r; [|lia]. f_equal. lia.
Qed.

Lemma write_16 buf v :
  write_bits (aligned buf) v 16 = aligned (buf ++ [u8 (Z.shiftr v 8); u8 v]).
Proof.
  unfold aligned at 1. rw (write_rest 8 buf 0 v 8); [|lia..].
  unfold aligned at 1. rw (write_rest 8 _ 0 v 0); [|lia..].
  cbn [write_bits]. by rw -app_assoc Z.shiftr_0_r.
Qed.

Definition reader_at (buf : bytes) (i : nat) : BitReader :=
  {| br_buf := buf; br_byte_i := i; br_bit_pos := 0 |}.

Lemma read_rest m n buf i byte val :
  buf !! i = Some byte → (0 < m ≤ 8)%nat → 0 ≤ val → (val + 1) * 2 ^ Z.of_nat m ≤ 4294967296 →
  read_bits_loop (m + n)
    {| br_buf := buf; br_byte_i := i; br_bit_pos := 8 - Z.of_nat m |} val
  = read_bits_loop n (reader_at buf (S i)) (val * 2 ^ Z.of_nat m + byte mod 2 ^ Z.of_nat m).
Proof.
  intros Hi. revert val. induction m as [|m IH]; intros val Hm Hv Hb; [lia|].
  rw Nat2Z.inj_succ -Z.add_1_r in Hb |- *. rw (mod_pow2_succ byte); [|lia].
  rw Z.pow_add_r in Hb |- *; [|lia..]. change (2 ^ 1) with 2 in *.
  assert (0 < 2 ^ Z.of_nat m) by (apply Z.pow_pos_nonneg; lia).
  cbn [Nat.add read_bits_loop br_buf br_byte_i br_bit_pos]. rw Hi.
  replace (7 - (8 - (Z.of_nat m + 1))) with (Z.of_nat m) by lia. fold (bit_of byte (Z.of_nat m)).
  pose proof (bit_of_range byte (Z.of_nat m)).
  assert (Z.shiftl val 1 = 2 * val) as Hsh by (rw Z.shiftl_mul_pow2; lia).
  rw u32_small; [|rw Hsh; unfold is_u32; nia]. rw shift_in; [|lia..].
  destruct (Z.eqb_spec (8 - (Z.of_nat m + 1) + 1) 8) as [Hm0|Hm0].
  - assert (m = 0%nat) as -> by lia. cbn [Nat.add Z.of_nat]. change (2 ^ 0) with 1.
    rw Z.mod_1_r. unfold reader_at. f_equal. lia.
  - replace (8 - (Z.of_nat m + 1) + 1) with (8 - Z.of_nat m) by lia.
    rw IH; [|lia|lia|nia]. f_equal. lia.
Qed.

Lemma read_16 buf i hi lo :
  buf !! i = Some hi → buf !! S i = Some lo → is_u8 hi → is_u8 lo →
  read_bits (reader_at buf i) 16 = (hi * 256 + lo, reader_at buf (S (S i))).
Proof.
  intros Hhi Hlo Hh Hl. unfold read_bits, reader_at at 1.
  rw (read_rest 8 8 buf i hi 0); [|done|lia..]. unfold reader_at.
  rw (read_rest 8 0 buf (S i) lo); [|done|lia|..].
  - cbn [read_bits_loop]. change (2 ^ Z.of_nat 8) with 256. unfold is_u8 in *.
    rw !(Z.mod_small _ 256); [|lia..]. done.
  - change (2 ^ Z.of_nat 8) with 256. pose proof (Z.mod_pos_bound hi 256). lia.
  - change (2 ^ Z.of_nat 8) with 256. pose proof (Z.mod_pos_bound hi 256). lia.
Qed.

(** Two bytes written from a 16-bit value read back as that value. *)
Definition be16 (v : Z) : bytes := [u8 (Z.shiftr v 8); u8 v].

Lemma be16_value v : is_u16 v → u8 (Z.shiftr v 8) * 256 + u8 v = v.
Proof.
  intros Hv. unfold u8, is_u16 in *. rw Z.shiftr_div_pow2; [|lia]. change (2 ^ 8) with 256.
  rw (Z.mod_small (v / 256)); [|Z.to_euclidean_division_equations; lia].
  pose proof (Z.div_mod v 256). lia.
Qed.

Lemma read_be16 pre v post : is_u16 v →
  read_bits (reader_at (pre ++ be16 v ++ post) (length pre)) 16
  = (v, reader_at (pre ++ be16 v ++ post) (length pre + 2)).
Proof.
  intros Hv. rw (read_16 _ _ (u8 (Z.shiftr v 8)) (u8 v)); [| | |apply u8_is..].
  - rw be16_value //. do 2 f_equal. lia.
  - by rw list_lookup_middle.
  - rw cons_middle app_assoc. apply list_lookup_middle. rw length_app /=. lia.
Qed.

(** ** Round trips *)

(** *** CompressedList: 16-bit deltas *)
Definition deltas (first : Z) (rest : list Z) : bytes :=
  concat ((λ '(p, id), be16 (u32 (id - p))) <$> zip (first :: rest) rest).

Lemma compressed_list_aligned rest prev buf :
  compressed_list_loop rest prev (aligned buf) = aligned (buf ++ deltas prev rest).
Proof.
  revert prev buf. induction rest as [|id rest IH]; intros prev buf.
  - by rw app_nil_r.
  - cbn [compressed_list_loop]. rw write_16 IH. by rw -app_assoc.
Qed.

Lemma deltas_length first rest : length (deltas first rest) = (2 * length rest)%nat.
Proof.
  revert first. induction rest as [|id rest IH]; intros first; [done|].
  change (length (be16 (u32 (id - first)) ++ deltas id rest) = 2 * S (length rest))%nat.
  rw length_app IH. simpl. lia.
Qed.

(** Consecutive IDs are less than 2^16 apart. *)
Fixpoint close_ids (prev : Z) (ids : list Z) : Prop :=
  match ids with
  | [] => True
  | id :: ids => u32 (id - prev) < 65536 ∧ close_ids id ids
  end.

Lemma u32_sub_add p id : is_u32 id → u32 (p + u32 (id - p)) = id.
Proof.
  intros Hid. unfold u32. rw Zplus_mod_idemp_r. replace (p + (id - p)) with id by lia.
  by apply Z.mod_small.
Qed.

Lemma decode_list_loop_deltas rest prev pre post acc :
  Forall is_u32 rest → close_ids prev rest →
  decode_list_loop (length rest) prev
    (reader_at (pre ++ deltas prev rest ++ post) (length pre)) acc
  = (acc ++ rest, reader_at (pre ++ deltas prev rest ++ post)
                    (length pre + 2 * length rest)).
Proof.
  revert prev pre acc. induction rest as [|id rest IH]; intros prev pre acc Hids Hc.
  { cbn. by rw app_nil_r Nat.add_0_r. }
  apply Forall_cons in Hids as [Hid Hids]. destruct Hc as [Hd Hc].
  change (deltas prev (id :: rest)) with (be16 (u32 (id - prev)) ++ deltas id rest).
  cbn [length decode_list_loop]. rw -app_assoc read_be16.
  - rw u32_sub_add // app_assoc.
    assert (length pre + 2 = length (pre ++ be16 (u32 (id - prev))))%nat as ->
      by (rw length_app; simpl; lia).
    rw IH // -!app_assoc. do 2 f_equal. rw length_app /=. lia.
  - pose proof (u32_is (id - prev)) as H. unfold is_u32, is_u16 in *. lia.
Qed.

Lemma compressed_list_roundtrip first rest pad :
  is_u32 first → Forall is_u32 rest → close_ids first rest →
  (Z.of_nat (length rest) < 2 ^ 62) →
  ∃ enc, encode_compressed_list (first :: rest) = Ok enc ∧
    length enc = (2 * length rest)%nat ∧
    decode_compressed_list (enc ++ pad) (S (length rest)) first
      = Ok (first :: rest, length enc).
Proof.
  intros Hf Hids Hc Hlen. exists (deltas first rest).
  split; [|split; [apply deltas_length|]].
  { unfold encode_compressed_list. by rw (compressed_list_aligned rest first []). }
  unfold decode_compressed_list. destruct (Nat.eqb_spec (S (length rest)) 1) as [H1|H1].
  { by destruct rest. }
  rw Nat2Z.inj_succ /Z.succ Z.add_simpl_r !u64_small; [|word_bound..].
  rw length_app deltas_length (proj2 (Z.ltb_ge _ _)); [|lia].
  replace (S (length rest) - 1)%nat with (length rest) by lia.
  pose proof (decode_list_loop_deltas rest first [] pad [first] Hids Hc) as Hd.
  cbn [app length Nat.add] in Hd. unfold reader_at in Hd. rw Hd. done.
Qed.

(** *** Blocks of consecutive IDs *)
Definition block_ids (blocks : list (Z * Z)) : list Z :=
  concat ((λ '(start, end_), range_u32 start end_) <$> blocks).

Definition block_ok : Z * Z → Prop := λ '(start, end_), 0 ≤ start ∧ start < end_ ∧ is_u32 end_.

(** IDs whose successor does not wrap. *)
Definition id_ok (id : Z) : Prop := 0 ≤ id < 4294967295.

Lemma range_u32_snoc a b : a ≤ b → range_u32 a (b + 1) = range_u32 a b ++ [b].
Proof.
  intros. unfold range_u32. replace (b + 1 - a) with (b - a + 1) by lia.
  rw seqZ_app; [|lia..]. f_equal. rw Z.add_sub_assoc Z.add_simpl_l. by rw seqZ_cons.
Qed.

Lemma block_ids_app bs bs' : block_ids (bs ++ bs') = block_ids bs ++ block_ids bs'.
Proof. unfold block_ids. by rw fmap_app concat_app. Qed.

Lemma to_blocks_loop_ids ids start prev blocks :
  id_ok prev → Forall id_ok ids → 0 ≤ start ≤ prev → Forall block_ok blocks →
  Forall block_ok (to_blocks_loop ids start prev blocks) ∧
  block_ids (to_blocks_loop ids start prev blocks)
  = block_ids blocks ++ range_u32 start (prev + 1) ++ ids.
Proof.
  revert start prev blocks.
  induction ids as [|id ids IH]; intros start prev blocks Hp Hids Hsp Hb; simpl;
    unfold id_ok in Hp; rw (u32_small (prev + 1)); [|word_bound| |word_bound].
  - assert (block_ok (start, prev + 1)) by (unfold block_ok, is_u32; lia).
    split; [by apply Forall_app_2; [|constructor]|].
    rw block_ids_app. by rw app_nil_r /block_ids /= app_nil_r.
  - apply Forall_cons in Hids as [Hid Hids].
    destruct (Z.eqb_spec id (prev + 1)) as [->|Hne]; simpl.
    + destruct (IH start (prev + 1) blocks) as [H1 H2]; [done..|lia|done|]. split; [done|].
      rw H2 (range_u32_snoc start (prev + 1)); [|lia]. by rw -!app_assoc.
    + destruct (IH id id (blocks ++ [(start, prev + 1)])) as [H1 H2];
        [done..|unfold id_ok in Hid; lia| |].
      { apply Forall_app_2; [done|]. constructor; [|done]. unfold block_ok, is_u32. lia. }
      split; [done|]. rw H2 block_ids_app -app_assoc. f_equal.
      rw (range_u32_snoc id id); [|lia]. rw /block_ids /= app_nil_r. f_equal.
      unfold range_u32. by rw Z.sub_diag.
Qed.

(** The blocks of a list of IDs are nonempty ranges that list it back. *)
Lemma to_blocks_ids ids : Forall id_ok ids →
  Forall block_ok (to_blocks ids) ∧ block_ids (to_blocks ids) = ids.
Proof.
  destruct ids as [|id ids]; intros Hids; [done|]. apply Forall_cons in Hids as [Hid Hids].
  destruct (to_blocks_loop_ids ids id id []) as [H1 H2]; [done..|unfold id_ok in Hid; lia|done|].
  split; [done|]. unfold to_blocks. rw H2. rw (range_u32_snoc id id); [|lia].
  unfold range_u32. by rw Z.sub_diag.
Qed.

Lemma range_u32_length a b : length (range_u32 a b) = Z.to_nat (b - a).
Proof. unfold range_u32. by rw length_seqZ. Qed.

Lemma to_blocks_cons id ids : ∃ e bs, to_blocks (id :: ids) = (id, e) :: bs.
Proof.
  unfold to_blocks. assert (∀ ids start prev b bs, ∃ bs',
    to_blocks_loop ids start prev (b :: bs) = b :: bs') as Hcons.
  { induction ids0 as [|x xs IH]; intros; simpl; [eauto|].
    case_match; [apply IH|apply IH]. }
  revert id. assert (∀ start prev, ∃ e bs, to_blocks_loop ids start prev [] = (start, e) :: bs) as H.
  { induction ids as [|x xs IH]; intros; simpl; [eauto|].
    case_match; [|apply IH]. destruct (Hcons xs x x (start, u32 (prev + 1)) []) as [bs ->]. eauto. }
  intros. apply H.
Qed.

(** *** UncompressedEdges *)
Definition edge_bytes (base : Z) (blocks : list (Z * Z)) : bytes :=
  concat ((λ '(start, end_), u32_to_be_bytes (u32 (start - base))
             ++ u32_to_be_bytes (u32 (end_ - base))) <$> blocks).

Lemma edge_bytes_length base blocks : length (edge_bytes base blocks) = (8 * length blocks)%nat.
Proof.
  induction blocks as [|[s e] bs IH]; [done|].
  change (length (edge_bytes base ((s, e) :: bs)))
    with (8 + length (edge_bytes base bs))%nat. rw IH /=. lia.
Qed.

Lemma uncompressed_edges_blocks blocks base nb pre pad acc fuel :
  Forall block_ok blocks → (length acc + length (block_ids blocks) = nb)%nat →
  (length blocks ≤ fuel)%nat →
  uncompressed_edges_loop fuel (pre ++ edge_bytes base blocks ++ pad) nb base (length pre) acc
  = Ok (acc ++ block_ids blocks, (length pre + length (edge_bytes base blocks))%nat).
Proof.
  revert pre acc fuel.
  induction blocks as [|[s e] bs IH]; intros pre acc fuel Hb Hn Hf.
  { destruct fuel; simpl; (rw (proj2 (Nat.ltb_ge _ _)); [|simpl in Hn; lia]);
      (rw take_ge; [|simpl in Hn; lia]); by rw app_nil_r Nat.add_0_r. }
  apply Forall_cons in Hb as [Hse Hb]. destruct Hse as (Hs & Hlt & He). unfold is_u32 in He.
  change (block_ids ((s, e) :: bs)) with (range_u32 s e ++ block_ids bs) in *.
  rw length_app range_u32_length in Hn.
  destruct fuel as [|fuel]; [simpl in Hf; lia|]. simpl in Hf.
  set (x := u32_to_be_bytes (u32 (s - base))). set (y := u32_to_be_bytes (u32 (e - base))).
  change (edge_bytes base ((s, e) :: bs)) with ((x ++ y) ++ edge_bytes base bs).
  rw -!app_assoc. cbn [uncompressed_edges_loop].
  rw (proj2 (Nat.ltb_lt _ _)); [|lia].
  rw (proj2 (Nat.ltb_ge (length (pre ++ _)) _)); [|rw !length_app /=; lia].
  rw (slice_app pre x _ (length pre)); [|done|done].
  rw (app_assoc pre x) (slice_app (pre ++ x) y _ (length pre + 4));
    [|rw length_app; reflexivity|rw -Nat.add_assoc; reflexivity].
  cbn [bind_Ok mbind outcome_bind]. unfold x, y. rw !u32_be_roundtrip; [|apply u32_is..].
  rw !u32_sub_add; [|unfold is_u32; lia..].
  rw (app_assoc (pre ++ _) _).
  assert (length pre + 8 = length ((pre ++ u32_to_be_bytes (u32 (s - base)))
            ++ u32_to_be_bytes (u32 (e - base))))%nat as ->
    by (rw !length_app /=; lia).
  rw IH; [|done|rw length_app range_u32_length; lia|lia].
  rw -app_assoc. do 2 f_equal. rw !length_app /=. lia.
Qed.

(** *** CompressedEdges: 16-bit distance from the last block, 16-bit length *)
Fixpoint close_blocks (prev : Z) (blocks : list (Z * Z)) : Prop :=
  match blocks with
  | [] => True
  | (s, e) :: bs => u32 (s - prev) < 65536 ∧ e - s < 65536 ∧ close_blocks e bs
  end.

Fixpoint delta_edges (prev : Z) (blocks : list (Z * Z)) : bytes :=
  match blocks with
  | [] => []
  | (s, e) :: bs => be16 (u32 (s - prev)) ++ be16 (e - s) ++ delta_edges e bs
  end.

Lemma u32_sub_sub a b c : u32 (u32 (a - b) - u32 (c - b)) = u32 (a - c).
Proof. unfold u32. rw -Zminus_mod. f_equal. lia. Qed.
Lemma u32_add_sub a b c : u32 (u32 (a + u32 (b - a)) + c) = u32 (b + c).
Proof. unfold u32. rw Zplus_mod_idemp_r Zplus_mod_idemp_l. f_equal. lia. Qed.

Lemma compressed_edges_aligned blocks base prev buf : Forall block_ok blocks →
  compressed_edges_loop blocks base (u32 (prev - base)) (aligned buf)
  = aligned (buf ++ delta_edges prev blocks).
Proof.
  revert prev buf. induction blocks as [|[s e] bs IH]; intros prev buf Hb.
  { by rw app_nil_r. }
  apply Forall_cons in Hb as [(Hs & Hlt & He) Hb]. unfold is_u32 in He.
  cbn [compressed_edges_loop delta_edges]. rw u32_sub_sub (u32_small (e - s)); [|word_bound].
  by rw !write_16 IH // -!app_assoc.
Qed.

Lemma compressed_edges_blocks blocks base prev nb pre pad acc fuel :
  Forall block_ok blocks → close_blocks prev blocks →
  (length acc + length (block_ids blocks) = nb)%nat → (length blocks ≤ fuel)%nat →
  Z.of_nat (length (pre ++ delta_edges prev blocks ++ pad)) < 2 ^ 60 →
  compressed_edges_dec_loop fuel
    (reader_at (pre ++ delta_edges prev blocks ++ pad) (length pre)) nb base
    (u32 (prev - base)) acc
  = Ok (acc ++ block_ids blocks, (length pre + length (delta_edges prev blocks))%nat).
Proof.
  revert pre prev acc fuel.
  induction blocks as [|[s e] bs IH]; intros pre prev acc fuel Hb Hc Hn Hf Hlen.
  { destruct fuel; simpl; (rw (proj2 (Nat.ltb_ge _ _)); [|simpl in Hn; lia]);
      (rw take_ge; [|simpl in Hn; lia]); by rw app_nil_r Nat.add_0_r. }
  apply Forall_cons in Hb as [(Hs & Hlt & He) Hb]. unfold is_u32 in He.
  destruct Hc as (Hc1 & Hc2 & Hc).
  change (block_ids ((s, e) :: bs)) with (range_u32 s e ++ block_ids bs) in *.
  rw length_app range_u32_length in Hn.
  destruct fuel as [|fuel]; [simpl in Hf; lia|]. simpl in Hf.
  cbn [delta_edges] in *. cbn [compressed_edges_dec_loop].
  rw (proj2 (Nat.ltb_lt _ _)); [|lia]. rw -!app_assoc in Hlen |- *.
  set (d := delta_edges e bs) in *.
  rw (proj2 (Z.ltb_ge _ _)).
  2: { unfold remaining_bits, reader_at, br_bit_pos, br_buf, br_byte_i. 
       rw !length_app /= in Hlen. rw !length_app /= u64_small; word_bound. }
  pose proof (u32_is (s - prev)) as Hsp. unfold is_u32 in Hsp.
  rw read_be16; [|unfold is_u16; lia].
  rw (app_assoc pre).
  assert (length pre + 2 = length (pre ++ be16 (u32 (s - prev))))%nat as ->
    by (rw length_app; reflexivity).
  rw read_be16; [|unfold is_u16; lia]. rw u32_add_sub u32_sub_add; [|unfold is_u32; lia].
  rw (u32_small (s + (e - s))); [|word_bound].
  replace (s + (e - s)) with e by lia.
  assert (u32 (u32 (s - base) + (e - s)) = u32 (e - base)) as ->.
  { unfold u32. rw Zplus_mod_idemp_l. f_equal. lia. }
  rw (app_assoc (pre ++ _)).
  assert (length (pre ++ be16 (u32 (s - prev))) + 2
    = length ((pre ++ be16 (u32 (s - prev))) ++ be16 (e - s)))%nat as ->
    by (rw (length_app (pre ++ _)); reflexivity).
  rw IH; [|done|done|rw length_app range_u32_length; lia|lia|by rw -!app_assoc].
  rw -app_assoc. do 2 f_equal. rw !length_app /=. unfold d. lia.
Qed.

(** ** The round trip of every format *)

(** What each format can hold: consecutive IDs, IDs whose successor does not
    wrap, gaps below 2^16. *)
Definition storable (format : IdStorageFormat) (ids : list Z) : Prop :=
  match format, ids with
  | _, [] => False
  | FmtNone, _ => is_contiguous ids = true
  | UncompressedEdges, _ => Forall id_ok ids
  | CompressedList, first :: rest => close_ids first rest
  | CompressedEdges, first :: _ => Forall id_ok ids ∧ close_blocks first (to_blocks ids)
  end.

Lemma contiguous_range first rest : is_u32 first → Forall is_u32 rest →
  is_contiguous (first :: rest) = true →
  (λ i, u32 (first + i)) <$> seqZ 0 (Z.of_nat (S (length rest))) = first :: rest.
Proof.
  revert first. induction rest as [|b rest IH]; intros first Hf Hr Hc.
  { change ([u32 (first + 0)] = [first]). by rw Z.add_0_r u32_small. }
  apply Forall_cons in Hr as [Hb Hr]. cbn [is_contiguous] in Hc.
  apply andb_true_iff in Hc as [Hb1 Hc]. apply Z.eqb_eq in Hb1.
  rw -{2}(IH b); [|done..]. rw seqZ_cons; [|lia]. rw fmap_cons Z.add_0_r u32_small //.
  f_equal. rw -(fmap_add_seqZ (Z.succ 0) 0) -list_fmap_compose.
  rw (_ : Z.pred (Z.of_nat (S (length (b :: rest)))) = Z.of_nat (S (length rest)));
    [|simpl length; lia].
  apply list_fmap_ext. intros _ i _. simpl. rw Hb1 /u32 Zplus_mod_idemp_l. f_equal. lia.
Qed.

Lemma blocks_length ids : Forall id_ok ids → (length (to_blocks ids) ≤ length ids)%nat.
Proof.
  intros [Hb Hids]%to_blocks_ids. rw -{2}Hids. clear Hids.
  induction Hb as [|[s e] bs (Hs & Hlt & He) Hb IH]; [done|].
  change (block_ids ((s, e) :: bs)) with (range_u32 s e ++ block_ids bs).
  rw length_app range_u32_length /=. lia.
Qed.

Lemma decode_encode format first rest pad :
  Forall is_u32 (first :: rest) → storable format (first :: rest) →
  Z.of_nat (length pad) < 2 ^ 32 → Z.of_nat (length rest) < 2 ^ 32 - 1 →
  ∃ enc, encode (first :: rest) format = Ok enc ∧
    decode (enc ++ pad) (S (length rest)) first format = Ok (first :: rest, length enc).
Proof.
  intros Hids Hst Hpad Hlen. assert (is_u32 first ∧ Forall is_u32 rest) as [Hf Hr]
    by by apply Forall_cons.
  destruct format; unfold storable in Hst.
  - exists []. split; [done|]. simpl. rw u32_small; [|word_bound].
    by rw contiguous_range.
  - destruct (to_blocks_ids _ Hst) as [Hb Heq].
    exists (edge_bytes first (to_blocks (first :: rest))). split; [done|].
    unfold decode, decode_uncompressed_edges.
    rw (uncompressed_edges_blocks _ _ _ [] pad []); [|done|by rw Heq|]; [by rw Heq|].
    rw length_app edge_bytes_length. lia.
  - destruct (compressed_list_roundtrip first rest pad) as (enc & H1 & _ & H2);
      [done..|lia|]. by exists enc.
  - destruct Hst as [Hid Hc]. destruct (to_blocks_ids _ Hid) as [Hb Heq].
    pose proof (blocks_length _ Hid) as Hbl.
    set (blocks := to_blocks (first :: rest)) in *.
    assert (length (delta_edges first blocks) = 4 * length blocks)%nat as Hde.
    { clear. generalize first. induction blocks as [|[s e] bs IH]; intros; [done|].
      simpl. rw IH. lia. }
    pose proof (compressed_edges_aligned blocks first first [] Hb) as Henc.
    rw Z.sub_diag in Henc. change (u32 0) with 0 in Henc.
    exists (delta_edges first blocks). split.
    { unfold encode, encode_compressed_edges. fold blocks. unfold aligned in Henc.
      unfold BitWriter_new. by rw Henc. }
    unfold decode, decode_compressed_edges, BitReader_new.
    pose proof (compressed_edges_blocks blocks first first (S (length rest)) [] pad [])
      as Hdec. rw Z.sub_diag in Hdec. change (u32 0) with 0 in Hdec.
    unfold reader_at in Hdec. cbn [app length] in Hdec.
    rw Hdec; [by rw Heq|done|done|by rw Heq|rw length_app; lia|].
    rw length_app Hde. simpl length in Hbl. lia.
Qed.

(** C26: for each of the four formats, [decode] returns exactly the IDs that
    [encode] was given, consumes exactly the encoder's bytes and ignores what
    follows them (the padding), for every ID list the format can hold. *)
Theorem storage_roundtrip format first rest pad :
  Forall is_u32 (first :: rest) → storable format (first :: rest) →
  Z.of_nat (length pad) < 2 ^ 32 → Z.of_nat (length rest) < 2 ^ 32 - 1 →
  ∃ enc, encode (first :: rest) format = Ok enc ∧
    decode (enc ++ pad) (S (length rest)) first format = Ok (first :: rest, length enc).
Proof. apply decode_encode. Qed.

Lemma storage_roundtrip_witness :
  ∃ enc, encode [7; 8; 9; 300; 301] CompressedEdges = Ok enc ∧
    decode (enc ++ [0; 0]) 5 7 CompressedEdges = Ok ([7; 8; 9; 300; 301], length enc).
Proof.
  apply (storage_roundtrip CompressedEdges 7 [8; 9; 300; 301] [0; 0]).
  - repeat constructor; done.
  - split; [repeat constructor; vm_compute; intuition discriminate|].
    vm_compute. intuition discriminate.
  - reflexivity.
  - reflexivity.
Defined.

(** A gap of 2^16 does not survive the format [best_for] chooses for it: the
    16-bit delta is cut to zero. *)
Lemma best_for_wide_gap :
  best_for [0; 65536] = CompressedList ∧
  encode [0; 65536] CompressedList = Ok [0; 0] ∧
  decode [0; 0] 2 0 CompressedList = Ok ([0; 0], 2%nat).
Proof. by vm_compute. Qed.

(** ** The fuel of the decoding loops is enough *)
Lemma uncompressed_edges_fuel fuel buf nb first off ids :
  (length buf < off + 8 * S fuel)%nat →
  uncompressed_edges_loop fuel buf nb first off ids
  = uncompressed_edges_loop (S fuel) buf nb first off ids.
Proof.
  revert off ids. induction fuel as [|fuel IH]; intros off ids Hl.
  { simpl. case_match; [|done]. by rw (proj2 (Nat.ltb_lt (length buf) _)); [|lia]. }
  cbn [uncompressed_edges_loop]. case_match; [|done]. case_match; [done|].
  destruct (slice buf off (off + 4)); [|done..]. cbn [mbind outcome_bind].
  destruct (slice buf (off + 4) (off + 8)); [|done..]. cbn [mbind outcome_bind].
  apply IH. lia.
Qed.

Lemma compressed_edges_fuel fuel buf nb first abs i ids :
  bytes_ok buf → Z.of_nat (length buf) < 2 ^ 60 → (length buf < i + 4 * S fuel)%nat →
  compressed_edges_dec_loop fuel (reader_at buf i) nb first abs ids
  = compressed_edges_dec_loop (S fuel) (reader_at buf i) nb first abs ids.
Proof.
  intros Hb Hlen. revert i abs ids. induction fuel as [|fuel IH]; intros i abs ids Hl.
  { simpl. case_match; [|done]. unfold remaining_bits. cbn [br_buf br_byte_i br_bit_pos reader_at].
    by rw u64_small ?(proj2 (Z.ltb_lt _ _)); [|lia|word_bound]. }
  cbn [compressed_edges_dec_loop]. case_match; [|done].
  destruct (Z.ltb_spec (remaining_bits (reader_at buf i)) 32) as [|Hr]; [done|].
  unfold remaining_bits in Hr. cbn [br_buf br_byte_i br_bit_pos reader_at] in Hr.
  rw u64_small in Hr; [|word_bound].
  assert (∀ j, (j < length buf)%nat → ∃ b, buf !! j = Some b ∧ is_u8 b) as Hget.
  { intros j Hj. destruct (lookup_lt_is_Some_2 buf j Hj) as [b Hbj]. exists b.
    split; [done|]. by eapply Forall_lookup_1 in Hb. }
  destruct (Hget i) as (b0 & Hb0 & ?), (Hget (S i)) as (b1 & Hb1 & ?),
    (Hget (S (S i))) as (b2 & Hb2 & ?), (Hget (S (S (S i)))) as (b3 & Hb3 & ?); [lia..|].
  rw (read_16 buf i b0 b1) // (read_16 buf (S (S i)) b2 b3) //.
  apply IH. lia.
Qed.
