(* ===== verification/EncVec.v ===== *)
(** * wire/ev/mod.rs: the encoding vector and its wire format *)

From S2P Require Import Prelude Error Config IdStorage.
From stdpp Require Import strings.
#[global] Open Scope Z_scope.

Record EncodingVector := {
  ev_field : Field;
  ev_coded_id : Z;
  ev_generation : Z;
  ev_id_format : IdStorageFormat;
  ev_source_ids : list Z;
  ev_coefficients : bytes;
}.

Definition ev_vandermonde (field : Field) (coded_id : Z) (source_ids : list Z) : EncodingVector :=
  {| ev_field := field; ev_coded_id := coded_id; ev_generation := 0;
     ev_id_format := best_for source_ids; ev_source_ids := source_ids;
     ev_coefficients := [] |}.

Definition ev_explicit (field : Field) (coded_id : Z) (source_ids : list Z)
    (coefficients : bytes) : result EncodingVector :=
  _ ← rassert (length source_ids =? length coefficients)%nat;
  Ok {| ev_field := field; ev_coded_id := coded_id; ev_generation := 0;
        ev_id_format := best_for source_ids; ev_source_ids := source_ids;
        ev_coefficients := coefficients |}.

Definition with_generation (ev : EncodingVector) (generation : Z) : EncodingVector :=
  {| ev_field := ev_field ev; ev_coded_id := ev_coded_id ev; ev_generation := generation;
     ev_id_format := ev_id_format ev; ev_source_ids := ev_source_ids ev;
     ev_coefficients := ev_coefficients ev |}.

Definition has_explicit_coefs (ev : EncodingVector) : bool :=
  negb (length (ev_coefficients ev) =? 0)%nat.
Definition has_generation (ev : EncodingVector) : bool := negb (ev_generation ev =? 0).
Definition nb_ids (ev : EncodingVector) : Z := u8 (Z.of_nat (length (ev_source_ids ev))).
Definition nb_coefs (ev : EncodingVector) : Z := u8 (Z.of_nat (length (ev_coefficients ev))).

(** [(len + 3) & !3] *)
Definition pad32 (len : nat) : nat := Z.to_nat (Z.land (Z.of_nat len + 3) (Z.lnot 3)).

(** [chunks(2)] *)
Fixpoint pack_nibbles (coefs : bytes) : bytes :=
  match coefs with
  | [] => []
  | [a] => [Z.lor (u8 (Z.shiftl (Z.land a 15) 4)) (Z.land 0 15)]
  | a :: b :: coefs =>
      Z.lor (u8 (Z.shiftl (Z.land a 15) 4)) (Z.land b 15) :: pack_nibbles coefs
  end.

(** The loop pushes onto [out]; the last nibble is dropped at [count]. *)
Fixpoint unpack_nibbles_loop (bs : bytes) (count : nat) (out : bytes) : bytes :=
  match bs with
  | [] => out
  | byte :: bs =>
      let out := out ++ [Z.land (Z.shiftr byte 4) 15] in
      let out := if (length out <? count)%nat then out ++ [Z.land byte 15] else out in
      unpack_nibbles_loop bs count out
  end.
Definition unpack_nibbles (bs : bytes) (count : nat) : bytes :=
  take count (unpack_nibbles_loop bs count []).

Definition bool_u8 (b : bool) : Z := if b then 1 else 0.

(** [n.div_ceil(4)] *)
Definition div_ceil (n d : nat) : nat := ((n + (d - 1)) / d)%nat.

Definition ev_serialise (ev : EncodingVector) : result bytes :=
  id_bits ← encode (ev_source_ids ev) (ev_id_format ev);
  let id_padded := pad32 (length id_bits) in
  let id_bits := resize id_padded 0 id_bits in
  let coef_bytes :=
    if has_explicit_coefs ev then
      let bits := match ev_field ev with
                  | Gf2_8 => ev_coefficients ev
                  | Gf2_4 => pack_nibbles (ev_coefficients ev)
                  end in
      let padded := pad32 (length bits) in
      resize padded 0 bits
    else [] in
  let has_gen := has_generation ev in
  let gen_block := if has_gen then 4%nat else 0%nat in
  let body_len := (8 + gen_block + id_padded + length coef_bytes)%nat in
  let ev_len_words := u8 (Z.of_nat (div_ceil body_len 4)) in
  let ccgi_bit := match ev_field ev with Gf2_4 => 0 | Gf2_8 => 1 end in
  let i_bits := wire_value (ev_id_format ev) in
  let c_bit := bool_u8 (has_explicit_coefs ev) in
  let g_bit := bool_u8 has_gen in
  let byte1 := Z.lor (Z.lor (Z.lor (u8 (Z.shiftl ccgi_bit 4)) (u8 (Z.shiftl i_bits 2)))
                        (u8 (Z.shiftl c_bit 1))) g_bit in
  let first_src_id := default 0 (head (ev_source_ids ev)) in
  Ok ([ev_len_words; byte1; nb_ids ev; nb_coefs ev]
        ++ u32_to_be_bytes first_src_id
        ++ (if has_gen then [ev_generation ev; 0; 0; 0] else [])
        ++ id_bits ++ coef_bytes).

Definition ev_parse (buf : bytes) (coded_id : Z) : result (EncodingVector * nat) :=
  if (length buf <? 8)%nat then Err (BufferTooShort 8 (length buf)) else
  b0 ← index buf 0;
  let ev_len_words := Z.to_nat b0 in
  let ev_bytes := (ev_len_words * 4)%nat in
  if (length buf <? ev_bytes)%nat then Err (EncodingVectorOverflow b0) else
  byte1 ← index buf 1;
  let ccgi_bit := Z.land (Z.shiftr byte1 4) 15 in
  let i_bits := Z.land (Z.shiftr byte1 2) 3 in
  let c_bit := Z.land (Z.shiftr byte1 1) 1 in
  let g_bit := Z.land byte1 1 in
  field ← (if ccgi_bit =? 0 then Ok Gf2_4
           else if ccgi_bit =? 1 then Ok Gf2_8
           else Err (MalformedEncodingVector "invalid CCGI"));
  b2 ← index buf 2;
  b3 ← index buf 3;
  let nb_ids := Z.to_nat b2 in
  let nb_coefs := Z.to_nat b3 in
  if (c_bit =? 0) && negb (nb_coefs =? 0)%nat then Err CoefficientFieldInconsistency else
  if (c_bit =? 1) && negb (nb_coefs =? nb_ids)%nat then Err CoefficientFieldInconsistency else
  first ← slice buf 4 8;
  let first_src_id := u32_from_be_bytes first in
  '(generation, body_off) ←
    (if g_bit =? 1 then
       if (length buf <? 12)%nat then Err (BufferTooShort 12 (length buf))
       else g ← index buf 8; Ok (g, 12%nat)
     else Ok (0, 8%nat));
  id_format ← from_wire i_bits;
  body ← slice buf body_off ev_bytes;
  '(source_ids, id_bytes_consumed) ← decode body nb_ids first_src_id id_format;
  let coef_offset := (body_off + pad32 id_bytes_consumed)%nat in
  coefficients ←
    (if c_bit =? 1 then
       let coef_bytes_needed := match field with
                                | Gf2_8 => nb_coefs
                                | Gf2_4 => div_ceil nb_coefs 2
                                end in
       if (length buf <? coef_offset + coef_bytes_needed)%nat
       then Err (BufferTooShort (coef_offset + coef_bytes_needed) (length buf))
       else raw ← slice buf coef_offset (coef_offset + coef_bytes_needed);
            Ok (match field with
                | Gf2_8 => raw
                | Gf2_4 => unpack_nibbles raw nb_coefs
                end)
     else Ok []);
  Ok ({| ev_field := field; ev_coded_id := coded_id; ev_generation := generation;
         ev_id_format := id_format; ev_source_ids := source_ids;
         ev_coefficients := coefficients |}, ev_bytes).

(** ** Padding and nibbles *)
Lemma pad32_div n : pad32 n = (4 * ((n + 3) / 4))%nat.
Proof.
  unfold pad32. change 3 with (Z.ones 2). rw -Z.ldiff_land Z.ldiff_ones_r; [|lia].
  rw Z.shiftl_mul_pow2 // Z.shiftr_div_pow2 //. change (2 ^ 2) with 4. change (Z.ones 2) with 3.
  apply Nat2Z.inj. rw Z2Nat.id; [|Z.to_euclidean_division_equations; lia].
  rw Nat2Z.inj_mul Nat2Z.inj_div. lia.
Qed.

Lemma pad32_bounds n : (n ≤ pad32 n < n + 4)%nat.
Proof.
  rw pad32_div. pose proof (Nat.div_mod_eq (n + 3) 4).
  pose proof (Nat.mod_upper_bound (n + 3) 4). lia.
Qed.

Lemma pad32_mult n : ∃ k, pad32 n = (4 * k)%nat.
Proof. rw pad32_div. eauto. Qed.

Lemma pad_resize n v : n = length v → resize (pad32 n) 0 v = v ++ replicate (pad32 n - n) 0.
Proof. intros ->. apply resize_pad. pose proof (pad32_bounds (length v)). lia. Qed.

(** The two nibbles of a packed byte. *)
Definition is_nibble (z : Z) : Prop := 0 ≤ z < 16.

Lemma nibble_byte a b : is_nibble a → is_nibble b →
  let byte := Z.lor (u8 (Z.shiftl (Z.land a 15) 4)) (Z.land b 15) in
  Z.land (Z.shiftr byte 4) 15 = a ∧ Z.land byte 15 = b ∧ is_u8 byte.
Proof.
  unfold is_nibble. intros Ha Hb.
  assert (all_below 16 (λ a, all_below 16 (λ b,
    let byte := Z.lor (u8 (Z.shiftl (Z.land a 15) 4)) (Z.land b 15) in
    (Z.land (Z.shiftr byte 4) 15 =? a) && (Z.land byte 15 =? b) && (0 <=? byte)
      && (byte <? 256))) = true) as H by by vm_compute.
  eapply (all_below_spec 16 _ a) in H; [|lia]. eapply (all_below_spec 16 _ b) in H; [|lia].
  cbn beta zeta in *. unfold is_u8. lia.
Qed.

Lemma pack_nibbles_length cs : length (pack_nibbles cs) = div_ceil (length cs) 2.
Proof.
  unfold div_ceil. assert (∀ n, length cs ≤ n → length (pack_nibbles cs) = (length cs + 1) / 2)%nat as H;
    [|by rw (H (length cs))]. intros n. revert cs.
  induction n as [|n IH]; intros [|a [|b cs]] Hn; try done; cbn [length pack_nibbles] in *; try lia.
  rw IH; [|lia]. replace (S (S (length cs)) + 1)%nat with (length cs + 1 + 1 * 2)%nat by lia.
  rw Nat.div_add; lia.
Qed.

Lemma unpack_pack cs out : Forall is_nibble cs →
  unpack_nibbles_loop (pack_nibbles cs) (length out + length cs) out = out ++ cs.
Proof.
  assert (∀ n cs out, (length cs ≤ n)%nat → Forall is_nibble cs →
    unpack_nibbles_loop (pack_nibbles cs) (length out + length cs) out = out ++ cs) as H;
    [|by apply (H (length cs))].
  clear. induction n as [|n IH]; intros [|a [|b cs]] out Hn Hcs; cbn [length] in *;
    try lia; try by rw app_nil_r.
  - apply Forall_cons in Hcs as [Ha _].
    destruct (nibble_byte a 0) as (H1 & _ & _); [done|done|].
    cbn [pack_nibbles unpack_nibbles_loop]. change (Z.land 0 15) with (Z.land 0 15) in H1.
    rw H1 length_app. cbn [length]. by rw Nat.ltb_irrefl.
  - apply Forall_cons in Hcs as [Ha [Hb Hcs]%Forall_cons].
    destruct (nibble_byte a b) as (H1 & H2 & _); [done|done|].
    cbn [pack_nibbles unpack_nibbles_loop]. rw H1 H2.
    rw (proj2 (Nat.ltb_lt _ _)); [|rw length_app /=; lia].
    rw -app_assoc. cbn [app].
    assert (length out + S (S (length cs)) = length (out ++ [a; b]) + length cs)%nat as ->
      by (rw length_app /=; lia).
    rw IH; [|lia|done]. by rw -app_assoc.
Qed.

Lemma unpack_nibbles_pack cs : Forall is_nibble cs →
  unpack_nibbles (pack_nibbles cs) (length cs) = cs.
Proof.
  intros Hcs. unfold unpack_nibbles. pose proof (unpack_pack cs [] Hcs) as H.
  cbn [length Nat.add app] in H. by rw H take_ge.
Qed.

(** ** Round trip *)

(** The coefficients of a wire encoding vector: none, or one field element per
    source. *)
Definition wire_coef (f : Field) (c : Z) : Prop :=
  match f with Gf2_8 => is_u8 c | Gf2_4 => is_nibble c end.

Record ev_ok (ev : EncodingVector) : Prop := {
  eo_nonempty : ev_source_ids ev ≠ [];
  eo_count : (length (ev_source_ids ev) < 256)%nat;
  eo_ids : Forall is_u32 (ev_source_ids ev);
  eo_storable : storable (ev_id_format ev) (ev_source_ids ev);
  eo_generation : is_u8 (ev_generation ev);
  eo_coefs : ev_coefficients ev = [] ∨ length (ev_coefficients ev) = length (ev_source_ids ev);
  eo_coefs_field : Forall (wire_coef (ev_field ev)) (ev_coefficients ev);
}.

Definition coef_block (ev : EncodingVector) : bytes :=
  match ev_field ev with
  | Gf2_8 => ev_coefficients ev
  | Gf2_4 => pack_nibbles (ev_coefficients ev)
  end.

Lemma coef_block_length ev : (length (coef_block ev) ≤ length (ev_coefficients ev))%nat.
Proof.
  unfold coef_block. destruct (ev_field ev); [done|]. rw pack_nibbles_length /div_ceil.
  destruct (length (ev_coefficients ev)) as [|n]; [done|].
  apply Nat.Div0.div_le_upper_bound. lia.
Qed.

(** The flag byte carries its four fields. *)
Definition flag_byte (f : Field) (fmt : IdStorageFormat) (c g : bool) : Z :=
  Z.lor (Z.lor (Z.lor (u8 (Z.shiftl (match f with Gf2_4 => 0 | Gf2_8 => 1 end) 4))
                      (u8 (Z.shiftl (wire_value fmt) 2)))
               (u8 (Z.shiftl (bool_u8 c) 1))) (bool_u8 g).

Lemma flag_byte_fields f fmt c g :
  Z.land (Z.shiftr (flag_byte f fmt c g) 4) 15 = (match f with Gf2_4 => 0 | Gf2_8 => 1 end) ∧
  from_wire (Z.land (Z.shiftr (flag_byte f fmt c g) 2) 3) = Ok fmt ∧
  Z.land (Z.shiftr (flag_byte f fmt c g) 1) 1 = bool_u8 c ∧
  Z.land (flag_byte f fmt c g) 1 = bool_u8 g.
Proof. by destruct f, fmt, c, g. Qed.

(** Reading the coefficients back from the buffer that holds their block. *)
Lemma coef_block_parse ev pre post off :
  off = length pre → Forall (wire_coef (ev_field ev)) (ev_coefficients ev) →
  let n := length (ev_coefficients ev) in
  let needed := match ev_field ev with Gf2_8 => n | Gf2_4 => div_ceil n 2 end in
  needed = length (coef_block ev) ∧
  (raw ← slice (E:=DelpError) (pre ++ coef_block ev ++ post) off (off + needed);
   Ok (match ev_field ev with Gf2_8 => raw | Gf2_4 => unpack_nibbles raw n end))
  = Ok (ev_coefficients ev).
Proof.
  intros -> Hc. unfold coef_block. destruct (ev_field ev); cbv zeta; (split; [|rw slice_app //]).
  - done.
  - by rw pack_nibbles_length.
  - rw bind_Ok unpack_nibbles_pack //.
  - by rw pack_nibbles_length.
Qed.

Definition gen_block_bytes (ev : EncodingVector) : bytes :=
  if has_generation ev then [ev_generation ev; 0; 0; 0] else [].

(** The id and coefficient fields, padded. *)
Definition ev_body (ev : EncodingVector) (id_bits : bytes) : bytes :=
  resize (pad32 (length id_bits)) 0 id_bits
    ++ (if has_explicit_coefs ev then resize (pad32 (length (coef_block ev))) 0 (coef_block ev)
        else []).

Definition ev_wire (ev : EncodingVector) (id_bits : bytes) : bytes :=
  [u8 (Z.of_nat (div_ceil (8 + length (gen_block_bytes ev) + length (ev_body ev id_bits)) 4));
   flag_byte (ev_field ev) (ev_id_format ev) (has_explicit_coefs ev) (has_generation ev);
   nb_ids ev; nb_coefs ev]
    ++ u32_to_be_bytes (default 0 (head (ev_source_ids ev)))
    ++ gen_block_bytes ev ++ ev_body ev id_bits.

Lemma ev_serialise_wire ev id_bits :
  encode (ev_source_ids ev) (ev_id_format ev) = Ok id_bits →
  ev_serialise ev = Ok (ev_wire ev id_bits).
Proof.
  intros Henc. unfold ev_serialise. rw Henc bind_Ok. unfold ev_wire, ev_body.
  rw length_app length_resize Nat.add_assoc.
  unfold gen_block_bytes. by destruct (has_generation ev).
Qed.

Lemma ev_wire_length ev id_bits :
  length (ev_wire ev id_bits) = (8 + length (gen_block_bytes ev) + length (ev_body ev id_bits))%nat.
Proof. unfold ev_wire. rw !length_app /=. lia. Qed.

Lemma ev_body_bound ev id_bits : ev_ok ev → (length id_bits ≤ 740)%nat →
  (length (ev_body ev id_bits) ≤ 1004)%nat.
Proof.
  intros [] Hl. unfold ev_body. rw length_app length_resize.
  pose proof (pad32_bounds (length id_bits)). pose proof (pad32_bounds (length (coef_block ev))).
  pose proof (coef_block_length ev).
  assert (length (ev_coefficients ev) ≤ length (ev_source_ids ev))%nat
    by (destruct eo_coefs0 as [-> | ->]; simpl; lia).
  case_match; rw ?length_resize /=; lia.
Qed.

Lemma ev_wire_mult ev id_bits : ∃ k, length (ev_wire ev id_bits) = (4 * k)%nat.
Proof.
  rw ev_wire_length. unfold ev_body, gen_block_bytes.
  destruct (pad32_mult (length id_bits)) as [a Ha], (pad32_mult (length (coef_block ev))) as [b Hb].
  rw length_app length_resize Ha.
  destruct (has_generation ev), (has_explicit_coefs ev); rw ?length_resize ?Hb; cbn [length].
  - exists (3 + a + b)%nat. lia.
  - exists (3 + a)%nat. lia.
  - exists (2 + a + b)%nat. lia.
  - exists (2 + a)%nat. lia.
Qed.

Lemma ev_wire_words ev id_bits : ev_ok ev → (length id_bits ≤ 740)%nat →
  (Z.to_nat (u8 (Z.of_nat (div_ceil (8 + length (gen_block_bytes ev)
                                       + length (ev_body ev id_bits)) 4))) * 4
   = length (ev_wire ev id_bits))%nat ∧ (length (ev_wire ev id_bits) ≤ 1016)%nat.
Proof.
  intros Hev Hl. pose proof (ev_body_bound ev id_bits Hev Hl).
  destruct (ev_wire_mult ev id_bits) as [k Hk]. rw -ev_wire_length Hk.
  rw ev_wire_length in Hk.
  assert (length (gen_block_bytes ev) ≤ 4)%nat by (unfold gen_block_bytes; case_match; simpl; lia).
  assert (div_ceil (4 * k) 4 = k) as ->.
  { unfold div_ceil. by rw Nat.mul_comm Nat.div_add_l. }
  rw u8_small; [|word_bound]. split; lia.
Qed.

Lemma has_explicit_len ev : ev_ok ev →
  if has_explicit_coefs ev then length (ev_coefficients ev) = length (ev_source_ids ev)
  else ev_coefficients ev = [].
Proof.
  intros []. unfold has_explicit_coefs. destruct eo_coefs0 as [-> |Hl]; [done|]. rw Hl.
  destruct (ev_source_ids ev); done.
Qed.

(** The ID block of the body, read back. *)
Lemma ev_body_ids ev id_bits : ev_ok ev → encode (ev_source_ids ev) (ev_id_format ev) = Ok id_bits →
  (length (ev_body ev id_bits) ≤ 1004)%nat →
  decode (ev_body ev id_bits) (length (ev_source_ids ev)) (default 0 (head (ev_source_ids ev)))
    (ev_id_format ev) = Ok (ev_source_ids ev, length id_bits).
Proof.
  intros [Hne Hn Hids Hst _ _ _] Henc Hmax. unfold ev_body in *. set (cp := if has_explicit_coefs ev then _ else []) in *.
  rw length_app in Hmax. rw (pad_resize _ id_bits) // -app_assoc.
  destruct (ev_source_ids ev) as [|fst ids]; [done|].
  destruct (decode_encode (ev_id_format ev) fst ids
    (replicate (pad32 (length id_bits) - length id_bits) 0 ++ cp)) as (enc & He & Hdec); [done..| | |].
  - rw length_app length_replicate. pose proof (pad32_bounds (length id_bits)). lia.
  - cbn [length] in Hn. lia.
  - rw Henc in He. by injection He as <-.
Qed.

(** The coefficient block, read back. *)
Lemma ev_body_coefs ev id_bits pre rest : ev_ok ev →
  let buf := pre ++ ev_body ev id_bits ++ rest in
  let off := (length pre + pad32 (length id_bits))%nat in
  let n := length (ev_coefficients ev) in
  let needed := match ev_field ev with Gf2_8 => n | Gf2_4 => div_ceil n 2 end in
  (if bool_u8 (has_explicit_coefs ev) =? 1 then
     if (length buf <? off + needed)%nat then Err (BufferTooShort (off + needed) (length buf))
     else raw ← slice buf off (off + needed);
          Ok (match ev_field ev with Gf2_8 => raw | Gf2_4 => unpack_nibbles raw n end)
   else Ok []) = Ok (ev_coefficients ev).
Proof.
  intros Hev buf off n needed. pose proof (has_explicit_len ev Hev) as Hexp. destruct Hev as [_ _ _ _ _ _ Hcf].
  destruct (has_explicit_coefs ev) eqn:Hx; cbn [bool_u8]; [|by rw Hexp].
  rw Z.eqb_refl. set (pre2 := pre ++ resize (pad32 (length id_bits)) 0 id_bits).
  assert (off = length pre2) as Hoff by by rw length_app length_resize.
  assert (∃ post, buf = pre2 ++ coef_block ev ++ post) as [post Hpost].
  { exists (replicate (pad32 (length (coef_block ev)) - length (coef_block ev)) 0 ++ rest).
    by rw /buf /ev_body Hx (pad_resize _ (coef_block ev)) // /pre2 -!app_assoc. }
  destruct (coef_block_parse ev pre2 post off) as [Hneed Hc]; [done..|].
  rw (proj2 (Nat.ltb_ge (length buf) _)).
  - rw Hpost. exact Hc.
  - clearbody pre2. unfold needed, n. rw Hpost Hneed !length_app Hoff. lia.
Qed.

Lemma ev_parse_wire ev id_bits rest :
  ev_ok ev → encode (ev_source_ids ev) (ev_id_format ev) = Ok id_bits →
  (length id_bits ≤ 740)%nat →
  ev_parse (ev_wire ev id_bits ++ rest) (ev_coded_id ev)
  = Ok (ev, length (ev_wire ev id_bits)).
Proof.
  intros Hev Henc Hl. pose proof (ev_wire_words ev id_bits Hev Hl) as [Hw Hmax].
  pose proof (ev_wire_length ev id_bits) as Hlen. pose proof (has_explicit_len ev Hev) as Hexp.
  pose proof Hev as [Hne Hn Hids Hst Hg _ Hcf].
  set (buf := ev_wire ev id_bits ++ rest).
  assert (length buf = length (ev_wire ev id_bits) + length rest)%nat as Hbuf
    by apply length_app.
  destruct (flag_byte_fields (ev_field ev) (ev_id_format ev) (has_explicit_coefs ev)
    (has_generation ev)) as (Hf1 & Hf2 & Hf3 & Hf4).
  unfold ev_parse. rw (proj2 (Nat.ltb_ge (length buf) 8)); [|lia].
  set (fb := flag_byte _ _ _ _) in *.
  set (w := u8 _) in Hw.
  rw (_ : index buf 0 = Ok w) //. rw (_ : index buf 1 = Ok fb) //.
  rw (_ : index buf 2 = Ok (nb_ids ev)) //. rw (_ : index buf 3 = Ok (nb_coefs ev)) //.
  cbn [mbind outcome_bind]. rw Hw (proj2 (Nat.ltb_ge (length buf) _)); [|lia].
  rw Hf1 Hf2 Hf3 Hf4.
  rw (_ : (if (match ev_field ev with Gf2_4 => 0 | Gf2_8 => 1 end) =? 0 then Ok Gf2_4
    else if (match ev_field ev with Gf2_4 => 0 | Gf2_8 => 1 end) =? 1 then Ok Gf2_8
    else Err (MalformedEncodingVector "invalid CCGI")) = Ok (ev_field ev));
    [|by destruct (ev_field ev)].
  cbn [mbind outcome_bind].
  assert (length (ev_coefficients ev) < 256)%nat as Hnc
    by (destruct (has_explicit_coefs ev); [lia|rw Hexp; simpl; lia]).
  unfold nb_ids, nb_coefs. rw !u8_small; [|word_bound..]. rw !Nat2Z.id.
  rw (_ : (bool_u8 (has_explicit_coefs ev) =? 0) && negb (length (ev_coefficients ev) =? 0)%nat
          = false); [|by destruct (has_explicit_coefs ev); [|rw Hexp]].
  rw (_ : (bool_u8 (has_explicit_coefs ev) =? 1)
    && negb (length (ev_coefficients ev) =? length (ev_source_ids ev))%nat = false);
    [|destruct (has_explicit_coefs ev); [|done]; by rw Hexp Nat.eqb_refl].
  set (first := default 0 (head (ev_source_ids ev))).
  assert (buf = [w; fb; nb_ids ev; nb_coefs ev] ++ u32_to_be_bytes first
                  ++ (gen_block_bytes ev ++ ev_body ev id_bits) ++ rest) as Hbuf2
    by by rw /buf /ev_wire -!app_assoc.
  rw (_ : slice buf 4 8 = Ok (u32_to_be_bytes first));
    [|rw Hbuf2; by apply (slice_app [w; fb; nb_ids ev; nb_coefs ev])].
  rw bind_Ok u32_be_roundtrip.
  2: { unfold first. destruct (ev_source_ids ev); [done|]. by apply Forall_cons in Hids as [? _]. }
  set (pre := [w; fb; nb_ids ev; nb_coefs ev] ++ u32_to_be_bytes first ++ gen_block_bytes ev).
  assert (length pre = 8 + length (gen_block_bytes ev))%nat as Hpre by done.
  rw (_ : (if bool_u8 (has_generation ev) =? 1 then _ else _)
          = Ok (ev_generation ev, length pre)).
  2: { rw Hpre. unfold gen_block_bytes in *. destruct (has_generation ev) eqn:Hgen; simpl bool_u8.
       - rw Z.eqb_refl (proj2 (Nat.ltb_ge (length buf) 12)); [|simpl in *; lia].
         by rw Hbuf2.
       - unfold has_generation in Hgen. apply negb_false_iff, Z.eqb_eq in Hgen. by rw Hgen. }
  rw bind_Ok. assert (buf = pre ++ ev_body ev id_bits ++ rest) as Hbuf3
    by by rw Hbuf2 /pre -!app_assoc.
  rw (_ : slice buf (length pre) _ = Ok (ev_body ev id_bits));
    [|rw Hbuf3; apply slice_app; [done|lia]].
  rw bind_Ok (ev_body_ids ev id_bits) //; [|by apply ev_body_bound]. rw bind_Ok.
  rw (_ : (if bool_u8 (has_explicit_coefs ev) =? 1 then _ else _) = Ok (ev_coefficients ev));
    [by rw bind_Ok; destruct ev|].
  rw Hbuf3. by apply ev_body_coefs.
Qed.

(** The formats the constructors choose take at most two bytes per ID. *)
Lemma encode_best_length ids id_bits :
  encode ids (best_for ids) = Ok id_bits → (length id_bits ≤ 2 * length ids)%nat.
Proof.
  destruct ids as [|first rest]; [naive_solver|]. unfold best_for.
  destruct (is_contiguous _); cbn [encode].
  - intros [= <-]. simpl. lia.
  - unfold encode_compressed_list. rw (compressed_list_aligned rest first []).
    intros [= <-]. change (finish (aligned ?b)) with b. rw deltas_length /=. lia.
Qed.

Lemma encode_best_ok ids : ids ≠ [] → ∃ id_bits, encode ids (best_for ids) = Ok id_bits.
Proof. destruct ids as [|? ?]; [done|]. intros _. unfold best_for. case_match; eauto. Qed.

Lemma ev_roundtrip_best ev :
  ev_ok ev → ev_id_format ev = best_for (ev_source_ids ev) →
  ∃ enc, ev_serialise ev = Ok enc ∧ (0 < length enc ≤ 1016)%nat ∧
    (∃ k, length enc = (4 * k)%nat) ∧
    ∀ rest, ev_parse (enc ++ rest) (ev_coded_id ev) = Ok (ev, length enc).
Proof.
  intros Hev Hfmt. destruct (encode_best_ok (ev_source_ids ev)) as [b Hb]; [by destruct Hev|].
  pose proof (encode_best_length _ _ Hb). rw -Hfmt in Hb.
  pose proof (eo_count _ Hev). assert (length b ≤ 740)%nat as Hl by lia.
  exists (ev_wire ev b). split; [by apply ev_serialise_wire|]. split; [|split].
  - destruct (ev_wire_words ev b Hev Hl) as [_ Hm]. pose proof (ev_wire_length ev b). lia.
  - apply ev_wire_mult.
  - intros rest. by apply ev_parse_wire.
Qed.

(** C25: an encoding vector of 1 to 255 source IDs, contiguous or each less than 2^16
    above the one before (modulo 2^32), with as many coefficients as IDs or none,
    all in the range of its field, and the storage format its constructor chooses,
    parses back from its own bytes, whatever follows them in the datagram, with
    the same length. *)
Theorem ev_roundtrip ev rest :
  ev_ok ev → ev_id_format ev = best_for (ev_source_ids ev) →
  ∃ enc, ev_serialise ev = Ok enc ∧
    ev_parse (enc ++ rest) (ev_coded_id ev) = Ok (ev, length enc).
Proof.
  intros Hev Hfmt. destruct (ev_roundtrip_best ev Hev Hfmt) as (enc & H1 & _ & _ & H2). eauto.
Qed.

Lemma ev_roundtrip_witness :
  let ev := {| ev_field := Gf2_4; ev_coded_id := 5; ev_generation := 2;
               ev_id_format := CompressedList; ev_source_ids := [7; 9; 10];
               ev_coefficients := [3; 15; 1] |} in
  ∃ enc, ev_serialise ev = Ok enc ∧ ev_parse (enc ++ [1; 2; 3]) 5 = Ok (ev, length enc).
Proof.
  apply (ev_roundtrip {| ev_field := Gf2_4; ev_coded_id := 5; ev_generation := 2;
               ev_id_format := CompressedList; ev_source_ids := [7; 9; 10];
               ev_coefficients := [3; 15; 1] |}); [|reflexivity].
  constructor; cbn; [done|lia|repeat constructor; done|done|done|by right|repeat constructor; done].
Defined.

(** A full window of 256 sources has an [NB_IDS] byte of zero: the vector does
    not parse back. *)
Lemma ev_full_window_truncated :
  let ev := ev_vandermonde Gf2_8 0 (seqZ 0 256) in
  nb_ids ev = 0 ∧
  (enc ← ev_serialise ev; '(ev', _) ← ev_parse enc 0; Ok (ev_source_ids ev')) = Ok [].
Proof. by vm_compute. Qed.

(** A vector whose length byte is smaller than its fixed part unwinds. *)
Lemma ev_parse_short_len_panics : ev_parse [1; 16; 0; 0; 0; 0; 0; 0] 0 = Panic.
Proof. by vm_compute. Qed.
