(* ===== verification/Common.v ===== *)
(** * wire/common.rs: the common header of every packet *)

From S2P Require Import Prelude Error EncVec.
From stdpp Require Import strings.
#[global] Open Scope Z_scope.

Record CommonHeader := { h_flags : Z; h_reserved : Z; h_hdr_len_words : Z; h_pkt_type : Z }.

Definition HEADER_SIZE : nat := 4.
Definition VERSION : Z := 1.

Inductive PacketType : Type := PtSource | PtCoded | PtFeedback.
Inductive CciLength : Type := CciZero | CciOne | CciTwo | CciThree.

#[export] Instance PacketType_eq_dec : EqDecision PacketType.
Proof. solve_decision. Defined.

(** [self as u8]: the enums' discriminants. *)
Definition packet_type_u8 (t : PacketType) : Z :=
  match t with PtSource => 0 | PtCoded => 1 | PtFeedback => 2 end.
Definition PacketType_from_u8 (v : Z) : result PacketType :=
  if v =? 0 then Ok PtSource
  else if v =? 1 then Ok PtCoded
  else if v =? 2 then Ok PtFeedback
  else Err (UnknownPacketType v).

Definition CciLength_from_words (w : Z) : CciLength :=
  let w := Z.land w 3 in
  if w =? 0 then CciZero else if w =? 1 then CciOne else if w =? 2 then CciTwo else CciThree.
Definition cci_length_words (c : CciLength) : Z :=
  match c with CciZero => 0 | CciOne => 1 | CciTwo => 2 | CciThree => 3 end.
Definition cci_length_bytes (c : CciLength) : nat := (Z.to_nat (cci_length_words c) * 4)%nat.

Definition header_new (pkt_type : PacketType) (cci : CciLength) (has_tsi : bool)
    (hdr_len_words : Z) : CommonHeader :=
  let flags := Z.lor (Z.lor (u8 (Z.shiftl VERSION 4)) (u8 (Z.shiftl (cci_length_words cci) 2)))
                     (u8 (Z.shiftl (bool_u8 has_tsi) 1)) in
  {| h_flags := flags; h_reserved := 0; h_hdr_len_words := hdr_len_words;
     h_pkt_type := packet_type_u8 pkt_type |}.

Definition header_to_bytes (h : CommonHeader) : bytes :=
  [h_flags h; h_reserved h; h_hdr_len_words h; h_pkt_type h].

Definition version (h : CommonHeader) : Z := Z.shiftr (h_flags h) 4.
Definition cci_words (h : CommonHeader) : Z := Z.land (Z.shiftr (h_flags h) 2) 3.
Definition has_tsi (h : CommonHeader) : bool := Z.land (Z.shiftr (h_flags h) 1) 1 =? 1.
Definition hdr_len_bytes (h : CommonHeader) : nat := (Z.to_nat (h_hdr_len_words h) * 4)%nat.
Definition packet_type (h : CommonHeader) : result PacketType := PacketType_from_u8 (h_pkt_type h).
Definition cci_length (h : CommonHeader) : CciLength := CciLength_from_words (cci_words h).
Definition body_offset (h : CommonHeader) : nat :=
  (HEADER_SIZE + Z.to_nat (cci_words h) * 4 + (if has_tsi h then 4 else 0))%nat.

(** The zerocopy crate's [FromBytes::ref_from_bytes] for [CommonHeader]: a
    parameter of the parsers.  Its law is the documented one for a [repr(C)]
    structure of four [u8] fields: four bytes are read as the fields in
    declaration order. *)
Class HeaderCast := ref_from_bytes : bytes → option CommonHeader.
Class HeaderCastLaw `{HeaderCast} : Prop :=
  ref_from_bytes_spec a b c d : ref_from_bytes [a; b; c; d] =
    Some {| h_flags := a; h_reserved := b; h_hdr_len_words := c; h_pkt_type := d |}.

Section parse.
Context `{HeaderCast}.

Definition header_parse (buf : bytes) : result CommonHeader :=
  if (length buf <? HEADER_SIZE)%nat then Err (BufferTooShort HEADER_SIZE (length buf)) else
  first ← slice buf 0 HEADER_SIZE;
  hdr ← match ref_from_bytes first with
        | Some hdr => Ok hdr
        | None => Err (BufferTooShort HEADER_SIZE (length buf))
        end;
  let ver := version hdr in
  if negb (ver =? VERSION) then Err (UnsupportedVersion ver) else
  let hdr_len_bytes := (Z.to_nat (h_hdr_len_words hdr) * 4)%nat in
  if (length buf <? hdr_len_bytes)%nat
  then Err (InvalidHeaderLength (h_hdr_len_words hdr) (length buf))
  else Ok hdr.
End parse.

(** A cast that satisfies the law. *)
Module ReprC.
Definition cast : HeaderCast := λ b,
  match b with
  | [a; b; c; d] =>
      Some {| h_flags := a; h_reserved := b; h_hdr_len_words := c; h_pkt_type := d |}
  | _ => None
  end.
Lemma cast_law : @HeaderCastLaw cast.
Proof. by intros a b c d. Qed.
End ReprC.

(** ** Properties *)

Lemma header_new_fields t c tsi n :
  version (header_new t c tsi n) = VERSION ∧
  cci_words (header_new t c tsi n) = cci_length_words c ∧
  has_tsi (header_new t c tsi n) = tsi ∧
  packet_type (header_new t c tsi n) = Ok t.
Proof. by destruct t, c, tsi. Qed.

Section props.
Context `{HeaderCastLaw}.

Lemma header_parse_bytes h rest :
  version h = VERSION →
  (hdr_len_bytes h ≤ 4 + length rest)%nat →
  header_parse (header_to_bytes h ++ rest) = Ok h.
Proof.
  intros Hv Hl. unfold header_parse.
  rw (proj2 (Nat.ltb_ge _ _)); [|rw length_app /=; unfold HEADER_SIZE; lia].
  change (slice (header_to_bytes h ++ rest) 0 HEADER_SIZE)
    with (slice (E:=DelpError) ([] ++ header_to_bytes h ++ rest) 0 4).
  rw slice_app // bind_Ok ref_from_bytes_spec bind_Ok.
  destruct h as [f r w p]. cbn [h_hdr_len_words]. unfold version in Hv. cbn [h_flags] in Hv.
  rw /version /= Hv Z.eqb_refl /=. unfold hdr_len_bytes in Hl. cbn [h_hdr_len_words] in Hl.
  by rw (proj2 (Nat.ltb_ge _ _)); [|rw /=; lia].
Qed.

(** Every error of the header parser, and its only successes. *)
Lemma header_parse_spec a b c d rest : is_u8 c →
  let h := {| h_flags := a; h_reserved := b; h_hdr_len_words := c; h_pkt_type := d |} in
  header_parse (a :: b :: c :: d :: rest) =
    if negb (Z.shiftr a 4 =? 1) then Err (UnsupportedVersion (Z.shiftr a 4))
    else if (4 + length rest <? Z.to_nat c * 4)%nat
    then Err (InvalidHeaderLength c (4 + length rest))
    else Ok h.
Proof.
  intros Hc h. unfold header_parse. rw (proj2 (Nat.ltb_ge _ _)); [|rw /= /HEADER_SIZE; lia].
  change (slice (a :: b :: c :: d :: rest) 0 HEADER_SIZE)
    with (slice (E:=DelpError) ([] ++ [a; b; c; d] ++ rest) 0 4).
  by rw slice_app // bind_Ok ref_from_bytes_spec bind_Ok.
Qed.

(** The byte receivers dispatch on. *)
Lemma header_parse_type buf h ty : header_parse buf = Ok h → packet_type h = Ok ty →
  buf !! 3%nat = Some (packet_type_u8 ty) ∧ (4 ≤ length buf)%nat.
Proof.
  intros Hh Ht. unfold header_parse in Hh. destruct (Nat.ltb_spec (length buf) HEADER_SIZE) as [|Hl]; [done|].
  unfold HEADER_SIZE in Hl. destruct buf as [|a [|b [|c [|d rest]]]]; cbn in Hl; try lia.
  change (slice (a :: b :: c :: d :: rest) 0 HEADER_SIZE)
    with (slice (E:=DelpError) ([] ++ [a; b; c; d] ++ rest) 0 4) in Hh.
  rw slice_app // bind_Ok ref_from_bytes_spec bind_Ok in Hh.
  repeat case_match; try done. injection Hh as <-. unfold packet_type, PacketType_from_u8 in Ht. cbn in Ht |- *.
  split; [|lia]. f_equal. repeat case_match; try done; injection Ht as <-; cbn; lia.
Qed.
End props.
