(* ===== verification/Packets.v ===== *)
(** * wire/source.rs, wire/coded.rs: source and coded packets

    Payload slices borrow from the datagram; the model carries their bytes. *)

From S2P Require Import Prelude Error Config IdStorage EncVec Common.
From stdpp Require Import strings.
#[global] Open Scope Z_scope.

(** [buf[a..a + 4]] as a big-endian u32. *)
Definition read_u32 (buf : bytes) (a : nat) : result Z :=
  b ← slice buf a (a + 4);
  Ok (u32_from_be_bytes b).

Definition is_some_b {A} (o : option A) : bool := match o with Some _ => true | None => false end.

(** The CCI slice and the optional TSI after the header, with the offset that
    follows them: the block both parsers share. *)
Definition parse_cci_tsi (header : CommonHeader) (buf : bytes) : result (bytes * option Z * nat) :=
  let cci_end := (HEADER_SIZE + Z.to_nat (cci_words header) * 4)%nat in
  cci ← slice buf HEADER_SIZE cci_end;
  if has_tsi header then
    v ← read_u32 buf cci_end;
    Ok (cci, Some v, (cci_end + 4)%nat)
  else Ok (cci, None, cci_end).

Definition tsi_bytes (tsi : option Z) : bytes :=
  match tsi with Some t => u32_to_be_bytes t | None => [] end.

Definition cci_assert (cci_bytes : bytes) : bool :=
  (length cci_bytes mod 4 =? 0)%nat && (length cci_bytes <=? 12)%nat.

Module Source.
Record SourcePacket := {
  header : CommonHeader;
  cci : bytes;
  tsi : option Z;
  source_symbol_id : Z;
  payload : bytes;
}.

Definition BODY_MIN : nat := 4.

Section parse.
Context `{HeaderCast}.

Definition parse (buf : bytes) : result SourcePacket :=
  header ← header_parse buf;
  ty ← packet_type header;
  if negb (bool_decide (ty = PtSource))
  then (b ← index buf 3; Err (UnknownPacketType b)) else
  let body_off := body_offset header in
  if (length buf <? body_off + BODY_MIN)%nat
  then Err (BufferTooShort (body_off + BODY_MIN) (length buf)) else
  '(cci, tsi, id_off) ← parse_cci_tsi header buf;
  source_symbol_id ← read_u32 buf id_off;
  payload ← slice_from buf (id_off + 4);
  Ok {| header := header; cci := cci; tsi := tsi; source_symbol_id := source_symbol_id;
        payload := payload |}.
End parse.

Definition serialise (source_symbol_id : Z) (payload cci_bytes : bytes) (tsi : option Z)
  : result bytes :=
  _ ← rassert (cci_assert cci_bytes);
  let cci_words := u8 (Z.of_nat (length cci_bytes / 4)) in
  let has_tsi := is_some_b tsi in
  let hdr_words := u8 (u8 (u8 (1 + cci_words) + bool_u8 has_tsi) + 1) in
  let hdr := header_new PtSource (CciLength_from_words cci_words) has_tsi hdr_words in
  Ok (header_to_bytes hdr ++ cci_bytes ++ tsi_bytes tsi
        ++ u32_to_be_bytes source_symbol_id ++ payload).
End Source.

Module Coded.
Record CodedPacket := {
  header : CommonHeader;
  cci : bytes;
  tsi : option Z;
  coded_symbol_id : Z;
  ev : EncodingVector;
  payload : bytes;
}.

Definition CODED_ID_SIZE : nat := 4.

Section parse.
Context `{HeaderCast}.

Definition parse (buf : bytes) : result CodedPacket :=
  header ← header_parse buf;
  ty ← packet_type header;
  if negb (bool_decide (ty = PtCoded))
  then (b ← index buf 3; Err (UnknownPacketType b)) else
  '(cci, tsi, after_tsi) ← parse_cci_tsi header buf;
  if (length buf <? after_tsi + CODED_ID_SIZE)%nat
  then Err (BufferTooShort (after_tsi + CODED_ID_SIZE) (length buf)) else
  coded_symbol_id ← read_u32 buf after_tsi;
  let ev_start := (after_tsi + 4)%nat in
  if (length buf <=? ev_start)%nat
  then Err (BufferTooShort (ev_start + 1) (length buf)) else
  rest ← slice_from buf ev_start;
  '(ev, ev_consumed) ← ev_parse rest coded_symbol_id;
  let payload_start := (ev_start + ev_consumed)%nat in
  payload ← slice_from buf payload_start;
  Ok {| header := header; cci := cci; tsi := tsi; coded_symbol_id := coded_symbol_id;
        ev := ev; payload := payload |}.
End parse.

Definition serialise (coded_symbol_id : Z) (ev : EncodingVector) (payload cci_bytes : bytes)
    (tsi : option Z) : result bytes :=
  _ ← rassert (cci_assert cci_bytes);
  let cci_words := u8 (Z.of_nat (length cci_bytes / 4)) in
  let has_tsi := is_some_b tsi in
  ev_bytes ← ev_serialise ev;
  let ev_words := u8 (Z.of_nat (div_ceil (length ev_bytes) 4)) in
  let hdr_words := u8 (u8 (u8 (u8 (1 + cci_words) + bool_u8 has_tsi) + 1) + ev_words) in
  let hdr := header_new PtCoded (CciLength_from_words cci_words) has_tsi hdr_words in
  let ev_pad := ((4 - length ev_bytes mod 4) mod 4)%nat in
  Ok (header_to_bytes hdr ++ cci_bytes ++ tsi_bytes tsi
        ++ u32_to_be_bytes coded_symbol_id ++ ev_bytes ++ replicate ev_pad 0 ++ payload).
End Coded.

(** ** The prefix every packet shares *)

Record prefix_ok (cci : bytes) (tsi : option Z) : Prop := {
  po_cci : cci_assert cci = true;
  po_tsi : match tsi with Some t => is_u32 t | None => True end;
}.

Lemma cci_assert_cases cci : cci_assert cci = true →
  length cci = 0%nat ∨ length cci = 4%nat ∨ length cci = 8%nat ∨ length cci = 12%nat.
Proof.
  unfold cci_assert. intros [H1%Nat.eqb_eq H2%Nat.leb_le]%andb_true_iff.
  pose proof (Nat.div_mod_eq (length cci) 4). lia.
Qed.

(** The number of CCI words the serialisers compute. *)
Lemma cci_words_ok cci : cci_assert cci = true →
  let w := u8 (Z.of_nat (length cci / 4)) in
  0 ≤ w ≤ 3 ∧ cci_length_words (CciLength_from_words w) = w
  ∧ length cci = (Z.to_nat w * 4)%nat.
Proof.
  intros [->|[->|[->| ->]]]%cci_assert_cases; cbv zeta.
  all: split; [vm_compute; split; discriminate|split; reflexivity].
Qed.

Definition tsi_len (tsi : option Z) : nat := if is_some_b tsi then 4%nat else 0%nat.

Lemma tsi_bytes_length tsi : length (tsi_bytes tsi) = tsi_len tsi.
Proof. by destruct tsi. Qed.

Lemma read_u32_app pre v post a : a = length pre → is_u32 v →
  read_u32 (pre ++ u32_to_be_bytes v ++ post) a = Ok v.
Proof. intros -> Hv. unfold read_u32. rw slice_app // bind_Ok u32_be_roundtrip //. Qed.

Lemma parse_cci_tsi_app h cci tsi rest :
  prefix_ok cci tsi → length cci = (Z.to_nat (cci_words h) * 4)%nat → has_tsi h = is_some_b tsi →
  parse_cci_tsi h (header_to_bytes h ++ cci ++ tsi_bytes tsi ++ rest)
  = Ok (cci, tsi, (4 + length cci + tsi_len tsi)%nat).
Proof.
  intros [_ Ht] Hc Hh. unfold parse_cci_tsi. rw -Hc slice_app // bind_Ok Hh.
  destruct tsi as [t|]; [|by rw Nat.add_0_r].
  by rw app_assoc read_u32_app // length_app.
Qed.

Lemma body_offset_eq h (cci : bytes) tsi :
  length cci = (Z.to_nat (cci_words h) * 4)%nat → has_tsi h = is_some_b tsi →
  body_offset h = (4 + length cci + tsi_len tsi)%nat.
Proof. intros Hc Hh. unfold body_offset. by rw -Hc Hh. Qed.

(** The header a serialiser writes, read back by [header_parse]. *)
Lemma new_header_parse `{HeaderCastLaw} t (cci : bytes) tsi n (rest : bytes) :
  prefix_ok cci tsi → (Z.to_nat n * 4 ≤ 4 + length rest)%nat →
  let w := u8 (Z.of_nat (length cci / 4)) in
  let h := header_new t (CciLength_from_words w) (is_some_b tsi) n in
  header_parse (header_to_bytes h ++ rest) = Ok h ∧ packet_type h = Ok t ∧
  length cci = (Z.to_nat (cci_words h) * 4)%nat ∧ has_tsi h = is_some_b tsi.
Proof.
  intros [Hc _] Hl w h. destruct (cci_words_ok cci Hc) as (Hw & Hwl & Hlen). fold w in Hw, Hwl, Hlen.
  destruct (header_new_fields t (CciLength_from_words w) (is_some_b tsi) n)
    as (Hv & Hcw & Ht & Hp). fold h in Hv, Hcw, Ht, Hp.
  split; [|split; [done|split; [by rw Hcw Hwl|done]]].
  apply header_parse_bytes; [done|]. by rw /hdr_len_bytes.
Qed.

(** ** Source packets *)
Definition source_header (cci : bytes) (tsi : option Z) : CommonHeader :=
  header_new PtSource (CciLength_from_words (u8 (Z.of_nat (length cci / 4)))) (is_some_b tsi)
    (2 + Z.of_nat (length cci / 4) + bool_u8 (is_some_b tsi)).

Lemma source_parse_serialise `{HeaderCastLaw} id payload cci tsi :
  is_u32 id → prefix_ok cci tsi →
  ∃ enc, Source.serialise id payload cci tsi = Ok enc ∧
    Source.parse enc = Ok {| Source.header := source_header cci tsi; Source.cci := cci;
      Source.tsi := tsi; Source.source_symbol_id := id; Source.payload := payload |}.
Proof.
  intros Hid Hp. unfold Source.serialise. destruct (Hp) as [Hc Ht]. rw Hc /rassert bind_Ok.
  assert (length cci / 4 ≤ 3)%nat as Hw
    by by apply cci_assert_cases in Hc as [->|[->|[->| ->]]]; vm_compute; lia.
  assert (u8 (u8 (u8 (1 + u8 (Z.of_nat (length cci / 4))) + bool_u8 (is_some_b tsi)) + 1)
    = 2 + Z.of_nat (length cci / 4) + bool_u8 (is_some_b tsi)) as ->.
  { rw !u8_small; destruct tsi; unfold is_u8; cbn [bool_u8 is_some_b]; lia. }
  fold (source_header cci tsi). eexists. split; [done|].
  assert (length cci = 4 * (length cci / 4))%nat as Hlen
    by by apply cci_assert_cases in Hc as [->|[->|[->| ->]]].
  destruct (new_header_parse PtSource cci tsi
    (2 + Z.of_nat (length cci / 4) + bool_u8 (is_some_b tsi))
    (cci ++ tsi_bytes tsi ++ u32_to_be_bytes id ++ payload) Hp) as (Hh & Hty & Hcw & Hht).
  { rw !length_app tsi_bytes_length u32_to_be_bytes_length /tsi_len.
    destruct tsi; cbn [bool_u8 is_some_b]; lia. }
  fold (source_header cci tsi) in Hh, Hty, Hcw, Hht.
  unfold Source.parse. rw Hh bind_Ok Hty bind_Ok bool_decide_true //.
  rw (body_offset_eq _ cci tsi) //.
  rw (proj2 (Nat.ltb_ge _ _)).
  2: { rw !length_app tsi_bytes_length. unfold Source.BODY_MIN. simpl. lia. }
  rw parse_cci_tsi_app // bind_Ok.
  rw !app_assoc. rw -(app_assoc _ (u32_to_be_bytes id)).
  rw read_u32_app //; [|by rw !length_app tsi_bytes_length].
  rw bind_Ok app_assoc slice_from_app //.
  rw !length_app tsi_bytes_length. simpl. lia.
Qed.

(** A source packet parses back from its bytes: same CCI, TSI, symbol ID and
    payload, for every CCI of 0, 4, 8 or 12 bytes. *)
Theorem source_roundtrip `{HeaderCastLaw} id payload cci tsi :
  is_u32 id → prefix_ok cci tsi →
  ∃ enc, Source.serialise id payload cci tsi = Ok enc ∧
    Source.parse enc = Ok {| Source.header := source_header cci tsi; Source.cci := cci;
      Source.tsi := tsi; Source.source_symbol_id := id; Source.payload := payload |}.
Proof. apply source_parse_serialise. Qed.

Lemma source_roundtrip_witness :
  ∃ enc, Source.serialise 77 [1; 2; 3] [9; 9; 9; 9] (Some 5) = Ok enc ∧
    @Source.parse ReprC.cast enc = Ok {| Source.header := source_header [9; 9; 9; 9] (Some 5);
      Source.cci := [9; 9; 9; 9]; Source.tsi := Some 5; Source.source_symbol_id := 77;
      Source.payload := [1; 2; 3] |}.
Proof.
  apply (@source_roundtrip ReprC.cast ReprC.cast_law); [done|constructor; done].
Defined.

Lemma slice_no_panic (buf : bytes) a b :
  (a ≤ b ≤ length buf)%nat → ∃ v, slice (E:=DelpError) buf a b = Ok v.
Proof. intros. rw slice_ok //. eauto. Qed.

Lemma read_u32_no_panic (buf : bytes) a : (a + 4 ≤ length buf)%nat → ∃ v, read_u32 buf a = Ok v.
Proof.
  intros. unfold read_u32. destruct (slice_no_panic buf a (a + 4)) as [b ->]; [lia|]. eauto.
Qed.

Lemma header_parse_size `{HeaderCast} buf h : header_parse buf = Ok h → (4 ≤ length buf)%nat.
Proof.
  unfold header_parse. destruct (Nat.ltb_spec (length buf) HEADER_SIZE); [done|].
  unfold HEADER_SIZE in *. lia.
Qed.

Lemma header_parse_no_panic `{HeaderCast} buf : no_panic (header_parse buf).
Proof.
  unfold header_parse, no_panic. destruct (Nat.ltb_spec (length buf) HEADER_SIZE); [done|].
  destruct (slice_no_panic buf 0 HEADER_SIZE) as [b ->]; [unfold HEADER_SIZE in *; lia|].
  rw bind_Ok. destruct (ref_from_bytes b); [|done]. rw bind_Ok. by repeat case_match.
Qed.

Lemma packet_type_no_panic h : no_panic (packet_type h).
Proof. unfold packet_type, PacketType_from_u8, no_panic. by repeat case_match. Qed.

Lemma parse_cci_tsi_ok h buf : (body_offset h ≤ length buf)%nat →
  ∃ cci tsi, parse_cci_tsi h buf = Ok (cci, tsi, body_offset h).
Proof.
  unfold body_offset, parse_cci_tsi. intros Hl.
  destruct (slice_no_panic buf HEADER_SIZE (HEADER_SIZE + Z.to_nat (cci_words h) * 4))
    as [c ->]; [lia|]. rw bind_Ok.
  destruct (has_tsi h); [|rw Nat.add_0_r; eauto].
  destruct (read_u32_no_panic buf (HEADER_SIZE + Z.to_nat (cci_words h) * 4)) as [v ->]; [lia|].
  rw bind_Ok. eauto.
Qed.

(** No datagram makes the source-packet parser unwind. *)
Theorem source_parse_no_panic `{HeaderCast} buf : no_panic (Source.parse buf).
Proof.
  unfold Source.parse, no_panic. pose proof (header_parse_no_panic buf) as Hh.
  destruct (header_parse buf) as [h| |] eqn:Eh; [|done|done]. apply header_parse_size in Eh.
  rw bind_Ok. pose proof (packet_type_no_panic h).
  destruct (packet_type h) as [ty| |]; [|done|done]. rw bind_Ok.
  case_match.
  { unfold index. destruct (lookup_lt_is_Some_2 buf 3) as [b ->]; [lia|done]. }
  unfold Source.BODY_MIN. destruct (Nat.ltb_spec (length buf) (body_offset h + 4)); [done|].
  destruct (parse_cci_tsi_ok h buf) as (c & t & ->); [lia|]. rw bind_Ok.
  destruct (read_u32_no_panic buf (body_offset h)) as [v ->]; [lia|]. rw bind_Ok.
  rw slice_from_ok; [done|lia].
Qed.

(** ** Coded packets *)
Definition coded_header (ev_len : nat) (cci : bytes) (tsi : option Z) : CommonHeader :=
  let w := u8 (Z.of_nat (length cci / 4)) in
  header_new PtCoded (CciLength_from_words w) (is_some_b tsi)
    (u8 (u8 (u8 (u8 (1 + w) + bool_u8 (is_some_b tsi)) + 1)
         + u8 (Z.of_nat (div_ceil ev_len 4)))).

Lemma u8_le z : 0 ≤ z → u8 z ≤ z.
Proof. intros. apply Z.mod_le; lia. Qed.

Lemma coded_header_words cci tsi k :
  prefix_ok cci tsi →
  (Z.to_nat (h_hdr_len_words (coded_header (4 * k) cci tsi)) * 4
   ≤ 4 + (length cci + (tsi_len tsi + (4 + 4 * k))))%nat.
Proof.
  intros [Hc _]. destruct (cci_words_ok cci Hc) as (Hw & _ & Hlen).
  unfold coded_header. cbn [h_hdr_len_words header_new].
  set (w := u8 (Z.of_nat (length cci / 4))) in *.
  assert (div_ceil (4 * k) 4 = k) as ->.
  { unfold div_ceil. by rw Nat.mul_comm Nat.div_add_l. }
  assert (0 ≤ bool_u8 (is_some_b tsi) ≤ 1 ∧ Z.of_nat (tsi_len tsi) = 4 * bool_u8 (is_some_b tsi))
    as [Hb Ht] by by destruct tsi.
  pose proof (u8_is (Z.of_nat k)). unfold is_u8 in *.
  rw (u8_small (1 + w)); [|word_bound]. rw (u8_small (1 + w + _)); [|word_bound].
  rw (u8_small (1 + w + _ + 1)); [|word_bound].
  pose proof (u8_le (Z.of_nat k)).
  pose proof (u8_le (1 + w + bool_u8 (is_some_b tsi) + 1 + u8 (Z.of_nat k))). lia.
Qed.

Lemma coded_parse_serialise `{HeaderCastLaw} ev payload cci tsi :
  is_u32 (ev_coded_id ev) → prefix_ok cci tsi → ev_ok ev →
  ev_id_format ev = best_for (ev_source_ids ev) →
  ∃ n enc, Coded.serialise (ev_coded_id ev) ev payload cci tsi = Ok enc ∧
    Coded.parse enc = Ok {| Coded.header := coded_header n cci tsi; Coded.cci := cci;
      Coded.tsi := tsi; Coded.coded_symbol_id := ev_coded_id ev; Coded.ev := ev;
      Coded.payload := payload |}.
Proof.
  intros Hid Hp Hev Hfmt.
  destruct (ev_roundtrip_best ev Hev Hfmt) as (eb & He & Hlen & [k Hk] & Hparse).
  exists (length eb). unfold Coded.serialise. rw (po_cci _ _ Hp) /rassert bind_Ok He bind_Ok.
  fold (coded_header (length eb) cci tsi).
  rw (_ : ((4 - length eb mod 4) mod 4 = 0)%nat);
    [|by rw Hk Nat.mul_comm Nat.Div0.mod_mul].
  eexists. split; [done|]. cbn [replicate app].
  destruct (new_header_parse PtCoded cci tsi (h_hdr_len_words (coded_header (length eb) cci tsi))
    (cci ++ tsi_bytes tsi ++ u32_to_be_bytes (ev_coded_id ev) ++ eb ++ payload) Hp)
    as (Hh & Hty & Hcw & Hht).
  { pose proof (coded_header_words cci tsi k Hp). rw Hk.
    rw !length_app tsi_bytes_length u32_to_be_bytes_length Hk. lia. }
  cbv zeta in *. fold (coded_header (length eb) cci tsi) in *.
  change (header_new PtCoded _ _ _) with (coded_header (length eb) cci tsi) in Hh, Hty, Hcw, Hht.
  unfold Coded.parse. rw Hh bind_Ok Hty bind_Ok bool_decide_true //.
  rw parse_cci_tsi_app // bind_Ok /Coded.CODED_ID_SIZE.
  set (pre := header_to_bytes (coded_header (length eb) cci tsi) ++ cci ++ tsi_bytes tsi).
  assert (length pre = 4 + length cci + tsi_len tsi)%nat as Hpre
    by by rw !length_app tsi_bytes_length.
  rw -Hpre. set (buf := header_to_bytes _ ++ _).
  assert (buf = pre ++ u32_to_be_bytes (ev_coded_id ev) ++ eb ++ payload) as Hb
    by by rw /buf /pre -!app_assoc.
  clearbody buf. subst buf. set (buf := pre ++ _).
  assert (length buf = length pre + (4 + (length eb + length payload)))%nat as Hbuf
    by by rw !length_app.
  rw (proj2 (Nat.ltb_ge _ _)); [|lia]. rw (proj2 (Nat.leb_gt _ _)); [|lia].
  rw read_u32_app // bind_Ok.
  rw (_ : slice_from buf (length pre + 4) = Ok (eb ++ payload));
    [|rw /buf app_assoc; apply slice_from_app; by rw length_app].
  rw bind_Ok Hparse bind_Ok.
  rw (_ : slice_from buf (length pre + 4 + length eb) = Ok payload); [done|].
  rw /buf !app_assoc. apply slice_from_app. by rw !length_app.
Qed.

(** A coded packet parses back from its bytes: same CCI, TSI, coded ID,
    encoding vector and payload, for every encoding vector of 1 to 255 sources
    built by the constructors. *)
Theorem coded_roundtrip `{HeaderCastLaw} ev payload cci tsi :
  is_u32 (ev_coded_id ev) → prefix_ok cci tsi → ev_ok ev →
  ev_id_format ev = best_for (ev_source_ids ev) →
  ∃ n enc, Coded.serialise (ev_coded_id ev) ev payload cci tsi = Ok enc ∧
    Coded.parse enc = Ok {| Coded.header := coded_header n cci tsi; Coded.cci := cci;
      Coded.tsi := tsi; Coded.coded_symbol_id := ev_coded_id ev; Coded.ev := ev;
      Coded.payload := payload |}.
Proof. apply coded_parse_serialise. Qed.

Lemma coded_roundtrip_witness :
  let ev := ev_vandermonde Gf2_8 9 [3; 4; 5] in
  ∃ n enc, Coded.serialise 9 ev [7; 7] [] None = Ok enc ∧
    @Coded.parse ReprC.cast enc = Ok {| Coded.header := coded_header n [] None; Coded.cci := [];
      Coded.tsi := None; Coded.coded_symbol_id := 9; Coded.ev := ev; Coded.payload := [7; 7] |}.
Proof.
  apply (@coded_roundtrip ReprC.cast ReprC.cast_law (ev_vandermonde Gf2_8 9 [3; 4; 5]));
    [done|done| |done].
  constructor; cbn; [done|lia|repeat constructor; done|done|done|by left|constructor].
Defined.

(** A datagram whose header promises CCI words that are not there makes the
    coded parser unwind: [hdr_len] is not compared with the CCI length. *)
Lemma coded_parse_short_cci_panics : @Coded.parse ReprC.cast [28; 0; 1; 1] = Panic.
Proof. by vm_compute. Qed.
