(* ===== verification/F64.v ===== *)
(** * The f64 operations the code uses

    IEEE 754 binary64 as the Standard Library specifies it (SpecFloat, 53 bits
    of precision, exponents below 1024); [clamp], [min], [max], [floor] and the
    [as] casts are those of Rust's [f64]. *)

From S2P Require Import Prelude Error.
From Stdlib Require Export SpecFloat.

Abbreviation f64 := spec_float.
Definition f64_prec : Z := 53.
Definition f64_emax : Z := 1024.

Definition f_add : f64 → f64 → f64 := SFadd f64_prec f64_emax.
Definition f_sub : f64 → f64 → f64 := SFsub f64_prec f64_emax.
Definition f_mul : f64 → f64 → f64 := SFmul f64_prec f64_emax.
Definition f_div : f64 → f64 → f64 := SFdiv f64_prec f64_emax.
Definition f_lt : f64 → f64 → bool := SFltb.
Definition f_le : f64 → f64 → bool := SFleb.

(** [z as f64], and decimal literals as correctly rounded quotients. *)
Definition f_of_Z (z : Z) : f64 := binary_normalize f64_prec f64_emax z 0 false.
Definition f_lit (num den : Z) : f64 := f_div (f_of_Z num) (f_of_Z den).

Definition f_is_nan (x : f64) : bool := match x with S754_nan => true | _ => false end.

(** [assert!(min <= max)] guards [clamp]. *)
Definition f_clamp (x lo hi : f64) : result f64 :=
  _ ← rassert (f_le lo hi);
  let x := if f_lt x lo then lo else x in
  Ok (if f_lt hi x then hi else x).

Definition f_min (x y : f64) : f64 :=
  if f_is_nan x then y else if f_is_nan y then x else if f_lt y x then y else x.
Definition f_max (x y : f64) : f64 :=
  if f_is_nan x then y else if f_is_nan y then x else if f_lt x y then y else x.

(** The integer below, and the integer towards zero, of a finite value. *)
Definition z_floor (neg : bool) (m : positive) (e : Z) : Z :=
  let v := if neg then - Z.pos m else Z.pos m in
  if 0 <=? e then v * 2 ^ e else v / 2 ^ (- e).
Definition z_trunc (neg : bool) (m : positive) (e : Z) : Z :=
  let v := if 0 <=? e then Z.pos m * 2 ^ e else Z.pos m / 2 ^ (- e) in
  if neg then - v else v.

Definition f_floor (x : f64) : f64 :=
  match x with
  | S754_finite s m e => if 0 <=? e then x else f_of_Z (z_floor s m e)
  | _ => x
  end.

(** [x as u8], [x as usize]: towards zero, saturating, NaN to 0. *)
Definition f_to_uint (max : Z) (x : f64) : Z :=
  match x with
  | S754_zero _ => 0
  | S754_nan => 0
  | S754_infinity s => if s then 0 else max
  | S754_finite s m e => Z.max 0 (Z.min max (z_trunc s m e))
  end.
Definition f_to_u8 : f64 → Z := f_to_uint 255.
Definition f_to_usize : f64 → Z := f_to_uint 18446744073709551615.

Lemma f_to_uint_range max x : 0 ≤ max → 0 ≤ f_to_uint max x ≤ max.
Proof. intros. destruct x as [|[]| |]; simpl; lia. Qed.
