(* ===== verification/Feedback.v ===== *)
(** * wire/feedback.rs: window-update packets and their SACK vector *)

From S2P Require Import Prelude Error EncVec Common Packets F64.
From stdpp Require Import strings.
#[global] Open Scope Z_scope.

Record FeedbackPacket := {
  fb_tsi : option Z;
  fb_nb_missing_src : Z;
  fb_nb_not_used_coded : Z;
  fb_first_src_id : Z;
  fb_plr_raw : Z;
  fb_sack : bytes;
}.

Definition encode_plr (loss : f64) : result Z :=
  c ← f_clamp loss (f_of_Z 0) (f_of_Z 1);
  Ok (f_to_u8 (f_min (f_mul c (f_of_Z 256)) (f_of_Z 255))).
Definition decode_plr (raw : Z) : f64 := f_div (f_of_Z raw) (f_of_Z 256).

(** One round of the loop of [build_sack]. *)
Definition sack_set (first_src_id : Z) (sack : bytes) (id : Z) : result bytes :=
  if id <? first_src_id then Ok sack
  else
    let offset := id - first_src_id in
    let byte := Z.to_nat (offset / 8) in
    let bit := 7 - offset mod 8 in
    b ← index sack byte;
    Ok (<[byte := Z.lor b (u8 (Z.shiftl 1 bit))]> sack).

Definition build_sack (first_src_id : Z) (acked_ids : list Z) : result bytes :=
  match acked_ids with
  | [] => Ok []
  | id :: ids =>
      let last_id := fold_left Z.max ids id in
      if last_id <? first_src_id then Ok []
      else
        let span := (Z.to_nat (last_id - first_src_id) + 1)%nat in
        let byte_len := div_ceil span 8 in
        mfor (sack_set first_src_id) (replicate byte_len 0) acked_ids
  end.

Definition build (first_src_id nb_missing_src nb_not_used_coded : Z) (loss_rate : f64)
    (acked_ids : list Z) : result FeedbackPacket :=
  sack ← build_sack first_src_id acked_ids;
  plr ← encode_plr loss_rate;
  Ok {| fb_tsi := None; fb_nb_missing_src := nb_missing_src;
        fb_nb_not_used_coded := nb_not_used_coded; fb_first_src_id := first_src_id;
        fb_plr_raw := plr; fb_sack := sack |}.

Definition fb_serialise (p : FeedbackPacket) : bytes :=
  let sack_bytes := length (fb_sack p) in
  let sack_padded := pad32 sack_bytes in
  let tsi_words := bool_u8 (is_some_b (fb_tsi p)) in
  let hdr_words := u8 (1 + tsi_words + 2 + 1) in
  let hdr := header_new PtFeedback CciZero (is_some_b (fb_tsi p)) hdr_words in
  let out := header_to_bytes hdr ++ tsi_bytes (fb_tsi p)
    ++ u32_to_be_bytes (fb_nb_missing_src p) ++ u32_to_be_bytes (fb_nb_not_used_coded p)
    ++ u32_to_be_bytes (fb_first_src_id p)
    ++ [fb_plr_raw p; u8 (Z.of_nat sack_bytes)] ++ [0; 0] ++ fb_sack p in
  resize (length out + (sack_padded - sack_bytes)) 0 out.

Section parse.
Context `{HeaderCast}.

Definition fb_parse (buf : bytes) : result FeedbackPacket :=
  header ← header_parse buf;
  let off := body_offset header in
  if (length buf <? off + 16)%nat then Err (BufferTooShort (off + 16) (length buf)) else
  tsi ← (if has_tsi header then t ← read_u32 buf HEADER_SIZE; Ok (Some t) else Ok None);
  nb_missing_src ← read_u32 buf off;
  nb_not_used_coded ← read_u32 buf (off + 4);
  first_src_id ← read_u32 buf (off + 8);
  plr_raw ← index buf (off + 12);
  size ← index buf (off + 13);
  let sack_size := Z.to_nat size in
  let sack_start := (off + 16)%nat in
  if (length buf <? sack_start + sack_size)%nat
  then Err (BufferTooShort (sack_start + sack_size) (length buf)) else
  sack ← slice buf sack_start (sack_start + sack_size);
  Ok {| fb_tsi := tsi; fb_nb_missing_src := nb_missing_src;
        fb_nb_not_used_coded := nb_not_used_coded; fb_first_src_id := first_src_id;
        fb_plr_raw := plr_raw; fb_sack := sack |}.
End parse.

Definition sack_bit (byte bit : Z) : bool := Z.land (Z.shiftr byte bit) 1 =? 1.

Definition fb_is_acked (p : FeedbackPacket) (id : Z) : bool :=
  if id <? fb_first_src_id p then false
  else
    let offset := id - fb_first_src_id p in
    let byte := Z.to_nat (offset / 8) in
    let bit := 7 - offset mod 8 in
    if (length (fb_sack p) <=? byte)%nat then false
    else sack_bit (nth byte (fb_sack p) 0) bit.

Definition acked_ids (p : FeedbackPacket) : list Z :=
  let base := fb_first_src_id p in
  concat (imap (λ byte_idx byte,
    omap (λ bit, if sack_bit byte (7 - bit)
                 then Some (u32 (u32 (base + u32 (u32 (Z.of_nat byte_idx) * 8)) + bit))
                 else None) (seqZ 0 8)) (fb_sack p)).

Example encode_plr_values :
  encode_plr (f_lit 1 4) = Ok 64 ∧ encode_plr (f_of_Z 3) = Ok 255 ∧
  encode_plr (f_of_Z (-1)) = Ok 0 ∧ encode_plr S754_nan = Ok 255.
Proof. by vm_compute. Qed.

Example plr_roundtrip :
  all_below 256 (λ raw, match encode_plr (decode_plr raw) with Ok r => r =? raw | _ => false end)
  = true.
Proof. by vm_compute. Qed.

(** ** The SACK vector *)

(** Bit [k] of a SACK vector, most significant first. *)
Definition sack_test (sack : bytes) (k : Z) : bool :=
  match sack !! Z.to_nat (k / 8) with
  | Some b => sack_bit b (7 - k mod 8)
  | None => false
  end.

Lemma sack_bit_testbit b j : 0 ≤ j → sack_bit b j = Z.testbit b j.
Proof.
  intros Hj. unfold sack_bit. pose proof (IdStorage.bit_of_b2z b j Hj) as H.
  unfold IdStorage.bit_of in H. rw H. by destruct (Z.testbit b j).
Qed.

Lemma sack_bit_set b i j : 0 ≤ i < 8 → 0 ≤ j < 8 →
  sack_bit (Z.lor b (u8 (Z.shiftl 1 i))) j = sack_bit b j || (i =? j).
Proof.
  intros Hi Hj. rw !sack_bit_testbit; [|lia..]. rw Z.lor_spec. f_equal.
  rw Z.shiftl_1_l u8_small; [by rw Z.pow2_bits_eqb; [|lia]|].
  assert (2 ^ i ≤ 2 ^ 7) by (apply Z.pow_le_mono_r; lia). change (2 ^ 7) with 128 in *.
  assert (0 < 2 ^ i) by (apply Z.pow_pos_nonneg; lia). word_bound.
Qed.

Lemma sack_test_insert sack i k b : sack !! Z.to_nat (i / 8) = Some b → 0 ≤ i → 0 ≤ k →
  sack_test (<[Z.to_nat (i / 8) := Z.lor b (u8 (Z.shiftl 1 (7 - i mod 8)))]> sack) k
  = sack_test sack k || (i =? k).
Proof.
  intros Hb Hi Hk. pose proof (lookup_lt_Some _ _ _ Hb). unfold sack_test.
  pose proof (Z.div_mod i 8). pose proof (Z.div_mod k 8).
  pose proof (Z.mod_pos_bound i 8). pose proof (Z.mod_pos_bound k 8).
  destruct (decide (i / 8 = k / 8)) as [He|Hne].
  - rw He list_lookup_insert_eq; [|by rw -He]. rw He in Hb. rw Hb sack_bit_set; [|lia..].
    f_equal. lia.
  - rw list_lookup_insert_ne; [|Z.to_euclidean_division_equations; lia].
    rw (proj2 (Z.eqb_neq i k)) ?orb_false_r //. by intros ->.
Qed.

Lemma sack_set_below first sack id : id < first → sack_set first sack id = Ok sack.
Proof. intros H. unfold sack_set. by rw (proj2 (Z.ltb_lt _ _) H). Qed.
Lemma sack_set_at first sack id b :
  first ≤ id → sack !! Z.to_nat ((id - first) / 8) = Some b →
  sack_set first sack id = Ok (<[Z.to_nat ((id - first) / 8) :=
    Z.lor b (u8 (Z.shiftl 1 (7 - (id - first) mod 8)))]> sack).
Proof. intros H Hb. unfold sack_set, index. by rw (proj2 (Z.ltb_ge _ _) H) Hb. Qed.

Lemma sack_loop first ids sack :
  Forall (λ id, id < first ∨ (Z.to_nat ((id - first) / 8) < length sack)%nat) ids →
  ∃ sack', mfor (sack_set first) sack ids = Ok sack' ∧ length sack' = length sack ∧
    ∀ k, 0 ≤ k → sack_test sack' k = sack_test sack k || bool_decide (first + k ∈ ids).
Proof.
  revert sack. induction ids as [|id ids IH]; intros sack Hids.
  { exists sack. split_and!; [done..|]. intros. rw bool_decide_false ?orb_false_r //. set_solver. }
  apply Forall_cons in Hids as [Hid Hids]. cbn [mfor].
  destruct (decide (id < first)) as [Hlt|Hge].
  - rw sack_set_below // bind_Ok.
    destruct (IH sack Hids) as (s & H1 & H2 & H3). exists s. split_and!; [done..|].
    intros k Hk. rw H3 //. f_equal. apply bool_decide_ext. rw elem_of_cons.
    intuition lia.
  - destruct Hid as [|Hid]; [lia|]. destruct (lookup_lt_is_Some_2 _ _ Hid) as [b Hb].
    rw (sack_set_at _ _ _ b) // ?bind_Ok; [|lia].
    destruct (IH (<[Z.to_nat ((id - first) / 8) :=
      Z.lor b (u8 (Z.shiftl 1 (7 - (id - first) mod 8)))]> sack)) as (s & H1 & H2 & H3).
    { by rw length_insert. }
    exists s. rw length_insert in H2. split_and!; [done..|]. intros k Hk.
    rw H3 // sack_test_insert //; [|lia]. rw -orb_assoc. f_equal.
    destruct (Z.eqb_spec (id - first) k) as [He|Hne].
    + symmetry. apply bool_decide_true, elem_of_cons. left. lia.
    + apply bool_decide_ext. rw elem_of_cons. intuition lia.
Qed.

Lemma fold_max_ge ids m : m ≤ fold_left Z.max ids m ∧ ∀ id, id ∈ ids → id ≤ fold_left Z.max ids m.
Proof.
  revert m. induction ids as [|x ids IH]; intros m; simpl; [split; [done|set_solver]|].
  destruct (IH (Z.max m x)) as [H1 H2]. split; [lia|].
  intros id [->|Hid]%elem_of_cons; [lia|by apply H2].
Qed.

Lemma fold_max_in ids m : fold_left Z.max ids m ∈ m :: ids.
Proof.
  revert m. induction ids as [|x ids IH]; intros m; [by left|]. cbn [fold_left].
  specialize (IH (Z.max m x)). apply elem_of_cons in IH as [->|]; [|by right; right].
  destruct (Z.max_spec m x) as [[_ ->]|[_ ->]]; [by right; left|by left].
Qed.

Lemma sack_test_zeros n k : sack_test (replicate n 0) k = false.
Proof.
  unfold sack_test. destruct (replicate n 0 !! _) as [b|] eqn:E; [|done].
  apply lookup_replicate in E as [-> _]. unfold sack_bit. by rw Z.shiftr_0_l.
Qed.

(** The vector has one bit per ID from the first to the largest, and the bit
    is set exactly for the listed ones. *)
Lemma build_sack_spec first ids :
  ∃ sack, build_sack first ids = Ok sack ∧
    (∀ k, 0 ≤ k → sack_test sack k = bool_decide (first + k ∈ ids)) ∧
    ∀ n, 0 ≤ n → (∀ id, id ∈ ids → id < first + n) → 8 * Z.of_nat (length sack) ≤ n + 7.
Proof.
  unfold build_sack. destruct ids as [|id ids].
  { exists []. split_and!; [done| |cbn; lia]. intros. rw bool_decide_false //. set_solver. }
  destruct (fold_max_ge ids id) as [Hm1 Hm2]. set (m := fold_left Z.max ids id) in *.
  destruct (Z.ltb_spec m first) as [Hlt|Hge].
  { exists []. split_and!; [done| |cbn; lia]. intros k Hk. rw bool_decide_false //.
    intros [?|?%Hm2]%elem_of_cons; lia. }
  destruct (sack_loop first (id :: ids)
    (replicate (div_ceil (Z.to_nat (m - first) + 1) 8) 0)) as (s & H1 & H2 & H3).
  { apply Forall_forall. intros x Hx. assert (x ≤ m) by (apply elem_of_cons in Hx as [->|?%Hm2]; lia).
    destruct (decide (x < first)); [by left|right]. rw length_replicate /div_ceil.
    assert ((x - first) / 8 ≤ (m - first) / 8) by (apply Z.div_le_mono; lia).
    apply Nat2Z.inj_lt. rw Z2Nat.id; [|apply Z.div_pos; lia].
    rw Nat2Z.inj_div. Z.to_euclidean_division_equations. lia. }
  exists s. split_and!; [done|intros k Hk; by rw H3 // sack_test_zeros|].
  intros n Hn Hall. specialize (Hall m (fold_max_in ids id)). rw H2 length_replicate /div_ceil Nat2Z.inj_div.
  Z.to_euclidean_division_equations. lia.
Qed.

Lemma fb_is_acked_test p id : is_u32 (fb_first_src_id p) → is_u32 id →
  fb_is_acked p id = bool_decide (fb_first_src_id p ≤ id)
                     && sack_test (fb_sack p) (id - fb_first_src_id p).
Proof.
  intros Hf Hid. unfold fb_is_acked, sack_test.
  destruct (Z.ltb_spec id (fb_first_src_id p)); [rw bool_decide_false //; lia|].
  rw bool_decide_true //=. set (i := Z.to_nat _).
  destruct (Nat.leb_spec (length (fb_sack p)) i) as [Hl|Hl].
  - by rw lookup_ge_None_2.
  - destruct (lookup_lt_is_Some_2 _ _ Hl) as [b Hb]. rw Hb. by rw (nth_lookup_Some _ _ _ _ Hb).
Qed.

Lemma encode_plr_ok loss : ∃ plr, encode_plr loss = Ok plr ∧ is_u8 plr.
Proof.
  unfold encode_plr, f_clamp. rw (_ : f_le (f_of_Z 0) (f_of_Z 1) = true) //.
  eexists. split; [done|]. unfold is_u8, f_to_u8.
  match goal with |- _ ≤ f_to_uint _ ?x < _ => pose proof (f_to_uint_range 255 x) end. lia.
Qed.

Lemma build_acks first missing unused loss ids :
  is_u32 first →
  ∃ p, build first missing unused loss ids = Ok p ∧
    ∀ id, is_u32 id → fb_is_acked p id = bool_decide (first ≤ id ∧ id ∈ ids).
Proof.
  intros Hf. unfold build. destruct (build_sack_spec first ids) as (sack & -> & Hs & _).
  destruct (encode_plr_ok loss) as (plr & -> & _). rw !bind_Ok. eexists. split; [done|].
  intros id Hid. rw fb_is_acked_test //. cbn [fb_first_src_id fb_sack].
  destruct (decide (first ≤ id)) as [Hle|Hgt].
  - rw bool_decide_true //= Hs; [|lia]. replace (first + (id - first)) with id by lia.
    apply bool_decide_ext. intuition.
  - rw !bool_decide_false //. intuition.
Qed.

(** [build] never unwinds, and the packet it builds acknowledges exactly
    the listed IDs that are not below the first one. *)
Theorem build_is_acked first missing unused loss ids :
  is_u32 first →
  ∃ p, build first missing unused loss ids = Ok p ∧
    ∀ id, is_u32 id → fb_is_acked p id = bool_decide (first ≤ id ∧ id ∈ ids).
Proof. apply build_acks. Qed.

Lemma build_is_acked_witness :
  ∃ p, build 100 2 0 (f_lit 1 2) [100; 103; 115; 7] = Ok p ∧
    ∀ id, is_u32 id → fb_is_acked p id = bool_decide (100 ≤ id ∧ id ∈ [100; 103; 115; 7]).
Proof. apply (build_is_acked 100 2 0 (f_lit 1 2) [100; 103; 115; 7]). done. Defined.

Lemma elem_of_omap_seqZ (f : Z → option Z) n id :
  id ∈ omap f (seqZ 0 n) ↔ ∃ bit, 0 ≤ bit < n ∧ f bit = Some id.
Proof.
  rw list_elem_of_omap. split; intros (b & H1 & H2); exists b.
  - apply elem_of_seqZ in H1. split; [lia|done].
  - rw elem_of_seqZ. split; [lia|done].
Qed.

(** The iterator [acked_ids] lists exactly the set bits, when the vector does
    not reach past the last u32. *)
Lemma elem_of_acked_ids p id :
  is_u32 (fb_first_src_id p) →
  fb_first_src_id p + 8 * Z.of_nat (length (fb_sack p)) ≤ 4294967296 →
  id ∈ acked_ids p ↔ fb_first_src_id p ≤ id ∧ sack_test (fb_sack p) (id - fb_first_src_id p) = true.
Proof.
  intros Hf Hl. unfold acked_ids. rw list_elem_of_In in_concat. unfold is_u32 in Hf.
  set (base := fb_first_src_id p) in *. split.
  - intros (l & [i Hi]%list_elem_of_In%list_elem_of_lookup & Hid%list_elem_of_In).
    rw list_lookup_imap in Hi. apply fmap_Some in Hi as (byte & Hb & ->).
    apply elem_of_omap_seqZ in Hid as (bit & Hbit & Hid).
    destruct (sack_bit byte (7 - bit)) eqn:Es; [|done]. injection Hid as <-.
    apply lookup_lt_Some in Hb as Hlt.
    rw !u32_small; [|word_bound..]. split; [lia|]. unfold sack_test.
    replace (base + Z.of_nat i * 8 + bit - base) with (bit + Z.of_nat i * 8) by lia.
    rw Z.div_add // Z.div_small // Z.mod_add // Z.mod_small // Z.add_0_l Nat2Z.id Hb //.
  - intros [Hle Ht]. unfold sack_test in Ht.
    destruct (fb_sack p !! _) as [byte|] eqn:Hb; [|done].
    apply lookup_lt_Some in Hb as Hlt.
    pose proof (Z.mod_pos_bound (id - base) 8). pose proof (Z.div_mod (id - base) 8).
    assert (0 ≤ (id - base) / 8) by (apply Z.div_pos; lia).
    eexists. split; [apply list_elem_of_In, list_elem_of_lookup; exists (Z.to_nat ((id - base) / 8));
      by rw list_lookup_imap Hb|].
    apply list_elem_of_In, elem_of_omap_seqZ. exists ((id - base) mod 8). split; [lia|].
    rw Ht Z2Nat.id // !u32_small; [|word_bound..]. f_equal. lia.
Qed.

(** The iterator over acknowledged IDs and the membership query agree. *)
Theorem acked_ids_is_acked p id :
  is_u32 (fb_first_src_id p) →
  fb_first_src_id p + 8 * Z.of_nat (length (fb_sack p)) ≤ 4294967296 → is_u32 id →
  id ∈ acked_ids p ↔ fb_is_acked p id = true.
Proof.
  intros Hf Hl Hid. rw elem_of_acked_ids // fb_is_acked_test // andb_true_iff bool_decide_eq_true.
  done.
Qed.

Lemma acked_ids_is_acked_witness :
  let p := {| fb_tsi := None; fb_nb_missing_src := 0; fb_nb_not_used_coded := 0;
              fb_first_src_id := 40; fb_plr_raw := 0; fb_sack := [129; 3] |} in
  acked_ids p = [40; 47; 54; 55] ∧ (54 ∈ acked_ids p ↔ fb_is_acked p 54 = true).
Proof.
  split; [reflexivity|]. apply acked_ids_is_acked; [done|cbn; lia|done].
Defined.

(** ** Round trip of the packet *)
Record feedback_ok (p : FeedbackPacket) : Prop := {
  fo_tsi : match fb_tsi p with Some t => is_u32 t | None => True end;
  fo_missing : is_u32 (fb_nb_missing_src p);
  fo_unused : is_u32 (fb_nb_not_used_coded p);
  fo_first : is_u32 (fb_first_src_id p);
  fo_sack : (length (fb_sack p) < 256)%nat;
}.

Lemma fb_serialise_layout p : (length (fb_sack p) < 256)%nat →
  fb_serialise p = header_to_bytes (header_new PtFeedback CciZero (is_some_b (fb_tsi p))
      (4 + bool_u8 (is_some_b (fb_tsi p))))
    ++ tsi_bytes (fb_tsi p)
    ++ u32_to_be_bytes (fb_nb_missing_src p) ++ u32_to_be_bytes (fb_nb_not_used_coded p)
    ++ u32_to_be_bytes (fb_first_src_id p)
    ++ [fb_plr_raw p; Z.of_nat (length (fb_sack p)); 0; 0] ++ fb_sack p
    ++ replicate (pad32 (length (fb_sack p)) - length (fb_sack p)) 0.
Proof.
  intros Hl. unfold fb_serialise. rw (u8_small (Z.of_nat _)); [|word_bound].
  rw (_ : u8 (1 + bool_u8 (is_some_b (fb_tsi p)) + 2 + 1)
          = 4 + bool_u8 (is_some_b (fb_tsi p))); [|by destruct (fb_tsi p)].
  rw resize_pad; [|lia]. rw Nat.add_comm Nat.add_sub -!app_assoc //.
Qed.

Lemma fb_parse_serialise `{HeaderCastLaw} p : feedback_ok p → fb_parse (fb_serialise p) = Ok p.
Proof.
  intros [Ht Hm Hu Hf Hs]. rw fb_serialise_layout //.
  set (h := header_new _ _ _ _). set (sack_pad := replicate _ 0).
  destruct (header_new_fields PtFeedback CciZero (is_some_b (fb_tsi p))
    (4 + bool_u8 (is_some_b (fb_tsi p)))) as (Hv & Hc & Hts & _). fold h in Hv, Hc, Hts.
  unfold fb_parse. rw header_parse_bytes //.
  2: { unfold hdr_len_bytes, h. cbn [h_hdr_len_words header_new]. rw !length_app tsi_bytes_length /tsi_len.
       destruct (fb_tsi p); simpl; lia. }
  rw bind_Ok. set (pre := header_to_bytes h ++ tsi_bytes (fb_tsi p)).
  assert (body_offset h = length pre) as Hoff.
  { unfold body_offset. rw Hc Hts length_app tsi_bytes_length /tsi_len. done. }
  rw Hoff app_assoc -/pre. set (buf := pre ++ _).
  set (a := u32_to_be_bytes (fb_nb_missing_src p)) in *.
  assert (length buf = length pre + 16 + length (fb_sack p) + length sack_pad)%nat as Hbuf.
  { rw !length_app. simpl. lia. }
  rw (proj2 (Nat.ltb_ge _ _)); [|lia].
  rw (_ : (if has_tsi h then t ← read_u32 buf HEADER_SIZE; Ok (Some t) else Ok None)
          = Ok (fb_tsi p)).
  2: { rw Hts. destruct (fb_tsi p) as [t|]; [|done]. unfold buf, pre. rw -app_assoc.
       by rw read_u32_app. }
  rw bind_Ok (_ : read_u32 buf (length pre) = Ok (fb_nb_missing_src p));
    [|by apply read_u32_app].
  set (b := u32_to_be_bytes (fb_nb_not_used_coded p)) in *.
  rw bind_Ok (_ : read_u32 buf (length pre + 4) = Ok (fb_nb_not_used_coded p)).
  2: { rw /buf app_assoc. apply read_u32_app; [by rw length_app|done]. }
  set (c := u32_to_be_bytes (fb_first_src_id p)) in *.
  rw bind_Ok (_ : read_u32 buf (length pre + 8) = Ok (fb_first_src_id p)).
  2: { rw /buf (app_assoc a) app_assoc. apply read_u32_app; [by rw length_app|done]. }
  assert (buf = (pre ++ a ++ b ++ c) ++ fb_plr_raw p :: Z.of_nat (length (fb_sack p)) :: 0 :: 0
                :: (fb_sack p ++ sack_pad)) as Hb by by rw /buf -!app_assoc.
  assert (length (pre ++ a ++ b ++ c) = length pre + 12)%nat as Hl12 by by rw length_app.
  rw bind_Ok /index (_ : buf !! (length pre + 12)%nat = Some (fb_plr_raw p));
    [|rw Hb -Hl12; by apply list_lookup_middle].
  rw bind_Ok (_ : buf !! (length pre + 13)%nat = Some (Z.of_nat (length (fb_sack p)))).
  2: { rw Hb (cons_middle _ _ (_ :: _)) app_assoc. apply list_lookup_middle.
       rw length_app Hl12 /=. lia. }
  rw bind_Ok Nat2Z.id (proj2 (Nat.ltb_ge _ _)); [|lia].
  rw (_ : slice buf (length pre + 16) (length pre + 16 + length (fb_sack p)) = Ok (fb_sack p));
    [rw bind_Ok; by destruct p|].
  rw Hb (_ : fb_plr_raw p :: ?[z] = [fb_plr_raw p; Z.of_nat (length (fb_sack p)); 0; 0]
               ++ fb_sack p ++ sack_pad) // app_assoc.
  apply slice_app; [rw length_app Hl12 /=; lia|done].
Qed.

(** A window-update packet parses back from its bytes, TSI included, as long
    as its SACK vector fits the one-byte size field. *)
Theorem feedback_roundtrip `{HeaderCastLaw} p :
  feedback_ok p → fb_parse (fb_serialise p) = Ok p.
Proof. apply fb_parse_serialise. Qed.

Lemma feedback_roundtrip_witness :
  let p := {| fb_tsi := Some 3; fb_nb_missing_src := 1; fb_nb_not_used_coded := 2;
              fb_first_src_id := 40; fb_plr_raw := 17; fb_sack := [129; 3] |} in
  @fb_parse ReprC.cast (fb_serialise p) = Ok p.
Proof.
  apply (@feedback_roundtrip ReprC.cast ReprC.cast_law
    {| fb_tsi := Some 3; fb_nb_missing_src := 1; fb_nb_not_used_coded := 2;
       fb_first_src_id := 40; fb_plr_raw := 17; fb_sack := [129; 3] |}).
  constructor; cbn; done || lia.
Defined.

(** A vector of 256 bytes or more loses its size: the parser sees none of it. *)
Lemma feedback_long_sack_truncated :
  (p ← @fb_parse ReprC.cast (fb_serialise
     {| fb_tsi := None; fb_nb_missing_src := 0; fb_nb_not_used_coded := 0;
        fb_first_src_id := 0; fb_plr_raw := 0; fb_sack := replicate 256 255 |});
   Ok (fb_sack p)) = Ok [].
Proof. by vm_compute. Qed.

(** With CCI words present the TSI is read from the CCI. *)
Lemma feedback_tsi_behind_cci :
  let h := header_new PtFeedback CciOne true 6 in
  (p ← @fb_parse ReprC.cast (header_to_bytes h ++ [0; 0; 0; 5] ++ [0; 0; 0; 9]
        ++ replicate 16 0); Ok (fb_tsi p)) = Ok (Some 5).
Proof. by vm_compute. Qed.

Lemma fb_parse_no_panic `{HeaderCast} buf : no_panic (fb_parse buf).
Proof.
  unfold fb_parse, no_panic. pose proof (header_parse_no_panic buf) as Hh.
  destruct (header_parse buf) as [h| |]; [|done|done]. rw bind_Ok. clear Hh.
  destruct (Nat.ltb_spec (length buf) (body_offset h + 16)) as [|Hl]; [done|].
  assert (body_offset h ≥ 4)%nat by (unfold body_offset, HEADER_SIZE; lia).
  assert (∀ a, (a + 4 ≤ length buf)%nat → ∃ v, read_u32 buf a = Ok v) as Hr
    by apply read_u32_no_panic.
  assert (∃ t, (if has_tsi h then t ← read_u32 buf HEADER_SIZE; Ok (Some t) else Ok None) = Ok t)
    as [t ->].
  { destruct (has_tsi h); [|eauto]. destruct (Hr HEADER_SIZE) as [v ->]; [unfold HEADER_SIZE; lia|].
    eauto. }
  destruct (Hr (body_offset h)) as [v1 ->]; [lia|].
  destruct (Hr (body_offset h + 4)%nat) as [v2 ->]; [lia|].
  destruct (Hr (body_offset h + 8)%nat) as [v3 ->]; [lia|]. rw !bind_Ok.
  unfold index. destruct (lookup_lt_is_Some_2 buf (body_offset h + 12)) as [b1 ->]; [lia|].
  destruct (lookup_lt_is_Some_2 buf (body_offset h + 13)) as [b2 ->]; [lia|]. rw !bind_Ok.
  case_match; [done|]. destruct (slice_no_panic buf (body_offset h + 16)
    (body_offset h + 16 + Z.to_nat b2)) as [s ->]; [|done].
  destruct (Nat.ltb_spec (length buf) (body_offset h + 16 + Z.to_nat b2)); [done|lia].
Qed.

(** No datagram makes the window-update parser unwind. *)
Theorem feedback_parse_no_panic `{HeaderCast} buf : no_panic (fb_parse buf).
Proof. apply fb_parse_no_panic. Qed.
