(* ===== verification/Packet.v ===== *)
(** * wire/mod.rs: parsing a datagram into one of the three packets *)

From S2P Require Import Prelude Error Config IdStorage EncVec Common Packets F64 Feedback.
From stdpp Require Import strings.
#[global] Open Scope Z_scope.

Inductive DelpPacket : Type :=
| PSource (p : Source.SourcePacket)
| PCoded (p : Coded.CodedPacket)
| PFeedback (p : FeedbackPacket).

Section parse.
Context `{HeaderCast}.

Definition packet_parse (buf : bytes) : result DelpPacket :=
  if (length buf <? HEADER_SIZE)%nat then Err (BufferTooShort HEADER_SIZE (length buf)) else
  hdr ← header_parse buf;
  ty ← packet_type hdr;
  match ty with
  | PtSource => p ← Source.parse buf; Ok (PSource p)
  | PtCoded => p ← Coded.parse buf; Ok (PCoded p)
  | PtFeedback => p ← fb_parse buf; Ok (PFeedback p)
  end.
End parse.

(** What a sender puts on the wire. *)
Inductive sent : Type :=
| SSource (id : Z) (payload cci : bytes) (tsi : option Z)
| SCoded (ev : EncodingVector) (payload cci : bytes) (tsi : option Z)
| SFeedback (p : FeedbackPacket).

Definition sent_bytes (s : sent) : result bytes :=
  match s with
  | SSource id payload cci tsi => Source.serialise id payload cci tsi
  | SCoded ev payload cci tsi => Coded.serialise (ev_coded_id ev) ev payload cci tsi
  | SFeedback p => Ok (fb_serialise p)
  end.

Definition sent_ok (s : sent) : Prop :=
  match s with
  | SSource id _ cci tsi => is_u32 id ∧ prefix_ok cci tsi
  | SCoded ev _ cci tsi => is_u32 (ev_coded_id ev) ∧ prefix_ok cci tsi ∧ ev_ok ev
                           ∧ ev_id_format ev = best_for (ev_source_ids ev)
  | SFeedback p => feedback_ok p
  end.

(** The parsed packet carries what was sent. *)
Definition carries (s : sent) (p : DelpPacket) : Prop :=
  match s, p with
  | SSource id payload cci tsi, PSource q =>
      Source.source_symbol_id q = id ∧ Source.payload q = payload ∧ Source.cci q = cci
      ∧ Source.tsi q = tsi
  | SCoded ev payload cci tsi, PCoded q =>
      Coded.ev q = ev ∧ Coded.coded_symbol_id q = ev_coded_id ev ∧ Coded.payload q = payload
      ∧ Coded.cci q = cci ∧ Coded.tsi q = tsi
  | SFeedback p, PFeedback q => q = p
  | _, _ => False
  end.

Lemma source_parse_type `{HeaderCast} buf p : Source.parse buf = Ok p →
  ∃ h, header_parse buf = Ok h ∧ packet_type h = Ok PtSource.
Proof.
  unfold Source.parse. intros (h & Hh & (ty & Hty & Hp)%bind_Ok_inv)%bind_Ok_inv.
  exists h. split; [done|]. rw Hty. case_bool_decide; [by subst|].
  simpl in Hp. by destruct (index buf 3).
Qed.
Lemma coded_parse_type `{HeaderCast} buf p : Coded.parse buf = Ok p →
  ∃ h, header_parse buf = Ok h ∧ packet_type h = Ok PtCoded.
Proof.
  unfold Coded.parse. intros (h & Hh & (ty & Hty & Hp)%bind_Ok_inv)%bind_Ok_inv.
  exists h. split; [done|]. rw Hty. case_bool_decide; [by subst|].
  simpl in Hp. by destruct (index buf 3).
Qed.

Lemma packet_parse_dispatch `{HeaderCast} buf h ty :
  header_parse buf = Ok h → packet_type h = Ok ty →
  packet_parse buf = match ty with
    | PtSource => p ← Source.parse buf; Ok (PSource p)
    | PtCoded => p ← Coded.parse buf; Ok (PCoded p)
    | PtFeedback => p ← fb_parse buf; Ok (PFeedback p)
    end.
Proof.
  intros Hh Ht. unfold packet_parse. apply header_parse_size in Hh as Hl.
  rw (proj2 (Nat.ltb_ge _ _)); [|done]. by rw Hh bind_Ok Ht bind_Ok.
Qed.

(** C27: a serialised packet is dispatched by its type byte to its own parser and
    read back unchanged: every source packet and every coded packet with a CCI of
    zero to three words, the latter with an encoding vector of 1 to 255 source IDs,
    contiguous or each less than 2^16 above the one before, and coefficients in
    range, and every feedback packet with fields in range and a SACK vector below
    256 bytes. *)
Theorem packet_roundtrip `{HeaderCastLaw} s :
  sent_ok s → ∃ buf p, sent_bytes s = Ok buf ∧ packet_parse buf = Ok p ∧ carries s p.
Proof.
  destruct s as [id payload cci tsi|ev payload cci tsi|p]; simpl.
  - intros [Hid Hp]. destruct (source_parse_serialise id payload cci tsi Hid Hp)
      as (enc & He & Hparse). destruct (source_parse_type _ _ Hparse) as (h & Hh & Ht).
    exists enc. rw (packet_parse_dispatch enc h PtSource) // Hparse bind_Ok. by eexists.
  - intros (Hid & Hp & Hev & Hf). destruct (coded_parse_serialise ev payload cci tsi Hid Hp Hev Hf)
      as (n & enc & He & Hparse). destruct (coded_parse_type _ _ Hparse) as (h & Hh & Ht).
    exists enc. rw (packet_parse_dispatch enc h PtCoded) // Hparse bind_Ok. by eexists.
  - intros Hp. exists (fb_serialise p). pose proof (fb_parse_serialise p Hp) as Hparse.
    destruct (bind_Ok_inv _ _ _ Hparse) as (h & Hh & _).
    rw (packet_parse_dispatch _ h PtFeedback) //; [rw Hparse bind_Ok; by eexists|].
    rw fb_serialise_layout in Hh; [|by destruct Hp].
    rw header_parse_bytes // in Hh; [by injection Hh as <-; destruct (fb_tsi p)|by destruct (fb_tsi p)|].
    unfold hdr_len_bytes. cbn [h_hdr_len_words header_new].
    rw !length_app tsi_bytes_length /tsi_len. destruct (fb_tsi p); cbn [bool_u8 is_some_b length]; rw ?u32_to_be_bytes_length; lia.
Qed.

Lemma packet_roundtrip_witness :
  ∃ buf p, sent_bytes (SSource 12 [1; 2] [] None) = Ok buf ∧
    @packet_parse ReprC.cast buf = Ok p ∧ carries (SSource 12 [1; 2] [] None) p.
Proof.
  apply (@packet_roundtrip ReprC.cast ReprC.cast_law (SSource 12 [1; 2] [] None)).
  split; [done|]. by constructor.
Defined.

(** Trailing bytes after a window update are accepted. *)
Lemma packet_trailing_bytes :
  let p := {| fb_tsi := None; fb_nb_missing_src := 0; fb_nb_not_used_coded := 0;
              fb_first_src_id := 0; fb_plr_raw := 0; fb_sack := [] |} in
  @packet_parse ReprC.cast (fb_serialise p ++ [1; 2; 3]) = Ok (PFeedback p).
Proof. by vm_compute. Qed.
