(* ===== verification/Policy.v ===== *)
(** * policy/mod.rs, policy/defaults.rs: acknowledgement state and policies

    The traits are classes over the policy's state; [HashMap] and [BTreeSet]
    are [gmap] and [gset]. *)

From S2P Require Import Prelude Error F64 Feedback.

(** ** State snapshots *)
Record EncoderState := {
  es_window_size : nat;
  es_window_capacity : Z;
  es_next_source_id : Z;
  es_next_coded_id : Z;
  es_loss_rate : f64;
  es_window_ids : list Z;
}.

Record DecoderState := {
  ds_next_delivery_id : Z;
  ds_packets_received : Z;
  ds_loss_rate : f64;
  ds_nb_missing_src : Z;
  ds_nb_not_used_coded : Z;
}.

(** ** Acknowledgements per receiver *)
Record ReceiverEntry := { re_cumulative_ack : Z; re_sack : gset Z }.
Definition entry_default : ReceiverEntry := {| re_cumulative_ack := 0; re_sack := ∅ |}.

Record ReceiverAckState := { receivers : gmap Z ReceiverEntry }.
Definition ack_default : ReceiverAckState := {| receivers := ∅ |}.

(** [if first > cumulative_ack { cumulative_ack = first; sack.retain(..) }] *)
Definition advance_to (first : Z) (e : ReceiverEntry) : ReceiverEntry :=
  if re_cumulative_ack e <? first
  then {| re_cumulative_ack := first; re_sack := filter (λ id, first ≤ id) (re_sack e) |}
  else e.

Definition add_sack (e : ReceiverEntry) (id : Z) : ReceiverEntry :=
  {| re_cumulative_ack := re_cumulative_ack e; re_sack := {[ id ]} ∪ re_sack e |}.

(** The loop removes one element per round, so [size sack] rounds suffice. *)
Fixpoint absorb_contiguous (fuel : nat) (e : ReceiverEntry) : ReceiverEntry :=
  match fuel with
  | O => e
  | S fuel =>
      if decide (re_cumulative_ack e ∈ re_sack e)
      then absorb_contiguous fuel
             {| re_cumulative_ack := u32 (re_cumulative_ack e + 1);
                re_sack := re_sack e ∖ {[ re_cumulative_ack e ]} |}
      else e
  end.

Definition update_entry (pkt : FeedbackPacket) (e : ReceiverEntry) : ReceiverEntry :=
  let e := advance_to (fb_first_src_id pkt) e in
  let e := fold_left add_sack (acked_ids pkt) e in
  absorb_contiguous (S (size (re_sack e))) e.

Definition ack_update (st : ReceiverAckState) (receiver_id : Z) (pkt : FeedbackPacket)
  : ReceiverAckState :=
  let entry := default entry_default (receivers st !! receiver_id) in
  {| receivers := <[receiver_id := update_entry pkt entry]> (receivers st) |}.

Definition entry_acked (e : ReceiverEntry) (id : Z) : bool :=
  (id <? re_cumulative_ack e) || bool_decide (id ∈ re_sack e).

Definition ack_is_acked (st : ReceiverAckState) (receiver_id id : Z) : bool :=
  match receivers st !! receiver_id with Some e => entry_acked e id | None => false end.

Definition receiver_ids (st : ReceiverAckState) : list Z := (map_to_list (receivers st)).*1.
Definition num_receivers (st : ReceiverAckState) : nat := size (receivers st).

(** ** The traits *)
Class WindowPolicy (W : Type) :=
  symbols_to_remove : W → ReceiverAckState → list Z → result (W * list Z).

Class CongestionControl (C : Type) := {
  generate_cci : C → bytes;
  process_cci : C → bytes → C;
  cc_on_feedback : C → EncoderState → f64 → Z → Z → C;
  can_send : C → bool;
  on_send : C → nat → C;
}.

Class FecRateController (F : Type) := {
  coded_packets_to_generate : F → EncoderState → result (F * nat);
  fec_on_feedback : F → EncoderState → f64 → Z → Z → F;
}.

Class FeedbackPolicy (P : Type) :=
  should_send_feedback : P → DecoderState → P * bool.

(** ** Window policies *)
Inductive AnyAckPolicy : Type := AnyAck.
#[export] Instance any_ack_policy : WindowPolicy AnyAckPolicy := λ self st window_ids,
  Ok (self, filter (λ id, existsb (λ rid, ack_is_acked st rid id) (receiver_ids st) = true)
              window_ids).

Inductive AllAckPolicy : Type := AllAck.
#[export] Instance all_ack_policy : WindowPolicy AllAckPolicy := λ self st window_ids,
  if (num_receivers st =? 0)%nat then Ok (self, [])
  else Ok (self, filter (λ id, forallb (λ rid, ack_is_acked st rid id) (receiver_ids st) = true)
                   window_ids).

Record QuorumAckPolicy := { quorum : Z }.
Definition QuorumAckPolicy_new (q : Z) : QuorumAckPolicy := {| quorum := q |}.
Definition acked_count (st : ReceiverAckState) (id : Z) : Z :=
  Z.of_nat (length (filter (λ rid, ack_is_acked st rid id = true) (receiver_ids st))).
#[export] Instance quorum_ack_policy : WindowPolicy QuorumAckPolicy := λ self st window_ids,
  Ok (self, filter (λ id, quorum self ≤ acked_count st id) window_ids).

(** ** Congestion control *)
Inductive NoCongestionControl : Type := NoCc.
#[export] Instance no_congestion_control : CongestionControl NoCongestionControl := {|
  generate_cci _ := [];
  process_cci self _ := self;
  cc_on_feedback self _ _ _ _ := self;
  can_send _ := true;
  on_send self _ := self;
|}.

(** ** FEC rates *)
Record ConstantFecRate := { cf_numer : Z; cf_denom : Z; cf_acc : Z }.

Definition ConstantFecRate_new (numer denom : Z) : result ConstantFecRate :=
  _ ← rassert (0 <? denom);
  Ok {| cf_numer := numer; cf_denom := denom; cf_acc := 0 |}.
Definition one_to_one : result ConstantFecRate := ConstantFecRate_new 1 1.
Definition disabled : result ConstantFecRate := ConstantFecRate_new 0 1.

(** A division by zero unwinds. *)
Definition constant_step (self : ConstantFecRate) : result (ConstantFecRate * nat) :=
  let acc := u64 (cf_acc self + cf_numer self) in
  _ ← rassert (negb (cf_denom self =? 0));
  let count := acc / cf_denom self in
  Ok ({| cf_numer := cf_numer self; cf_denom := cf_denom self; cf_acc := acc mod cf_denom self |},
      Z.to_nat count).

#[export] Instance constant_fec_rate : FecRateController ConstantFecRate := {|
  coded_packets_to_generate self _ := constant_step self;
  fec_on_feedback self _ _ _ _ := self;
|}.

Record AdaptiveFecRate := {
  af_current_rate : f64;
  af_min_rate : f64;
  af_max_rate : f64;
  af_target_loss : f64;
  af_acc : f64;
}.

Definition AdaptiveFecRate_new (initial_rate min_rate max_rate target_loss : f64)
  : result AdaptiveFecRate :=
  rate ← f_clamp initial_rate min_rate max_rate;
  Ok {| af_current_rate := rate; af_min_rate := min_rate; af_max_rate := max_rate;
        af_target_loss := target_loss; af_acc := f_of_Z 0 |}.

Definition adaptive_step (self : AdaptiveFecRate) : result (AdaptiveFecRate * nat) :=
  let acc := f_add (af_acc self) (af_current_rate self) in
  let count := f_to_usize (f_floor acc) in
  let acc := f_sub acc (f_of_Z count) in
  Ok ({| af_current_rate := af_current_rate self; af_min_rate := af_min_rate self;
         af_max_rate := af_max_rate self; af_target_loss := af_target_loss self;
         af_acc := acc |}, Z.to_nat count).

Definition adaptive_rate (self : AdaptiveFecRate) (rate : f64) : AdaptiveFecRate :=
  {| af_current_rate := rate; af_min_rate := af_min_rate self; af_max_rate := af_max_rate self;
     af_target_loss := af_target_loss self; af_acc := af_acc self |}.

Definition adaptive_on_feedback (self : AdaptiveFecRate) (loss_rate : f64) : AdaptiveFecRate :=
  if f_lt (af_target_loss self) loss_rate then
    adaptive_rate self (f_min (f_mul (af_current_rate self) (f_of_Z 2)) (af_max_rate self))
  else if f_lt loss_rate (f_div (af_target_loss self) (f_of_Z 2)) then
    adaptive_rate self (f_max (f_div (af_current_rate self) (f_of_Z 2)) (af_min_rate self))
  else self.

#[export] Instance adaptive_fec_rate : FecRateController AdaptiveFecRate := {|
  coded_packets_to_generate self _ := adaptive_step self;
  fec_on_feedback self _ loss _ _ := adaptive_on_feedback self loss;
|}.

(** ** Feedback policies *)
Record ConstantFeedbackPolicy := { cp_period : Z; cp_counter : Z }.

Definition ConstantFeedbackPolicy_new (period : Z) : result ConstantFeedbackPolicy :=
  _ ← rassert (0 <? period);
  Ok {| cp_period := period; cp_counter := 0 |}.

#[export] Instance constant_feedback_policy : FeedbackPolicy ConstantFeedbackPolicy := λ self _,
  let counter := u32 (cp_counter self + 1) in
  if cp_period self <=? counter
  then ({| cp_period := cp_period self; cp_counter := 0 |}, true)
  else ({| cp_period := cp_period self; cp_counter := counter |}, false).

Inductive ImmediateFeedbackPolicy : Type := Immediate.
#[export] Instance immediate_feedback_policy : FeedbackPolicy ImmediateFeedbackPolicy :=
  λ self _, (self, true).

(** ** The acknowledgement state *)

(** Every acknowledged ID has a successor: the cumulative counter never wraps. *)
Record entry_ok (e : ReceiverEntry) : Prop := {
  eo_cum : is_u32 (re_cumulative_ack e);
  eo_sack : ∀ id, id ∈ re_sack e → 0 ≤ id < 4294967295;
}.

Lemma entry_acked_spec e id :
  entry_acked e id = true ↔ id < re_cumulative_ack e ∨ id ∈ re_sack e.
Proof. unfold entry_acked. rw orb_true_iff Z.ltb_lt bool_decide_eq_true. done. Qed.

Lemma advance_to_spec first e :
  entry_ok e → is_u32 first →
  entry_ok (advance_to first e) ∧
  ∀ id, entry_acked (advance_to first e) id = true ↔ entry_acked e id = true ∨ id < first.
Proof.
  intros [Hc Hs] Hf. unfold advance_to. destruct (Z.ltb_spec (re_cumulative_ack e) first).
  - split; [constructor; cbn; [done|set_solver]|]. intros id. rw !entry_acked_spec. cbn.
    rw elem_of_filter. split; [naive_solver lia|].
    intros [[?|?]|?]; [naive_solver lia| |naive_solver lia].
    destruct (decide (first ≤ id)); [naive_solver|left; lia].
  - split; [done|]. intros id. rw !entry_acked_spec. naive_solver lia.
Qed.

Lemma add_sack_spec ids e :
  entry_ok e → Forall (λ id, 0 ≤ id < 4294967295) ids →
  entry_ok (fold_left add_sack ids e) ∧
  ∀ id, entry_acked (fold_left add_sack ids e) id = true ↔ entry_acked e id = true ∨ id ∈ ids.
Proof.
  revert e. induction ids as [|x ids IH]; intros e He Hids; simpl.
  { split; [done|]. set_solver. }
  apply Forall_cons in Hids as [Hx Hids]. destruct (IH (add_sack e x)) as [H1 H2]; [|done|].
  { destruct He. constructor; cbn; [done|set_solver]. }
  split; [done|]. intros id. rw H2 !entry_acked_spec. cbn. set_solver.
Qed.

Lemma absorb_contiguous_spec fuel e :
  entry_ok e → (size (re_sack e) < fuel)%nat →
  let e' := absorb_contiguous fuel e in
  entry_ok e' ∧ re_cumulative_ack e' ∉ re_sack e' ∧
  ∀ id, entry_acked e' id = true ↔ entry_acked e id = true.
Proof.
  revert e. induction fuel as [|fuel IH]; intros e He Hf; [lia|]. simpl.
  case_decide as Hin; [|done]. pose proof (eo_sack _ He _ Hin) as Hb.
  rw u32_small; [|word_bound].
  set (e1 := {| re_cumulative_ack := _; re_sack := _ |}).
  assert (entry_ok e1) as He1.
  { destruct He as [? Hs]. constructor; cbn; [word_bound|]. intros id Hid. apply Hs. set_solver. }
  destruct (IH e1 He1) as (H1 & H2 & H3).
  { cbn. rw size_difference; [|set_solver]. rw size_singleton.
    assert (size (re_sack e) ≠ 0)%nat by (apply size_non_empty_iff; set_solver). lia. }
  split_and!; [done..|]. intros id. rw H3 !entry_acked_spec. cbn.
  rw elem_of_difference elem_of_singleton.
  destruct (decide (id = re_cumulative_ack e)) as [->|]; [naive_solver lia|].
  split; [intros [?|?]; [left; lia|right; naive_solver]|intros [?|?]; [left; lia|right; naive_solver]].
Qed.

Lemma update_entry_spec p e :
  entry_ok e → is_u32 (fb_first_src_id p) → Forall (λ id, 0 ≤ id < 4294967295) (acked_ids p) →
  let e' := update_entry p e in
  entry_ok e' ∧ re_cumulative_ack e' ∉ re_sack e' ∧
  ∀ id, entry_acked e' id = true ↔
    entry_acked e id = true ∨ id < fb_first_src_id p ∨ id ∈ acked_ids p.
Proof.
  intros He Hf Hids. unfold update_entry.
  destruct (advance_to_spec (fb_first_src_id p) e He Hf) as [H1 H2].
  destruct (add_sack_spec (acked_ids p) _ H1 Hids) as [H3 H4].
  destruct (absorb_contiguous_spec (S (size (re_sack (fold_left add_sack (acked_ids p)
    (advance_to (fb_first_src_id p) e))))) _ H3) as (H5 & H6 & H7); [lia|].
  split_and!; [done..|]. intros id. rw H7 H4 H2. tauto.
Qed.

Definition ack_state_ok (st : ReceiverAckState) : Prop :=
  ∀ rid e, receivers st !! rid = Some e → entry_ok e.

Lemma entry_default_ok : entry_ok entry_default.
Proof. constructor; cbn; [done|set_solver]. Qed.

Lemma ack_update_acks st rid p :
  ack_state_ok st → is_u32 (fb_first_src_id p) →
  Forall (λ id, 0 ≤ id < 4294967295) (acked_ids p) →
  ack_state_ok (ack_update st rid p) ∧
  (∀ e, receivers (ack_update st rid p) !! rid = Some e → re_cumulative_ack e ∉ re_sack e) ∧
  (∀ id, 0 ≤ id → ack_is_acked (ack_update st rid p) rid id = true ↔
    ack_is_acked st rid id = true ∨ id < fb_first_src_id p ∨ id ∈ acked_ids p) ∧
  (∀ rid' id, rid' ≠ rid → ack_is_acked (ack_update st rid p) rid' id = ack_is_acked st rid' id).
Proof.
  intros Hst Hf Hids. set (e0 := default entry_default (receivers st !! rid)).
  assert (entry_ok e0) as He0.
  { unfold e0. destruct (receivers st !! rid) as [e|] eqn:E;
      [exact (Hst rid e E)|apply entry_default_ok]. }
  destruct (update_entry_spec p e0 He0 Hf Hids) as (H1 & H2 & H3).
  unfold ack_state_ok, ack_update, ack_is_acked. cbn [receivers]. fold e0.
  set (e1 := update_entry p e0) in *. clearbody e1. split_and!.
  - intros r e. destruct (decide (r = rid)) as [Heq|Hne].
    + rw Heq lookup_insert_eq. by intros [= <-].
    + rw lookup_insert_ne; [exact (Hst r e)|by apply not_eq_sym].
  - intros e. rw lookup_insert_eq. by intros [= <-].
  - intros id Hid. rw lookup_insert_eq H3. unfold e0.
    destruct (receivers st !! rid) as [e|]; cbn; [done|].
    rw entry_acked_spec. cbn. rw elem_of_empty. naive_solver lia.
  - intros rid' id Hne. rw lookup_insert_ne; [done|by apply not_eq_sym].
Qed.

(** C37: processing a window update acknowledges, for its receiver, exactly what
    was acknowledged before, every ID below the packet's first ID and every ID
    of its SACK vector; other receivers are untouched, the cumulative counter
    ends past every contiguous SACK entry, and the state stays well formed. *)
Theorem ack_update_spec st rid p :
  ack_state_ok st → is_u32 (fb_first_src_id p) →
  Forall (λ id, 0 ≤ id < 4294967295) (acked_ids p) →
  ack_state_ok (ack_update st rid p) ∧
  (∀ e, receivers (ack_update st rid p) !! rid = Some e → re_cumulative_ack e ∉ re_sack e) ∧
  (∀ id, 0 ≤ id → ack_is_acked (ack_update st rid p) rid id = true ↔
    ack_is_acked st rid id = true ∨ id < fb_first_src_id p ∨ id ∈ acked_ids p) ∧
  (∀ rid' id, rid' ≠ rid → ack_is_acked (ack_update st rid p) rid' id = ack_is_acked st rid' id).
Proof. apply ack_update_acks. Qed.

Definition demo_feedback : FeedbackPacket :=
  {| fb_tsi := None; fb_nb_missing_src := 0; fb_nb_not_used_coded := 0;
     fb_first_src_id := 4; fb_plr_raw := 0; fb_sack := [144] |}.

Lemma ack_update_spec_witness :
  acked_ids demo_feedback = [4; 7] ∧
  ∀ id, 0 ≤ id → ack_is_acked (ack_update ack_default 9 demo_feedback) 9 id = true ↔
    ack_is_acked ack_default 9 id = true ∨ id < 4 ∨ id ∈ acked_ids demo_feedback.
Proof.
  split; [reflexivity|].
  refine (proj1 (proj2 (proj2 (ack_update_spec ack_default 9 demo_feedback _ _ _)))).
  - intros rid e H. by rw lookup_empty in H.
  - rw /demo_feedback /is_u32 /=. lia.
  - apply Forall_forall. intros id Hid. change (id ∈ [4; 7]) in Hid.
    apply elem_of_cons in Hid as [->|Hid]; [lia|]. apply list_elem_of_singleton in Hid. lia.
Defined.

(** ** Window policies *)
Lemma elem_of_receiver_ids st rid : rid ∈ receiver_ids st ↔ is_Some (receivers st !! rid).
Proof.
  unfold receiver_ids. rw list_elem_of_fmap. split.
  - intros ([r e] & -> & H%elem_of_map_to_list). by exists e.
  - intros [e H]. exists (rid, e). split; [done|]. by apply elem_of_map_to_list.
Qed.

Lemma acked_known st rid id : ack_is_acked st rid id = true → rid ∈ receiver_ids st.
Proof.
  unfold ack_is_acked. rw elem_of_receiver_ids. destruct (receivers st !! rid); [by eexists|done].
Qed.

(** The three window policies release exactly the window IDs acknowledged by
    some receiver, by every receiver (and at least one), and by at least
    [quorum] receivers. *)
Theorem window_policies_spec st ids q :
  (∃ l, symbols_to_remove AnyAck st ids = Ok (AnyAck, l) ∧
    ∀ id, id ∈ l ↔ id ∈ ids ∧ ∃ rid, ack_is_acked st rid id = true) ∧
  (∃ l, symbols_to_remove AllAck st ids = Ok (AllAck, l) ∧
    ∀ id, id ∈ l ↔ id ∈ ids ∧ receivers st ≠ ∅ ∧
      ∀ rid, rid ∈ receiver_ids st → ack_is_acked st rid id = true) ∧
  (∃ l, symbols_to_remove (QuorumAckPolicy_new q) st ids = Ok (QuorumAckPolicy_new q, l) ∧
    ∀ id, id ∈ l ↔ id ∈ ids ∧ q ≤ acked_count st id).
Proof.
  split_and!.
  - eexists. split; [done|]. intros id. rw list_elem_of_filter existsb_exists. split.
    + intros [(rid & _ & H) ?]. eauto.
    + intros [? [rid H]]. split; [|done]. exists rid. split; [|done].
      apply list_elem_of_In, (acked_known st rid id H).
  - unfold symbols_to_remove, all_ack_policy, num_receivers.
    destruct (Nat.eqb_spec (size (receivers st)) 0) as [H0|H0].
    + eexists. split; [done|]. intros id. apply map_size_empty_iff in H0. rw H0.
      rw list_elem_of_In. naive_solver.
    + eexists. split; [done|]. intros id. rw list_elem_of_filter forallb_forall.
      assert (receivers st ≠ ∅) by by rw -map_size_empty_iff.
      split.
      * intros [Hall ?]. split_and!; [done..|]. intros rid Hr. apply Hall.
        by apply list_elem_of_In.
      * intros (? & _ & Hall). split; [|done]. intros rid Hr. apply Hall.
        by apply list_elem_of_In.
  - eexists. split; [done|]. intros id. rw list_elem_of_filter. cbn. tauto.
Qed.

Lemma window_policies_spec_witness :
  ∃ l, symbols_to_remove AllAck (ack_update ack_default 9 demo_feedback) [3; 4; 5; 7]
         = Ok (AllAck, l) ∧
    ∀ id, id ∈ l ↔ id ∈ [3; 4; 5; 7] ∧
      receivers (ack_update ack_default 9 demo_feedback) ≠ ∅ ∧
      ∀ rid, rid ∈ receiver_ids (ack_update ack_default 9 demo_feedback) →
        ack_is_acked (ack_update ack_default 9 demo_feedback) rid id = true.
Proof.
  exact (proj1 (proj2 (window_policies_spec (ack_update ack_default 9 demo_feedback)
    [3; 4; 5; 7] 0))).
Defined.

(** ** The constant FEC rate *)

(** [n] calls of a step function, with the sum of what they return. *)
Fixpoint iterate {S} (f : S → result (S * nat)) (n : nat) (s : S) : result (S * nat) :=
  match n with
  | O => Ok (s, 0%nat)
  | S n => '(s, k) ← f s; '(s, total) ← iterate f n s; Ok (s, (k + total)%nat)
  end.

Lemma constant_step_ok numer denom acc :
  0 ≤ numer → 0 < denom → 0 ≤ acc < denom → numer + denom ≤ 2 ^ 64 →
  constant_step {| cf_numer := numer; cf_denom := denom; cf_acc := acc |}
  = Ok ({| cf_numer := numer; cf_denom := denom; cf_acc := (acc + numer) mod denom |},
        Z.to_nat ((acc + numer) / denom)).
Proof.
  intros. unfold constant_step. cbn [cf_numer cf_denom cf_acc]. rw u64_small; [|word_bound].
  by rw (proj2 (Z.eqb_neq denom 0)); [|lia].
Qed.

Lemma constant_iterate n numer denom acc :
  0 ≤ numer → 0 < denom → 0 ≤ acc < denom → numer + denom ≤ 2 ^ 64 →
  iterate constant_step n {| cf_numer := numer; cf_denom := denom; cf_acc := acc |}
  = Ok ({| cf_numer := numer; cf_denom := denom;
           cf_acc := (acc + Z.of_nat n * numer) mod denom |},
        Z.to_nat ((acc + Z.of_nat n * numer) / denom)).
Proof.
  intros Hn Hd. revert acc. induction n as [|n IH]; intros acc Ha Hb.
  { cbn [iterate]. by rw Z.add_0_r Z.mod_small // Z.div_small. }
  cbn [iterate]. rw constant_step_ok // bind_Ok.
  pose proof (Z.mod_pos_bound (acc + numer) denom ltac:(lia)).
  pose proof (Z.div_mod (acc + numer) denom ltac:(lia)) as Hdm.
  rw IH // bind_Ok. set (q := (acc + numer) / denom) in *. set (r := (acc + numer) mod denom) in *.
  assert (acc + Z.of_nat (S n) * numer = r + Z.of_nat n * numer + q * denom) as -> by lia.
  rw Z.mod_add ?Z.div_add; [|lia..]. do 2 f_equal.
  assert (0 ≤ q) by (apply Z.div_pos; lia).
  assert (0 ≤ (r + Z.of_nat n * numer) / denom) by (apply Z.div_pos; nia). lia.
Qed.

(** Over any [n] source symbols a constant rate of [numer/denom] asks for
    exactly [floor (n * numer / denom)] coded packets, and never unwinds. *)
Theorem constant_rate_exact n numer denom :
  0 ≤ numer → 0 < denom → numer + denom ≤ 2 ^ 64 →
  ∃ r r', ConstantFecRate_new numer denom = Ok r ∧
    iterate (λ s, coded_packets_to_generate s
               {| es_window_size := 0; es_window_capacity := 0; es_next_source_id := 0;
                  es_next_coded_id := 0; es_loss_rate := f_of_Z 0; es_window_ids := [] |}) n r
    = Ok (r', Z.to_nat (Z.of_nat n * numer / denom)).
Proof.
  intros Hn Hd Hb. eexists _, _. split.
  { unfold ConstantFecRate_new. rw (proj2 (Z.ltb_lt 0 denom)) //. }
  exact (constant_iterate n numer denom 0 Hn Hd ltac:(lia) Hb).
Qed.

Lemma constant_rate_exact_witness :
  ∃ r r', ConstantFecRate_new 2 5 = Ok r ∧
    iterate (λ s, coded_packets_to_generate s
               {| es_window_size := 0; es_window_capacity := 0; es_next_source_id := 0;
                  es_next_coded_id := 0; es_loss_rate := f_of_Z 0; es_window_ids := [] |}) 12 r
    = Ok (r', 4%nat).
Proof. apply (constant_rate_exact 12 2 5); lia. Defined.

(** ** The periodic feedback policy *)
Fixpoint feedback_steps {P} `{FeedbackPolicy P} (n : nat) (p : P) (ds : DecoderState)
  : P * list bool :=
  match n with
  | O => (p, [])
  | S n => let '(p, b) := should_send_feedback p ds in
           let '(p, bs) := feedback_steps n p ds in (p, b :: bs)
  end.

Lemma constant_feedback_lookup n period c ds i b :
  0 < period → is_u32 period → 0 ≤ c < period →
  (feedback_steps n {| cp_period := period; cp_counter := c |} ds).2 !! i = Some b →
  b = ((c + Z.of_nat i + 1) mod period =? 0).
Proof.
  intros Hp Hu. revert c i. induction n as [|n IH]; intros c i Hc; [done|].
  cbn [feedback_steps]. unfold should_send_feedback, constant_feedback_policy.
  cbn [cp_period cp_counter]. rw u32_small; [|word_bound].
  destruct (Z.leb_spec period (c + 1)) as [Hle|Hgt].
  - specialize (IH 0). destruct (feedback_steps n _ ds) as [p' bs] eqn:E.
    destruct i as [|i]; cbn [snd lookup list_lookup].
    + intros [= <-]. replace (c + Z.of_nat 0 + 1) with period by lia.
      by rw Z.mod_same; [|lia].
    + intros Hi. rw (IH i) //. replace (c + Z.of_nat (S i) + 1)
        with (0 + Z.of_nat i + 1 + 1 * period) by lia. by rw Z.mod_add; [|lia].
  - specialize (IH (c + 1)). destruct (feedback_steps n _ ds) as [p' bs] eqn:E.
    destruct i as [|i]; cbn [snd lookup list_lookup].
    + intros [= <-]. rw Z.mod_small; [|lia]. symmetry. apply Z.eqb_neq. lia.
    + intros Hi. rw (IH i) //; [|lia]. do 2 f_equal. lia.
Qed.

(** The constant feedback policy of period [p] asks for a window update on
    exactly the packets number [p], [2p], [3p], ... *)
Theorem constant_feedback_periodic n period ds i b :
  0 < period → is_u32 period →
  ∃ p0, ConstantFeedbackPolicy_new period = Ok p0 ∧
    ((feedback_steps n p0 ds).2 !! i = Some b → b = (Z.of_nat (S i) mod period =? 0)).
Proof.
  intros Hp Hu. unfold ConstantFeedbackPolicy_new. rw (proj2 (Z.ltb_lt 0 period)) //=.
  eexists. split; [done|]. intros H.
  apply constant_feedback_lookup in H; [|done|done|lia].
  rw H. do 2 f_equal. lia.
Qed.

Lemma constant_feedback_periodic_witness :
  let ds := {| ds_next_delivery_id := 0; ds_packets_received := 0; ds_loss_rate := f_of_Z 0;
               ds_nb_missing_src := 0; ds_nb_not_used_coded := 0 |} in
  ∃ p0, ConstantFeedbackPolicy_new 3 = Ok p0 ∧
    ((feedback_steps 7 p0 ds).2 !! 5%nat = Some true → true = (Z.of_nat 6 mod 3 =? 0)).
Proof.
  apply (constant_feedback_periodic 7 3 _ 5); [lia|]. unfold is_u32. lia.
Defined.
