(* ===== verification/Window.v ===== *)
(** * codec/encoder/window.rs: the encoder's sliding window

    The [VecDeque] is a list, front first; symbol data are bytes. *)

From S2P Require Import Prelude Error.
From stdpp Require Import sorting.
#[global] Open Scope Z_scope.

Record WindowSymbol := { ws_id : Z; ws_data : bytes }.

Record EncodingWindow := {
  w_symbols : list WindowSymbol;
  w_capacity : Z;
  w_next_id : Z;
  w_is_contiguous : bool;
}.

Definition window_new (capacity : Z) : EncodingWindow :=
  {| w_symbols := []; w_capacity := capacity; w_next_id := 0; w_is_contiguous := true |}.

Definition window_len (w : EncodingWindow) : nat := length (w_symbols w).
Definition window_is_empty (w : EncodingWindow) : bool := (window_len w =? 0)%nat.
Definition window_is_full (w : EncodingWindow) : bool := w_capacity w <=? Z.of_nat (window_len w).

Definition first_id (w : EncodingWindow) : option Z := ws_id <$> head (w_symbols w).
Definition last_id (w : EncodingWindow) : option Z := ws_id <$> last (w_symbols w).
Definition id_slice (w : EncodingWindow) : list Z := ws_id <$> w_symbols w.

Definition push (w : EncodingWindow) (data : bytes) : EncodingWindow * Z :=
  let id := w_next_id w in
  let contiguous :=
    match last_id w with
    | Some last => if negb (id =? u32 (last + 1)) then false else w_is_contiguous w
    | None => w_is_contiguous w
    end in
  ({| w_symbols := w_symbols w ++ [{| ws_id := id; ws_data := data |}];
      w_capacity := w_capacity w;
      w_next_id := u32 (w_next_id w + 1);
      w_is_contiguous := contiguous |}, id).

Definition evict_oldest (w : EncodingWindow) : EncodingWindow :=
  {| w_symbols := tail (w_symbols w); w_capacity := w_capacity w; w_next_id := w_next_id w;
     w_is_contiguous := w_is_contiguous w |}.

(** [b.id == a.id.wrapping_add(1)] for every two neighbours *)
Definition check_contiguous (symbols : list WindowSymbol) : bool :=
  forallb (λ '(a, b), ws_id b =? u32 (ws_id a + 1)) (zip symbols (drop 1 symbols)).

Definition remove_ids (w : EncodingWindow) (ids : list Z) : EncodingWindow :=
  if (length ids =? 0)%nat then w
  else
    let before_len := length (w_symbols w) in
    let symbols := filter (λ s, ws_id s ∉ ids) (w_symbols w) in
    let removed := (before_len - length symbols)%nat in
    {| w_symbols := symbols; w_capacity := w_capacity w; w_next_id := w_next_id w;
       w_is_contiguous := if (0 <? removed)%nat then check_contiguous symbols
                          else w_is_contiguous w |}.

Definition window_get (w : EncodingWindow) (id : Z) : option bytes :=
  match w_symbols w with
  | [] => None
  | front :: _ =>
      if w_is_contiguous w then
        if id <? ws_id front then None
        else ws_data <$> (w_symbols w !! Z.to_nat (id - ws_id front))
      else ws_data <$> (list_find (λ s, ws_id s = id) (w_symbols w) ≫= λ '(_, s), Some s)
  end.

(** ** The window invariant

    IDs strictly ascending and below the next one; the contiguity flag only
    when they are consecutive. *)
Record window_ok (w : EncodingWindow) : Prop := {
  wo_next : is_u32 (w_next_id w);
  wo_sorted : StronglySorted Z.lt (id_slice w);
  wo_below : Forall (λ id, 0 ≤ id < w_next_id w) (id_slice w);
  wo_flag : w_is_contiguous w = true → check_contiguous (w_symbols w) = true;
}.

Lemma window_new_ok capacity : window_ok (window_new capacity).
Proof. constructor; cbn; [done|constructor..|done]. Qed.

Lemma sorted_snoc l x :
  StronglySorted Z.lt l → Forall (λ y, y < x) l → StronglySorted Z.lt (l ++ [x]).
Proof.
  induction 1 as [|y l Hl IH Hy]; intros Hx; simpl.
  - repeat constructor.
  - apply Forall_cons in Hx as [? Hx]. constructor; [by apply IH|].
    apply Forall_app_2; [done|]. by constructor.
Qed.

Lemma zip_tail_snoc {A} (l : list A) x y :
  last l = Some y → zip (l ++ [x]) (drop 1 (l ++ [x])) = zip l (drop 1 l) ++ [(y, x)].
Proof.
  induction l as [|a [|b l] IH]; intros Hy; [done| |].
  - by injection Hy as ->.
  - rw last_cons_cons in Hy. specialize (IH Hy). cbn in IH |- *. by rw IH.
Qed.

Lemma check_contiguous_snoc l x y :
  last l = Some y → ws_id x = u32 (ws_id y + 1) → check_contiguous l = true →
  check_contiguous (l ++ [x]) = true.
Proof.
  intros Hy Hx Hl. unfold check_contiguous. rw (zip_tail_snoc l x y Hy) forallb_app.
  unfold check_contiguous in Hl. rw Hl /= andb_true_r. lia.
Qed.

Lemma check_contiguous_tail l : check_contiguous l = true → check_contiguous (tail l) = true.
Proof. destruct l as [|a [|b l]]; [done..|]. by intros [_ H]%andb_true_iff. Qed.

Lemma sorted_filter (l : list WindowSymbol) (P : WindowSymbol → Prop) `{∀ s, Decision (P s)} :
  StronglySorted Z.lt (ws_id <$> l) → StronglySorted Z.lt (ws_id <$> filter P l).
Proof.
  induction l as [|s l IH]; [done|]. rw fmap_cons filter_cons.
  intros [Hs Hl]%StronglySorted_inv. case_decide; [|by apply IH].
  rw fmap_cons. constructor; [by apply IH|].
  apply Forall_fmap, Forall_forall. intros x [_ Hx]%list_elem_of_filter.
  rw Forall_fmap Forall_forall in Hl. by apply Hl.
Qed.

Lemma push_ok w data : window_ok w → w_next_id w < 4294967295 →
  window_ok (push w data).1 ∧ (push w data).2 = w_next_id w.
Proof.
  intros [Hn Hs Hb Hf] Hlt. split; [|done].
  assert (u32 (w_next_id w + 1) = w_next_id w + 1) as Hu by (apply u32_small; word_bound).
  unfold id_slice in *.
  constructor; unfold id_slice; cbn [push fst w_next_id w_symbols w_is_contiguous].
  - rw Hu. word_bound.
  - rw fmap_app. apply sorted_snoc; [done|]. eapply Forall_impl; [done|]. simpl. lia.
  - rw fmap_app Hu. apply Forall_app_2; [|constructor; [unfold is_u32 in Hn; simpl; lia|done]].
    eapply Forall_impl; [done|]. simpl. lia.
  - unfold last_id. destruct (last (w_symbols w)) as [y|] eqn:Hy; simpl.
    + destruct (Z.eqb_spec (w_next_id w) (u32 (ws_id y + 1))); [|done]. intros Hc.
      eapply check_contiguous_snoc; [done|done|by apply Hf].
    + apply last_None in Hy. by rw Hy.
Qed.

Lemma evict_ok w : window_ok w → window_ok (evict_oldest w).
Proof.
  intros [Hn Hs Hb Hf]. unfold id_slice in *.
  constructor; cbn [evict_oldest w_next_id w_symbols id_slice w_is_contiguous]; [done|..].
  - unfold id_slice, evict_oldest in *. cbn. destruct (w_symbols w) as [|s l]; [done|].
    by apply StronglySorted_inv in Hs as [? _].
  - unfold id_slice, evict_oldest in *. cbn. destruct (w_symbols w) as [|s l]; [done|].
    by apply Forall_cons in Hb as [_ ?].
  - intros Hc. apply check_contiguous_tail. auto.
Qed.

Lemma filter_all {A} (P : A → Prop) `{∀ s, Decision (P s)} (l : list A) : (∀ s, s ∈ l → P s) → filter P l = l.
Proof.
  induction l as [|s l IH]; intros Hl; [done|]. rw filter_cons decide_True; [|apply Hl; by left].
  f_equal. apply IH. intros x Hx. apply Hl. by right.
Qed.

Lemma remove_ids_symbols w ids :
  w_symbols (remove_ids w ids) = filter (λ s, ws_id s ∉ ids) (w_symbols w).
Proof.
  unfold remove_ids. destruct ids as [|id ids]; [|done]. simpl.
  rw filter_all //. set_solver.
Qed.

Lemma remove_ids_ok w ids : window_ok w → window_ok (remove_ids w ids).
Proof.
  intros [Hn Hs Hb Hf].
  assert (w_next_id (remove_ids w ids) = w_next_id w) as Hnext
    by by unfold remove_ids; case_match.
  constructor; rw ?Hnext; [done|..].
  - unfold id_slice. rw remove_ids_symbols. by apply sorted_filter.
  - unfold id_slice in *. rw remove_ids_symbols. rw Forall_fmap Forall_forall in Hb.
    apply Forall_fmap, Forall_forall. intros s [_ H]%list_elem_of_filter. by apply Hb.
  - rw remove_ids_symbols. unfold remove_ids.
    destruct (Nat.eqb_spec (length ids) 0) as [H0|H0].
    { destruct ids; [|done]. rw filter_all; [done|]. set_solver. }
    cbn [w_is_contiguous]. destruct (Nat.ltb_spec 0 (length (w_symbols w)
      - length (filter (λ s, ws_id s ∉ ids) (w_symbols w)))) as [Hr|Hr]; [done|].
    intros Hc. rw filter_all; [by apply Hf|].
    intros s Hi. destruct (decide (ws_id s ∉ ids)) as [|Hin]; [done|exfalso].
    pose proof (length_filter_lt (λ s, ws_id s ∉ ids) (w_symbols w) s Hi Hin). lia.
Qed.

(** ** Lookup *)

(** In a flagged window the symbol at offset [i] has ID front + i. *)
Lemma contiguous_ids s l i t :
  StronglySorted Z.lt (ws_id <$> s :: l) → Forall is_u32 (ws_id <$> s :: l) →
  check_contiguous (s :: l) = true → (s :: l) !! i = Some t →
  ws_id t = ws_id s + Z.of_nat i.
Proof.
  revert s i. induction l as [|s' l IH]; intros s i Hs Hu Hc Hi.
  { destruct i as [|i]; [|done]. injection Hi as ->. lia. }
  destruct i as [|i]; [injection Hi as ->; lia|].
  apply StronglySorted_inv in Hs as [Hs Hlt]. apply Forall_cons in Hu as [Hus Hu].
  change (((ws_id s' =? u32 (ws_id s + 1)) && check_contiguous (s' :: l)) = true) in Hc.
  apply andb_true_iff in Hc as [Hstep Hc].
  rw (IH s' i Hs Hu Hc Hi). apply Forall_cons in Hlt as [Hlt _].
  apply Forall_cons in Hu as [Hu _]. rw u32_small in Hstep; [lia|word_bound].
Qed.

Lemma find_id_spec (l : list WindowSymbol) id d :
  StronglySorted Z.lt (ws_id <$> l) →
  ws_data <$> (list_find (λ s, ws_id s = id) l ≫= λ '(_, s), Some s) = Some d
  ↔ {| ws_id := id; ws_data := d |} ∈ l.
Proof.
  intros Hs. split.
  - destruct (list_find _ l) as [[i s]|] eqn:E; [|done]. apply list_find_Some in E as (Hi & <- & _).
    simpl. intros [= <-]. apply list_elem_of_lookup. exists i. by destruct s.
  - intros Hin. induction l as [|s l IH]; [by apply elem_of_nil in Hin|].
    apply StronglySorted_inv in Hs as [Hs Hlt]. simpl.
    case_decide as Hid.
    + apply elem_of_cons in Hin as [<-|Hin]; [done|]. exfalso.
      rw Forall_fmap Forall_forall in Hlt. specialize (Hlt _ Hin). simpl in Hlt. lia.
    + apply elem_of_cons in Hin as [<-|Hin]; [done|]. rw -IH //.
      by destruct (list_find _ l) as [[? ?]|].
Qed.

Lemma window_get_elem w id d : window_ok w →
  window_get w id = Some d ↔ {| ws_id := id; ws_data := d |} ∈ w_symbols w.
Proof.
  intros [Hn Hs Hb Hf]. unfold window_get. unfold id_slice in *.
  destruct (w_symbols w) as [|s l] eqn:E; [split; [done|by intros ?%elem_of_nil]|].
  assert (Forall is_u32 (ws_id <$> s :: l)) as Hu.
  { eapply Forall_impl; [done|]. unfold is_u32 in *. simpl. lia. }
  destruct (w_is_contiguous w); [|by apply find_id_spec]. specialize (Hf eq_refl). split.
  - destruct (Z.ltb_spec id (ws_id s)) as [|Hle]; [done|].
    intros (t & Ht & ->)%fmap_Some_1. apply (contiguous_ids s l _ t Hs Hu Hf) in Ht as Hid.
    apply list_elem_of_lookup. exists (Z.to_nat (id - ws_id s)).
    replace id with (ws_id t) at 2 by lia. by destruct t.
  - intros [i Hi]%list_elem_of_lookup. pose proof (contiguous_ids s l i _ Hs Hu Hf Hi) as Hid.
    cbn [ws_id] in Hid. rw (proj2 (Z.ltb_ge _ _)); [|lia].
    replace (Z.to_nat (id - ws_id s)) with i by lia. by rw Hi.
Qed.

(** ** Sequences of operations *)
Inductive window_op : Type := OpPush (data : bytes) | OpEvict | OpRemove (ids : list Z).

Definition window_step (w : EncodingWindow) (op : window_op) : EncodingWindow :=
  match op with
  | OpPush data => (push w data).1
  | OpEvict => evict_oldest w
  | OpRemove ids => remove_ids w ids
  end.

Definition is_push (op : window_op) : bool := match op with OpPush _ => true | _ => false end.
Definition pushes (ops : list window_op) : Z := Z.of_nat (length (filter is_push ops)).

Lemma window_steps_ok ops w :
  window_ok w → w_next_id w + pushes ops ≤ 4294967295 →
  window_ok (fold_left window_step ops w) ∧
  w_next_id (fold_left window_step ops w) = w_next_id w + pushes ops.
Proof.
  revert w. induction ops as [|op ops IH]; intros w Hw Hp; simpl.
  { split; [done|]. unfold pushes. simpl. lia. }
  assert (pushes (op :: ops) = pushes ops + (if is_push op then 1 else 0)) as Hpush.
  { unfold pushes. rw filter_cons. by destruct op; simpl; lia. }
  assert (0 ≤ pushes ops) by (unfold pushes; lia). rw Hpush in Hp.
  destruct op; simpl in *.
  - destruct (push_ok w data Hw) as [H1 _]; [lia|].
    assert (w_next_id (push w data).1 = w_next_id w + 1) as Hn.
    { cbn. apply u32_small. destruct Hw. word_bound. }
    destruct (IH _ H1) as [H2 H3]; [rw Hn; lia|]. split; [done|]. rw H3 Hn. lia.
  - destruct (IH _ (evict_ok w Hw)) as [H2 H3]; [cbn; lia|]. split; [done|]. rw H3. cbn. lia.
  - assert (w_next_id (remove_ids w ids) = w_next_id w) as Hn
      by by unfold remove_ids; case_match.
    destruct (IH _ (remove_ids_ok w ids Hw)) as [H2 H3]; [rw Hn; lia|].
    split; [done|]. rw H3 Hn. lia.
Qed.

(** C35: after any sequence of pushes, evictions and removals of a session with
    fewer than 2^32 symbols, the window's IDs are strictly ascending and below
    the next ID, and lookup (offset arithmetic when the window is flagged
    contiguous, a scan otherwise) returns exactly the stored data. *)
Theorem window_lookup_correct ops capacity id d :
  pushes ops ≤ 4294967295 →
  let w := fold_left window_step ops (window_new capacity) in
  StronglySorted Z.lt (id_slice w) ∧ Forall (λ i, 0 ≤ i < w_next_id w) (id_slice w) ∧
  (window_get w id = Some d ↔ {| ws_id := id; ws_data := d |} ∈ w_symbols w).
Proof.
  intros Hp w. destruct (window_steps_ok ops (window_new capacity)) as [Hw _];
    [apply window_new_ok|simpl; lia|].
  split; [apply Hw|split; [apply Hw|by apply window_get_elem]].
Qed.

Lemma window_lookup_correct_witness :
  let ops := [OpPush [1]; OpPush [2]; OpPush [3]; OpRemove [1]; OpPush [4]; OpEvict] in
  window_get (fold_left window_step ops (window_new 8)) 3 = Some [4] ∧
  StronglySorted Z.lt (id_slice (fold_left window_step ops (window_new 8))).
Proof.
  split; [reflexivity|].
  apply (window_lookup_correct [OpPush [1]; OpPush [2]; OpPush [3]; OpRemove [1]; OpPush [4];
    OpEvict] 8 3 [4]). vm_compute. discriminate.
Defined.

(** Across the wrap of the ID counter a contiguous window loses sight of the
    symbols behind the wrap. *)
Lemma window_wrap_loses_symbols :
  let w0 := {| w_symbols := []; w_capacity := 8; w_next_id := 4294967295;
               w_is_contiguous := true |} in
  let w := (push (push w0 [1]).1 [2]).1 in
  id_slice w = [4294967295; 0] ∧ w_is_contiguous w = true ∧ window_get w 0 = None.
Proof. by vm_compute. Qed.
