(* ===== verification/LinComb.v ===== *)
(** * Linear combinations of symbols

    The specification side of coding: a coded payload is a sum of source
    symbols scaled by field elements.  Encoder and decoder are both stated
    against [lincomb] and [rowsum]. *)

From S2P Require Import Prelude Error Config Tables Gf CoefGen IdStorage EncVec.

Definition vscale (f : Field) (c : Z) (v : bytes) : bytes := smul f c <$> v.
Definition vzero (sz : nat) : bytes := replicate sz 0.

(** A symbol of [sz] bytes. *)
Definition symbol (sz : nat) (v : bytes) : Prop := length v = sz ∧ bytes_ok v.

(** [Σ coef * src id] over a list of terms. *)
Definition lincomb (f : Field) (sz : nat) (src : Z → bytes) (terms : list (Z * Z)) : bytes :=
  foldr (λ '(id, c) acc, vxor (vscale f c (src id)) acc) (vzero sz) terms.

(** [Σ (g id) * src id] over a list of IDs. *)
Definition rowsum (f : Field) (sz : nat) (src : Z → bytes) (g : Z → Z) (ids : list Z) : bytes :=
  lincomb f sz src ((λ id, (id, g id)) <$> ids).

(** ** Symbols under exclusive or *)
Lemma vzero_symbol sz : symbol sz (vzero sz).
Proof. split; [apply length_replicate|]. apply Forall_replicate. word_bound. Qed.
Lemma vxor_symbol sz a b : symbol sz a → symbol sz b → symbol sz (vxor a b).
Proof. intros [Ha ?] [Hb ?]. split; [rw vxor_length; congruence|by apply vxor_ok]. Qed.
Lemma vscale_symbol f sz c v : coef_ok f c → symbol sz v → symbol sz (vscale f c v).
Proof.
  intros Hc [Hl Hv]. split; [by rw length_fmap|]. apply Forall_fmap.
  eapply Forall_impl; [exact Hv|]. intros b Hb. by apply smul_u8.
Qed.

Create HintDb symbol.
#[export] Hint Resolve vzero_symbol vxor_symbol vscale_symbol : symbol.

Lemma coef_0 f : coef_ok f 0.
Proof. apply elem_0. apply _. Qed.
Lemma coef_1 f : coef_ok f 1.
Proof. apply elem_1. apply _. Qed.
Lemma coef_lxor f a b : coef_ok f a → coef_ok f b → coef_ok f (Z.lxor a b).
Proof. apply elem_lxor. apply _. Qed.
Lemma coef_mul f a b : coef_ok f a → coef_ok f b → coef_ok f (@gf_mul (gf_field f) a b).
Proof. apply gf_mul_elem. apply _. Qed.
#[export] Hint Resolve coef_0 coef_1 coef_lxor coef_mul : symbol.

Lemma vxor_comm a b : vxor a b = vxor b a.
Proof.
  unfold vxor. revert b. induction a as [|x a IH]; intros [|y b]; simpl; try done.
  by rw Z.lxor_comm IH.
Qed.
Lemma vxor_assoc a b c : vxor (vxor a b) c = vxor a (vxor b c).
Proof.
  unfold vxor. revert b c. induction a as [|x a IH]; intros [|y b] [|z c]; simpl; try done.
  by rw Z.lxor_assoc IH.
Qed.
Lemma vxor_swap a b c d : vxor (vxor a b) (vxor c d) = vxor (vxor a c) (vxor b d).
Proof. rw !vxor_assoc. f_equal. rw -!vxor_assoc. f_equal. apply vxor_comm. Qed.
Lemma vxor_0_r sz a : length a = sz → vxor a (vzero sz) = a.
Proof.
  intros <-. unfold vxor, vzero. induction a as [|x a IH]; simpl; [done|].
  by rw Z.lxor_0_r IH.
Qed.
Lemma vxor_0_l sz a : length a = sz → vxor (vzero sz) a = a.
Proof. intros. rw vxor_comm. by apply vxor_0_r. Qed.
Lemma vxor_nilp sz a : length a = sz → vxor a a = vzero sz.
Proof.
  intros <-. unfold vxor, vzero. induction a as [|x a IH]; simpl; [done|].
  by rw Z.lxor_nilpotent IH.
Qed.
Lemma vxor_cancel sz a b : length a = sz → length b = sz → vxor a (vxor a b) = b.
Proof. intros Ha Hb. rw -vxor_assoc (vxor_nilp sz) // vxor_0_l //. Qed.

(** ** Scaling *)
Lemma fmap_bytes_ext v (g h : Z → Z) :
  bytes_ok v → (∀ b, is_u8 b → g b = h b) → g <$> v = h <$> v.
Proof. intros Hv H. induction Hv; [done|]. cbn. rw H //. by f_equal. Qed.

Lemma vscale_xor f c a b : coef_ok f c → bytes_ok a → bytes_ok b →
  vscale f c (vxor a b) = vxor (vscale f c a) (vscale f c b).
Proof.
  intros Hc Ha. unfold vscale, vxor. revert b. induction Ha as [|x a Hx Ha IH]; intros [|y b] Hb;
    simpl; try done. apply Forall_cons in Hb as [Hy Hb].
  f_equal; [by apply smul_lxor_r|by apply IH].
Qed.
Lemma vscale_lxor f c d v : coef_ok f c → coef_ok f d → bytes_ok v →
  vscale f (Z.lxor c d) v = vxor (vscale f c v) (vscale f d v).
Proof.
  intros Hc Hd Hv. unfold vscale, vxor. induction Hv as [|x v Hx Hv IH]; simpl; [done|].
  f_equal; [by apply smul_lxor_l|done].
Qed.
Lemma vscale_vscale f c d v : coef_ok f c → coef_ok f d → bytes_ok v →
  vscale f c (vscale f d v) = vscale f (@gf_mul (gf_field f) c d) v.
Proof.
  intros Hc Hd Hv. unfold vscale. rw -list_fmap_compose. apply fmap_bytes_ext; [done..|].
  intros b Hb. by apply smul_smul.
Qed.
Lemma vscale_0 f sz v : symbol sz v → vscale f 0 v = vzero sz.
Proof.
  intros [<- Hv]. unfold vscale, vzero. induction Hv as [|x v Hx Hv IH]; simpl; [done|].
  f_equal; [by apply smul_0_l|done].
Qed.
Lemma vscale_vzero f sz c : coef_ok f c → vscale f c (vzero sz) = vzero sz.
Proof. intros. unfold vscale, vzero. by rw fmap_replicate smul_0_r. Qed.
Lemma vscale_1 f v : bytes_ok v → vscale f 1 v = v.
Proof.
  intros Hv. unfold vscale. rw -{2}(list_fmap_id v). apply fmap_bytes_ext; [done..|].
  intros. by apply smul_1.
Qed.

(** ** Sums *)
Section sums.
Context (f : Field) (sz : nat) (src : Z → bytes).
Hypothesis Hsrc : ∀ id, symbol sz (src id).

Definition terms_ok (terms : list (Z * Z)) : Prop := Forall (λ t, coef_ok f t.2) terms.

Lemma lincomb_symbol terms : terms_ok terms → symbol sz (lincomb f sz src terms).
Proof. induction 1 as [|[id c] terms Hc _ IH]; simpl; auto with symbol. Qed.

Lemma rowsum_terms g ids : (∀ id, coef_ok f (g id)) →
  terms_ok ((λ id, (id, g id)) <$> ids).
Proof. intros H. apply Forall_fmap, Forall_true. intros. apply H. Qed.

Lemma rowsum_symbol g ids : (∀ id, coef_ok f (g id)) → symbol sz (rowsum f sz src g ids).
Proof. intros. apply lincomb_symbol. by apply rowsum_terms. Qed.

Lemma rowsum_ext g h ids : (∀ id, id ∈ ids → g id = h id) →
  rowsum f sz src g ids = rowsum f sz src h ids.
Proof.
  intros H. unfold rowsum. f_equal. apply list_fmap_ext. intros i id Hi.
  rw H //. apply list_elem_of_lookup. by exists i.
Qed.

Lemma rowsum_zero g ids : (∀ id, id ∈ ids → g id = 0) → rowsum f sz src g ids = vzero sz.
Proof.
  induction ids as [|id ids IH]; intros H; [done|].
  change (rowsum f sz src g (id :: ids))
    with (vxor (vscale f (g id) (src id)) (rowsum f sz src g ids)).
  rw H; [|by left]. rw IH; [|intros; apply H; by right].
  rw (vscale_0 f sz) // vxor_0_r //. apply length_replicate.
Qed.

Lemma rowsum_lxor g h ids : (∀ id, coef_ok f (g id)) → (∀ id, coef_ok f (h id)) →
  rowsum f sz src (λ id, Z.lxor (g id) (h id)) ids
  = vxor (rowsum f sz src g ids) (rowsum f sz src h ids).
Proof.
  intros Hg Hh. induction ids as [|id ids IH].
  - symmetry. by apply (vxor_nilp sz), length_replicate.
  - change (rowsum f sz src ?k (id :: ids))
      with (vxor (vscale f (k id) (src id)) (rowsum f sz src k ids)).
    rw IH vscale_lxor; [|done|done|apply Hsrc]. apply vxor_swap.
Qed.

Lemma rowsum_scale c g ids : coef_ok f c → (∀ id, coef_ok f (g id)) →
  rowsum f sz src (λ id, @gf_mul (gf_field f) c (g id)) ids
  = vscale f c (rowsum f sz src g ids).
Proof.
  intros Hc Hg. induction ids as [|id ids IH].
  - symmetry. by apply vscale_vzero.
  - change (rowsum f sz src ?k (id :: ids))
      with (vxor (vscale f (k id) (src id)) (rowsum f sz src k ids)).
    rw IH vscale_xor //; [|apply vscale_symbol with sz; auto|by apply rowsum_symbol].
    rw vscale_vscale //. apply Hsrc.
Qed.

Lemma rowsum_single a c ids : coef_ok f c → NoDup ids → a ∈ ids →
  rowsum f sz src (λ id, if decide (id = a) then c else 0) ids = vscale f c (src a).
Proof.
  intros Hc Hnd Ha. induction Hnd as [|id ids Hid Hnd IH]; [by apply elem_of_nil in Ha|].
  change (rowsum f sz src ?k (id :: ids))
    with (vxor (vscale f (k id) (src id)) (rowsum f sz src k ids)). cbn beta.
  case_decide as Heq.
  - subst a. rw rowsum_zero; [|intros x Hx; by rw decide_False; [|intros ->]].
    rw vxor_0_r //. by apply (vscale_symbol f sz).
  - apply elem_of_cons in Ha as [->|Ha]; [done|]. rw IH // (vscale_0 f sz) //.
    rw vxor_0_l //. by apply (vscale_symbol f sz).
Qed.

(** A sum with its only nonzero coefficient at [a]. *)
Lemma rowsum_singleton g a ids : (∀ id, coef_ok f (g id)) → NoDup ids → a ∈ ids →
  (∀ id, id ≠ a → g id = 0) → rowsum f sz src g ids = vscale f (g a) (src a).
Proof.
  intros Hg Hnd Ha Hz. rw -(rowsum_single a (g a) ids) //. apply rowsum_ext.
  intros id _. case_decide; [by subst|by apply Hz].
Qed.

(** Removing the term of [a]. *)
Lemma rowsum_remove g a ids : (∀ id, coef_ok f (g id)) → NoDup ids → a ∈ ids →
  rowsum f sz src (λ id, if decide (id = a) then 0 else g id) ids
  = vxor (rowsum f sz src g ids) (vscale f (g a) (src a)).
Proof.
  intros Hg Hnd Ha. rw -(rowsum_single a (g a) ids) //.
  rw -rowsum_lxor; [|done|intros id; case_decide; auto with symbol].
  apply rowsum_ext. intros id _. case_decide; [subst; by rw Z.lxor_nilpotent|].
  by rw Z.lxor_0_r.
Qed.

(** The terms of a packet, as a coefficient function over a larger set. *)
Fixpoint coef_at (terms : list (Z * Z)) (id : Z) : Z :=
  match terms with
  | [] => 0
  | (a, c) :: terms => if decide (id = a) then c else coef_at terms id
  end.

Lemma coef_at_ok terms id : terms_ok terms → coef_ok f (coef_at terms id).
Proof. induction 1 as [|[a c] terms Hc _ IH]; simpl; [auto with symbol|by case_decide]. Qed.

Lemma coef_at_notin terms id : id ∉ terms.*1 → coef_at terms id = 0.
Proof.
  induction terms as [|[a c] terms IH]; simpl; [done|]. rw not_elem_of_cons.
  intros [Hne ?]. rw decide_False //. by apply IH.
Qed.

Lemma lincomb_rowsum terms ids :
  terms_ok terms → NoDup (terms.*1) → NoDup ids → terms.*1 ⊆ ids →
  lincomb f sz src terms = rowsum f sz src (coef_at terms) ids.
Proof.
  intros Ht Hnd Hids Hsub. induction Ht as [|[a c] terms Hc Ht IH].
  { symmetry. by apply rowsum_zero. }
  cbn in Hnd, Hsub. apply NoDup_cons in Hnd as [Ha Hnd].
  change (lincomb f sz src ((a, c) :: terms))
    with (vxor (vscale f c (src a)) (lincomb f sz src terms)).
  rw IH //; [|set_solver]. rw -(rowsum_single a c ids) //; [|set_solver].
  rw -rowsum_lxor; [|intros id; case_decide; auto with symbol|intros; by apply coef_at_ok].
  apply rowsum_ext. intros id _. cbn [coef_at].
  case_decide as Heq; [|by rw Z.lxor_0_l]. subst id. by rw coef_at_notin // Z.lxor_0_r.
Qed.
End sums.

(** ** What a coded packet stands for *)

(** The terms of an encoding vector: explicit coefficients, or the Vandermonde
    ones of its coded ID. *)
Definition ev_terms (ev : EncodingVector) : list (Z * Z) :=
  if has_explicit_coefs ev then zip (ev_source_ids ev) (ev_coefficients ev)
  else (λ id, (id, vandermonde_coef (ev_field ev) id (ev_coded_id ev))) <$> ev_source_ids ev.

(** The payload is the combination its encoding vector announces. *)
Definition honest_coded (f : Field) (sz : nat) (src : Z → bytes) (ev : EncodingVector)
    (payload : bytes) : Prop :=
  ev_field ev = f ∧ payload = lincomb f sz src (ev_terms ev).

Lemma zip_fmap_id {A B} (g : A → B) (l : list A) : zip l (g <$> l) = (λ x, (x, g x)) <$> l.
Proof. induction l as [|x l IH]; [done|]. cbn. f_equal. done. Qed.

(** A packet with the Cauchy coefficients of its coded ID and generation. *)
Record cauchy_packet (f : Field) (ev : EncodingVector) : Prop := {
  cp_coefs : cauchy_batch f (ev_source_ids ev) (ev_coded_id ev) (ev_generation ev)
             = Ok (ev_coefficients ev);
  cp_ids : Forall is_u32 (ev_source_ids ev);
  cp_coded : 0 ≤ ev_coded_id ev < cauchy_cycle f;
  cp_generation : is_u8 (ev_generation ev);
}.

(** A packet whose coefficients the receiver derives from its coded ID. *)
Record vandermonde_packet (f : Field) (ev : EncodingVector) : Prop := {
  vp_implicit : has_explicit_coefs ev = false;
  vp_coded : 1 ≤ ev_coded_id ev < ORDER (GfField := gf_field f) - 1;
}.
