(* ===== verification/Encoder.v ===== *)
(** * codec/encoder/mod.rs: the encoder state machine

    A method taking [&mut self] returns the new state; the only errors leave
    the state unchanged. *)

From S2P Require Import Prelude Error Config Tables Gf Simd CoefGen IdStorage EncVec Common Packets F64 Feedback Policy Window LinComb.
From stdpp Require Import sorting.
#[global] Open Scope Z_scope.

Inductive EncoderOutput : Type := OutSource (pkt : bytes) | OutCoded (pkt : bytes).

Definition raw_of (pkt : EncoderOutput) : bytes :=
  match pkt with OutSource b => b | OutCoded b => b end.

Section encoder.
(** [dispatch()] detects the CPU; the policies are the type parameters. *)
Context (disp : Dispatch) {W C F : Type}.
Context `{WindowPolicy W} `{CongestionControl C} `{FecRateController F}.

Record Encoder := {
  en_config : EncoderConfig;
  en_window : EncodingWindow;
  en_next_coded_id : Z;
  en_coded_ids_used : Z;
  en_generation : Z;
  en_ack_state : ReceiverAckState;
  en_window_policy : W;
  en_cc : C;
  en_fec : F;
  en_scratch : bytes;
}.

Definition encoder_new (config : EncoderConfig) (window_policy : W) (cc : C) (fec : F)
  : Encoder :=
  {| en_config := config;
     en_window := window_new (ec_window_capacity config);
     en_next_coded_id := match ec_matrix_strategy config with Cauchy => 0 | Vandermonde => 1 end;
     en_coded_ids_used := 0;
     en_generation := 0;
     en_ack_state := ack_default;
     en_window_policy := window_policy;
     en_cc := cc;
     en_fec := fec;
     en_scratch := replicate (Z.to_nat (ec_symbol_size config)) 0 |}.

(** Assignments to one or several fields of [self]. *)
Definition set_window (e : Encoder) (w : EncodingWindow) : Encoder :=
  {| en_config := en_config e; en_window := w; en_next_coded_id := en_next_coded_id e;
     en_coded_ids_used := en_coded_ids_used e; en_generation := en_generation e;
     en_ack_state := en_ack_state e; en_window_policy := en_window_policy e; en_cc := en_cc e;
     en_fec := en_fec e; en_scratch := en_scratch e |}.
Definition set_cc (e : Encoder) (cc : C) : Encoder :=
  {| en_config := en_config e; en_window := en_window e;
     en_next_coded_id := en_next_coded_id e; en_coded_ids_used := en_coded_ids_used e;
     en_generation := en_generation e; en_ack_state := en_ack_state e;
     en_window_policy := en_window_policy e; en_cc := cc; en_fec := en_fec e;
     en_scratch := en_scratch e |}.
Definition set_fec (e : Encoder) (fec : F) : Encoder :=
  {| en_config := en_config e; en_window := en_window e;
     en_next_coded_id := en_next_coded_id e; en_coded_ids_used := en_coded_ids_used e;
     en_generation := en_generation e; en_ack_state := en_ack_state e;
     en_window_policy := en_window_policy e; en_cc := en_cc e; en_fec := fec;
     en_scratch := en_scratch e |}.
Definition set_acks (e : Encoder) (acks : ReceiverAckState) (wp : W) : Encoder :=
  {| en_config := en_config e; en_window := en_window e;
     en_next_coded_id := en_next_coded_id e; en_coded_ids_used := en_coded_ids_used e;
     en_generation := en_generation e; en_ack_state := acks;
     en_window_policy := wp; en_cc := en_cc e; en_fec := en_fec e;
     en_scratch := en_scratch e |}.
Definition set_coded (e : Encoder) (next used generation : Z) : Encoder :=
  {| en_config := en_config e; en_window := en_window e; en_next_coded_id := next;
     en_coded_ids_used := used; en_generation := generation;
     en_ack_state := en_ack_state e; en_window_policy := en_window_policy e; en_cc := en_cc e;
     en_fec := en_fec e; en_scratch := en_scratch e |}.
Definition set_scratch (e : Encoder) (scratch : bytes) : Encoder :=
  {| en_config := en_config e; en_window := en_window e;
     en_next_coded_id := en_next_coded_id e; en_coded_ids_used := en_coded_ids_used e;
     en_generation := en_generation e; en_ack_state := en_ack_state e;
     en_window_policy := en_window_policy e; en_cc := en_cc e; en_fec := en_fec e;
     en_scratch := scratch |}.

Definition coded_id_cycle (config : EncoderConfig) : Z :=
  match ec_matrix_strategy config, ec_field config with
  | Cauchy, Gf2_8 => 128
  | Cauchy, Gf2_4 => 7
  | Vandermonde, Gf2_8 => 254
  | Vandermonde, Gf2_4 => 14
  end.
Definition coded_id_limit : EncoderConfig → Z := coded_id_cycle.
Definition coded_id_exhausted (e : Encoder) : bool := false.

Definition make_encoder_state (window : EncodingWindow) (capacity : Z) : EncoderState :=
  {| es_window_size := window_len window; es_window_capacity := capacity;
     es_next_source_id := w_next_id window; es_next_coded_id := 0;
     es_loss_rate := f_of_Z 0; es_window_ids := [] |}.

(** The accessors, and the snapshot made from [self]. *)
Definition coded_ids_used (e : Encoder) : Z := en_coded_ids_used e.
Definition generation (e : Encoder) : Z := en_generation e.
Definition window_size (e : Encoder) : nat := window_len (en_window e).
Definition window_capacity (e : Encoder) : Z := ec_window_capacity (en_config e).
Definition next_source_id (e : Encoder) : Z := w_next_id (en_window e).
Definition config (e : Encoder) : EncoderConfig := en_config e.
Definition make_state (e : Encoder) : EncoderState := make_encoder_state (en_window e) (window_capacity e).

(** [self.window.get(id).expect(..)] *)
Definition window_expect (w : EncodingWindow) (id : Z) : result bytes :=
  match window_get w id with Some data => Ok data | None => Panic end.

(** One term of the payload: the body of the two [for] loops. *)
Definition payload_term (field : Field) (w : EncodingWindow) (scratch : bytes)
    (term : Z * Z) : result bytes :=
  let '(id, coef) := term in
  match field with
  | Gf2_8 =>
      if coef =? 0 then Ok scratch
      else data ← window_expect w id;
           mul_acc_raw scratch data (gf2_8_tbl coef) disp
  | Gf2_4 =>
      let c := Z.land coef 15 in
      if c =? 0 then Ok scratch
      else data ← window_expect w id;
           let packed := Z.lor (u8 (Z.shiftl c 4)) c in
           mul_acc_raw scratch data (gf2_4_tbl packed) disp
  end.

Definition compute_coded_payload_targeted (e : Encoder) (cover : list Z) (coefs : bytes)
  : result (Encoder * bytes) :=
  let scratch := replicate (length (en_scratch e)) 0 in
  scratch ← mfor (payload_term (ec_field (en_config e)) (en_window e)) scratch (zip cover coefs);
  Ok (set_scratch e scratch, scratch).

Definition compute_coded_payload := compute_coded_payload_targeted.

(** The coded-ID counter and the generation after one more packet. *)
Definition advance_coded (e : Encoder) : Encoder :=
  let next := u32 (en_next_coded_id e + 1) in
  let used := u64 (en_coded_ids_used e + 1) in
  match ec_matrix_strategy (en_config e) with
  | Vandermonde =>
      let order_minus_1 := match ec_field (en_config e) with Gf2_8 => 255 | Gf2_4 => 15 end in
      set_coded e (if order_minus_1 <=? next then 1 else next) used (en_generation e)
  | Cauchy =>
      if coded_id_cycle (en_config e) <=? next
      then set_coded e 0 used (u8 (en_generation e + 1))
      else set_coded e next used (en_generation e)
  end.

Definition coefs_and_ev (config : EncoderConfig) (cover : list Z) (coded_id generation : Z)
  : result (bytes * EncodingVector) :=
  let field := ec_field config in
  match ec_matrix_strategy config with
  | Vandermonde =>
      let c := vandermonde_batch field cover coded_id in
      Ok (c, ev_vandermonde field coded_id cover)
  | Cauchy =>
      c ← match field with
          | Gf2_8 => cauchy_batch_gf2_8 cover coded_id generation
          | Gf2_4 => cauchy_batch_gf2_4 cover coded_id generation
          end;
      ev ← ev_explicit field coded_id cover c;
      Ok (c, with_generation ev generation)
  end.

Definition generate_coded_inner (e : Encoder) (cover : list Z)
  : result (Encoder * option EncoderOutput) :=
  let coded_id := en_next_coded_id e in
  let generation := en_generation e in
  let e := advance_coded e in
  '(coefs, ev) ← coefs_and_ev (en_config e) cover coded_id generation;
  '(e, payload) ← compute_coded_payload_targeted e cover coefs;
  let cci := generate_cci (en_cc e) in
  pkt ← Coded.serialise coded_id ev payload cci None;
  let e := set_cc e (on_send (en_cc e) (length pkt)) in
  Ok (e, Some (OutCoded pkt)).

Definition generate_coded (e : Encoder) : result (Encoder * option EncoderOutput) :=
  if window_is_empty (en_window e) then Ok (e, None)
  else generate_coded_inner e (id_slice (en_window e)).

Definition generate_coded_targeted (e : Encoder) (cover_ids : list Z)
  : result (Encoder * option EncoderOutput) :=
  if window_is_empty (en_window e) then Ok (e, None)
  else
    let in_window := id_slice (en_window e) in
    let cover := filter (λ id, id ∈ in_window) cover_ids in
    if (length cover =? 0)%nat then Ok (e, None) else generate_coded_inner e cover.

Definition generate_coded_recent (e : Encoder) (n : nat)
  : result (Encoder * option EncoderOutput) :=
  if window_is_empty (en_window e) || (n =? 0)%nat then Ok (e, None)
  else
    let syms := w_symbols (en_window e) in
    let take := Nat.min n (length syms) in
    let cover := ws_id <$> drop (length syms - take) syms in
    generate_coded_inner e cover.

Definition generate_coded_for_receiver (e : Encoder) (receiver_id : Z)
  : result (Encoder * option EncoderOutput) :=
  if window_is_empty (en_window e) then Ok (e, None)
  else
    let cover := filter (λ id, ack_is_acked (en_ack_state e) receiver_id id = false)
                   (id_slice (en_window e)) in
    if (length cover =? 0)%nat then Ok (e, None) else generate_coded_inner e cover.

(** [for _ in 0..n_coded]; the loop breaks when nothing is left to code. *)
Fixpoint coded_loop (n : nat) (e : Encoder) (out : list EncoderOutput)
  : result (Encoder * list EncoderOutput) :=
  match n with
  | O => Ok (e, out)
  | S n =>
      '(e, coded) ← generate_coded e;
      match coded with
      | Some coded => coded_loop n e (out ++ [coded])
      | None => Ok (e, out)
      end
  end.

Definition submit_source (e : Encoder) (data : bytes) : result (Encoder * list EncoderOutput) :=
  let config := en_config e in
  if negb (Z.of_nat (length data) =? ec_symbol_size config)
  then Err (SymbolSizeMismatch (ec_symbol_size config) (Z.of_nat (length data))) else
  e ← (if window_is_full (en_window e) then
         match ec_backpressure config with
         | Reject => Err (WindowFull (ec_window_capacity config))
         | EvictOldest => Ok (set_window e (evict_oldest (en_window e)))
         end
       else Ok e);
  let '(window, source_id) := push (en_window e) data in
  let e := set_window e window in
  let cci := generate_cci (en_cc e) in
  src_pkt ← Source.serialise source_id data cci None;
  let e := set_cc e (on_send (en_cc e) (length src_pkt)) in
  let state := make_encoder_state (en_window e) (ec_window_capacity config) in
  '(fec, n_coded) ← coded_packets_to_generate (en_fec e) state;
  let e := set_fec e fec in
  coded_loop n_coded e [OutSource src_pkt].

Definition handle_feedback (e : Encoder) (receiver_id : Z) (pkt : FeedbackPacket)
  : result Encoder :=
  let ack_state := ack_update (en_ack_state e) receiver_id pkt in
  let ids := id_slice (en_window e) in
  '(wp, to_rm) ← symbols_to_remove (en_window_policy e) ack_state ids;
  let e := set_acks e ack_state wp in
  let e := if (length to_rm =? 0)%nat then e
           else set_window e (remove_ids (en_window e) to_rm) in
  let loss := decode_plr (fb_plr_raw pkt) in
  let state := make_encoder_state (en_window e) (ec_window_capacity (en_config e)) in
  let e := set_fec e (fec_on_feedback (en_fec e) state loss (fb_nb_missing_src pkt)
                        (fb_nb_not_used_coded pkt)) in
  let state := make_encoder_state (en_window e) (ec_window_capacity (en_config e)) in
  Ok (set_cc e (cc_on_feedback (en_cc e) state loss (fb_nb_missing_src pkt)
                  (fb_nb_not_used_coded pkt))).
End encoder.
Arguments Encoder : clear implicits.

(** [DefaultEncoder::with_defaults] *)
Definition encoder_with_defaults (config : EncoderConfig)
  : result (Encoder AnyAckPolicy NoCongestionControl ConstantFecRate) :=
  fec ← ConstantFecRate_new (ec_fec_numer config) (ec_fec_denom config);
  Ok (encoder_new config AnyAck NoCc fec).

(** ** What the encoder asks of its policies *)
Class CongestionLaws (C : Type) `{CongestionControl C} : Prop :=
  cci_len : ∀ cc : C, cci_assert (generate_cci cc) = true.

Class FecLaws (F : Type) `{FecRateController F} := {
  fec_ok : F → Prop;
  fec_step_ok s st : fec_ok s →
    ∃ s' n, coded_packets_to_generate s st = Ok (s', n) ∧ fec_ok s';
  fec_feedback_ok s st loss a b : fec_ok s → fec_ok (fec_on_feedback s st loss a b);
}.

Class WindowPolicyLaws (W : Type) `{WindowPolicy W} : Prop :=
  policy_total : ∀ (w : W) st ids, ∃ w' l, symbols_to_remove w st ids = Ok (w', l).

#[export] Instance no_congestion_laws : CongestionLaws NoCongestionControl.
Proof. done. Qed.
#[export] Program Instance constant_fec_laws : FecLaws ConstantFecRate := {|
  fec_ok r := cf_denom r ≠ 0;
|}.
Next Obligation.
  intros s st Hs. cbn. unfold constant_step. rw (proj2 (Z.eqb_neq _ 0) Hs). by eexists _, _.
Qed.
Next Obligation. done. Qed.
#[export] Instance any_ack_laws : WindowPolicyLaws AnyAckPolicy.
Proof. intros w st ids. by eexists _, _. Qed.
#[export] Instance all_ack_laws : WindowPolicyLaws AllAckPolicy.
Proof. intros w st ids. unfold symbols_to_remove, all_ack_policy. case_match; by eexists _, _. Qed.
#[export] Instance quorum_ack_laws : WindowPolicyLaws QuorumAckPolicy.
Proof. intros w st ids. by eexists _, _. Qed.

Lemma sorted_NoDup (l : list Z) : StronglySorted Z.lt l → NoDup l.
Proof.
  induction 1 as [|x l Hs IH Hx]; constructor; [|done]. intros Hin.
  rw Forall_forall in Hx. specialize (Hx x Hin). lia.
Qed.

(** ** IDs of a window fit the wire *)

(** No ID lags 2^16 behind the next one: gaps fit the 16-bit deltas. *)
Definition narrow (next : Z) (ids : list Z) : Prop := Forall (λ id, next - id ≤ 65536) ids.

Lemma narrow_close next first ids :
  StronglySorted Z.lt (first :: ids) → Forall (λ id, 0 ≤ id < next) (first :: ids) →
  narrow next (first :: ids) → next ≤ 4294967296 → close_ids first ids.
Proof.
  revert first. induction ids as [|id ids IH]; intros first Hs Hb Hn Hnext; [done|].
  apply StronglySorted_inv in Hs as [Hs Hlt]. apply Forall_cons in Hlt as [Hlt _].
  apply Forall_cons in Hb as [Hf Hb]. apply Forall_cons in Hn as [Hnf Hn]. split; [|by apply IH].
  apply Forall_cons in Hb as [Hid _]. apply Forall_cons in Hn as [Hnid _].
  rw u32_small; [lia|word_bound].
Qed.

Lemma narrow_storable next ids :
  ids ≠ [] → StronglySorted Z.lt ids → Forall (λ id, 0 ≤ id < next) ids →
  narrow next ids → next ≤ 4294967296 → storable (best_for ids) ids.
Proof.
  destruct ids as [|first ids]; [done|]. intros _ Hs Hb Hn Hnext. unfold best_for.
  destruct (is_contiguous (first :: ids)) eqn:E; [done|]. by eapply narrow_close.
Qed.

Arguments encoder_new {W C F} config window_policy cc fec.
Arguments en_config {W C F} e.
Arguments en_window {W C F} e.
Arguments en_next_coded_id {W C F} e.
Arguments en_generation {W C F} e.
Arguments en_scratch {W C F} e.
Arguments en_cc {W C F} e.
Arguments en_fec {W C F} e.
Arguments en_ack_state {W C F} e.
Arguments en_window_policy {W C F} e.

(** ** Invariant *)

(** The coded-ID counter stays in its cycle. *)
Definition coded_id_ok (config : EncoderConfig) (id : Z) : Prop :=
  match ec_matrix_strategy config, ec_field config with
  | Cauchy, f => 0 ≤ id < cauchy_cycle f
  | Vandermonde, Gf2_8 => 1 ≤ id < 255
  | Vandermonde, Gf2_4 => 1 ≤ id < 15
  end.

Section invariant.
Context (disp : Dispatch) {W C F : Type}.
Context `{WindowPolicyLaws W} `{CongestionLaws C} `{!FecRateController F} `{!FecLaws F}.
(** The symbols the session sends, by ID. *)
Context (src : Z → bytes).
Implicit Types e : Encoder W C F.

Definition sym_size (config : EncoderConfig) : nat := Z.to_nat (ec_symbol_size config).

Record encoder_ok (e : Encoder W C F) : Prop := {
  eok_config : encoder_config_ok (en_config e);
  eok_window : window_ok (en_window e);
  eok_capacity : Z.of_nat (window_len (en_window e)) ≤ ec_window_capacity (en_config e);
  eok_winconf : w_capacity (en_window e) = ec_window_capacity (en_config e);
  eok_data : ∀ s, s ∈ w_symbols (en_window e) → ws_data s = src (ws_id s);
  eok_coded : coded_id_ok (en_config e) (en_next_coded_id e);
  eok_gen : is_u8 (en_generation e);
  eok_scratch : length (en_scratch e) = sym_size (en_config e);
  eok_fec : fec_ok (en_fec e);
}.

Lemma encoder_new_ok config wp cc fec :
  encoder_config_ok config → fec_ok fec → encoder_ok (encoder_new config wp cc fec).
Proof.
  intros Hc Hf. constructor; cbn; [done|apply window_new_ok| |done| | |word_bound| |done].
  - destruct Hc as (_ & ? & _). lia.
  - by intros s ?%elem_of_nil.
  - unfold coded_id_ok. cbn. destruct (ec_matrix_strategy config), (ec_field config); simpl; lia.
  - apply length_replicate.
Qed.

Lemma advance_coded_ok e : encoder_ok e →
  encoder_ok (advance_coded e) ∧ en_window (advance_coded e) = en_window e ∧
  en_config (advance_coded e) = en_config e ∧ en_cc (advance_coded e) = en_cc e.
Proof.
  intros [? ? ? ? ? Hid Hg ? ?]. unfold advance_coded, coded_id_cycle.
  unfold coded_id_ok in Hid.
  destruct (ec_matrix_strategy (en_config e)) eqn:Es, (ec_field (en_config e)) eqn:Ef;
    simpl in Hid; (rw u32_small; [|word_bound]);
    (split_and!; [|by try case_match..]); try case_match; constructor; cbn; try done;
    try apply u8_is; unfold coded_id_ok; rw Es Ef; simpl; lia.
Qed.

(** ** Payload *)
Lemma payload_term_ok e sz scratch id coef :
  let f := ec_field (en_config e) in
  window_ok (en_window e) → (∀ s, s ∈ w_symbols (en_window e) → ws_data s = src (ws_id s)) →
  (∀ id, symbol sz (src id)) → symbol sz scratch →
  id ∈ id_slice (en_window e) → coef_ok f coef →
  payload_term disp f (en_window e) scratch (id, coef)
  = Ok (vxor scratch (vscale f coef (src id))).
Proof.
  intros f Hw Hd Hsrc Hs Hid Hc. destruct (Hsrc id) as [Hl Hb].
  assert (window_expect (en_window e) id = Ok (src id)) as Hget.
  { apply list_elem_of_fmap in Hid as (s & -> & Hs'). unfold window_expect.
    rw (proj2 (window_get_elem (en_window e) (ws_id s) (src (ws_id s)) Hw)) //.
    rw -Hd //. by destruct s. }
  assert (length scratch = length (src id)) as Hlen by (destruct Hs; congruence).
  assert (coef = 0 → scratch = vxor scratch (vscale f coef (src id))) as Hzero.
  { intros ->. rw (vscale_0 f sz) // vxor_0_r //. by destruct Hs. }
  unfold payload_term. destruct f eqn:Ef.
  - destruct (Z.eqb_spec coef 0) as [Hz|Hz]; [by rw -Hzero|]. rw Hget bind_Ok.
    rw mul_acc_raw_spec; [|auto with gf|done|done]. f_equal.
    apply zip_acc_smul; [done|]. intros. by apply scalar_byte_gf2_8.
  - change (0 ≤ coef < 16) in Hc. rw land15 Z.mod_small //.
    destruct (Z.eqb_spec coef 0) as [Hz|Hz]; [by rw -Hzero|]. rw Hget bind_Ok.
    rw mul_acc_raw_spec; [|auto with gf|done|done]. f_equal.
    apply zip_acc_smul; [done|]. intros. by apply scalar_byte_gf2_4.
Qed.

Lemma payload_loop_ok e sz scratch terms :
  let f := ec_field (en_config e) in
  window_ok (en_window e) → (∀ s, s ∈ w_symbols (en_window e) → ws_data s = src (ws_id s)) →
  (∀ id, symbol sz (src id)) → symbol sz scratch →
  Forall (λ t, t.1 ∈ id_slice (en_window e)) terms → terms_ok f terms →
  mfor (payload_term disp f (en_window e)) scratch terms
  = Ok (vxor scratch (lincomb f sz src terms)).
Proof.
  intros f Hw Hd Hsrc Hs Hin Hc. revert scratch Hs.
  induction terms as [|[id c] terms IH]; intros scratch Hs.
  { simpl. rw vxor_0_r //. by destruct Hs. }
  apply Forall_cons in Hin as [Hid Hin]. apply Forall_cons in Hc as [Hc Hcs]. cbn [mfor].
  rw (payload_term_ok e sz) // bind_Ok IH //; [|auto with symbol].
  by rw vxor_assoc.
Qed.
End invariant.

(** ** The packet of one encoding vector *)
Lemma coef_wire f c : coef_ok f c → wire_coef f c.
Proof. by destruct f. Qed.

Lemma cauchy_batch_some f cover coded gen :
  Forall is_u32 cover → 0 ≤ coded < cauchy_cycle f → is_u8 gen →
  ∃ c, cauchy_batch f cover coded gen = Ok c ∧ length c = length cover ∧
    Forall (coef_ok f) c ∧ Forall (λ x, x ≠ 0) c.
Proof.
  intros Hu Hc Hg. eexists. split; [by apply cauchy_batch_ok|].
  split; [apply length_fmap|]. rw !Forall_fmap !Forall_forall. rw Forall_forall in Hu.
  split; intros s Hs; by apply (cauchy_coef_ok f s coded gen); [apply Hu|..].
Qed.

Lemma coefs_and_ev_ok config cover coded gen :
  let f := ec_field config in
  coded_id_ok config coded → is_u8 gen → cover ≠ [] → (length cover < 256)%nat →
  Forall is_u32 cover → storable (best_for cover) cover →
  ∃ coefs ev, coefs_and_ev config cover coded gen = Ok (coefs, ev) ∧
    ev_ok ev ∧ ev_id_format ev = best_for cover ∧ ev_source_ids ev = cover ∧
    ev_coded_id ev = coded ∧ ev_field ev = f ∧
    zip cover coefs = ev_terms ev ∧ terms_ok f (ev_terms ev) ∧
    (ec_matrix_strategy config = Cauchy → cauchy_packet f ev ∧ ev_generation ev = gen) ∧
    (ec_matrix_strategy config = Vandermonde → vandermonde_packet f ev).
Proof.
  intros f Hid Hg Hne Hlen Hu Hst. unfold coefs_and_ev, coded_id_ok in *. fold f in Hid |- *.
  destruct (ec_matrix_strategy config).
  - eexists _, _. split; [done|]. rw vandermonde_batch_map zip_fmap_id.
    split; [constructor; cbn; try done; by left|]. split_and!; try done.
    + apply Forall_fmap, Forall_true. intros id. apply vandermonde_coef_ok.
    + intros _. split; [done|]. cbn. by destruct f.
  - destruct (cauchy_batch_some f cover coded gen Hu Hid Hg) as (c & Hc & Hl & Hok & _).
    pose proof Hc as Hbatch.
    replace (match f with Gf2_8 => _ | Gf2_4 => _ end) with (cauchy_batch f cover coded gen)
      by by destruct f.
    rw Hc bind_Ok. unfold ev_explicit. rw Hl Nat.eqb_refl. cbn [rassert]. rw !bind_Ok.
    eexists _, _. split; [done|].
    assert (Forall (wire_coef f) c) as Hw by (eapply Forall_impl; [exact Hok|apply coef_wire]).
    split; [constructor; cbn; try done; by right|]. split_and!; try done.
    + unfold ev_terms, has_explicit_coefs, with_generation. cbn [ev_coefficients ev_source_ids].
      rw Hl. by destruct cover.
    + unfold ev_terms, has_explicit_coefs, with_generation. cbn [ev_coefficients ev_source_ids].
      rw Hl. destruct cover as [|id cover]; [done|]. cbn [length Nat.eqb negb].
      unfold terms_ok. apply Forall_forall. intros [i x] Hx. rw Forall_forall in Hok. apply Hok.
      apply elem_of_zip_r in Hx. done.
Qed.

Lemma sorted_filter_Z (P : Z → Prop) `{∀ z, Decision (P z)} l :
  StronglySorted Z.lt l → StronglySorted Z.lt (filter P l).
Proof.
  induction 1 as [|x l Hl IH Hx]; [constructor|]. rw filter_cons. case_decide; [|done].
  constructor; [done|]. apply Forall_forall. intros y [_ Hy]%list_elem_of_filter.
  rw Forall_forall in Hx. by apply Hx.
Qed.

Section packets.
Context (disp : Dispatch) {W C F : Type}.
Context `{WindowPolicyLaws W} `{CongestionLaws C} `{!FecRateController F} `{!FecLaws F}.
Context `{HeaderCastLaw}.
Context (src : Z → bytes).
Implicit Types e : Encoder W C F.

(** A coded packet over [ids] the receiver can use. *)
Record coded_honest (config : EncoderConfig) (ids : list Z) (p : Coded.CodedPacket) : Prop := {
  ch_payload : honest_coded (ec_field config) (sym_size config) src (Coded.ev p) (Coded.payload p);
  ch_ids : ev_source_ids (Coded.ev p) ⊆ ids;
  ch_ev : ev_ok (Coded.ev p);
  ch_sorted : StronglySorted Z.lt (ev_source_ids (Coded.ev p));
  ch_cauchy : ec_matrix_strategy config = Cauchy → cauchy_packet (ec_field config) (Coded.ev p);
  ch_vandermonde : ec_matrix_strategy config = Vandermonde →
    vandermonde_packet (ec_field config) (Coded.ev p);
}.

Definition is_coded (out : EncoderOutput) : Prop :=
  match out with OutSource _ => False | OutCoded _ => True end.

(** The coded packet over exactly [ids]. *)
Definition full_cover (ids : list Z) (out : EncoderOutput) : Prop :=
  match out with
  | OutSource _ => False
  | OutCoded pkt => ∃ p, Coded.parse pkt = Ok p ∧ ev_source_ids (Coded.ev p) = ids
  end.

(** The next coded packet of [e] over [ids]. *)
Definition next_coded e (ids : list Z) (out : EncoderOutput) : Prop :=
  match out with
  | OutSource _ => False
  | OutCoded pkt => ∃ p, Coded.parse pkt = Ok p ∧ ev_source_ids (Coded.ev p) = ids ∧
      ev_coded_id (Coded.ev p) = en_next_coded_id e ∧
      (ec_matrix_strategy (en_config e) = Cauchy → ev_generation (Coded.ev p) = en_generation e)
  end.

Lemma full_cover_coded ids out : full_cover ids out → is_coded out.
Proof. by destruct out. Qed.
Lemma next_coded_full e ids out : next_coded e ids out → full_cover ids out.
Proof. destruct out; [done|]. intros (p & ? & ? & _). by exists p. Qed.

(** What a receiver reads in a packet of the encoder. *)
Definition honest_output (config : EncoderConfig) (ids : list Z) (out : EncoderOutput) : Prop :=
  match out with
  | OutSource pkt =>
      ∃ p, Source.parse pkt = Ok p ∧ Source.source_symbol_id p ∈ ids ∧
        Source.payload p = src (Source.source_symbol_id p)
  | OutCoded pkt => ∃ p, Coded.parse pkt = Ok p ∧ coded_honest config ids p
  end.

Lemma honest_output_mono config ids ids' out :
  ids ⊆ ids' → honest_output config ids out → honest_output config ids' out.
Proof.
  intros Hsub. destruct out; simpl.
  - intros (p & ? & ? & ?). exists p. auto.
  - intros (p & ? & [Hp Hids Hev Hsort Hc Hv]). exists p. split; [done|].
    constructor; [done| |done..]. set_solver.
Qed.

(** A sender's packets in order, from the first unused ID [n] to [m]: source
    IDs are consecutive, and a coded packet covers only IDs already sent. *)
Inductive emission (config : EncoderConfig) : Z → list EncoderOutput → Z → Prop :=
| em_nil n : emission config n [] n
| em_source n pkt p out m :
    Source.parse pkt = Ok p → Source.source_symbol_id p = n → Source.payload p = src n →
    emission config (n + 1) out m → emission config n (OutSource pkt :: out) m
| em_coded n pkt p out m :
    Coded.parse pkt = Ok p → coded_honest config (seqZ 0 n) p →
    emission config n out m → emission config n (OutCoded pkt :: out) m.

Lemma emission_app config n out m out' m' :
  emission config n out m → emission config m out' m' → emission config n (out ++ out') m'.
Proof.
  induction 1 as [n|n pkt p out m Hp Hid Hpay _ IH|n pkt p out m Hp Hh _ IH]; intros Hout';
    [done|by eapply em_source; [..|apply IH]|by eapply em_coded; [..|apply IH]].
Qed.

Lemma emission_coded config n ids new : ids ⊆ seqZ 0 n →
  Forall (λ o, full_cover ids o ∧ honest_output config ids o) new → emission config n new n.
Proof.
  intros Hids. induction 1 as [|[pkt|pkt] new [Hc Ho] _ IH]; [constructor|done|].
  apply (honest_output_mono _ _ _ _ Hids) in Ho as (p & Hp & Hh). by eapply em_coded.
Qed.

Lemma emission_honest config n out m : 0 ≤ n → emission config n out m →
  n ≤ m ∧ Forall (honest_output config (seqZ 0 m)) out.
Proof.
  intros Hn. induction 1 as [n|n pkt p out m Hp Hid Hpay _ IH|n pkt p out m Hp Hh _ IH];
    [done|destruct IH as [Hle IH]; [lia|]..].
  - split; [lia|]. constructor; [|done]. exists p. split; [done|]. rw Hid.
    split; [apply elem_of_seqZ; lia|done].
  - split; [lia|]. constructor; [|done].
    apply (honest_output_mono _ (seqZ 0 n)); [|by exists p].
    intros id [? ?]%elem_of_seqZ. apply elem_of_seqZ. lia.
Qed.

Lemma generate_coded_inner_ok e cover :
  (∀ id, symbol (sym_size (en_config e)) (src id)) → encoder_ok src e →
  cover ≠ [] → (length cover < 256)%nat → cover ⊆ id_slice (en_window e) →
  StronglySorted Z.lt cover → storable (best_for cover) cover →
  ∃ e' pkt p, generate_coded_inner disp e cover = Ok (e', Some (OutCoded pkt)) ∧
    encoder_ok src e' ∧ en_window e' = en_window e ∧ en_config e' = en_config e ∧
    Coded.parse pkt = Ok p ∧ coded_honest (en_config e) cover p ∧
    next_coded e cover (OutCoded pkt).
Proof.
  intros Hsrc He Hne Hlen Hsub Hsort Hst. set (sz := sym_size (en_config e)) in *.
  destruct (advance_coded_ok src e He) as (He1 & Hw1 & Hc1 & Hcc1).
  assert (Forall is_u32 cover) as Hu.
  { apply Forall_forall. intros id Hid. destruct (eok_window _ _ He) as [Hn _ Hb _].
    rw Forall_forall in Hb. specialize (Hb id (Hsub id Hid)). unfold is_u32 in *. lia. }
  destruct (coefs_and_ev_ok (en_config e) cover (en_next_coded_id e) (en_generation e))
    as (coefs & ev & Hcoefs & Hev & Hfmt & Hids & Hcid & Hf & Hterms & Htok & Hcau & Hvan);
    [apply He|apply He|done..|].
  unfold generate_coded_inner. rw Hc1 Hcoefs bind_Ok /compute_coded_payload_targeted.
  rw Hterms Hw1 Hc1 (eok_scratch _ _ He1) Hc1 -/sz.
  rw (payload_loop_ok disp src e sz); [|by apply He|by apply He|done|apply vzero_symbol| |done].
  2: { apply Forall_forall. intros t Ht. apply Hsub. rw -Hterms in Ht.
       destruct t as [i c]. by apply elem_of_zip_l in Ht. }
  rw !bind_Ok. set (payload := vxor _ _).
  assert (payload = lincomb (ec_field (en_config e)) sz src (ev_terms ev)) as Hpay.
  { unfold payload. apply vxor_0_l. by apply lincomb_symbol. }
  destruct (coded_parse_serialise ev payload (generate_cci (en_cc e)) None)
    as (n & pkt & Hser & Hparse); [| |done|by rw Hids|].
  { rw Hcid. pose proof (eok_coded _ _ He) as Hid. unfold coded_id_ok, cauchy_cycle in Hid.
    destruct (ec_matrix_strategy (en_config e)), (ec_field (en_config e)); word_bound. }
  { by constructor; [apply cci_len|]. }
  cbn [set_scratch en_cc]. rw Hcc1. rw -Hcid Hser bind_Ok.
  eexists _, pkt, _. split; [done|]. split; [|split_and!; try done].
  - destruct He1. constructor; cbn; try done. destruct (lincomb_symbol (ec_field (en_config e)) sz src Hsrc
      (ev_terms ev) Htok) as [Hl _]. by rw Hpay Hl Hc1.
  - constructor; cbn; rw ?Hids; try done; first [by rw Hpay|by intros []%Hcau].
  - eexists. split; [exact Hparse|]. cbn. split_and!; [done..|by intros []%Hcau].
Qed.

(** A sorted cover taken from the window. *)
Definition window_fits e : Prop :=
  ec_window_capacity (en_config e) < 256 ∧
  narrow (w_next_id (en_window e)) (id_slice (en_window e)).

Lemma sublist_fits e cover :
  encoder_ok src e → window_fits e → StronglySorted Z.lt cover →
  cover ⊆ id_slice (en_window e) → cover ≠ [] → (length cover ≤ window_len (en_window e))%nat →
  (length cover < 256)%nat ∧ storable (best_for cover) cover.
Proof.
  intros He [Hcap Hn] Hs Hsub Hne Hl. pose proof (eok_capacity _ _ He).
  destruct (eok_window _ _ He) as [Hu _ Hb _]. split; [lia|].
  apply (narrow_storable (w_next_id (en_window e))); [done|done| | |unfold is_u32 in Hu; lia].
  - rw Forall_forall in Hb. apply Forall_forall. auto.
  - unfold narrow in *. rw Forall_forall in Hn. apply Forall_forall. auto.
Qed.

Lemma window_is_empty_spec w : window_is_empty w = false ↔ w_symbols w ≠ [].
Proof. unfold window_is_empty, window_len. by destruct (w_symbols w). Qed.

(** One packet over a sorted part of the window. *)
Lemma generate_cover_ok e cover :
  (∀ id, symbol (sym_size (en_config e)) (src id)) → encoder_ok src e → window_fits e →
  cover ≠ [] → StronglySorted Z.lt cover → cover ⊆ id_slice (en_window e) →
  (length cover ≤ window_len (en_window e))%nat →
  ∃ e' out, generate_coded_inner disp e cover = Ok (e', Some out) ∧
    encoder_ok src e' ∧ en_window e' = en_window e ∧ en_config e' = en_config e ∧
    next_coded e cover out ∧ honest_output (en_config e) (id_slice (en_window e)) out.
Proof.
  intros Hsrc He Hfit Hne Hs Hsub Hl.
  destruct (sublist_fits e cover) as [Hlen Hst]; [done..|].
  destruct (generate_coded_inner_ok e cover) as (e' & pkt & p & ? & ? & ? & ? & ? & [Hp Hids Hev Hsort Hc Hv] & ?);
    [done..|].
  exists e', (OutCoded pkt). split_and!; [done..|]. exists p. split; [done|].
  constructor; [done| |done..]. intros x Hx. by apply Hsub, Hids.
Qed.

Lemma generate_coded_ok e :
  (∀ id, symbol (sym_size (en_config e)) (src id)) → encoder_ok src e → window_fits e →
  w_symbols (en_window e) ≠ [] →
  ∃ e' out, generate_coded disp e = Ok (e', Some out) ∧
    encoder_ok src e' ∧ en_window e' = en_window e ∧ en_config e' = en_config e ∧
    next_coded e (id_slice (en_window e)) out ∧
    honest_output (en_config e) (id_slice (en_window e)) out.
Proof.
  intros Hsrc He Hfit Hne. unfold generate_coded.
  rw (proj2 (window_is_empty_spec _)) //. apply generate_cover_ok; try done.
  - unfold id_slice. by destruct (w_symbols (en_window e)).
  - apply He.
  - unfold id_slice. by rw length_fmap.
Qed.

Lemma coded_loop_ok n e out :
  (∀ id, symbol (sym_size (en_config e)) (src id)) → encoder_ok src e → window_fits e →
  w_symbols (en_window e) ≠ [] →
  ∃ e' new, coded_loop disp n e out = Ok (e', out ++ new) ∧ length new = n ∧
    encoder_ok src e' ∧ en_window e' = en_window e ∧ en_config e' = en_config e ∧
    Forall (λ o, full_cover (id_slice (en_window e)) o ∧
      honest_output (en_config e) (id_slice (en_window e)) o) new.
Proof.
  revert e out. induction n as [|n IH]; intros e out Hsrc He Hfit Hne.
  { exists e, []. rw app_nil_r. by split_and!. }
  destruct (generate_coded_ok e) as (e1 & o & Hg & He1 & Hw1 & Hc1 & Hco%next_coded_full & Ho); [done..|].
  cbn [coded_loop]. rw Hg bind_Ok.
  destruct (IH e1 (out ++ [o])) as (e2 & new & Hl & Hlen & He2 & Hw2 & Hc2 & Hh).
  { by rw Hc1. } { done. } { unfold window_fits. by rw Hc1 Hw1. } { by rw Hw1. }
  exists e2, (o :: new). rw Hl -app_assoc. split_and!; [done|by rw /= Hlen|done|congruence..|].
  rw Hc1 Hw1 in Hh. by constructor.
Qed.

(** ** Submitting a symbol *)
Lemma evict_encoder_ok e : encoder_ok src e →
  encoder_ok src (set_window e (evict_oldest (en_window e))).
Proof.
  intros []. constructor; cbn; try done.
  - by apply evict_ok.
  - unfold window_len in *. cbn. destruct (w_symbols (en_window e)); simpl in *; lia.
  - intros s Hs. apply eok_data0. destruct (w_symbols (en_window e)); [done|]. by right.
Qed.

Lemma push_encoder_ok e : encoder_ok src e → w_next_id (en_window e) < 4294967295 →
  window_is_full (en_window e) = false →
  encoder_ok src (set_window e (push (en_window e) (src (w_next_id (en_window e)))).1).
Proof.
  intros [] Hn Hfull. unfold window_is_full in Hfull. apply Z.leb_gt in Hfull.
  constructor; cbn; try done.
  - by apply push_ok.
  - unfold window_len in *. cbn. rw length_app /=. lia.
  - intros s [Hs|Hs%list_elem_of_singleton]%elem_of_app; [by apply eok_data0|by subst s].
Qed.

(** The space a submission finds, or the error it meets. *)
Definition make_room e : result (Encoder W C F) :=
  if window_is_full (en_window e) then
    match ec_backpressure (en_config e) with
    | Reject => Err (WindowFull (ec_window_capacity (en_config e)))
    | EvictOldest => Ok (set_window e (evict_oldest (en_window e)))
    end
  else Ok e.

Lemma make_room_ok e e1 : encoder_ok src e → make_room e = Ok e1 →
  encoder_ok src e1 ∧ window_is_full (en_window e1) = false ∧ en_config e1 = en_config e ∧
  w_next_id (en_window e1) = w_next_id (en_window e) ∧
  id_slice (en_window e1) ⊆ id_slice (en_window e).
Proof.
  intros He. unfold make_room. destruct (window_is_full (en_window e)) eqn:Ef.
  - destruct (ec_backpressure (en_config e)); [done|]. intros [= <-].
    split; [by apply evict_encoder_ok|]. cbn. split_and!; try done.
    + destruct (eok_config _ _ He) as (_ & Hcap & _). pose proof (eok_capacity _ _ He).
      unfold window_is_full, window_len in *. cbn. apply Z.leb_le in Ef. rw (eok_winconf _ _ He) in Ef |- *.
      apply Z.leb_gt. destruct (w_symbols (en_window e)); simpl in *; lia.
    + unfold id_slice, evict_oldest. cbn. destruct (w_symbols (en_window e)); [done|].
      intros id Hid. by right.
  - by intros [= <-].
Qed.

(** A submission up to its source packet: what is left is the loop over the coded
    packets. *)
Lemma submit_prepared e e1 :
  (∀ id, symbol (sym_size (en_config e)) (src id)) → encoder_ok src e →
  make_room e = Ok e1 → ec_window_capacity (en_config e) < 256 →
  w_next_id (en_window e) < 4294967295 →
  narrow (w_next_id (en_window e) + 1) (id_slice (en_window e)) →
  ∃ e3 pkt n, submit_source disp e (src (w_next_id (en_window e))) = coded_loop disp n e3 [OutSource pkt] ∧
    encoder_ok src e3 ∧ window_fits e3 ∧ w_symbols (en_window e3) ≠ [] ∧ en_config e3 = en_config e ∧
    en_next_coded_id e3 = en_next_coded_id e ∧ en_generation e3 = en_generation e ∧
    w_next_id (en_window e3) = w_next_id (en_window e) + 1 ∧
    id_slice (en_window e3) = id_slice (en_window e1) ++ [w_next_id (en_window e)] ∧
    ∃ p, Source.parse pkt = Ok p ∧ Source.source_symbol_id p = w_next_id (en_window e) ∧
      Source.payload p = src (w_next_id (en_window e)).
Proof.
  intros Hsrc He Hroom Hcap Hnext Hnarrow. set (id := w_next_id (en_window e)) in *.
  destruct (make_room_ok e e1 He Hroom) as (He1 & Hfull & Hc1 & Hn1 & Hsub).
  destruct (Hsrc id) as [Hlen _].
  assert (Z.of_nat (length (src id)) = ec_symbol_size (en_config e)) as Hsz.
  { rw Hlen /sym_size. destruct (eok_config _ _ He) as [? _]. lia. }
  unfold submit_source. rw Hsz Z.eqb_refl. cbn [negb].
  change (if window_is_full (en_window e) then _ else _) with (make_room e).
  rw Hroom bind_Ok. change (push (en_window e1) (src id))
    with ((push (en_window e1) (src id)).1, w_next_id (en_window e1)).
  set (w2 := (push (en_window e1) (src id)).1). cbn iota zeta. rw Hn1 -/id.
  assert (is_u32 id) as Hid by (unfold is_u32; pose proof (wo_next _ (eok_window _ _ He)) as Hu;
    unfold is_u32 in Hu; fold id in Hu; lia).
  assert (encoder_ok src (set_window e1 w2)) as He2.
  { unfold w2. rw /id -Hn1. apply push_encoder_ok; [done|by rw Hn1|done]. }
  destruct (source_parse_serialise id (src id) (generate_cci (en_cc (set_window e1 w2))) None)
    as (pkt & Hser & Hparse); [done|by constructor; [apply cci_len|]|].
  rw Hser bind_Ok. cbn [set_cc set_window en_fec en_window].
  destruct (fec_step_ok (en_fec e1) (make_encoder_state w2 (ec_window_capacity (en_config e))))
    as (fec & n & Hfec & Hfok); [apply He1|]. rw Hfec bind_Ok.
  set (e3 := set_fec _ fec).
  assert (encoder_ok src e3) as He3 by (destruct He2; by constructor).
  assert (w_next_id w2 = id + 1) as Hn2.
  { unfold w2. cbn. rw Hn1 -/id u32_small; [done|unfold is_u32 in *; lia]. }
  assert (id_slice w2 = id_slice (en_window e1) ++ [id]) as Hids2.
  { unfold w2, id_slice. cbn. by rw fmap_app Hn1. }
  assert (id ∈ id_slice w2) as Hin by (rw Hids2; apply elem_of_app; right; by apply list_elem_of_singleton).
  assert (w_symbols w2 ≠ []) as Hne2.
  { intros Hnil. unfold id_slice in Hin. by rw Hnil in Hin; apply elem_of_nil in Hin. }
  assert (en_next_coded_id e1 = en_next_coded_id e ∧ en_generation e1 = en_generation e) as [Hcid Hgen].
  { revert Hroom. unfold make_room. repeat case_match; by intros [= <-]. }
  clearbody w2. exists e3, pkt, n. cbn [set_fec set_cc set_window en_window en_config en_next_coded_id en_generation e3].
  split_and!; [done|done| |done|done|done|done|done|done|].
  - split; cbn; [by rw Hc1|]. rw Hn2 Hids2. apply Forall_app_2; [|constructor; [lia|done]].
    unfold narrow in Hnarrow. rw Forall_forall in Hnarrow. apply Forall_forall. auto.
  - eexists. by split; [exact Hparse|].
Qed.

Lemma submit_source_ok e e1 :
  (∀ id, symbol (sym_size (en_config e)) (src id)) → encoder_ok src e →
  make_room e = Ok e1 → ec_window_capacity (en_config e) < 256 →
  w_next_id (en_window e) < 4294967295 →
  narrow (w_next_id (en_window e) + 1) (id_slice (en_window e)) →
  ∃ e' pkt new, submit_source disp e (src (w_next_id (en_window e)))
      = Ok (e', OutSource pkt :: new) ∧
    encoder_ok src e' ∧ en_config e' = en_config e ∧
    w_next_id (en_window e') = w_next_id (en_window e) + 1 ∧
    id_slice (en_window e') = id_slice (en_window e1) ++ [w_next_id (en_window e)] ∧
    (∃ p, Source.parse pkt = Ok p ∧ Source.source_symbol_id p = w_next_id (en_window e) ∧
       Source.payload p = src (w_next_id (en_window e))) ∧
    Forall (λ o, full_cover (id_slice (en_window e')) o ∧
      honest_output (en_config e) (id_slice (en_window e')) o) new.
Proof.
  intros Hsrc He Hroom Hcap Hnext Hnarrow.
  destruct (submit_prepared e e1) as (e3 & pkt & n & Hsub & He3 & Hfit & Hne & Hc3 & _ & _ & Hn3 & Hids & Hp); [done..|].
  destruct (coded_loop_ok n e3 [OutSource pkt]) as (e4 & new & Hl & _ & He4 & Hw4 & Hc4 & Hh); [by rw Hc3|done..|].
  exists e4, pkt, new. rw Hsub Hl Hw4 Hc4 -Hc3. by split_and!.
Qed.

Lemma handle_feedback_ok e rid pkt : encoder_ok src e →
  ∃ e', handle_feedback e rid pkt = Ok e' ∧ encoder_ok src e' ∧ en_config e' = en_config e ∧
    w_next_id (en_window e') = w_next_id (en_window e) ∧
    en_ack_state e' = ack_update (en_ack_state e) rid pkt ∧
    ∃ removed, symbols_to_remove (en_window_policy e) (ack_update (en_ack_state e) rid pkt)
        (id_slice (en_window e)) = Ok (en_window_policy e', removed) ∧
      w_symbols (en_window e') = filter (λ s, ws_id s ∉ removed) (w_symbols (en_window e)).
Proof.
  intros []. unfold handle_feedback.
  destruct (policy_total (en_window_policy e) (ack_update (en_ack_state e) rid pkt)
    (id_slice (en_window e))) as (w' & l & Hpol). rw Hpol bind_Ok.
  eexists. split; [done|]. cbn [set_cc set_fec set_window set_acks en_config en_window en_ack_state].
  set (e1 := if (length l =? 0)%nat then _ else _).
  assert (en_window e1 = remove_ids (en_window e) l) as Hw.
  { unfold e1, remove_ids. by destruct (length l =? 0)%nat. }
  assert (en_config e1 = en_config e ∧ en_ack_state e1 = ack_update (en_ack_state e) rid pkt ∧
    en_next_coded_id e1 = en_next_coded_id e ∧ en_generation e1 = en_generation e ∧
    en_scratch e1 = en_scratch e ∧ en_fec e1 = en_fec e ∧ en_window_policy e1 = w')
    as (Hc & Ha & Hn & Hg & Hs & Hf & Hwp)
    by by unfold e1; destruct (length l =? 0)%nat.
  clearbody e1. rw Hw Hc Ha Hwp remove_ids_symbols.
  assert (w_next_id (remove_ids (en_window e) l) = w_next_id (en_window e)
    ∧ w_capacity (remove_ids (en_window e) l) = w_capacity (en_window e)) as [Hnx Hcp]
    by by unfold remove_ids; case_match.
  split_and!; [|done..|by eexists _].
  constructor; cbn; rw ?Hc ?Hw ?Hn ?Hg ?Hs ?Hf; try done.
  - by apply remove_ids_ok.
  - unfold window_len. rw remove_ids_symbols.
    pose proof (length_filter (λ s, ws_id s ∉ l) (w_symbols (en_window e))).
    unfold window_len in eok_capacity0. lia.
  - by rw Hcp.
  - rw remove_ids_symbols. intros s [_ ?]%list_elem_of_filter. by apply eok_data0.
  - by apply fec_feedback_ok.
Qed.

(** ** What coding leaves alone *)

(** The coded-ID counter, the number of IDs used and the generation. *)
Definition coded_state e : Z * Z * Z :=
  (en_next_coded_id e, en_coded_ids_used e, en_generation e).

Record same_policies e e' : Prop := {
  sp_acks : en_ack_state e' = en_ack_state e;
  sp_policy : en_window_policy e' = en_window_policy e;
}.

Lemma advance_coded_same e : same_policies e (advance_coded e) ∧ en_fec (advance_coded e) = en_fec e.
Proof.
  unfold advance_coded. by destruct (ec_matrix_strategy (en_config e)); [|case_match].
Qed.

Lemma generate_coded_state e e' o : generate_coded disp e = Ok (e', Some o) →
  coded_state e' = coded_state (advance_coded e) ∧ en_fec e' = en_fec e ∧ same_policies e e'.
Proof.
  destruct (advance_coded_same e) as [[Ha Hp] Hf]. rw -Hf. unfold generate_coded, generate_coded_inner.
  destruct (window_is_empty _); [done|].
  intros ([coefs ev] & _ & ([e1 payload] & Hc & (pkt & _ & [= <- _])%bind_Ok_inv)%bind_Ok_inv)%bind_Ok_inv.
  unfold compute_coded_payload_targeted in Hc. apply bind_Ok_inv in Hc as (scratch & _ & [= <- _]).
  by split_and!.
Qed.

Lemma coded_loop_same n e out e' out' : coded_loop disp n e out = Ok (e', out') → same_policies e e'.
Proof.
  revert e out. induction n as [|n IH]; intros e out; cbn [coded_loop]; [by intros [= <- _]|].
  intros ([e1 o] & Hg & Hl)%bind_Ok_inv. destruct o as [o|].
  - apply generate_coded_state in Hg as (_ & _ & [Ha Hp]). apply IH in Hl as [Ha' Hp'].
    by split; [rw Ha'|rw Hp'].
  - injection Hl as <- _. unfold generate_coded, generate_coded_inner in Hg.
    destruct (window_is_empty _); [by injection Hg as <-|].
    apply bind_Ok_inv in Hg as ([coefs ev] & _ & ([e2 payload] & _ & (pkt & _ & [=])%bind_Ok_inv)%bind_Ok_inv).
Qed.

Lemma submit_same e data e' out : submit_source disp e data = Ok (e', out) → same_policies e e'.
Proof.
  unfold submit_source. case_match; [done|]. intros (e1 & Hroom & Hs)%bind_Ok_inv.
  assert (same_policies e e1) as [Ha Hp] by (revert Hroom; repeat case_match; by intros [= <-]).
  destruct (push (en_window e1) data) as [w id]. apply bind_Ok_inv in Hs as (pkt & _ & Hs).
  apply bind_Ok_inv in Hs as ([fec n] & _ & Hl%coded_loop_same). by destruct Hl as [Ha' Hp']; split; [rw Ha'|rw Hp'].
Qed.

(** ** Sessions

    Any interleaving of submissions, window updates and explicit coded
    packets, with everything that was sent.  IDs stay below 2^16, and the IDs of
    a targeted packet are asked for in ascending order. *)
Inductive enc_session : Encoder W C F → list EncoderOutput → Prop :=
| session_new config wp cc fec :
    encoder_config_ok config → ec_window_capacity config < 256 → fec_ok fec →
    (∀ id, symbol (sym_size config) (src id)) →
    enc_session (encoder_new config wp cc fec) []
| session_submit e out data e' new :
    enc_session e out → w_next_id (en_window e) < 65536 →
    data = src (w_next_id (en_window e)) →
    submit_source disp e data = Ok (e', new) → enc_session e' (out ++ new)
| session_feedback e out rid pkt e' :
    enc_session e out → handle_feedback e rid pkt = Ok e' → enc_session e' out
| session_coded e out e' pkt :
    enc_session e out → generate_coded disp e = Ok (e', Some pkt) →
    enc_session e' (out ++ [pkt])
| session_recent e out n e' pkt :
    enc_session e out → generate_coded_recent disp e n = Ok (e', Some pkt) →
    enc_session e' (out ++ [pkt])
| session_receiver e out rid e' pkt :
    enc_session e out → generate_coded_for_receiver disp e rid = Ok (e', Some pkt) →
    enc_session e' (out ++ [pkt])
| session_targeted e out cover_ids e' pkt :
    enc_session e out → StronglySorted Z.lt cover_ids →
    generate_coded_targeted disp e cover_ids = Ok (e', Some pkt) → enc_session e' (out ++ [pkt]).

Record session_inv e (out : list EncoderOutput) : Prop := {
  si_ok : encoder_ok src e;
  si_cap : ec_window_capacity (en_config e) < 256;
  si_src : ∀ id, symbol (sym_size (en_config e)) (src id);
  si_next : w_next_id (en_window e) ≤ 65536;
  si_emission : emission (en_config e) 0 out (w_next_id (en_window e));
}.

Lemma window_ids_sent e : encoder_ok src e →
  id_slice (en_window e) ⊆ seqZ 0 (w_next_id (en_window e)).
Proof.
  intros He id Hid. destruct (eok_window _ _ He) as [_ _ Hb _]. rw Forall_forall in Hb.
  apply elem_of_seqZ. specialize (Hb id Hid). lia.
Qed.

Lemma session_narrow e k : encoder_ok src e → w_next_id (en_window e) + k ≤ 65536 →
  narrow (w_next_id (en_window e) + k) (id_slice (en_window e)).
Proof.
  intros He Hn. destruct (eok_window _ _ He) as [_ _ Hb _]. unfold narrow.
  eapply Forall_impl; [exact Hb|]. simpl. lia.
Qed.

Lemma session_fits e out : session_inv e out → window_fits e.
Proof.
  intros []. split; [done|]. rw -(Z.add_0_r (w_next_id (en_window e))).
  apply session_narrow; [done|lia].
Qed.

(** The four ways to ask for one more coded packet choose a sorted part of the
    window. *)
Record cover_ok e (cover : list Z) : Prop := {
  cv_nonempty : cover ≠ [];
  cv_sorted : StronglySorted Z.lt cover;
  cv_window : cover ⊆ id_slice (en_window e);
  cv_length : (length cover ≤ window_len (en_window e))%nat;
}.

Lemma window_cover e : encoder_ok src e → window_is_empty (en_window e) = false →
  cover_ok e (id_slice (en_window e)).
Proof.
  intros He Hne%window_is_empty_spec. constructor; [|apply He|done|unfold id_slice; by rw length_fmap].
  unfold id_slice. by destruct (w_symbols (en_window e)).
Qed.

Lemma recent_cover e n : encoder_ok src e → window_is_empty (en_window e) = false → n ≠ 0%nat →
  let syms := w_symbols (en_window e) in
  cover_ok e (ws_id <$> drop (length syms - Nat.min n (length syms)) syms).
Proof.
  intros He Hne%window_is_empty_spec Hn syms. unfold syms in *. set (k := (_ - _)%nat).
  assert (k < length (w_symbols (en_window e)))%nat as Hk.
  { unfold k. destruct (w_symbols (en_window e)); simpl in *; [done|lia]. }
  rw fmap_drop. constructor.
  - intros Hnil%(f_equal length). rw length_drop length_fmap /= in Hnil. lia.
  - destruct (eok_window _ _ He) as [_ Hs _ _]. unfold id_slice in Hs.
    rw -(take_drop k (ws_id <$> w_symbols (en_window e))) in Hs. by apply StronglySorted_app in Hs as (_ & _ & ?).
  - intros id Hid. unfold id_slice. rw -(take_drop k (ws_id <$> w_symbols (en_window e))).
    apply elem_of_app. by right.
  - rw length_drop length_fmap. unfold window_len. lia.
Qed.

Lemma receiver_cover e rid : encoder_ok src e →
  let cover := filter (λ id, ack_is_acked (en_ack_state e) rid id = false) (id_slice (en_window e)) in
  (length cover =? 0)%nat = false → cover_ok e cover.
Proof.
  intros He cover Hn%Nat.eqb_neq. constructor; [by intros Hnil; rw Hnil in Hn|..].
  - apply sorted_filter_Z. apply He.
  - intros id [_ ?]%list_elem_of_filter. done.
  - unfold cover, window_len. etransitivity; [apply length_filter|]. unfold id_slice. by rw length_fmap.
Qed.

Lemma targeted_cover e cover_ids : encoder_ok src e → StronglySorted Z.lt cover_ids →
  let cover := filter (λ id, id ∈ id_slice (en_window e)) cover_ids in
  (length cover =? 0)%nat = false → cover_ok e cover.
Proof.
  intros He Hs cover Hn%Nat.eqb_neq. assert (cover ⊆ id_slice (en_window e)) as Hsub.
  { intros id [? _]%list_elem_of_filter. done. }
  assert (StronglySorted Z.lt cover) as Hc by by apply sorted_filter_Z.
  constructor; [by intros Hnil; rw Hnil in Hn|done|done|].
  assert (length (id_slice (en_window e)) = window_len (en_window e)) as <- by apply length_fmap.
  apply submseteq_length, NoDup_submseteq; [by apply sorted_NoDup|done].
Qed.

Lemma session_extra e out e' pkt cover :
  session_inv e out → cover_ok e cover →
  generate_coded_inner disp e cover = Ok (e', Some pkt) → session_inv e' (out ++ [pkt]).
Proof.
  intros Hi [Hne Hs Hsub Hl] Hg. pose proof (session_fits _ _ Hi) as Hfit. destruct Hi.
  destruct (generate_cover_ok e cover) as (e1 & o & Hg1 & He1 & Hw1 & Hc1 & Hco & Ho); [done..|].
  rw Hg1 in Hg. injection Hg as <- <-. constructor; rw ?Hc1 ?Hw1; try done.
  eapply emission_app; [done|]. destruct o as [|pkt]; [done|].
  apply (honest_output_mono _ _ _ _ (window_ids_sent e si_ok0)) in Ho as (p & Hp & Hh).
  eapply em_coded; [done..|constructor].
Qed.

Lemma enc_session_inv e out : enc_session e out → session_inv e out.
Proof.
  induction 1 as [config wp cc fec Hc Hcap Hf Hsrc|e out data e' new _ IH Hn Hd Hs
    |e out rid pkt e' _ IH Hf|e out e' pkt _ IH Hg|e out n e' pkt _ IH Hg|e out rid e' pkt _ IH Hg
    |e out cover_ids e' pkt _ IH Hcov Hg].
  - constructor; cbn; try done; [by apply encoder_new_ok|constructor].
  - destruct IH as [He Hcap Hsrc Hnext Hh].
    destruct (make_room e) as [e1|err|] eqn:Hroom.
    + destruct (submit_source_ok e e1) as (e2 & p & codeds & Hs2 & He2 & Hc2 & Hn2 & Hids & Hp & Hh2);
        [done..|lia|apply session_narrow; [done|lia]|].
      rw Hd Hs2 in Hs. injection Hs as <- <-. constructor; rw ?Hc2 ?Hn2; try done; [lia|].
      eapply emission_app; [done|]. destruct Hp as (q & Hq & Hid & Hpay).
      eapply em_source; [done..|]. eapply emission_coded; [|done]. rw -Hn2. by apply window_ids_sent.
    + exfalso. unfold submit_source in Hs. case_match; [done|].
      change (if window_is_full (en_window e) then _ else _) with (make_room e) in Hs.
      by rw Hroom in Hs.
    + exfalso. unfold make_room in Hroom. by repeat case_match.
  - destruct IH. destruct (handle_feedback_ok e rid pkt) as (e1 & Hf1 & He1 & Hc1 & Hn1 & _ & _);
      [done|]. rw Hf1 in Hf. injection Hf as <-. by constructor; rw ?Hc1 ?Hn1.
  - unfold generate_coded in Hg. destruct (window_is_empty (en_window e)) eqn:Ee; [done|].
    eapply session_extra; [done| |done]. by apply window_cover; [apply IH|].
  - unfold generate_coded_recent in Hg. destruct (window_is_empty (en_window e)) eqn:Ee; [done|].
    destruct (Nat.eqb_spec n 0) as [|Hn]; [done|]. simpl in Hg.
    eapply session_extra; [done| |done]. by apply recent_cover; [apply IH|..].
  - unfold generate_coded_for_receiver in Hg. destruct (window_is_empty (en_window e)); [done|].
    destruct (length _ =? 0)%nat eqn:Hn; [done|].
    eapply session_extra; [done| |done]. by apply receiver_cover; [apply IH|].
  - unfold generate_coded_targeted in Hg. destruct (window_is_empty (en_window e)); [done|].
    destruct (length _ =? 0)%nat eqn:Hn; [done|].
    eapply session_extra; [done| |done]. by apply targeted_cover; [apply IH|..].
Qed.

(** *** No operation fails in a session *)

(** What a request for one more coded packet returns: a session with that
    packet, or nothing when there is nothing to code. *)
Definition extra_result e out (res : result (Encoder W C F * option EncoderOutput)) : Prop :=
  ∃ e' o, res = Ok (e', o) ∧ en_config e' = en_config e ∧ en_window e' = en_window e ∧
    match o with Some pkt => is_coded pkt ∧ enc_session e' (out ++ [pkt]) | None => e' = e end.

Lemma extra_none e out : extra_result e out (Ok (e, None)).
Proof. by exists e, None. Qed.

Lemma extra_some e out cover : enc_session e out → cover_ok e cover →
  (∀ e' pkt, generate_coded_inner disp e cover = Ok (e', Some pkt) → enc_session e' (out ++ [pkt])) →
  extra_result e out (generate_coded_inner disp e cover).
Proof.
  intros Hs%enc_session_inv [Hne Hso Hsub Hl] Hses. pose proof (session_fits _ _ Hs) as Hfit. destruct Hs.
  destruct (generate_cover_ok e cover) as (e1 & o & Hg1 & He1 & Hw1 & Hc1 & Ho%next_coded_full%full_cover_coded & _);
    [done..|].
  exists e1, (Some o). split_and!; [done..|]. by apply Hses.
Qed.

Lemma coded_total e out : enc_session e out → extra_result e out (generate_coded disp e).
Proof.
  intros Hs. pose proof (enc_session_inv _ _ Hs) as Hi. unfold generate_coded.
  destruct (window_is_empty (en_window e)) eqn:Ee; [apply extra_none|].
  apply extra_some; [done|by apply window_cover; [apply Hi|]|].
  intros e' pkt Hg. eapply session_coded; [done|]. unfold generate_coded. by rw Ee.
Qed.

Lemma recent_total e out n : enc_session e out → extra_result e out (generate_coded_recent disp e n).
Proof.
  intros Hs. pose proof (enc_session_inv _ _ Hs) as Hi. unfold generate_coded_recent.
  destruct (window_is_empty (en_window e)) eqn:Ee; [apply extra_none|].
  destruct (Nat.eqb_spec n 0) as [|Hn]; [apply extra_none|]. cbn [orb].
  apply extra_some; [done|by apply recent_cover; [apply Hi|..]|].
  intros e' pkt Hg. eapply (session_recent _ _ n); [done|]. unfold generate_coded_recent.
  by rw Ee (proj2 (Nat.eqb_neq n 0) Hn).
Qed.

Lemma receiver_total e out rid : enc_session e out →
  extra_result e out (generate_coded_for_receiver disp e rid).
Proof.
  intros Hs. pose proof (enc_session_inv _ _ Hs) as Hi. unfold generate_coded_for_receiver.
  destruct (window_is_empty (en_window e)) eqn:Ee; [apply extra_none|].
  destruct (length _ =? 0)%nat eqn:Hn; [apply extra_none|].
  apply extra_some; [done|by apply receiver_cover; [apply Hi|]|].
  intros e' pkt Hg. eapply (session_receiver _ _ rid); [done|]. unfold generate_coded_for_receiver.
  by rw Ee Hn.
Qed.

Lemma targeted_total e out cover_ids : enc_session e out → StronglySorted Z.lt cover_ids →
  extra_result e out (generate_coded_targeted disp e cover_ids).
Proof.
  intros Hs Hc. pose proof (enc_session_inv _ _ Hs) as Hi. unfold generate_coded_targeted.
  destruct (window_is_empty (en_window e)) eqn:Ee; [apply extra_none|].
  destruct (length _ =? 0)%nat eqn:Hn; [apply extra_none|].
  apply extra_some; [done|by apply targeted_cover; [apply Hi|..]|].
  intros e' pkt Hg. eapply (session_targeted _ _ cover_ids); [done..|]. unfold generate_coded_targeted.
  by rw Ee Hn.
Qed.

Lemma submit_total e out : enc_session e out → w_next_id (en_window e) < 65536 →
  window_is_full (en_window e) = false ∨ ec_backpressure (en_config e) = EvictOldest →
  ∃ e' pkt new, submit_source disp e (src (w_next_id (en_window e))) = Ok (e', OutSource pkt :: new) ∧
    enc_session e' (out ++ OutSource pkt :: new) ∧ en_config e' = en_config e ∧
    w_next_id (en_window e') = w_next_id (en_window e) + 1 ∧
    (window_is_full (en_window e) = false →
     id_slice (en_window e') = id_slice (en_window e) ++ [w_next_id (en_window e)]) ∧
    ∃ p, Source.parse pkt = Ok p ∧ Source.source_symbol_id p = w_next_id (en_window e) ∧
      Source.payload p = src (w_next_id (en_window e)).
Proof.
  intros Hs Hn Hroom. pose proof (enc_session_inv _ _ Hs) as [He Hcap Hsrc Hnext Hh].
  assert (∃ e1, make_room e = Ok e1) as [e1 Hr].
  { unfold make_room. destruct (window_is_full (en_window e)); [|by eexists].
    destruct Hroom as [|Hb]; [done|]. rw Hb. by eexists. }
  destruct (submit_source_ok e e1) as (e2 & p & codeds & Hs2 & He2 & Hc2 & Hn2 & Hids & Hp & _);
    [done..|lia|apply session_narrow; [done|lia]|].
  exists e2, p, codeds. split_and!; [done| |done|done| |done]; [by eapply session_submit|].
  intros Hfull. unfold make_room in Hr. rw Hfull in Hr. by injection Hr as ->.
Qed.

(** A submission makes as many coded packets as the rate asks for, each over the
    whole window. *)
Lemma generate_coded_window e e' o : generate_coded disp e = Ok (e', o) → en_window e' = en_window e.
Proof.
  unfold generate_coded, generate_coded_inner. destruct (window_is_empty _); [by intros [= <- _]|].
  intros ([coefs ev] & _ & ([e1 payload] & Hc & (pkt & _ & [= <- _])%bind_Ok_inv)%bind_Ok_inv)%bind_Ok_inv.
  unfold compute_coded_payload_targeted in Hc. apply bind_Ok_inv in Hc as (scratch & _ & [= <- _]). cbn.
  unfold advance_coded. by destruct (ec_matrix_strategy (en_config e)); [|case_match].
Qed.

Lemma coded_loop_count n e out e' out' : w_symbols (en_window e) ≠ [] → coded_loop disp n e out = Ok (e', out') →
  length out' = (length out + n)%nat ∧ en_fec e' = en_fec e.
Proof.
  revert e out. induction n as [|n IH]; intros e out Hne; cbn [coded_loop]; [intros [= <- <-]; by rw Nat.add_0_r|].
  intros ([e1 [o|]] & Hg & Hl)%bind_Ok_inv.
  - apply IH in Hl as [Hlen Hf]; [|by rw (generate_coded_window _ _ _ Hg)].
    apply generate_coded_state in Hg as (_ & Hf1 & _). rw Hlen length_app /= Hf. split; [lia|done].
  - unfold generate_coded, generate_coded_inner in Hg. rw (proj2 (window_is_empty_spec _)) // in Hg.
    apply bind_Ok_inv in Hg as ([coefs ev] & _ & ([e2 payload] & _ & (pkt & _ & Hg)%bind_Ok_inv)%bind_Ok_inv). done.
Qed.

Lemma submit_count e data e' out : submit_source disp e data = Ok (e', out) →
  ∃ st n, coded_packets_to_generate (en_fec e) st = Ok (en_fec e', n) ∧ length out = S n.
Proof.
  unfold submit_source. case_match; [done|]. intros (e1 & Hroom & Hs)%bind_Ok_inv.
  assert (en_fec e1 = en_fec e) as Hf1 by (revert Hroom; repeat case_match; by intros [= <-]).
  apply bind_Ok_inv in Hs as (pkt & _ & ([fec n] & Hfec & Hl)%bind_Ok_inv).
  apply coded_loop_count in Hl as [Hlen Hf]; [|cbn; by intros [_ [=]]%app_eq_nil].
  cbn in Hf, Hfec. rw Hf1 in Hfec. eexists _, n. rw Hf. split; [exact Hfec|exact Hlen].
Qed.

Lemma submit_covers e out e' pkt new : enc_session e out → w_next_id (en_window e) < 65536 →
  submit_source disp e (src (w_next_id (en_window e))) = Ok (e', pkt :: new) →
  Forall (full_cover (id_slice (en_window e'))) new.
Proof.
  intros Hs Hn Hsub. pose proof (enc_session_inv _ _ Hs) as [He Hcap Hsrc Hnext Hh].
  assert (∃ e1, make_room e = Ok e1) as [e1 Hr].
  { unfold make_room. unfold submit_source in Hsub. case_match; [done|].
    apply bind_Ok_inv in Hsub as (e1 & Hr & _). revert Hr. repeat case_match; eauto. }
  destruct (submit_source_ok e e1) as (e2 & p & codeds & Hs2 & _ & _ & _ & _ & _ & Hall);
    [done..|lia|apply session_narrow; [done|lia]|].
  rw Hs2 in Hsub. injection Hsub as <- _ <-. eapply Forall_impl; [exact Hall|]. by intros o [Ho _].
Qed.
End packets.

(** ** Properties *)

(** C11: every packet of every session is honest: the receiver's parser reads
    back a source packet carrying the submitted symbol under its ID, or a coded
    packet whose payload is exactly the combination of submitted symbols that
    its encoding vector announces, whatever the order of submissions, window
    updates and extra coded packets, on every CPU. *)
Theorem encoder_session_honest disp {W C F} `{WindowPolicyLaws W} `{CongestionLaws C}
    `{!FecRateController F} `{!FecLaws F} `{HeaderCastLaw} src (e : Encoder W C F) out :
  enc_session disp src e out →
  encoder_ok src e ∧
  Forall (honest_output src (en_config e) (seqZ 0 (w_next_id (en_window e)))) out.
Proof.
  intros Hs. destruct (enc_session_inv disp src e out Hs). split; [done|].
  by apply (emission_honest src (en_config e) 0).
Qed.

Definition demo_config : EncoderConfig :=
  {| ec_symbol_size := 2; ec_window_capacity := 4; ec_field := Gf2_8; ec_fec_numer := 1;
     ec_fec_denom := 1; ec_backpressure := EvictOldest; ec_matrix_strategy := Cauchy |}.
Definition demo_src (id : Z) : bytes := [u8 id; u8 (id * 7 + 3)].
Definition demo_fec : ConstantFecRate := {| cf_numer := 1; cf_denom := 1; cf_acc := 0 |}.

Lemma demo_src_symbol config : ec_symbol_size config = 2 → ∀ id,
  symbol (sym_size config) (demo_src id).
Proof. intros H id. unfold sym_size. rw H. split; [done|]. repeat constructor; apply u8_is. Qed.

Lemma demo_config_ok : encoder_config_ok demo_config.
Proof. unfold encoder_config_ok. cbn. lia. Qed.

Lemma encoder_session_honest_witness :
  let e0 : Encoder AnyAckPolicy NoCongestionControl ConstantFecRate :=
    encoder_new demo_config AnyAck NoCc demo_fec in
  ∃ e1 o1 e2 o2, submit_source Ssse3 e0 (demo_src 0) = Ok (e1, o1) ∧
    submit_source Ssse3 e1 (demo_src 1) = Ok (e2, o2) ∧ length (o1 ++ o2) = 4%nat ∧
    Forall (@honest_output ReprC.cast demo_src (en_config e2)
              (seqZ 0 (w_next_id (en_window e2)))) (o1 ++ o2).
Proof.
  intros e0.
  assert (enc_session Ssse3 demo_src e0 []) as Hs0.
  { apply session_new; [exact demo_config_ok|reflexivity|change (1 ≠ 0); lia|].
    by apply demo_src_symbol. }
  eexists _, _, _, _. split; [vm_compute; reflexivity|]. split; [vm_compute; reflexivity|].
  split; [reflexivity|].
  refine (proj2 (@encoder_session_honest Ssse3 AnyAckPolicy NoCongestionControl ConstantFecRate
    _ _ _ _ _ _ ReprC.cast ReprC.cast_law demo_src _ _ _)).
  eapply session_submit; [eapply (session_submit _ _ e0 []); [exact Hs0| | |]| | |].
  - reflexivity.
  - reflexivity.
  - vm_compute. reflexivity.
  - reflexivity.
  - reflexivity.
  - vm_compute. reflexivity.
Defined.

(** C12: in every session every operation succeeds and leads to a session again:
    a submission that finds or makes room, a window update of any content, and
    every way to ask for a coded packet, which yields one unless there is
    nothing to code (a targeted one: over IDs in ascending order). *)
Theorem encoder_never_fails disp {W C F} `{WindowPolicyLaws W} `{CongestionLaws C}
    `{!FecRateController F} `{!FecLaws F} `{HeaderCastLaw} src (e : Encoder W C F) out :
  enc_session disp src e out →
  (w_next_id (en_window e) < 65536 →
   window_is_full (en_window e) = false ∨ ec_backpressure (en_config e) = EvictOldest →
   ∃ e' new, submit_source disp e (src (w_next_id (en_window e))) = Ok (e', new) ∧
     enc_session disp src e' (out ++ new)) ∧
  (∀ rid pkt, ∃ e', handle_feedback e rid pkt = Ok e' ∧ enc_session disp src e' out) ∧
  extra_result disp src e out (generate_coded disp e) ∧
  (∀ n, extra_result disp src e out (generate_coded_recent disp e n)) ∧
  (∀ rid, extra_result disp src e out (generate_coded_for_receiver disp e rid)) ∧
  (∀ cover_ids, StronglySorted Z.lt cover_ids →
     extra_result disp src e out (generate_coded_targeted disp e cover_ids)).
Proof.
  intros Hs. split_and!.
  - intros Hn Hroom. destruct (submit_total disp src e out Hs Hn Hroom) as (e' & pkt & new & Hsub & Hses & _).
    by exists e', (OutSource pkt :: new).
  - intros rid pkt. destruct (enc_session_inv disp src e out Hs) as [He _ _ _ _].
    destruct (handle_feedback_ok src e rid pkt He) as (e' & Hf & _). exists e'. split; [done|].
    by eapply session_feedback.
  - by apply (coded_total disp src).
  - intros n. by apply (recent_total disp src).
  - intros rid. by apply (receiver_total disp src).
  - intros cover_ids. by apply (targeted_total disp src).
Qed.

Lemma encoder_never_fails_witness :
  let e0 : Encoder AnyAckPolicy NoCongestionControl ConstantFecRate :=
    encoder_new demo_config AnyAck NoCc demo_fec in
  ∃ e' new, submit_source Neon e0 (demo_src 0) = Ok (e', new) ∧
    @enc_session Neon AnyAckPolicy NoCongestionControl ConstantFecRate _ _ _ _ demo_src e' ([] ++ new).
Proof.
  intros e0.
  assert (enc_session Neon demo_src e0 []) as Hs0.
  { apply session_new; [exact demo_config_ok|reflexivity|change (1 ≠ 0); lia|].
    by apply demo_src_symbol. }
  apply (proj1 (@encoder_never_fails Neon AnyAckPolicy NoCongestionControl ConstantFecRate
    _ _ _ _ _ _ ReprC.cast ReprC.cast_law demo_src e0 [] Hs0)); [reflexivity|by left].
Defined.

(** IDs in another order are refused by nothing, and the packet names symbols that
    were never sent: here 2 and 65536 instead of 2 and 0. *)
Lemma targeted_unsorted_misnames :
  (let e0 : Encoder AnyAckPolicy NoCongestionControl ConstantFecRate :=
     encoder_new demo_config AnyAck NoCc demo_fec in
   '(e, _) ← submit_source Scalar e0 (demo_src 0);
   '(e, _) ← submit_source Scalar e (demo_src 1);
   '(e, _) ← submit_source Scalar e (demo_src 2);
   '(_, out) ← generate_coded_targeted Scalar e [2; 0];
   p ← @Coded.parse ReprC.cast (from_option raw_of [] out);
   Ok (ev_source_ids (Coded.ev p))) = Ok [2; 65536].
Proof. vm_compute. reflexivity. Qed.

Lemma encoder_ok_ext {W C F} `{FecLaws F} src src' (e : Encoder W C F) : encoder_ok src e →
  (∀ id, id ∈ id_slice (en_window e) → src' id = src id) → encoder_ok src' e.
Proof.
  intros [] Hsame. constructor; try done. intros s Hs. rw Hsame; [by eauto|].
  unfold id_slice. apply list_elem_of_fmap. by exists s.
Qed.

(** C34: in a session (a window below 256, fewer than 2^16 symbols so far) a
    submission of any bytes does exactly one of three things.
    A symbol of the wrong size is refused with SymbolSizeMismatch, before anything
    else; a symbol of the right size is refused with WindowFull when the window is
    full under [Reject], and only then; every other one is accepted: the first
    packet is its source packet, under the next ID, the window gains the symbol,
    losing its oldest one when it was full, and the coded packets that follow
    cover the whole window. *)
Theorem submit_source_errors disp {W C F} `{WindowPolicyLaws W} `{CongestionLaws C}
    `{!FecRateController F} `{!FecLaws F} `{HeaderCastLaw} src (e : Encoder W C F) out data :
  enc_session disp src e out → w_next_id (en_window e) < 65536 → bytes_ok data →
  let size_ok := Z.of_nat (length data) = ec_symbol_size (en_config e) in
  let full := window_is_full (en_window e) in
  let n := w_next_id (en_window e) in
  match submit_source disp e data with
  | Err (SymbolSizeMismatch expected got) =>
      ¬ size_ok ∧ expected = ec_symbol_size (en_config e) ∧ got = Z.of_nat (length data)
  | Err (WindowFull capacity) =>
      size_ok ∧ full = true ∧ ec_backpressure (en_config e) = Reject ∧ capacity = ec_window_capacity (en_config e)
  | Ok (e', outs) =>
      size_ok ∧ (full = true → ec_backpressure (en_config e) = EvictOldest) ∧ w_next_id (en_window e') = n + 1 ∧
      id_slice (en_window e') = (if full then tail (id_slice (en_window e)) else id_slice (en_window e)) ++ [n] ∧
      ∃ pkt p coded, outs = OutSource pkt :: coded ∧ Source.parse pkt = Ok p ∧
        Source.source_symbol_id p = n ∧ Source.payload p = data ∧ Forall (full_cover (id_slice (en_window e'))) coded
  | Err _ | Panic => False
  end.
Proof.
  intros Hs Hn Hdata size_ok full n. destruct (enc_session_inv disp src e out Hs) as [He Hcap Hsrc Hnext _].
  destruct (decide size_ok) as [Hsz|Hsz]; unfold size_ok in Hsz.
  2: { unfold submit_source. rw (proj2 (Z.eqb_neq _ _)) //. }
  assert ((∃ e1, make_room e = Ok e1 ∧ (full = true → ec_backpressure (en_config e) = EvictOldest) ∧
      id_slice (en_window e1) = if full then tail (id_slice (en_window e)) else id_slice (en_window e)) ∨
    (full = true ∧ ec_backpressure (en_config e) = Reject)) as [(e1 & Hroom & Hbp & Hids1)|[Hfull Hbp]].
  { unfold make_room. subst full. destruct (window_is_full _); [|left; by eexists].
    destruct (ec_backpressure _) eqn:Hb; [right; by split|left]. eexists. split_and!; [done..|].
    unfold id_slice, evict_oldest. cbn. by destruct (w_symbols (en_window e)). }
  2: { unfold submit_source. rw Hsz Z.eqb_refl. cbn [negb]. subst full. rw Hfull Hbp. by cbn. }
  set (src' := λ id, if decide (id = n) then data else src id).
  assert (encoder_ok src' e) as He'.
  { apply (encoder_ok_ext src); [done|]. intros id Hid. apply (window_ids_sent src e He) in Hid.
    apply elem_of_seqZ in Hid. unfold src'. rw decide_False //. unfold n. lia. }
  destruct (submit_source_ok disp src' e e1) as (e2 & pkt & coded & Hsub & _ & _ & Hn2 & Hids & Hp & Hall);
    [|done|done|done|lia|by apply (session_narrow src); [|lia]|].
  - intros id. unfold src'. case_decide; [|done]. split; [|done]. unfold sym_size. rw -Hsz Nat2Z.id. done.
  - unfold src' in Hsub, Hp. rw !decide_True // in Hsub Hp. rw Hsub. destruct Hp as (p & Hp & Hid & Hpay).
    split_and!; [done|done|done|by rw Hids Hids1|]. exists pkt, p, coded. split_and!; [done..|].
    eapply Forall_impl; [exact Hall|]. by intros o [Ho _].
Qed.

Section submit_demo.
#[local] Existing Instance ReprC.cast.
#[local] Existing Instance ReprC.cast_law.
Lemma submit_source_errors_witness :
  let e : Encoder AnyAckPolicy NoCongestionControl ConstantFecRate := encoder_new demo_config AnyAck NoCc demo_fec in
  submit_source Scalar e [1; 2; 3] = Err (SymbolSizeMismatch 2 3) ∧
  ∃ e' pkt p coded, submit_source Scalar e [5; 6] = Ok (e', OutSource pkt :: coded) ∧
    Source.parse pkt = Ok p ∧ Source.payload p = [5; 6].
Proof.
  intros e. assert (enc_session Scalar demo_src e []) as Hs
    by (apply session_new; [exact demo_config_ok|done|done|by apply demo_src_symbol]).
  split.
  - vm_compute. reflexivity.
  - pose proof (submit_source_errors Scalar demo_src e [] [5; 6] Hs eq_refl ltac:(repeat constructor; word_bound)) as Hany.
    revert Hany. cbv zeta. assert (∃ e' outs, submit_source Scalar e [5; 6] = Ok (e', outs)) as (e' & outs & ->)
      by (vm_compute; eauto).
    intros (_ & _ & _ & _ & pkt & p & coded & -> & Hp & _ & Hpay & _). by exists e', pkt, p, coded.
Defined.
End submit_demo.

(** ** The coded-ID cycle *)
Fixpoint advance_n {W C F} (n : nat) (e : Encoder W C F) : Encoder W C F :=
  match n with O => e | S n => advance_n n (advance_coded e) end.

Definition first_coded_id (config : EncoderConfig) : Z :=
  match ec_matrix_strategy config with Cauchy => 0 | Vandermonde => 1 end.

Lemma coded_id_cycle_pos config : 7 ≤ coded_id_cycle config ≤ 254.
Proof. unfold coded_id_cycle. destruct (ec_matrix_strategy config), (ec_field config); lia. Qed.

Lemma advance_coded_step {W C F} (e : Encoder W C F) k :
  let cyc := coded_id_cycle (en_config e) in
  0 ≤ k < cyc → en_next_coded_id e = first_coded_id (en_config e) + k → is_u8 (en_generation e) →
  en_config (advance_coded e) = en_config e ∧
  en_next_coded_id (advance_coded e)
    = first_coded_id (en_config e) + (if k + 1 =? cyc then 0 else k + 1) ∧
  en_generation (advance_coded e)
    = (if (k + 1 =? cyc) && bool_decide (ec_matrix_strategy (en_config e) = Cauchy)
       then u8 (en_generation e + 1) else en_generation e).
Proof.
  intros cyc Hk He Hg. pose proof (coded_id_cycle_pos (en_config e)) as Hcyc. fold cyc in Hcyc.
  unfold advance_coded. rw He. unfold first_coded_id in *.
  destruct (ec_matrix_strategy (en_config e)) eqn:Es.
  - rw (bool_decide_false (Vandermonde = Cauchy)) // andb_false_r. rw u32_small; [|word_bound].
    assert (match ec_field (en_config e) with Gf2_8 => 255 | Gf2_4 => 15 end = cyc + 1) as ->
      by (unfold cyc, coded_id_cycle; rw Es; by destruct (ec_field (en_config e))).
    cbn. destruct (Z.eqb_spec (k + 1) cyc), (Z.leb_spec (cyc + 1) (1 + k + 1)); try lia;
      split_and!; try done; lia.
  - rw bool_decide_true // andb_true_r. rw u32_small; [|word_bound]. fold cyc.
    destruct (Z.eqb_spec (k + 1) cyc), (Z.leb_spec cyc (0 + k + 1)); try lia;
      cbn; split_and!; try done; lia.
Qed.

Lemma advance_n_spec {W C F} n (e : Encoder W C F) k :
  let cyc := coded_id_cycle (en_config e) in
  0 ≤ k < cyc → en_next_coded_id e = first_coded_id (en_config e) + k → is_u8 (en_generation e) →
  en_next_coded_id (advance_n n e)
    = first_coded_id (en_config e) + (k + Z.of_nat n) mod cyc ∧
  en_generation (advance_n n e)
    = (if bool_decide (ec_matrix_strategy (en_config e) = Cauchy)
       then u8 (en_generation e + (k + Z.of_nat n) / cyc) else en_generation e).
Proof.
  intros cyc Hk He Hg. pose proof (coded_id_cycle_pos (en_config e)) as Hcyc. fold cyc in Hcyc.
  revert e k cyc Hk He Hg Hcyc. induction n as [|n IH]; intros e k cyc Hk He Hg Hcyc.
  { cbn [advance_n Z.of_nat]. rw Z.add_0_r Z.mod_small // Z.div_small // Z.add_0_r u8_small //.
    by case_bool_decide. }
  destruct (advance_coded_step e k Hk He Hg) as (Hc & Hn & Hgen). fold cyc in Hn, Hgen.
  cbn [advance_n]. set (e1 := advance_coded e) in *. clearbody e1.
  set (k1 := if k + 1 =? cyc then 0 else k + 1) in *.
  assert (0 ≤ k1 < cyc) as Hk1 by (unfold k1; destruct (Z.eqb_spec (k + 1) cyc); lia).
  assert (is_u8 (en_generation e1)) as Hg1 by (rw Hgen; case_match; [apply u8_is|done]).
  destruct (IH e1 k1) as [H1 H2]; rw ?Hc; try done.
  rw Hc -/cyc in H1. rw Hc -/cyc in H2. rw H1 H2 Hgen.
  assert (k + Z.of_nat (S n) = k1 + Z.of_nat n + (if k + 1 =? cyc then 1 else 0) * cyc) as ->
    by (unfold k1; destruct (Z.eqb_spec (k + 1) cyc); lia).
  rw Z.mod_add ?Z.div_add; [|lia..]. split; [done|].
  case_bool_decide as Hs; [|by rw andb_false_r]. rw andb_true_r.
  destruct (k + 1 =? cyc).
  - unfold u8. rw Zplus_mod_idemp_l. f_equal. lia.
  - f_equal. lia.
Qed.

(** The [n]-th coded packet of a session uses ID [first + n mod cycle], so
    the IDs of a cycle are distinct, and Cauchy's generation counts the cycles
    modulo 256; Vandermonde stays in generation 0. *)
Theorem coded_id_sequence {W C F} n config (wp : W) (cc : C) (fec : F) :
  let e := advance_n n (encoder_new config wp cc fec) in
  en_next_coded_id e = first_coded_id config + Z.of_nat n mod coded_id_cycle config ∧
  en_generation e = (if bool_decide (ec_matrix_strategy config = Cauchy)
                     then u8 (Z.of_nat n / coded_id_cycle config) else 0).
Proof.
  pose proof (coded_id_cycle_pos config).
  destruct (advance_n_spec n (encoder_new config wp cc fec) 0) as [H1 H2]; cbn; [lia| |word_bound|].
  - unfold first_coded_id. by destruct (ec_matrix_strategy config).
  - split; [exact H1|exact H2].
Qed.

(** *** The numbers of a session's coded packets *)
Section numbering.
Context (disp : Dispatch) {W C F : Type}.
Context `{WindowPolicyLaws W} `{CongestionLaws C} `{!FecRateController F} `{!FecLaws F}.
Context `{HeaderCastLaw}.
Context (src : Z → bytes).
Implicit Types e : Encoder W C F.

(** The coded ID and the generation of the [k]-th coded packet of a session. *)
Definition nth_coded_id (config : EncoderConfig) (k : nat) : Z :=
  first_coded_id config + Z.of_nat k mod coded_id_cycle config.
Definition nth_generation (config : EncoderConfig) (k : nat) : Z :=
  if bool_decide (ec_matrix_strategy config = Cauchy) then u8 (Z.of_nat k / coded_id_cycle config) else 0.

Record at_number (config : EncoderConfig) (k : nat) e : Prop := {
  an_config : en_config e = config;
  an_id : en_next_coded_id e = nth_coded_id config k;
  an_generation : en_generation e = nth_generation config k;
}.

Definition numbered (config : EncoderConfig) (k : nat) (raw : bytes) : Prop :=
  ∃ p, Coded.parse raw = Ok p ∧ ev_coded_id (Coded.ev p) = nth_coded_id config k ∧
    (ec_matrix_strategy config = Cauchy → ev_generation (Coded.ev p) = nth_generation config k).

Definition coded_packets (out : list EncoderOutput) : list bytes :=
  omap (λ o, match o with OutCoded raw => Some raw | OutSource _ => None end) out.

(** The coded packets [raws] have the numbers from [k] on. *)
Fixpoint numbered_from (config : EncoderConfig) (k : nat) (raws : list bytes) : Prop :=
  match raws with [] => True | raw :: raws => numbered config k raw ∧ numbered_from config (S k) raws end.

Lemma numbered_from_app config raws raws' : ∀ k, numbered_from config k raws →
  numbered_from config (k + length raws) raws' → numbered_from config k (raws ++ raws').
Proof.
  induction raws as [|raw raws IH]; intros k; cbn; [by rw Nat.add_0_r|].
  intros [Hr Hrs] Hrs'. split; [done|]. apply IH; [done|]. by rw Nat.add_succ_r in Hrs'.
Qed.
Lemma numbered_from_lookup config raws : ∀ k i raw, numbered_from config k raws → raws !! i = Some raw →
  numbered config (k + i) raw.
Proof.
  induction raws as [|x raws IH]; intros k [|i] raw; cbn; [done|done| |].
  - intros [Hx _] [= <-]. by rw Nat.add_0_r.
  - intros [_ Hr] Hi. rw Nat.add_succ_r. by apply (IH (S k)).
Qed.

Lemma at_number_new config (wp : W) (cc : C) (fec : F) : at_number config 0 (encoder_new config wp cc fec).
Proof.
  constructor; cbn; [done|unfold nth_coded_id, first_coded_id|unfold nth_generation]; change (Z.of_nat 0) with 0.
  - rw Z.mod_0_l; [by destruct (ec_matrix_strategy config)|]. pose proof (coded_id_cycle_pos config). lia.
  - by rw Zdiv_0_l; case_bool_decide.
Qed.

Lemma at_number_advance config k e : at_number config k e → at_number config (S k) (advance_coded e).
Proof.
  intros [Hc Hid Hg]. pose proof (coded_id_cycle_pos config) as Hcyc.
  assert (is_u8 (en_generation e)) as Hu by (rw Hg; unfold nth_generation; case_match; [apply u8_is|word_bound]).
  pose proof (Z.mod_pos_bound (Z.of_nat k) (coded_id_cycle config) ltac:(lia)) as Hk.
  destruct (advance_n_spec 1 e (Z.of_nat k mod coded_id_cycle config)) as [Ha Hb]; [by rw Hc|by rw Hc|done|].
  rw Hc in Ha. rw Hc in Hb. cbn [advance_n] in Ha, Hb. constructor.
  - destruct (advance_coded_step e (Z.of_nat k mod coded_id_cycle config)) as (Hc' & _); [by rw Hc|by rw Hc|done|].
    by rw Hc'.
  - rw Ha. unfold nth_coded_id. rw Zplus_mod_idemp_l. do 2 f_equal. lia.
  - rw Hb Hg. unfold nth_generation. case_bool_decide; [|done]. unfold u8. rw Zplus_mod_idemp_l. f_equal.
    pose proof (Z.div_mod (Z.of_nat k) (coded_id_cycle config) ltac:(lia)) as Hdiv.
    replace (Z.of_nat (S k)) with (Z.of_nat k mod coded_id_cycle config + 1
      + Z.of_nat k / coded_id_cycle config * coded_id_cycle config) by lia.
    rw Z.div_add; [|lia]. change (Z.of_nat 1) with 1. lia.
Qed.

Lemma at_number_inner config k e e' cover raw : at_number config k e →
  generate_coded_inner disp e cover = Ok (e', Some (OutCoded raw)) → next_coded e cover (OutCoded raw) →
  at_number config (S k) e' ∧ numbered config k raw.
Proof.
  intros Hat Hg (p & Hp & _ & Hid & Hgen). split.
  - apply at_number_advance in Hat as [Hc Hi Hge]. unfold generate_coded_inner in Hg.
    apply bind_Ok_inv in Hg as ([coefs ev] & _ & ([e1 payload] & Hcp & (pkt & _ & [= <- _])%bind_Ok_inv)%bind_Ok_inv).
    unfold compute_coded_payload_targeted in Hcp. apply bind_Ok_inv in Hcp as (scratch & _ & [= <- _]).
    by constructor.
  - destruct Hat as [Hc Hi Hge]. exists p. split_and!; [done|by rw Hid|]. rw -Hc. intros Hcau. rw (Hgen Hcau) Hge. by rw Hc.
Qed.

Lemma at_number_loop config n : ∀ k e out e' out',
  (∀ id, symbol (sym_size config) (src id)) → encoder_ok src e → window_fits e → w_symbols (en_window e) ≠ [] →
  at_number config k e → coded_loop disp n e out = Ok (e', out') →
  ∃ raws, out' = out ++ (OutCoded <$> raws) ∧ at_number config (k + length raws) e' ∧ numbered_from config k raws.
Proof.
  induction n as [|n IH]; intros k e out e' out' Hsrc He Hfit Hne Hat; cbn [coded_loop].
  { intros [= <- <-]. exists []. rw app_nil_r Nat.add_0_r. by split_and!. }
  pose proof (an_config _ _ _ Hat) as Hc.
  destruct (generate_coded_ok disp src e) as (e1 & o & Hg & He1 & Hw1 & Hc1 & Hco & _); [by rw Hc|done..|].
  rw Hg bind_Ok. destruct o as [|raw]; [done|]. unfold generate_coded in Hg.
  rw (proj2 (window_is_empty_spec _)) // in Hg. destruct (at_number_inner config k e e1 _ raw Hat Hg Hco) as [Hat1 Hraw].
  intros Hl. destruct (IH (S k) e1 (out ++ [OutCoded raw]) e' out') as (raws & -> & Hat' & Hnum); [done|done| |by rw Hw1|done|done|].
  { unfold window_fits. by rw Hc1 Hw1. }
  exists (raw :: raws). rw -app_assoc. split_and!; [done| |by split]. cbn. by rw Nat.add_succ_r.
Qed.

Lemma coded_packets_app out out' : coded_packets (out ++ out') = coded_packets out ++ coded_packets out'.
Proof. apply omap_app. Qed.
Lemma coded_packets_coded raws : coded_packets (OutCoded <$> raws) = raws.
Proof. induction raws as [|raw raws IH]; [done|]. cbn. by f_equal. Qed.

Lemma handle_feedback_number config k e rid pkt e' : at_number config k e → handle_feedback e rid pkt = Ok e' →
  at_number config k e'.
Proof.
  intros [Hc Hi Hg]. unfold handle_feedback. intros ([wp rm] & _ & [= <-])%bind_Ok_inv.
  by destruct (length rm =? 0)%nat; constructor.
Qed.

(** What a session has numbered so far. *)
Definition numbers config e (out : list EncoderOutput) : Prop :=
  at_number config (length (coded_packets out)) e ∧ numbered_from config 0 (coded_packets out).

Lemma numbers_extra config e out e' pkt cover : enc_session disp src e out → cover_ok e cover →
  numbers config e out → generate_coded_inner disp e cover = Ok (e', Some pkt) → numbers config e' (out ++ [pkt]).
Proof.
  intros Hs [Hne Hso Hsub Hl] [Hat Hnum] Hg. pose proof (enc_session_inv disp src e out Hs) as Hi.
  pose proof (session_fits src e out Hi) as Hfit. destruct Hi.
  destruct (generate_cover_ok disp src e cover) as (e1 & o & Hg1 & _ & _ & _ & Hco & _); [done..|].
  rw Hg1 in Hg. injection Hg as <- <-. destruct o as [|raw]; [done|].
  destruct (at_number_inner config _ e e1 cover raw Hat Hg1 Hco) as [Hat' Hraw].
  unfold numbers. rw coded_packets_app length_app. cbn. rw Nat.add_1_r. split; [done|].
  apply numbered_from_app; [done|]. by split.
Qed.

Lemma session_numbers e out : enc_session disp src e out → numbers (en_config e) e out.
Proof.
  revert e out. assert (∀ e out, enc_session disp src e out → ∃ config, numbers config e out) as Hall.
  { induction 1 as [config wp cc fec Hc Hcap Hf Hsrc|e out data e' new Hs [config IH] Hn Hd Hsub
    |e out rid pkt e' _ [config IH] Hf|e out e' pkt Hs [config IH] Hg|e out n e' pkt Hs [config IH] Hg
    |e out rid e' pkt Hs [config IH] Hg|e out cover_ids e' pkt Hs [config IH] Hcov Hg]; [|exists config..].
    - exists config. split; [apply at_number_new|done].
    - destruct (enc_session_inv disp src _ _ Hs) as [He Hcap Hsrc Hnext _]. destruct IH as [Hat Hnum].
      destruct (make_room e) as [e1|err|] eqn:Hroom.
      2,3: by unfold submit_source in Hsub; case_match; [done|];
        change (if window_is_full (en_window e) then _ else _) with (make_room e) in Hsub; rw Hroom in Hsub.
      destruct (submit_prepared disp src e e1) as (e3 & raw & n & Hs3 & He3 & Hfit & Hne & Hc3 & Hid3 & Hg3 & _);
        [done..|lia|apply (session_narrow src); [done|lia]|].
      rw Hd Hs3 in Hsub. pose proof (an_config _ _ _ Hat) as Hc.
      destruct (at_number_loop config n (length (coded_packets out)) e3 [OutSource raw] e' new)
        as (raws & -> & Hat' & Hr); [by rw -Hc|done..| |done|].
      { destruct Hat as [_ Hi Hg]. constructor; [by rw Hc3|by rw Hid3|by rw Hg3]. }
      unfold numbers. rw coded_packets_app. cbn [app]. change (coded_packets (OutSource raw :: ?l)) with (coded_packets l).
      rw coded_packets_coded length_app. split; [done|]. by apply numbered_from_app.
    - destruct IH as [Hat Hnum]. split; [by eapply handle_feedback_number|done].
    - unfold generate_coded in Hg. destruct (window_is_empty (en_window e)) eqn:Ee; [done|].
      eapply numbers_extra; [done| |done..]. by apply (window_cover src); [apply (enc_session_inv disp src _ _ Hs)|].
    - unfold generate_coded_recent in Hg. destruct (window_is_empty (en_window e)) eqn:Ee; [done|].
      destruct (Nat.eqb_spec n 0) as [|Hn]; [done|]. simpl in Hg.
      eapply numbers_extra; [done| |done..]. by apply (recent_cover src); [apply (enc_session_inv disp src _ _ Hs)|..].
    - unfold generate_coded_for_receiver in Hg. destruct (window_is_empty (en_window e)); [done|].
      destruct (length _ =? 0)%nat eqn:Hn; [done|].
      eapply numbers_extra; [done| |done..]. by apply (receiver_cover src); [apply (enc_session_inv disp src _ _ Hs)|].
    - unfold generate_coded_targeted in Hg. destruct (window_is_empty (en_window e)); [done|].
      destruct (length _ =? 0)%nat eqn:Hn; [done|].
      eapply numbers_extra; [done| |done..]. by apply (targeted_cover src); [apply (enc_session_inv disp src _ _ Hs)|..]. }
  intros e out [config Hnum]%Hall. pose proof (an_config _ _ _ (proj1 Hnum)) as Hc. by rw Hc.
Qed.
End numbering.

(** C40: the coded packets of a session are numbered without a gap: whatever asked
    for them (the rate, a request for the whole window, its recent part, what a
    receiver lacks, or a cover), the [k]-th one on the wire carries coded ID
    [first + k mod cycle], and with Cauchy coefficients the generation
    [k / cycle] as a byte; so no two of a cycle share an ID. *)
Theorem coded_packets_numbered disp {W C F} `{WindowPolicyLaws W} `{CongestionLaws C}
    `{!FecRateController F} `{!FecLaws F} `{HeaderCastLaw} src (e : Encoder W C F) out k raw :
  enc_session disp src e out → coded_packets out !! k = Some raw →
  let config := en_config e in
  ∃ p, Coded.parse raw = Ok p ∧
    ev_coded_id (Coded.ev p) = first_coded_id config + Z.of_nat k mod coded_id_cycle config ∧
    (ec_matrix_strategy config = Cauchy →
     ev_generation (Coded.ev p) = (Z.of_nat k / coded_id_cycle config) mod 256).
Proof.
  intros Hs Hk config. destruct (session_numbers disp src e out Hs) as [_ Hnum].
  destruct (numbered_from_lookup _ _ _ _ _ Hnum Hk) as (p & Hp & Hid & Hg). exists p. split_and!; [done..|].
  intros Hc. rw Hg //. unfold nth_generation. by rw bool_decide_true.
Qed.

Lemma coded_packets_numbered_witness :
  let e0 : Encoder AnyAckPolicy NoCongestionControl ConstantFecRate := encoder_new demo_config AnyAck NoCc demo_fec in
  ∃ e1 o1 e2 o2 raw, submit_source Ssse3 e0 (demo_src 0) = Ok (e1, o1) ∧
    submit_source Ssse3 e1 (demo_src 1) = Ok (e2, o2) ∧ coded_packets (o1 ++ o2) !! 1%nat = Some raw ∧
    ∃ p, @Coded.parse ReprC.cast raw = Ok p ∧ ev_coded_id (Coded.ev p) = 1.
Proof.
  intros e0. assert (enc_session Ssse3 demo_src e0 []) as Hs0
    by (apply session_new; [exact demo_config_ok|done|done|by apply demo_src_symbol]).
  assert (∃ e1 o1 e2 o2 raw, submit_source Ssse3 e0 (demo_src 0) = Ok (e1, o1) ∧ w_next_id (en_window e1) = 1 ∧
    submit_source Ssse3 e1 (demo_src 1) = Ok (e2, o2) ∧ en_config e2 = demo_config ∧
    coded_packets (o1 ++ o2) !! 1%nat = Some raw) as (e1 & o1 & e2 & o2 & raw & Hr1 & Hn & Hr2 & Hc & Hk).
  { eexists _, _, _, _, _. split; [vm_compute; reflexivity|]. split; [reflexivity|].
    split; [vm_compute; reflexivity|]. split; reflexivity. }
  exists e1, o1, e2, o2, raw. split_and!; [done..|].
  assert (enc_session Ssse3 demo_src e2 (o1 ++ o2)) as Hs2.
  { apply (session_submit _ _ e1 o1 (demo_src 1)); [|by rw Hn|by rw Hn|done].
    exact (session_submit _ _ e0 [] (demo_src 0) e1 o1 Hs0 eq_refl eq_refl Hr1). }
  destruct (@coded_packets_numbered Ssse3 AnyAckPolicy NoCongestionControl ConstantFecRate
    _ _ _ _ _ _ ReprC.cast ReprC.cast_law demo_src e2 (o1 ++ o2) 1%nat raw Hs2 Hk) as (p & Hp & Hid & _).
  exists p. split; [done|]. by rw Hid Hc.
Defined.
