(* ===== verification/BTree.v ===== *)
(** * Ordered maps

    [BTreeMap<u32, A>] is a [gmap Z A] whose iteration lists the keys in
    ascending order. *)

From S2P Require Import Prelude.
From stdpp Require Import sorting.
#[global] Open Scope Z_scope.

Section keys.
Context {A : Type}.
Implicit Types m : gmap Z A.

(** [m.keys().copied().collect()] *)
Definition bt_keys m : list Z := merge_sort Z.le (map_to_list m).*1.

(** [m.keys().next()], [m.keys().next_back()] *)
Definition bt_first m : option Z := head (bt_keys m).
Definition bt_last m : option Z := last (bt_keys m).

(** [m.range(from..)], keys only. *)
Definition bt_keys_from m (from : Z) : list Z := filter (λ k, from ≤ k) (bt_keys m).

Lemma elem_of_bt_keys m k : k ∈ bt_keys m ↔ is_Some (m !! k).
Proof.
  unfold bt_keys. rw merge_sort_Permutation list_elem_of_fmap. split.
  - intros ([k' a] & -> & H%elem_of_map_to_list). by exists a.
  - intros [a H]. exists (k, a). split; [done|]. by apply elem_of_map_to_list.
Qed.

Lemma bt_keys_NoDup m : NoDup (bt_keys m).
Proof. unfold bt_keys. rw merge_sort_Permutation. apply NoDup_fst_map_to_list. Qed.

Lemma bt_keys_sorted m : StronglySorted Z.lt (bt_keys m).
Proof.
  pose proof (bt_keys_NoDup m) as Hnd.
  assert (StronglySorted Z.le (bt_keys m)) as Hs.
  { apply (StronglySorted_merge_sort _). }
  induction Hs as [|k ks Hs IH Hk]; [constructor|].
  apply NoDup_cons in Hnd as [Hk' Hnd]. constructor; [by apply IH|].
  rw Forall_forall in Hk. apply Forall_forall. intros x Hx. specialize (Hk x Hx).
  assert (k ≠ x) by by intros ->. lia.
Qed.

Lemma length_bt_keys m : length (bt_keys m) = size m.
Proof.
  unfold bt_keys. rw merge_sort_Permutation length_fmap. apply length_map_to_list.
Qed.
End keys.

(** A loop over the keys that updates the value under each of them
    ([values_mut], or [get_mut] for the collected keys). *)
Section update.
Context {A E : Type} (f : Z → A → outcome E A).

Definition bt_update_key (m : gmap Z A) (k : Z) : outcome E (gmap Z A) :=
  match m !! k with
  | Some a => a ← f k a; Ok (<[k := a]> m)
  | None => Panic
  end.

Definition bt_update (m : gmap Z A) (ks : list Z) : outcome E (gmap Z A) :=
  mfor bt_update_key m ks.

(** When the body succeeds on every value it is the map of the results. *)
Lemma bt_update_ok (g : Z → A → A) m ks :
  NoDup ks → (∀ k, k ∈ ks → is_Some (m !! k)) →
  (∀ k a, k ∈ ks → m !! k = Some a → f k a = Ok (g k a)) →
  ∃ m', bt_update m ks = Ok m' ∧
    ∀ k, m' !! k = if decide (k ∈ ks) then g k <$> (m !! k) else m !! k.
Proof.
  unfold bt_update. revert m. induction ks as [|k ks IH]; intros m Hnd Hin Hf.
  { exists m. split; [done|]. intros k. case_decide as Hk; [by apply elem_of_nil in Hk|done]. }
  apply NoDup_cons in Hnd as [Hk Hnd]. destruct (Hin k) as [a Ha]; [by left|].
  assert (bt_update_key m k = Ok (<[k := g k a]> m)) as Hstep.
  { unfold bt_update_key. rw Ha (Hf k a) //. by left. }
  cbn [mfor]. rw Hstep bind_Ok.
  destruct (IH (<[k := g k a]> m)) as (m' & Hm & Hl); [done| | |].
  - intros x Hx. destruct (decide (x = k)) as [->|Hne]; [by rw lookup_insert_eq|].
    rw lookup_insert_ne; [apply Hin; by right|done].
  - intros x b Hx. rw lookup_insert_ne; [|by intros ->]. intros Hb. apply Hf; [by right|done].
  - exists m'. split; [done|]. intros x. rw Hl.
    destruct (decide (x = k)) as [->|Hne].
    + rw lookup_insert_eq Ha. repeat case_decide; set_solver.
    + rw lookup_insert_ne; [|done]. repeat case_decide; set_solver.
Qed.
End update.

Lemma bt_first_le {A} (m : gmap Z A) a k : bt_first m = Some a → is_Some (m !! k) → a ≤ k.
Proof.
  unfold bt_first. intros Hf Hk%elem_of_bt_keys. pose proof (bt_keys_sorted m) as Hs.
  destruct (bt_keys m) as [|b ks]; [done|]. injection Hf as ->.
  apply StronglySorted_inv in Hs as [_ Hs]. rw Forall_forall in Hs.
  apply elem_of_cons in Hk as [->|Hk]; [done|]. specialize (Hs k Hk). lia.
Qed.

Lemma last_max ks b k : StronglySorted Z.lt ks → last ks = Some b → k ∈ ks → k ≤ b.
Proof.
  intros Hs Hl Hk. apply last_Some in Hl as [l ->].
  apply StronglySorted_app in Hs as (Hs & _ & _).
  apply elem_of_app in Hk as [Hk|Hk%list_elem_of_singleton]; [|lia].
  specialize (Hs k b Hk ltac:(by apply list_elem_of_singleton)). lia.
Qed.

Lemma bt_last_le {A} (m : gmap Z A) b k : bt_last m = Some b → is_Some (m !! k) → k ≤ b.
Proof.
  intros Hl Hk%elem_of_bt_keys. by apply (last_max (bt_keys m)); [apply bt_keys_sorted|..].
Qed.

Lemma bt_first_in {A} (m : gmap Z A) a : bt_first m = Some a → is_Some (m !! a).
Proof.
  unfold bt_first. intros Hf. apply elem_of_bt_keys. destruct (bt_keys m); [done|].
  injection Hf as ->. by left.
Qed.
Lemma bt_last_in {A} (m : gmap Z A) b : bt_last m = Some b → is_Some (m !! b).
Proof.
  unfold bt_last. intros [l Hl]%last_Some. apply elem_of_bt_keys. rw Hl.
  apply elem_of_app. right. by apply list_elem_of_singleton.
Qed.

(** Both ends exist, or the map is empty. *)
Lemma bt_ends {A} (m : gmap Z A) :
  (m = ∅ ∧ bt_first m = None ∧ bt_last m = None) ∨
  ∃ a b, bt_first m = Some a ∧ bt_last m = Some b.
Proof.
  unfold bt_first, bt_last. destruct (bt_keys m) as [|k ks] eqn:E.
  - left. split; [|done]. apply map_size_empty_inv. by rw -length_bt_keys E.
  - right. destruct (last (k :: ks)) as [b|] eqn:El; [by eexists _, _|].
    by apply last_None in El.
Qed.
