(* ===== verification/Buffer.v ===== *)
(** * codec/decoder/buffer.rs: in-order delivery *)

From S2P Require Import Prelude Error BTree.
From stdpp Require Import sorting.
#[global] Open Scope Z_scope.

Record SymbolBuffer := { sb_symbols : gmap Z bytes; sb_next_delivery_id : Z }.

Definition buffer_new (start_id : Z) : SymbolBuffer :=
  {| sb_symbols := ∅; sb_next_delivery_id := start_id |}.

(** [entry(id).or_insert(data)] *)
Definition or_insert (m : gmap Z bytes) (id : Z) (data : bytes) : gmap Z bytes :=
  match m !! id with Some _ => m | None => <[id := data]> m end.

Definition buffer_insert (b : SymbolBuffer) (id : Z) (data : bytes) : SymbolBuffer :=
  if sb_next_delivery_id b <=? id
  then {| sb_symbols := or_insert (sb_symbols b) id data;
          sb_next_delivery_id := sb_next_delivery_id b |}
  else b.

Definition buffer_contains (b : SymbolBuffer) (id : Z) : bool := bool_decide (is_Some (sb_symbols b !! id)).
Definition buffer_get (b : SymbolBuffer) (id : Z) : option bytes := sb_symbols b !! id.
Definition highest_id (b : SymbolBuffer) : option Z := bt_last (sb_symbols b).
Definition ids_from (b : SymbolBuffer) (from : Z) : list Z := bt_keys_from (sb_symbols b) from.
Definition buffer_len (b : SymbolBuffer) : nat := size (sb_symbols b).
Definition buffer_is_empty (b : SymbolBuffer) : bool := (buffer_len b =? 0)%nat.

(** Every round removes a symbol: [size] rounds empty the map. *)
Fixpoint drain_loop (fuel : nat) (b : SymbolBuffer) (out : list (Z * bytes))
  : SymbolBuffer * list (Z * bytes) :=
  match fuel with
  | O => (b, out)
  | S fuel =>
      match sb_symbols b !! sb_next_delivery_id b with
      | Some data =>
          drain_loop fuel {| sb_symbols := delete (sb_next_delivery_id b) (sb_symbols b);
                             sb_next_delivery_id := u32 (sb_next_delivery_id b + 1) |}
            (out ++ [(sb_next_delivery_id b, data)])
      | None => (b, out)
      end
  end.
Definition drain_deliverable (b : SymbolBuffer) : SymbolBuffer * list (Z * bytes) :=
  drain_loop (S (size (sb_symbols b))) b [].

Definition prune_below (b : SymbolBuffer) (floor : Z) : SymbolBuffer :=
  {| sb_symbols := filter (λ '(id, _), floor ≤ id) (sb_symbols b);
     sb_next_delivery_id :=
       if sb_next_delivery_id b <? floor then floor else sb_next_delivery_id b |}.

(** ** Delivery *)

(** Buffered IDs are at or above the next one to deliver and have a successor. *)
Record buffer_ok (b : SymbolBuffer) : Prop := {
  bo_next : is_u32 (sb_next_delivery_id b);
  bo_ids : ∀ id, is_Some (sb_symbols b !! id) → sb_next_delivery_id b ≤ id < 4294967295;
}.

Lemma buffer_new_ok start : is_u32 start → buffer_ok (buffer_new start).
Proof. intros H. constructor; cbn; [done|]. intros id. rw lookup_empty. by intros [? ?]. Qed.

Lemma or_insert_lookup m id data k :
  or_insert m id data !! k =
    match m !! k with Some d => Some d | None => if decide (k = id) then Some data else None end.
Proof.
  unfold or_insert. destruct (m !! id) as [d|] eqn:E.
  - destruct (m !! k) eqn:Ek; [done|]. case_decide; [congruence|done].
  - case_decide as Hk; [subst; by rw E lookup_insert_eq|].
    rw lookup_insert_ne; [by destruct (m !! k)|by intros ->].
Qed.

Lemma buffer_insert_ok b id data : buffer_ok b → id < 4294967295 →
  buffer_ok (buffer_insert b id data).
Proof.
  intros [Hn Hi] Hid. unfold buffer_insert. destruct (Z.leb_spec (sb_next_delivery_id b) id); [|done].
  constructor; cbn; [done|]. intros k. rw or_insert_lookup.
  destruct (sb_symbols b !! k) eqn:Ek; [intros _; apply Hi; by eexists|].
  case_decide; [subst; lia|by intros [? ?]].
Qed.

Lemma prune_ok b floor : buffer_ok b → is_u32 floor → buffer_ok (prune_below b floor).
Proof.
  intros [Hn Hi] Hf. constructor; cbn; [by case_match|].
  intros k [d [Hd Hk]%map_lookup_filter_Some]. specialize (Hi k ltac:(by exists d)).
  case_match; lia.
Qed.

(** What draining does: the longest run of consecutive IDs from the next one,
    in order, each with its stored symbol. *)
Lemma drain_loop_spec fuel b out : buffer_ok b → (size (sb_symbols b) < fuel)%nat →
  ∃ n b', drain_loop fuel b out = (b', out ++ ((λ id, (id, default [] (sb_symbols b !! id)))
        <$> seqZ (sb_next_delivery_id b) (Z.of_nat n))) ∧
    buffer_ok b' ∧ sb_next_delivery_id b' = sb_next_delivery_id b + Z.of_nat n ∧
    sb_symbols b' !! sb_next_delivery_id b' = None ∧
    (∀ id, sb_next_delivery_id b ≤ id < sb_next_delivery_id b + Z.of_nat n →
      is_Some (sb_symbols b !! id)) ∧
    (∀ id, sb_next_delivery_id b' ≤ id → sb_symbols b' !! id = sb_symbols b !! id).
Proof.
  revert b out. induction fuel as [|fuel IH]; intros b out Hb Hf; [lia|]. cbn [drain_loop].
  destruct (sb_symbols b !! sb_next_delivery_id b) as [data|] eqn:E.
  2: { exists 0%nat, b. rw Z.add_0_r app_nil_r. split_and!; try done. lia. }
  destruct Hb as [Hn Hi]. pose proof (Hi _ ltac:(by exists data)) as Hlt.
  rw u32_small; [|word_bound]. set (b1 := {| sb_symbols := _; sb_next_delivery_id := _ |}).
  assert (buffer_ok b1) as Hb1.
  { constructor; cbn; [word_bound|]. intros id [d Hd%lookup_delete_Some]. destruct Hd as [Hne Hd].
    specialize (Hi id ltac:(by exists d)). lia. }
  assert (size (sb_symbols b1) < fuel)%nat as Hf1.
  { assert (size (sb_symbols b) ≠ 0)%nat
      by (intros H0%map_size_empty_inv; by rw H0 lookup_empty in E).
    cbn. rw map_size_delete_Some; [lia|by exists data]. }
  destruct (IH b1 (out ++ [(sb_next_delivery_id b, data)]) Hb1 Hf1)
    as (n & b' & Hl & Hok & Hn' & Hnone & Hall & Hrest). cbn [sb_next_delivery_id b1] in *.
  exists (S n), b'. split_and!; [|done|lia|done| |].
  - rw Hl -app_assoc. do 2 f_equal. rw (seqZ_cons _ (Z.of_nat (S n))); [|lia].
    cbn [fmap list_fmap app]. rw E. f_equal. rw Nat2Z.inj_succ Z.pred_succ.
    apply list_fmap_ext. intros i id Hid%lookup_seqZ. cbn. rw lookup_delete_ne //. lia.
  - intros id Hid. destruct (decide (id = sb_next_delivery_id b)) as [->|Hne]; [by exists data|].
    specialize (Hall id ltac:(lia)). cbn in Hall. by rw lookup_delete_ne in Hall; [|lia].
  - intros id Hid. rw Hrest //. cbn. rw lookup_delete_ne //. lia.
Qed.

(** C36: draining delivers exactly the maximal run of consecutive buffered IDs
    from the next expected one, in ascending order, each with its stored
    symbol; the next ID is advanced past it and is then not buffered, and every
    later symbol stays. *)
Theorem drain_in_order b : buffer_ok b →
  ∃ n, let '(b', out) := drain_deliverable b in
    out = (λ id, (id, default [] (sb_symbols b !! id))) <$> seqZ (sb_next_delivery_id b) (Z.of_nat n)
    ∧ Forall (λ '(id, d), sb_symbols b !! id = Some d) out ∧ buffer_ok b' ∧
    sb_next_delivery_id b' = sb_next_delivery_id b + Z.of_nat n ∧
    sb_symbols b' !! sb_next_delivery_id b' = None ∧
    (∀ id, sb_next_delivery_id b' ≤ id → sb_symbols b' !! id = sb_symbols b !! id).
Proof.
  intros Hb. destruct (drain_loop_spec (S (size (sb_symbols b))) b [] Hb)
    as (n & b' & Hl & Hok & Hn & Hnone & Hall & Hrest); [lia|].
  exists n. unfold drain_deliverable. rw Hl. split_and!; try done.
  apply Forall_fmap, Forall_forall. intros id Hid%elem_of_seqZ.
  destruct (Hall id) as [d Hd]; [lia|]. cbn. by rw Hd.
Qed.

Lemma drain_in_order_witness :
  let b := {| sb_symbols := <[5 := [50]]> (<[6 := [60]]> (<[8 := [80]]> ∅));
              sb_next_delivery_id := 5 |} in
  (drain_deliverable b).2 = [(5, [50]); (6, [60])] ∧
  ∃ n, let '(b', out) := drain_deliverable b in
    out = (λ id, (id, default [] (sb_symbols b !! id))) <$> seqZ 5 (Z.of_nat n)
    ∧ Forall (λ '(id, d), sb_symbols b !! id = Some d) out ∧ buffer_ok b' ∧
    sb_next_delivery_id b' = 5 + Z.of_nat n ∧
    sb_symbols b' !! sb_next_delivery_id b' = None ∧
    (∀ id, sb_next_delivery_id b' ≤ id → sb_symbols b' !! id = sb_symbols b !! id).
Proof.
  split; [vm_compute; reflexivity|].
  apply (drain_in_order {| sb_symbols := <[5 := [50]]> (<[6 := [60]]> (<[8 := [80]]> ∅));
                           sb_next_delivery_id := 5 |}).
  constructor; cbn; [word_bound|]. intros id.
  rw !lookup_insert. repeat case_decide; [lia..|]. rw lookup_empty. by intros [? ?].
Defined.
