(* ===== verification/Matrix.v ===== *)
(** * codec/decoder/matrix.rs: incremental Gaussian elimination *)

From S2P Require Import Prelude Error Config Tables Gf Simd CoefGen IdStorage EncVec LinComb BTree.
From stdpp Require Import sorting strings.
#[global] Open Scope Z_scope.

(** ** Dense coefficient rows *)
Record DenseCoefs := { dn_base : Z; dn_coefs : bytes }.

Definition dense_new (base_id : Z) (len : nat) : DenseCoefs :=
  {| dn_base := base_id; dn_coefs := replicate len 0 |}.

(** [v[i] = x] *)
Definition index_set {E} (v : bytes) (i : nat) (x : Z) : outcome E bytes :=
  if (i <? length v)%nat then Ok (<[i := x]> v) else Panic.

(** [(a - b) as usize] on u32 values. *)
Definition sub_usize (a b : Z) : nat := Z.to_nat (u32 (a - b)).

Definition from_map (map : gmap Z Z) : result DenseCoefs :=
  match bt_first map, bt_last map with
  | Some min, Some max =>
      let len := (sub_usize max min + 1)%nat in
      let c := dense_new min len in
      coefs ← mfor (λ v id,
        match map !! id with
        | Some coef => index_set v (sub_usize id min) coef
        | None => Panic
        end) (dn_coefs c) (bt_keys map);
      Ok {| dn_base := min; dn_coefs := coefs |}
  | _, _ => Ok {| dn_base := 0; dn_coefs := [] |}
  end.

Definition dense_get (d : DenseCoefs) (id : Z) : Z :=
  if id <? dn_base d then 0
  else default 0 (dn_coefs d !! sub_usize id (dn_base d)).

Definition ensure_covers (d : DenseCoefs) (id : Z) : DenseCoefs :=
  if (length (dn_coefs d) =? 0)%nat then {| dn_base := id; dn_coefs := [0] |}
  else if id <? dn_base d then
    let prepend := sub_usize (dn_base d) id in
    {| dn_base := id; dn_coefs := replicate prepend 0 ++ dn_coefs d |}
  else
    let needed := (sub_usize id (dn_base d) + 1)%nat in
    if (length (dn_coefs d) <? needed)%nat
    then {| dn_base := dn_base d; dn_coefs := resize needed 0 (dn_coefs d) |}
    else d.

Definition dense_set (d : DenseCoefs) (id val : Z) : result DenseCoefs :=
  let d := ensure_covers d id in
  coefs ← index_set (dn_coefs d) (sub_usize id (dn_base d)) val;
  Ok {| dn_base := dn_base d; dn_coefs := coefs |}.

(** [is_solved]: the loop returns at the second nonzero coefficient. *)
Fixpoint is_solved_loop (base i : Z) (coefs : bytes) (pivot : option Z) : option Z :=
  match coefs with
  | [] => pivot
  | c :: coefs =>
      if c =? 0 then is_solved_loop base (i + 1) coefs pivot
      else match pivot with
           | Some _ => None
           | None => is_solved_loop base (i + 1) coefs (Some (u32 (base + u32 i)))
           end
  end.
Definition is_solved (d : DenseCoefs) : option Z := is_solved_loop (dn_base d) 0 (dn_coefs d) None.

Definition pivot_id (d : DenseCoefs) : option Z :=
  (λ '(i, _), u32 (dn_base d + u32 (Z.of_nat i))) <$> list_find (λ c, c ≠ 0) (dn_coefs d).
Definition pivot_coef (d : DenseCoefs) : option Z :=
  snd <$> list_find (λ c, c ≠ 0) (dn_coefs d).

Definition dense_remove (d : DenseCoefs) (id : Z) : DenseCoefs :=
  if id <? dn_base d then d
  else
    let idx := sub_usize id (dn_base d) in
    if (idx <? length (dn_coefs d))%nat
    then {| dn_base := dn_base d; dn_coefs := <[idx := 0]> (dn_coefs d) |}
    else d.

Definition is_zero (d : DenseCoefs) : bool := forallb (λ c, c =? 0) (dn_coefs d).

Definition nonzero_ids (d : DenseCoefs) : list Z :=
  omap (λ '(i, c), if c =? 0 then None else Some (u32 (dn_base d + u32 (Z.of_nat i))))
    (imap pair (dn_coefs d)).

Record MatrixRow := { mr_coefs : DenseCoefs; mr_payload : bytes }.

Section ops.
(** The kernel the CPU selects. *)
Context (disp : Dispatch).

Definition dense_subtract_scaled (d other : DenseCoefs) (factor : Z) (field : Field)
  : result DenseCoefs :=
  if (length (dn_coefs other) =? 0)%nat || (factor =? 0) then Ok d
  else
    let other_end := u32 (dn_base other + u32 (Z.of_nat (length (dn_coefs other)))) in
    let d := ensure_covers d (dn_base other) in
    let d := ensure_covers d (Z.max 0 (other_end - 1)) in
    let dst_off := sub_usize (dn_base other) (dn_base d) in
    let len := length (dn_coefs other) in
    dst ← slice (dn_coefs d) dst_off (dst_off + len);
    dst ← mul_acc disp field dst (dn_coefs other) factor;
    Ok {| dn_base := dn_base d;
          dn_coefs := take dst_off (dn_coefs d) ++ dst ++ drop (dst_off + len) (dn_coefs d) |}.

Definition dense_scale (d : DenseCoefs) (factor : Z) (field : Field) : result DenseCoefs :=
  coefs ← mul_scale disp field (dn_coefs d) factor;
  Ok {| dn_base := dn_base d; dn_coefs := coefs |}.

Definition row_subtract_scaled (r other : MatrixRow) (factor : Z) (field : Field)
  : result MatrixRow :=
  coefs ← dense_subtract_scaled (mr_coefs r) (mr_coefs other) factor field;
  payload ← mul_acc disp field (mr_payload r) (mr_payload other) factor;
  Ok {| mr_coefs := coefs; mr_payload := payload |}.

Definition coef_inv (v : Z) (field : Field) : result Z :=
  if v =? 0 then Err DivisionByZero
  else match field with
  | Gf2_8 => i ← @gf_inv Gf2_8_field v; Ok (@to_u8 Gf2_8_field i)
  | Gf2_4 => i ← @gf_inv Gf2_4_field (Gf2_4_new (Z.land v 15)); Ok (@to_u8 Gf2_4_field i)
  end.

Definition coef_mul_fn (a b : Z) (field : Field) : Z :=
  match field with
  | Gf2_8 => @to_u8 Gf2_8_field (@gf_mul Gf2_8_field a b)
  | Gf2_4 => @to_u8 Gf2_4_field
               (@gf_mul Gf2_4_field (Gf2_4_new (Z.land a 15)) (Gf2_4_new (Z.land b 15)))
  end.

Definition normalize (r : MatrixRow) (field : Field) : result MatrixRow :=
  match pivot_coef (mr_coefs r) with
  | None => Err (MalformedEncodingVector "zero pivot")
  | Some pivot_c =>
      if pivot_c =? 1 then Ok r
      else
        inv ← coef_inv pivot_c field;
        coefs ← dense_scale (mr_coefs r) inv field;
        payload ← mul_scale disp field (mr_payload r) inv;
        Ok {| mr_coefs := coefs; mr_payload := payload |}
  end.

Record DecodingMatrix := {
  dm_rows : gmap Z MatrixRow;
  dm_field : Field;
  dm_symbol_size : Z;
  dm_max_rows : Z;
}.

Definition matrix_new (field : Field) (symbol_size max_rows : Z) : DecodingMatrix :=
  {| dm_rows := ∅; dm_field := field; dm_symbol_size := symbol_size; dm_max_rows := max_rows |}.
Definition set_rows (m : DecodingMatrix) (rows : gmap Z MatrixRow) : DecodingMatrix :=
  {| dm_rows := rows; dm_field := dm_field m; dm_symbol_size := dm_symbol_size m;
     dm_max_rows := dm_max_rows m |}.
Definition row_count (m : DecodingMatrix) : nat := size (dm_rows m).

(** The coefficient map of an encoding vector; a later entry for an ID
    replaces an earlier one. *)
Fixpoint coef_map_loop (ev : EncodingVector) (i : nat) (ids : list Z) (map : gmap Z Z)
  : result (gmap Z Z) :=
  match ids with
  | [] => Ok map
  | id :: ids =>
      c ← (if has_explicit_coefs ev then index (ev_coefficients ev) i
           else Ok (vandermonde_coef (ev_field ev) id (ev_coded_id ev)));
      coef_map_loop ev (S i) ids (if c =? 0 then map else <[id := c]> map)
  end.

(** Move the term of a known symbol from the coefficients to the payload. *)
Definition substitute (field : Field) (r : MatrixRow) (id : Z) (data : bytes) : result MatrixRow :=
  let c := dense_get (mr_coefs r) id in
  if c =? 0 then Ok r
  else
    let coefs := dense_remove (mr_coefs r) id in
    payload ← mul_acc disp field (mr_payload r) data c;
    Ok {| mr_coefs := coefs; mr_payload := payload |}.

Definition substitute_known (field : Field) (known : gmap Z bytes) (r : MatrixRow)
  : result MatrixRow :=
  mfor (λ r id, match known !! id with Some data => substitute field r id data | None => Panic end)
    r (bt_keys known).

(** The bodies of the loops over the pivot IDs. *)
Definition eliminate_one (m : DecodingMatrix) (row : MatrixRow) (pid : Z) : result MatrixRow :=
  let c := dense_get (mr_coefs row) pid in
  if c =? 0 then Ok row
  else match dm_rows m !! pid with
       | Some existing => row_subtract_scaled row existing c (dm_field m)
       | None => Panic
       end.
Definition forward_eliminate (m : DecodingMatrix) (row : MatrixRow) : result MatrixRow :=
  mfor (eliminate_one m) row (bt_keys (dm_rows m)).

Definition back_substitute_one (field : Field) (new_pivot : Z) (new_row row : MatrixRow)
  : result MatrixRow :=
  let c := dense_get (mr_coefs row) new_pivot in
  if c =? 0 then Ok row else row_subtract_scaled row new_row c field.
Definition back_substitute (m : DecodingMatrix) (new_pivot : Z) (new_row : MatrixRow)
  : result DecodingMatrix :=
  rows ← bt_update (λ _, back_substitute_one (dm_field m) new_pivot new_row)
    (dm_rows m) (bt_keys (dm_rows m));
  Ok (set_rows m rows).

(** *** Substituting a known symbol, with its cascade *)

(** [for row in self.rows.values_mut()]: the rows that become singletons are
    remembered. *)
Definition subst_row (field : Field) (sym_id : Z) (sym_data : bytes)
    (st : gmap Z MatrixRow * list Z) (pid : Z) : result (gmap Z MatrixRow * list Z) :=
  let '(rows, newly_solved) := st in
  match rows !! pid with
  | None => Panic
  | Some row =>
      if dense_get (mr_coefs row) sym_id =? 0 then Ok st
      else
        row ← substitute field row sym_id sym_data;
        let rows := <[pid := row]> rows in
        match is_solved (mr_coefs row) with
        | Some solved_id => Ok (rows, newly_solved ++ [solved_id])
        | None => Ok (rows, newly_solved)
        end
  end.

Record cascade := {
  ca_rows : gmap Z MatrixRow;
  ca_known : gmap Z bytes;
  ca_queue : list (Z * bytes);
  ca_recovered : list (Z * bytes);
}.

(** [for solved_id in newly_solved] *)
Definition extract_solved (s : cascade) (solved_id : Z) : cascade :=
  match ca_rows s !! solved_id with
  | None => s
  | Some row =>
      let sym := mr_payload row in
      {| ca_rows := delete solved_id (ca_rows s);
         ca_known := ca_known s;
         ca_queue := match ca_known s !! solved_id with
                     | Some _ => ca_queue s
                     | None => ca_queue s ++ [(solved_id, sym)]
                     end;
         ca_recovered := ca_recovered s ++ [(solved_id, sym)] |}
  end.

(** The body of [while let Some((sym_id, sym_data)) = queue.pop_front()]. *)
Definition cascade_step (field : Field) (s : cascade) (sym_id : Z) (sym_data : bytes)
  : result cascade :=
  '(rows, newly_solved) ←
    mfor (subst_row field sym_id sym_data) (ca_rows s, []) (bt_keys (ca_rows s));
  let s := {| ca_rows := rows; ca_known := <[sym_id := sym_data]> (ca_known s);
              ca_queue := ca_queue s; ca_recovered := ca_recovered s |} in
  Ok (fold_left extract_solved newly_solved s).

(** Every queued symbol but the first took a row out of the matrix. *)
Fixpoint cascade_loop (fuel : nat) (field : Field) (s : cascade) : result cascade :=
  match ca_queue s with
  | [] => Ok s
  | (sym_id, sym_data) :: queue =>
      match fuel with
      | O => Panic
      | S fuel =>
          s ← cascade_step field {| ca_rows := ca_rows s; ca_known := ca_known s;
                                    ca_queue := queue; ca_recovered := ca_recovered s |}
                sym_id sym_data;
          cascade_loop fuel field s
      end
  end.

Definition add_known_source (m : DecodingMatrix) (id : Z) (data : bytes)
    (known_sources : gmap Z bytes) : result (DecodingMatrix * list (Z * bytes)) :=
  s ← cascade_loop (S (size (dm_rows m))) (dm_field m)
        {| ca_rows := dm_rows m; ca_known := known_sources; ca_queue := [(id, data)];
           ca_recovered := [] |};
  Ok (set_rows m (ca_rows s), ca_recovered s).

(** *** Adding a coded equation *)

Record collect := {
  co_matrix : DecodingMatrix;
  co_extra : gmap Z bytes;
  co_recovered : list (Z * bytes);
}.

Definition insert_all (m : gmap Z bytes) (l : list (Z * bytes)) : gmap Z bytes :=
  fold_left (λ m '(id, data), <[id := data]> m) l m.

(** The body of [for pid in solved]. *)
Definition collect_one (s : collect) (pid : Z) : result collect :=
  match dm_rows (co_matrix s) !! pid with
  | None => Ok s
  | Some row =>
      let m := set_rows (co_matrix s) (delete pid (dm_rows (co_matrix s))) in
      match is_solved (mr_coefs row) with
      | None => Ok {| co_matrix := m; co_extra := co_extra s; co_recovered := co_recovered s |}
      | Some solved_id =>
          let sym := mr_payload row in
          let extra := <[solved_id := sym]> (co_extra s) in
          '(m, more) ← add_known_source m solved_id sym extra;
          Ok {| co_matrix := m; co_extra := insert_all extra more;
                co_recovered := co_recovered s ++ [(solved_id, sym)] ++ more |}
      end
  end.

Definition row_solved (rows : gmap Z MatrixRow) (pid : Z) : bool :=
  match rows !! pid with
  | Some row => match is_solved (mr_coefs row) with Some _ => true | None => false end
  | None => false
  end.
Definition solved_keys (rows : gmap Z MatrixRow) : list Z :=
  filter (λ pid, row_solved rows pid = true) (bt_keys rows).

(** Every round removes at least one row. *)
Fixpoint collect_loop (fuel : nat) (s : collect) : result collect :=
  match solved_keys (dm_rows (co_matrix s)) with
  | [] => Ok s
  | solved =>
      match fuel with
      | O => Panic
      | S fuel => s ← mfor collect_one s solved; collect_loop fuel s
      end
  end.

Definition evict_row (m : DecodingMatrix) : DecodingMatrix :=
  if dm_max_rows m <=? Z.of_nat (size (dm_rows m)) then
    match bt_first (dm_rows m) with
    | Some oldest => set_rows m (delete oldest (dm_rows m))
    | None => m
    end
  else m.

Definition add_coded (m : DecodingMatrix) (ev : EncodingVector) (payload : bytes)
    (known_sources : gmap Z bytes) : result (DecodingMatrix * list (Z * bytes)) :=
  coef_map ← coef_map_loop ev 0 (ev_source_ids ev) ∅;
  coefs ← from_map coef_map;
  let row := {| mr_coefs := coefs; mr_payload := payload |} in
  row ← substitute_known (dm_field m) known_sources row;
  if is_zero (mr_coefs row) then Ok (m, [])
  else
    row ← forward_eliminate m row;
    if is_zero (mr_coefs row) then Ok (m, [])
    else
      row ← normalize row (dm_field m);
      match pivot_id (mr_coefs row) with
      | None => Err (MalformedEncodingVector "no pivot after elimination")
      | Some pid =>
          m ← back_substitute m pid row;
          let m := evict_row m in
          let m := set_rows m (<[pid := row]> (dm_rows m)) in
          s ← collect_loop (S (size (dm_rows m)))
                {| co_matrix := m; co_extra := known_sources; co_recovered := [] |};
          Ok (co_matrix s, co_recovered s)
      end.
End ops.

(** Two coded packets recover two lost symbols. *)
Example recover_two :
  let src id := [u8 (id * 3 + 1); u8 (id * 5 + 2)] in
  let ev coded := ev_vandermonde Gf2_8 coded [10; 11; 12] in
  let pay coded := lincomb Gf2_8 2 src (ev_terms (ev coded)) in
  (m1 ← add_coded Ssse3 (matrix_new Gf2_8 2 16) (ev 1) (pay 1) {[ 11 := src 11 ]};
   '(m2, out) ← add_coded Ssse3 m1.1 (ev 2) (pay 2) {[ 11 := src 11 ]};
   Ok (out, size (dm_rows m2)))
  = Ok ([(10, src 10); (12, src 12)], 0%nat).
Proof. vm_compute. reflexivity. Qed.

(** A source symbol that arrives after the row keyed by it leaves a row whose
    last coefficient is not 1; the next coded packet then reports its payload
    as a recovered symbol, with the wrong bytes. *)
Example dead_pivot :
  let src id := [u8 (id * 3 + 1); u8 (id * 5 + 2)] in
  let ev coded ids := ev_vandermonde Gf2_8 coded ids in
  let pay coded ids := lincomb Gf2_8 2 src (ev_terms (ev coded ids)) in
  (m1 ← add_coded Ssse3 (matrix_new Gf2_8 2 16) (ev 1 [10; 11]) (pay 1 [10; 11]) ∅;
   m2 ← add_known_source Ssse3 m1.1 10 (src 10) {[ 10 := src 10 ]};
   m3 ← add_coded Ssse3 m2.1 (ev 2 [20]) (pay 2 [20]) {[ 10 := src 10 ]};
   Ok (m3.2, src 11))
  = Ok ([(11, [68; 114]); (20, src 20)], [34; 57]).
Proof. vm_compute. reflexivity. Qed.

(** ** The loops end

    For any matrix, however it came about, and any packet. *)
Section termination.
Context (disp : Dispatch).

(** [while let Some((sym_id, sym_data)) = queue.pop_front()] *)
Definition cascade_body (f : Field) (s : cascade) : option (result cascade) :=
  match ca_queue s with
  | [] => None
  | (sym_id, sym_data) :: queue =>
      Some (cascade_step disp f {| ca_rows := ca_rows s; ca_known := ca_known s; ca_queue := queue;
                                   ca_recovered := ca_recovered s |} sym_id sym_data)
  end.
(** [loop { ... if solved.is_empty() { break } ... }] *)
Definition collect_body (s : collect) : option (result collect) :=
  match solved_keys (dm_rows (co_matrix s)) with
  | [] => None
  | solved => Some (mfor (collect_one disp) s solved)
  end.

Lemma subst_row_size f id data ks : ∀ rows ns rows' ns',
  mfor (subst_row disp f id data) (rows, ns) ks = Ok (rows', ns') → size rows' = size rows.
Proof.
  induction ks as [|k ks IH]; intros rows ns rows' ns'; cbn [mfor]; [by intros [= -> ->]|].
  intros ([rows1 ns1] & H1 & H2)%bind_Ok_inv. apply IH in H2 as ->.
  unfold subst_row in H1. destruct (rows !! k) as [row|] eqn:Ek; [|done].
  destruct (_ =? 0); [by injection H1 as -> ->|]. apply bind_Ok_inv in H1 as (row' & _ & H1).
  assert (size (<[k := row']> rows) = size rows) as Hs by (rw map_size_insert Ek //).
  destruct (is_solved _); injection H1 as <- <-; exact Hs.
Qed.

Lemma extract_solved_size s id :
  (length (ca_queue (extract_solved s id)) + size (ca_rows (extract_solved s id))
   ≤ length (ca_queue s) + size (ca_rows s))%nat.
Proof.
  unfold extract_solved. destruct (ca_rows s !! id) as [row|] eqn:Er; [|done]. cbn.
  rw map_size_delete Er.
  assert (size (ca_rows s) ≠ 0%nat) by (apply map_size_non_empty_iff; intros Hnil; by rw Hnil lookup_empty in Er).
  destruct (ca_known s !! id); rw ?length_app /=; lia.
Qed.

Lemma cascade_step_size f s id data s1 : cascade_step disp f s id data = Ok s1 →
  (length (ca_queue s1) + size (ca_rows s1) ≤ length (ca_queue s) + size (ca_rows s))%nat.
Proof.
  unfold cascade_step. intros ([rows ns] & Hr%subst_row_size & [= <-])%bind_Ok_inv.
  assert (∀ ns s0, (length (ca_queue (fold_left extract_solved ns s0)) + size (ca_rows (fold_left extract_solved ns s0))
    ≤ length (ca_queue s0) + size (ca_rows s0))%nat) as Hfold.
  { clear. induction ns as [|n ns IH]; intros s0; [done|]. cbn [fold_left].
    etransitivity; [apply IH|apply extract_solved_size]. }
  etransitivity; [apply Hfold|]. cbn. lia.
Qed.

Lemma cascade_loop_runs f fuel s : (length (ca_queue s) + size (ca_rows s) ≤ fuel)%nat →
  while_runs (cascade_body f) s (cascade_loop disp fuel f s).
Proof.
  apply (while_fuel _ (λ fuel, cascade_loop disp fuel f) (λ s, length (ca_queue s) + size (ca_rows s))%nat);
    clear; unfold cascade_body.
  - intros [|fuel] s; cbn [cascade_loop]; by destruct (ca_queue s) as [|[] ?].
  - intros s m. destruct (ca_queue s) as [|[] ?]; [done|]. cbn. lia.
  - intros s s1. destruct (ca_queue s) as [|[id data] q]; [done|]. intros [= H1%cascade_step_size].
    cbn in H1 |- *. lia.
Qed.

Lemma cascade_loop_size fuel f s s1 : cascade_loop disp fuel f s = Ok s1 →
  (length (ca_queue s1) + size (ca_rows s1) ≤ length (ca_queue s) + size (ca_rows s))%nat.
Proof.
  revert s. induction fuel as [|fuel IH]; intros s; cbn [cascade_loop];
    destruct (ca_queue s) as [|[id data] q] eqn:Eq; try done; try (intros [= <-]; by rw Eq).
  intros (s2 & H1%cascade_step_size & H2%IH)%bind_Ok_inv. cbn in H1 |- *. lia.
Qed.

Lemma add_known_source_size m id data known m' r : add_known_source disp m id data known = Ok (m', r) →
  (size (dm_rows m') ≤ size (dm_rows m))%nat.
Proof.
  unfold add_known_source. intros (s & Hl & [= <- _])%bind_Ok_inv. revert Hl. cbn [cascade_loop ca_queue].
  intros (s1 & H1%cascade_step_size & H2%cascade_loop_size)%bind_Ok_inv. cbn in *. lia.
Qed.

Lemma collect_one_size s pid s1 : collect_one disp s pid = Ok s1 →
  (size (dm_rows (co_matrix s1)) ≤ size (dm_rows (co_matrix s)))%nat ∧
  (is_Some (dm_rows (co_matrix s) !! pid) → size (dm_rows (co_matrix s1)) < size (dm_rows (co_matrix s)))%nat.
Proof.
  unfold collect_one. destruct (dm_rows (co_matrix s) !! pid) as [row|] eqn:Er.
  - assert (size (delete pid (dm_rows (co_matrix s))) < size (dm_rows (co_matrix s)))%nat as Hd.
    { rw map_size_delete Er. assert (size (dm_rows (co_matrix s)) ≠ 0%nat); [|lia].
      apply map_size_non_empty_iff. intros Hnil. by rw Hnil lookup_empty in Er. }
    destruct (is_solved _) as [sid|].
    + intros ([m more] & Ha%add_known_source_size & [= <-])%bind_Ok_inv. cbn in *. split; intros; lia.
    + intros [= <-]. cbn. split; intros; lia.
  - intros [= <-]. split; [done|by intros [? ?]].
Qed.

Lemma collect_round_size pids s s1 : mfor (collect_one disp) s pids = Ok s1 →
  (size (dm_rows (co_matrix s1)) ≤ size (dm_rows (co_matrix s)))%nat.
Proof.
  revert s. induction pids as [|p pids IH]; intros s; cbn [mfor]; [by intros [= <-]|].
  intros (s2 & [H1 _]%collect_one_size & H2%IH)%bind_Ok_inv. lia.
Qed.

Lemma collect_loop_runs fuel s : (size (dm_rows (co_matrix s)) ≤ fuel)%nat →
  while_runs collect_body s (collect_loop disp fuel s).
Proof.
  apply (while_fuel _ (collect_loop disp) (λ s, size (dm_rows (co_matrix s)))); clear; unfold collect_body.
  - intros [|fuel] s; cbn [collect_loop]; by destruct (solved_keys _).
  - intros s m. destruct (solved_keys _) as [|p ps] eqn:Hs; [done|]. intros _.
    assert (p ∈ solved_keys (dm_rows (co_matrix s))) as Hp by (rw Hs; by left).
    apply list_elem_of_filter in Hp as [_ [row Hrow]%elem_of_bt_keys].
    apply Nat.neq_0_lt_0, map_size_non_empty_iff. intros Hnil. by rw Hnil lookup_empty in Hrow.
  - intros s s1. destruct (solved_keys _) as [|p ps] eqn:Hs; [done|]. intros [= Hr].
    assert (p ∈ solved_keys (dm_rows (co_matrix s))) as Hp by (rw Hs; by left).
    apply list_elem_of_filter in Hp as [_ Hrow%elem_of_bt_keys]. cbn [mfor] in Hr.
    apply bind_Ok_inv in Hr as (s2 & [_ H1]%collect_one_size & H2%collect_round_size). specialize (H1 Hrow). lia.
Qed.
End termination.

(** C13: on every matrix and every input, hostile ones included, the two loops of
    the decoding matrix end, within the rounds the model gives them: a symbol
    cascades at most once for every row, and a round of extraction removes a row. *)
Theorem matrix_loops_terminate disp (m : DecodingMatrix) id data known extra recovered :
  let s := {| ca_rows := dm_rows m; ca_known := known; ca_queue := [(id, data)]; ca_recovered := [] |} in
  let t := {| co_matrix := m; co_extra := extra; co_recovered := recovered |} in
  while_runs (cascade_body disp (dm_field m)) s (cascade_loop disp (S (size (dm_rows m))) (dm_field m) s) ∧
  while_runs (collect_body disp) t (collect_loop disp (S (size (dm_rows m))) t).
Proof. split; [by apply cascade_loop_runs|]. apply collect_loop_runs. cbn. lia. Qed.
