(* ===== verification/Dense.v ===== *)
(** * Dense coefficient rows as functions

    [dense_get] turns a row into a function from IDs to coefficients; every
    operation of [DenseCoefs] is characterised by what it does to it. *)

From S2P Require Import Prelude Error Config Tables Gf Simd CoefGen LinComb BTree Matrix.
From stdpp Require Import sorting.
#[global] Open Scope Z_scope.

(** IDs that have a successor. *)
Definition id_range (id : Z) : Prop := 0 ≤ id < 4294967295.

Record dense_ok (f : Field) (d : DenseCoefs) : Prop := {
  do_base : 0 ≤ dn_base d;
  do_end : dn_base d + Z.of_nat (length (dn_coefs d)) ≤ 4294967295;
  do_coefs : Forall (coef_ok f) (dn_coefs d);
}.

Lemma coef_ok_u8 f c : coef_ok f c → is_u8 c.
Proof. apply elem_u8. apply _. Qed.
Lemma coefs_bytes f cs : Forall (coef_ok f) cs → bytes_ok cs.
Proof. intros H. eapply Forall_impl; [exact H|apply coef_ok_u8]. Qed.

Lemma sub_usize_ge a b : is_u32 a → 0 ≤ b ≤ a → sub_usize a b = Z.to_nat (a - b).
Proof. intros. unfold sub_usize. rw u32_small //. word_bound. Qed.

(** The coefficient at offset [x - base]. *)
Definition coef_off (d : DenseCoefs) (x : Z) : Z :=
  if x <? dn_base d then 0 else default 0 (dn_coefs d !! Z.to_nat (x - dn_base d)).

Lemma dense_get_off f d x : dense_ok f d → is_u32 x → dense_get d x = coef_off d x.
Proof.
  intros [Hb _ _] Hx. unfold dense_get, coef_off. destruct (Z.ltb_spec x (dn_base d)); [done|].
  by rw sub_usize_ge.
Qed.

Lemma dense_get_ok f d x : dense_ok f d → coef_ok f (dense_get d x).
Proof.
  intros [_ _ Hc]. unfold dense_get. case_match; [apply coef_0|].
  destruct (dn_coefs d !! _) as [c|] eqn:E; simpl; [|apply coef_0].
  by eapply Forall_lookup_1 in Hc.
Qed.

Lemma coef_off_out d x : x < dn_base d ∨ dn_base d + Z.of_nat (length (dn_coefs d)) ≤ x →
  coef_off d x = 0.
Proof.
  intros Hx. unfold coef_off. destruct (Z.ltb_spec x (dn_base d)); [done|].
  rw lookup_ge_None_2 //. lia.
Qed.

Lemma coef_off_in d x c : dn_base d ≤ x → dn_coefs d !! Z.to_nat (x - dn_base d) = Some c →
  coef_off d x = c.
Proof. intros Hx Hc. unfold coef_off. by rw (proj2 (Z.ltb_ge _ _)) // Hc. Qed.

(** ** Growing *)
Lemma ensure_covers_spec f d id : dense_ok f d → id_range id →
  let d' := ensure_covers d id in
  dense_ok f d' ∧ (∀ x, coef_off d' x = coef_off d x) ∧
  dn_base d' ≤ id < dn_base d' + Z.of_nat (length (dn_coefs d')) ∧
  (dn_coefs d ≠ [] → dn_base d' ≤ dn_base d ∧
    dn_base d + Z.of_nat (length (dn_coefs d)) ≤ dn_base d' + Z.of_nat (length (dn_coefs d'))).
Proof.
  intros [Hb He Hc] Hid. unfold id_range in Hid. unfold ensure_covers.
  destruct (Nat.eqb_spec (length (dn_coefs d)) 0) as [H0|H0].
  { apply nil_length_inv in H0. cbn. rw H0. split_and!; try lia.
    - constructor; cbn; [lia..|]. constructor; [apply coef_0|constructor].
    - intros x. unfold coef_off. cbn. rw H0. destruct (Z.ltb_spec x id), (Z.ltb_spec x (dn_base d));
        try done; destruct (Z.to_nat (x - id)) as [|[|n]]; done.
    - done. }
  destruct (Z.ltb_spec id (dn_base d)) as [Hlt|Hge].
  - rw sub_usize_ge; [|word_bound|lia]. cbn [dn_base dn_coefs]. rw length_app length_replicate.
    split_and!; try lia.
    + constructor; cbn; [lia| |].
      * rw length_app length_replicate. lia.
      * apply Forall_app_2; [|done]. apply Forall_replicate. apply coef_0.
    + intros x. unfold coef_off. cbn. destruct (Z.ltb_spec x id), (Z.ltb_spec x (dn_base d)); try lia.
      * rw lookup_app_l; [|rw length_replicate; lia]. rw lookup_replicate_2 //. lia.
      * rw lookup_app_r; [|rw length_replicate; lia]. rw length_replicate.
        do 2 f_equal. lia.
  - rw sub_usize_ge; [|word_bound|lia].
    destruct (Nat.ltb_spec (length (dn_coefs d)) (Z.to_nat (id - dn_base d) + 1)) as [Hl|Hl].
    + cbn [dn_base dn_coefs]. rw length_resize. split_and!; try lia.
      * constructor; cbn; [lia|rw length_resize; lia|]. rw resize_spec.
        apply Forall_app_2; [by apply Forall_take|]. apply Forall_replicate. apply coef_0.
      * intros x. unfold coef_off. cbn. destruct (Z.ltb_spec x (dn_base d)); [done|].
        rw resize_spec take_ge; [|lia].
        destruct (decide (Z.to_nat (x - dn_base d) < length (dn_coefs d))%nat) as [Hx|Hx].
        -- by rw lookup_app_l.
        -- rw lookup_app_r; [|lia]. rw (lookup_ge_None_2 (dn_coefs d)); [|lia].
           destruct (replicate _ 0 !! _) as [c|] eqn:E; [|done].
           by apply lookup_replicate in E as [-> _].
    + split_and!; try lia; done.
Qed.

(** ** Scaled subtraction *)
Lemma vxor_lookup a b i : vxor a b !! i =
  match a !! i, b !! i with Some x, Some y => Some (Z.lxor x y) | _, _ => None end.
Proof.
  unfold vxor. rw lookup_zip_with. destruct (a !! i), (b !! i); done.
Qed.

(** [slice] replaced in place, read at any offset. *)
Lemma splice_lookup (v w : bytes) off i : (off + length w ≤ length v)%nat →
  (take off v ++ w ++ drop (off + length w) v) !! i =
    if decide (off ≤ i < off + length w)%nat then w !! (i - off)%nat else v !! i.
Proof.
  intros Hl. case_decide as Hi.
  - rw lookup_app_r; [|rw length_take; lia]. rw lookup_app_l length_take; [|lia].
    f_equal. lia.
  - destruct (decide (i < off)%nat) as [Hlt|Hge].
    + rw lookup_app_l; [|rw length_take; lia]. by rw lookup_take_lt.
    + rw lookup_app_r; [|rw length_take; lia].
      rw lookup_app_r length_take; [|lia]. rw lookup_drop. f_equal. lia.
Qed.

(** The update in place of the covered range [off, off + length other). *)
Lemma dense_axpy_spec f d other c off w :
  dense_ok f d → dense_ok f other → coef_ok f c →
  dn_base other = dn_base d + Z.of_nat off →
  (off + length (dn_coefs other) ≤ length (dn_coefs d))%nat →
  w = vxor (take (length (dn_coefs other)) (drop off (dn_coefs d))) (smul f c <$> dn_coefs other) →
  let d' := {| dn_base := dn_base d;
               dn_coefs := take off (dn_coefs d) ++ w ++ drop (off + length w) (dn_coefs d) |} in
  dense_ok f d' ∧
    ∀ x, coef_off d' x = Z.lxor (coef_off d x) (@gf_mul (gf_field f) c (coef_off other x)).
Proof.
  intros [Hb He Hf] [_ _ Hof] Hc Hoff Hin Hwd d'. set (olen := length (dn_coefs other)) in *.
  assert (length w = olen) as Hw.
  { rw Hwd vxor_length; rw length_take length_drop ?length_fmap; lia. }
  assert (∀ i, (i < olen)%nat → ∃ a b, dn_coefs d !! (off + i)%nat = Some a ∧
    dn_coefs other !! i = Some b ∧ w !! i = Some (Z.lxor a (@gf_mul (gf_field f) c b))) as Hwl.
  { intros i Hi. destruct (lookup_lt_is_Some_2 (dn_coefs d) (off + i)) as [a Ha]; [lia|].
    destruct (lookup_lt_is_Some_2 (dn_coefs other) i) as [b Hy]; [done|].
    exists a, b. split_and!; [done..|]. rw Hwd vxor_lookup lookup_take_lt // lookup_drop Ha.
    rw list_lookup_fmap Hy /=. rw smul_coef //. by eapply Forall_lookup_1 in Hof. }
  split.
  - constructor; cbn [d' dn_base dn_coefs]; [done| |].
    + rw !length_app length_take length_drop Hw. lia.
    + apply Forall_lookup_2. intros i y. rw splice_lookup; [|lia].
      case_decide as Hi; [|intros Hy; by eapply Forall_lookup_1 in Hf].
      destruct (Hwl (i - off)%nat) as (a & b & Ha & Hy' & Hy); [lia|]. rw Hy. intros [= <-].
      apply coef_lxor; [by eapply Forall_lookup_1 in Hf|]. apply coef_mul; [done|].
      by eapply Forall_lookup_1 in Hof.
  - intros x. destruct (decide (dn_base other ≤ x < dn_base other + Z.of_nat olen)) as [Hx|Hx].
    + destruct (Hwl (Z.to_nat (x - dn_base other))) as (a & b & Ha & Hy' & Hy); [lia|].
      rw (coef_off_in other x b) // ?(coef_off_in d x a); [|lia|rw -Ha; f_equal; lia|lia].
      apply coef_off_in; cbn [d' dn_base dn_coefs]; [lia|]. rw splice_lookup; [|lia].
      rw decide_True; [|lia]. rw -Hy. f_equal. lia.
    + rw (coef_off_out other x); [|lia]. rw gf_mul_0_r // Z.lxor_0_r.
      unfold coef_off. cbn [d' dn_base dn_coefs]. destruct (Z.ltb_spec x (dn_base d)); [done|].
      rw splice_lookup; [|lia]. rw decide_False //. lia.
Qed.

Lemma coef_off_ok f d x : dense_ok f d → coef_ok f (coef_off d x).
Proof.
  intros [_ _ Hco]. unfold coef_off. case_match; [apply coef_0|].
  destruct (dn_coefs d !! _) as [y|] eqn:E; [|apply coef_0]. by eapply Forall_lookup_1 in Hco.
Qed.

Lemma dense_subtract_spec disp f d other c :
  dense_ok f d → dense_ok f other → coef_ok f c →
  ∃ d', dense_subtract_scaled disp d other c f = Ok d' ∧ dense_ok f d' ∧
    ∀ x, coef_off d' x = Z.lxor (coef_off d x) (@gf_mul (gf_field f) c (coef_off other x)).
Proof.
  intros Hd Ho Hc. unfold dense_subtract_scaled.
  pose proof (λ x, coef_off_ok f other x Ho) as Hoc.
  destruct (Nat.eqb_spec (length (dn_coefs other)) 0) as [H0|H0].
  { exists d. split_and!; [done..|]. intros x.
    rw (coef_off_out other x); [|rw H0; lia]. rw gf_mul_0_r // Z.lxor_0_r //. }
  destruct (Z.eqb_spec c 0) as [->|Hc0].
  { exists d. split_and!; [done..|]. intros x. rw gf_mul_0_l // Z.lxor_0_r //. }
  cbn [orb]. destruct (Ho) as [Hob Hoe Hof].
  set (olen := length (dn_coefs other)) in *.
  assert (u32 (dn_base other + u32 (Z.of_nat olen)) = dn_base other + Z.of_nat olen) as ->.
  { rw (u32_small (Z.of_nat olen)); [|word_bound]. rw u32_small //. word_bound. }
  rw Z.max_r; [|lia].
  destruct (ensure_covers_spec f d (dn_base other)) as (Hd1 & Hg1 & Hin1 & _); [done|unfold id_range; lia|].
  set (d1 := ensure_covers d (dn_base other)) in *. clearbody d1.
  destruct (ensure_covers_spec f d1 (dn_base other + Z.of_nat olen - 1))
    as (Hd2 & Hg2 & Hin2 & Hsub2); [done|unfold id_range; lia|].
  set (d2 := ensure_covers d1 _) in *. clearbody d2.
  assert (dn_coefs d1 ≠ []) as Hne1 by (intros Hnil; rw Hnil /= in Hin1; lia).
  destruct (Hsub2 Hne1) as [Hsub2a Hsub2b]. destruct (Hd2) as [Hb2 He2 Hc2].
  rw (sub_usize_ge (dn_base other)); [|word_bound|lia].
  set (off := Z.to_nat (dn_base other - dn_base d2)).
  assert (off + olen ≤ length (dn_coefs d2))%nat as Hoff by lia.
  rw slice_ok; [|lia]. rw bind_Ok. replace (off + olen - off)%nat with olen by lia.
  rw mul_acc_spec; [|rw length_take length_drop; lia|by eapply coefs_bytes|done].
  rw bind_Ok. set (w := vxor _ _).
  destruct (dense_axpy_spec f d2 other c off w) as [Hok Hget]; [done..|lia|done|done|].
  assert (length w = olen) as Hw.
  { unfold w. rw vxor_length; rw length_take length_drop ?length_fmap; lia. }
  rw Hw in Hok Hget. eexists. split; [done|]. split; [done|].
  intros x. by rw Hget Hg2 Hg1.
Qed.

(** ** Scaling, removal *)
Lemma dense_scale_spec disp f d c : dense_ok f d → coef_ok f c →
  ∃ d', dense_scale disp d c f = Ok d' ∧ dense_ok f d' ∧ dn_base d' = dn_base d ∧
    ∀ x, coef_off d' x = @gf_mul (gf_field f) c (coef_off d x).
Proof.
  intros [Hb He Hd] Hc. unfold dense_scale. rw mul_scale_spec; [|by eapply coefs_bytes|done].
  rw bind_Ok. eexists. split; [done|]. cbn [dn_base]. split; [|split; [done|]].
  - constructor; cbn; [done|by rw length_fmap|]. apply Forall_fmap. eapply Forall_impl; [exact Hd|].
    intros y Hy. cbn. rw smul_coef //. by apply coef_mul.
  - intros x. unfold coef_off. cbn. case_match; [by rw gf_mul_0_r|].
    rw list_lookup_fmap. destruct (dn_coefs d !! _) as [y|] eqn:E; cbn; [|by rw gf_mul_0_r].
    rw smul_coef //. by eapply Forall_lookup_1 in Hd.
Qed.

Lemma dense_remove_spec f d id : dense_ok f d → is_u32 id →
  dense_ok f (dense_remove d id) ∧
  ∀ x, coef_off (dense_remove d id) x = if decide (x = id) then 0 else coef_off d x.
Proof.
  intros [Hb He Hd] Hid. unfold dense_remove.
  destruct (Z.ltb_spec id (dn_base d)) as [Hlt|Hge].
  { split; [done|]. intros x. case_decide as Hx; [|done]. apply coef_off_out. lia. }
  rw sub_usize_ge; [|done|lia].
  destruct (Nat.ltb_spec (Z.to_nat (id - dn_base d)) (length (dn_coefs d))) as [Hl|Hl].
  - split.
    + constructor; cbn; [done|by rw length_insert|]. apply Forall_insert; [done|apply coef_0].
    + intros x. unfold coef_off. cbn. destruct (Z.ltb_spec x (dn_base d)); [by case_decide|].
      case_decide as Hx; [subst; by rw list_lookup_insert_eq|].
      rw list_lookup_insert_ne //. lia.
  - split; [done|]. intros x. case_decide as Hx; [|done]. apply coef_off_out. lia.
Qed.

(** ** Zero rows, pivots, solved rows *)
Lemma coef_off_at d i c : dn_coefs d !! i = Some c → coef_off d (dn_base d + Z.of_nat i) = c.
Proof. intros Hc. apply coef_off_in; [lia|]. rw -Hc. f_equal. lia. Qed.

Lemma coef_off_zero d : (∀ x, coef_off d x = 0) ↔ Forall (λ c, c = 0) (dn_coefs d).
Proof.
  split.
  - intros H. apply Forall_lookup_2. intros i c Hc. by rw -(coef_off_at d i c).
  - intros H x. unfold coef_off. case_match; [done|].
    destruct (dn_coefs d !! _) as [c|] eqn:E; [|done]. by eapply Forall_lookup_1 in H.
Qed.

Lemma is_zero_spec d : is_zero d = true ↔ ∀ x, coef_off d x = 0.
Proof.
  rw coef_off_zero. unfold is_zero. rw forallb_forall Forall_forall.
  split; intros H c Hc; [apply Z.eqb_eq, H|apply Z.eqb_eq, H]; by apply list_elem_of_In.
Qed.

Lemma pivot_spec f d : dense_ok f d → is_zero d = false →
  ∃ p c, pivot_id d = Some p ∧ pivot_coef d = Some c ∧ id_range p ∧ coef_off d p = c ∧ c ≠ 0 ∧
    ∀ x, x < p → coef_off d x = 0.
Proof.
  intros [Hb He Hd] Hz. unfold pivot_id, pivot_coef.
  destruct (list_find (λ c, c ≠ 0) (dn_coefs d)) as [[i c]|] eqn:E.
  - apply list_find_Some in E as (Hi & Hc & Hbefore). apply lookup_lt_Some in Hi as Hlt.
    rw /= (u32_small (Z.of_nat i)); [|word_bound]. rw u32_small; [|word_bound].
    exists (dn_base d + Z.of_nat i), c. split_and!; [done|done|unfold id_range; lia..| |done|].
    + by apply coef_off_at.
    + intros x Hx. unfold coef_off. destruct (Z.ltb_spec x (dn_base d)); [done|].
      destruct (dn_coefs d !! Z.to_nat (x - dn_base d)) as [y|] eqn:Ey; [|done]. cbn.
      assert (¬ y ≠ 0) by (eapply Hbefore; [exact Ey|lia]). lia.
  - exfalso. apply list_find_None in E. assert (is_zero d = true); [|congruence].
    apply is_zero_spec, coef_off_zero. eapply Forall_impl; [exact E|]. simpl. lia.
Qed.

Lemma solved_loop_some base i cs p s :
  is_solved_loop base i cs (Some p) = Some s → s = p ∧ Forall (λ c, c = 0) cs.
Proof.
  revert i. induction cs as [|c cs IH]; intros i; simpl; [by intros [= ->]|].
  destruct (Z.eqb_spec c 0); [|done]. intros [-> ?]%IH. split; [done|]. by constructor.
Qed.
Lemma solved_loop_zero base i cs p :
  Forall (λ c, c = 0) cs → is_solved_loop base i cs p = p.
Proof. intros H. revert i. induction H as [|c cs -> _ IH]; intros i; simpl; [done|apply IH]. Qed.

Lemma solved_loop_none base i cs s :
  is_solved_loop base i cs None = Some s →
  ∃ j c, cs !! j = Some c ∧ c ≠ 0 ∧ s = u32 (base + u32 (i + Z.of_nat j)) ∧
    ∀ k y, cs !! k = Some y → k ≠ j → y = 0.
Proof.
  revert i. induction cs as [|c cs IH]; intros i; simpl; [done|].
  destruct (Z.eqb_spec c 0) as [->|Hc].
  - intros (j & y & Hj & Hy & -> & Hz)%IH. exists (S j), y. split_and!; [done..| |].
    + do 3 f_equal. lia.
    + intros [|k] z Hk Hne; [by injection Hk|]. apply (Hz k z Hk). lia.
  - intros [-> Hz]%solved_loop_some. exists 0%nat, c. split_and!; [done..| |].
    + by rw Z.add_0_r.
    + intros [|k] y Hk Hne; [done|]. by eapply Forall_lookup_1 in Hz.
Qed.

(** [is_solved] finds the only nonzero coefficient, if there is exactly one. *)
Lemma is_solved_spec f d s : dense_ok f d →
  is_solved d = Some s ↔ coef_off d s ≠ 0 ∧ ∀ x, x ≠ s → coef_off d x = 0.
Proof.
  intros [Hb He Hd]. unfold is_solved. split.
  - intros (j & c & Hj & Hc & -> & Hz)%solved_loop_none. apply lookup_lt_Some in Hj as Hlt.
    rw Z.add_0_l (u32_small (Z.of_nat j)); [|word_bound]. rw u32_small; [|word_bound].
    split; [by rw (coef_off_at d j c)|]. intros x Hx. unfold coef_off.
    destruct (Z.ltb_spec x (dn_base d)); [done|].
    destruct (dn_coefs d !! Z.to_nat (x - dn_base d)) as [y|] eqn:Ey; [|done]. cbn. eapply Hz; [exact Ey|lia].
  - intros [Hs Hz].
    assert (dn_base d ≤ s < dn_base d + Z.of_nat (length (dn_coefs d))) as Hin.
    { destruct (decide (dn_base d ≤ s < dn_base d + Z.of_nat (length (dn_coefs d)))); [done|].
      destruct Hs. apply coef_off_out. lia. }
    set (j := Z.to_nat (s - dn_base d)).
    assert (∀ i y, dn_coefs d !! i = Some y → i ≠ j → y = 0) as Hzj.
    { intros i y Hy Hij. rw -(coef_off_at d i y) //. apply Hz. lia. }
    destruct (lookup_lt_is_Some_2 (dn_coefs d) j) as [c Hj]; [lia|].
    assert (c ≠ 0) as Hc by (rw -(coef_off_in d s c); [done|lia|done]).
    rw -(take_drop_middle _ _ _ Hj) in Hzj |- *.
    assert (∀ pre post i, Forall (λ c, c = 0) pre → Forall (λ c, c = 0) post →
      is_solved_loop (dn_base d) i (pre ++ c :: post) None
      = Some (u32 (dn_base d + u32 (i + Z.of_nat (length pre))))) as Hloop.
    { clear -Hc. intros pre post i Hpre Hpost. revert i.
      induction Hpre as [|a pre -> _ IH]; intros i; simpl.
      - rw (proj2 (Z.eqb_neq _ _) Hc) solved_loop_zero // Z.add_0_r //.
      - rw IH. do 4 f_equal. lia. }
    assert (j < length (dn_coefs d))%nat as Hjl by lia.
    rw Hloop; [rw length_take; rw (u32_small (0 + _)); [|word_bound]; rw u32_small; [f_equal; lia|word_bound]|..].
    + apply Forall_lookup_2. intros i y Hy. eapply (Hzj i).
      * rw lookup_app_l //. by eapply lookup_lt_Some.
      * apply lookup_lt_Some in Hy. rw length_take in Hy. lia.
    + apply Forall_lookup_2. intros i y Hy. eapply (Hzj (S (j + i))).
      * rw lookup_app_r length_take; [|lia]. replace (S (j + i) - _)%nat with (S i) by lia. done.
      * lia.
Qed.

(** ** Building a row from a coefficient map *)
Lemma index_set_ok {E} v i x : (i < length v)%nat → index_set (E:=E) v i x = Ok (<[i := x]> v).
Proof. intros H. unfold index_set. by rw (proj2 (Nat.ltb_lt _ _) H). Qed.

Lemma from_map_loop (map : gmap Z Z) min len ks v :
  0 ≤ min → Forall (λ k, min ≤ k < min + Z.of_nat len ∧ id_range k) ks → length v = len →
  (∀ k, k ∈ ks → is_Some (map !! k)) →
  ∃ v', mfor (E:=DelpError) (λ v id, match map !! id with
        | Some coef => index_set v (sub_usize id min) coef
        | None => Panic end) v ks = Ok v' ∧ length v' = len ∧
    ∀ x, min ≤ x → v' !! Z.to_nat (x - min)
      = if decide (x ∈ ks) then map !! x else v !! Z.to_nat (x - min).
Proof.
  intros Hmin Hks. revert v. induction Hks as [|k ks [Hk Hr] Hks IH]; intros v Hv Hin.
  { exists v. split_and!; [done..|]. intros x Hx. case_decide as Hd; [by apply elem_of_nil in Hd|done]. }
  destruct (Hin k) as [c Hc]; [by left|]. cbn [mfor]. rw Hc.
  rw (sub_usize_ge k); [|unfold id_range in Hr; word_bound|lia].
  rw (index_set_ok v); [|lia]. rw bind_Ok.
  destruct (IH (<[Z.to_nat (k - min) := c]> v)) as (v' & Hl & Hlen & Hv').
  { by rw length_insert. } { intros x Hx. apply Hin. by right. }
  exists v'. split_and!; [done..|]. intros x Hx. rw Hv' //.
  destruct (decide (x = k)) as [->|Hne].
  - rw list_lookup_insert_eq; [|lia]. rw (decide_True (P := k ∈ k :: ks)); [|by left]. rw Hc. by case_decide.
  - rw list_lookup_insert_ne; [|lia]. repeat case_decide; [done|set_solver|set_solver|done].
Qed.

Lemma from_map_spec f (map : gmap Z Z) :
  (∀ k c, map !! k = Some c → id_range k ∧ coef_ok f c) →
  ∃ d, from_map map = Ok d ∧ dense_ok f d ∧ ∀ x, coef_off d x = default 0 (map !! x).
Proof.
  intros Hmap. unfold from_map. destruct (bt_ends map) as [(-> & -> & _)|(min & max & Hmin & Hmax)].
  { eexists. split; [done|]. split; [constructor; cbn; [lia..|constructor]|].
    intros x. unfold coef_off. cbn. rw lookup_empty. by case_match. }
  rw Hmin Hmax. destruct (bt_first_in _ _ Hmin) as [cmin Hcmin], (bt_last_in _ _ Hmax) as [cmax Hcmax].
  destruct (Hmap _ _ Hcmin) as [Hrmin _], (Hmap _ _ Hcmax) as [Hrmax _]. unfold id_range in *.
  pose proof (bt_first_le map min max Hmin ltac:(by exists cmax)) as Hle.
  rw sub_usize_ge; [|word_bound|lia]. set (len := (Z.to_nat (max - min) + 1)%nat).
  destruct (from_map_loop map min len (bt_keys map) (replicate len 0)) as (v & Hl & Hlen & Hv).
  - lia.
  - apply Forall_forall. intros k Hk%elem_of_bt_keys.
    pose proof (bt_first_le map min k Hmin Hk). pose proof (bt_last_le map max k Hmax Hk).
    destruct Hk as [c Hc]. destruct (Hmap k c Hc). split; [lia|done].
  - apply length_replicate.
  - intros k Hk. by apply elem_of_bt_keys.
  - cbn [dense_new dn_coefs]. rw Hl bind_Ok. eexists. split; [done|].
    assert (∀ x, min ≤ x → v !! Z.to_nat (x - min) = Some (default 0 (map !! x))
      ∨ (v !! Z.to_nat (x - min) = None ∧ map !! x = None)) as Hvx.
    { intros x Hx. rw Hv //. case_decide as Hd.
      - apply elem_of_bt_keys in Hd as [c Hc]. rw Hc. by left.
      - assert (map !! x = None) as Hn.
        { destruct (map !! x) eqn:E; [|done]. destruct Hd. apply elem_of_bt_keys. by eexists. }
        rw Hn. destruct (replicate len 0 !! _) as [y|] eqn:E; [|by right].
        apply lookup_replicate in E as [-> _]. by left. }
    split.
    + constructor; cbn; [lia|rw Hlen /len; lia|]. apply Forall_lookup_2. intros i y Hy.
      destruct (Hvx (min + Z.of_nat i)) as [Hs|[Hn _]]; [lia|..];
        replace (Z.to_nat (min + Z.of_nat i - min)) with i in * by lia; [|congruence].
      rw Hs in Hy. injection Hy as <-. destruct (map !! (min + Z.of_nat i)) as [c|] eqn:E; [|apply coef_0].
      by destruct (Hmap _ _ E).
    + intros x. unfold coef_off. cbn. destruct (Z.ltb_spec x min) as [Hx|Hx].
      * destruct (map !! x) as [c|] eqn:E; [|done].
        pose proof (bt_first_le map min x Hmin ltac:(by exists c)). lia.
      * by destruct (Hvx x Hx) as [-> |[-> ->]].
Qed.
