(* ===== verification/Elim.v ===== *)
(** * Soundness of the decoding matrix

    Fixed throughout: the session's source symbols [src], of [sz] bytes, and
    the list [U] of the IDs that packets may mention.  A row is correct when its
    payload is the combination of source symbols its coefficients announce; the
    matrix is in reduced form when every row has coefficient 1 at its key and 0
    at every other key. *)

From S2P Require Import Prelude Error Config Tables Gf Simd CoefGen EncVec LinComb BTree Matrix Dense.
From stdpp Require Import sorting.
#[global] Open Scope Z_scope.

(** The coefficient vector of a source symbol. *)
Definition unit_vec (id x : Z) : Z := if decide (x = id) then 1 else 0.

(** A set of coefficient vectors closed under the row operations. *)
Record subspace (f : Field) (V : (Z → Z) → Prop) : Prop := {
  ss_zero : V (λ _, 0);
  ss_ext : ∀ g h, (∀ x, g x = h x) → V g → V h;
  ss_lxor : ∀ g h, V g → V h → V (λ x, Z.lxor (g x) (h x));
  ss_scale : ∀ c g, coef_ok f c → V g → V (λ x, @gf_mul (gf_field f) c (g x));
}.

(** The zero row is in every nonempty subspace; undoing a row operation stays
    in it. *)
Lemma span_sub f W c g h e : subspace f W → coef_ok f c → W e →
  (∀ x, h x = Z.lxor (g x) (@gf_mul (gf_field f) c (e x))) → W h → W g.
Proof.
  intros HW Hc He Hh Hwh.
  apply (ss_ext _ _ HW (λ x, Z.lxor (h x) (@gf_mul (gf_field f) c (e x)))).
  - intros x. rw Hh. apply lxor_cancel_r.
  - apply (ss_lxor _ _ HW); [done|by apply (ss_scale _ _ HW c)].
Qed.
Lemma span_clear f W id g h : subspace f W → (∀ x, coef_ok f (g x)) → W (unit_vec id) →
  (∀ x, h x = if decide (x = id) then 0 else g x) → W h → W g.
Proof.
  intros HW Hg Hu Hh. apply (span_sub f W (g id) g h (unit_vec id)); [done..|].
  intros x. rw Hh /unit_vec. case_decide as Hx.
  - subst x. rw gf_mul_1_r; [by rw Z.lxor_nilpotent|done].
  - rw gf_mul_0_r ?Z.lxor_0_r //.
Qed.

Section elim.
Context (disp : Dispatch) (f : Field) (sz : nat) (src : Z → bytes) (U : list Z).
Hypothesis Hsrc : ∀ id, symbol sz (src id).
Hypothesis HU : NoDup U.
Hypothesis HUr : Forall id_range U.

Definition row_coef (r : MatrixRow) (x : Z) : Z := coef_off (mr_coefs r) x.

Record row_ok (r : MatrixRow) : Prop := {
  ro_dense : dense_ok f (mr_coefs r);
  ro_supp : ∀ x, row_coef r x ≠ 0 → x ∈ U;
  ro_payload : mr_payload r = rowsum f sz src (row_coef r) U;
}.

Lemma row_coef_ok r x : row_ok r → coef_ok f (row_coef r x).
Proof. intros [? _ _]. by apply coef_off_ok. Qed.

Lemma row_payload_symbol r : row_ok r → symbol sz (mr_payload r).
Proof.
  intros Hr. rw (ro_payload _ Hr). apply rowsum_symbol; [done|]. intros. by apply row_coef_ok.
Qed.

Lemma row_get r x : row_ok r → is_u32 x → dense_get (mr_coefs r) x = row_coef r x.
Proof. intros [? _ _] ?. by eapply dense_get_off. Qed.

Lemma U_u32 x : x ∈ U → is_u32 x.
Proof.
  intros Hx. pose proof (proj1 (Forall_forall _ _) HUr x Hx) as Hr. unfold id_range in Hr.
  word_bound.
Qed.

(** A row whose only nonzero coefficient is 1 carries that symbol. *)
Lemma row_singleton r p : row_ok r → row_coef r p = 1 →
  (∀ x, x ≠ p → row_coef r x = 0) → mr_payload r = src p.
Proof.
  intros Hr Hp Hz. rw (ro_payload _ Hr).
  rw (rowsum_singleton f sz src Hsrc _ p) //; [|intros; by apply row_coef_ok|].
  - rw Hp vscale_1 //. apply Hsrc.
  - apply (ro_supp _ Hr). rw Hp. lia.
Qed.

(** ** Row operations *)
Lemma mul_acc_payload v w c : symbol sz v → symbol sz w → coef_ok f c →
  mul_acc disp f v w c = Ok (vxor v (vscale f c w)).
Proof. intros [Hv _] [Hw Hb] Hc. apply mul_acc_spec; [congruence|done|done]. Qed.

Lemma row_subtract_ok r other c : row_ok r → row_ok other → coef_ok f c →
  ∃ r', row_subtract_scaled disp r other c f = Ok r' ∧ row_ok r' ∧
    ∀ x, row_coef r' x = Z.lxor (row_coef r x) (@gf_mul (gf_field f) c (row_coef other x)).
Proof.
  intros Hr Ho Hc. unfold row_subtract_scaled.
  destruct (dense_subtract_spec disp f (mr_coefs r) (mr_coefs other) c) as (d & Hd & Hok & Hg);
    [apply Hr|apply Ho|done|].
  rw Hd bind_Ok mul_acc_payload; [|by apply row_payload_symbol..|done].
  rw bind_Ok. eexists. split; [done|]. split; [|done]. constructor; cbn [mr_coefs mr_payload]; [done| |].
  - intros x. unfold row_coef. cbn. rw Hg. intros Hx. destruct (decide (x ∈ U)) as [|Hn]; [done|].
    destruct Hx. assert (row_coef r x = 0 ∧ row_coef other x = 0) as [H1 H2].
    { split; [destruct (Z.eq_dec (row_coef r x) 0) as [|Hne]
             |destruct (Z.eq_dec (row_coef other x) 0) as [|Hne]]; try done;
        [by apply (ro_supp _ Hr) in Hne|by apply (ro_supp _ Ho) in Hne]. }
    unfold row_coef in H1, H2. rw H1 H2 gf_mul_0_r //.
  - rw (ro_payload _ Hr) (ro_payload _ Ho) -rowsum_scale; [|done..|intros; by apply row_coef_ok].
    rw -rowsum_lxor; [|done|intros; by apply row_coef_ok|].
    + apply rowsum_ext. intros x _. unfold row_coef. cbn. by rw Hg.
    + intros x. apply coef_mul; [done|by apply row_coef_ok].
Qed.

Lemma substitute_ok r id : row_ok r → is_u32 id →
  ∃ r', substitute disp f r id (src id) = Ok r' ∧ row_ok r' ∧
    ∀ x, row_coef r' x = if decide (x = id) then 0 else row_coef r x.
Proof.
  intros Hr Hid. unfold substitute. rw row_get //.
  destruct (Z.eqb_spec (row_coef r id) 0) as [Hz|Hz].
  { exists r. split_and!; [done..|]. intros x. case_decide; [by subst|done]. }
  destruct (dense_remove_spec f (mr_coefs r) id) as [Hd Hg]; [apply Hr|done|].
  rw mul_acc_payload; [|by apply row_payload_symbol|done|by apply row_coef_ok].
  rw bind_Ok. eexists. split; [done|]. split; [|done]. constructor; cbn [mr_coefs mr_payload]; [done| |].
  - intros x. unfold row_coef. cbn. rw Hg. case_decide; [done|]. apply (ro_supp _ Hr).
  - rw (ro_payload _ Hr) -rowsum_remove; [|done|intros; by apply row_coef_ok|done|by apply (ro_supp _ Hr)].
    apply rowsum_ext. intros x _. unfold row_coef. cbn. by rw Hg.
Qed.

Lemma coef_inv_ok c : coef_ok f c → c ≠ 0 →
  ∃ b, coef_inv c f = Ok b ∧ coef_ok f b ∧ b ≠ 0 ∧ @gf_mul (gf_field f) b c = 1.
Proof.
  intros Hc Hne. destruct (gf_inv_ex (gf_field f) c Hc Hne) as (b & Hb & Hbo & Hb0 & _ & Hm).
  exists b. split_and!; [|done..].
  - unfold coef_inv. rw (proj2 (Z.eqb_neq _ _) Hne). destruct f.
    + change (gf_inv c) with (@gf_inv Gf2_8_field c) in Hb. by rw Hb.
    + change (0 ≤ c < 16) in Hc. unfold Gf2_4_new. rw !land15 Z.mod_mod // Z.mod_small //.
      change (gf_inv c) with (@gf_inv Gf2_4_field c) in Hb. by rw Hb.
Qed.

Lemma normalize_ok r : row_ok r → is_zero (mr_coefs r) = false →
  ∃ r' p c, normalize disp r f = Ok r' ∧ row_ok r' ∧ pivot_id (mr_coefs r') = Some p ∧
    row_coef r' p = 1 ∧ p ∈ U ∧ coef_ok f c ∧
    (∀ x, row_coef r' x = @gf_mul (gf_field f) c (row_coef r x)) ∧
    ∀ W, subspace f W → W (row_coef r') → W (row_coef r).
Proof.
  intros Hr Hz. destruct (pivot_spec f (mr_coefs r)) as (p & c & Hp & Hpc & _ & Hcp & Hc0 & Hlow);
    [apply Hr|done|].
  assert (p ∈ U) as HpU by (apply (ro_supp _ Hr); unfold row_coef; by rw Hcp).
  assert (coef_ok f c) as Hc by (rw -Hcp; apply (row_coef_ok r p Hr)).
  unfold normalize. rw Hpc. destruct (Z.eqb_spec c 1) as [->|Hc1].
  { exists r, p, 1. split_and!; [done..|apply coef_1| |done]. intros x. rw gf_mul_1 //.
    by apply row_coef_ok. }
  destruct (coef_inv_ok c Hc Hc0) as (b & Hb & Hbo & Hb0 & Hbc). rw Hb bind_Ok.
  destruct (dense_scale_spec disp f (mr_coefs r) b) as (d & Hd & Hok & Hbase & Hg); [apply Hr|done|].
  rw Hd bind_Ok mul_scale_spec; [|apply (row_payload_symbol r Hr)|done]. rw bind_Ok.
  set (r' := {| mr_coefs := d; mr_payload := _ |}).
  assert (row_ok r') as Hr'.
  { constructor; cbn [mr_coefs mr_payload r']; [done| |].
    - intros x. unfold row_coef. cbn. rw Hg. intros Hx. apply (ro_supp _ Hr). unfold row_coef.
      intros H0. rw H0 gf_mul_0_r // in Hx.
    - rw (ro_payload _ Hr) -/(vscale f b _) -rowsum_scale; [|done..|intros; by apply row_coef_ok].
      apply rowsum_ext. intros x _. unfold row_coef. cbn. by rw Hg. }
  exists r', p, b. split_and!; [done..| | |done|done| |].
  - destruct (pivot_spec f d Hok) as (q & e & Hq & _ & _ & Heq & He0 & Hlow').
    { apply not_true_iff_false. intros Ht. apply (proj1 (is_zero_spec d)) with p in Ht.
      rw Hg Hcp Hbc in Ht. done. }
    cbn. rw Hq. f_equal. destruct (Z.lt_trichotomy q p) as [Hlt|[|Hlt]]; [|done|].
    + destruct He0. rw -Heq Hg Hlow // gf_mul_0_r //.
    + specialize (Hlow' p Hlt). rw Hg Hcp Hbc in Hlow'. done.
  - unfold row_coef. cbn. by rw Hg Hcp.
  - intros x. unfold row_coef. cbn. by rw Hg.
  - intros W HW Hw. apply (ss_ext _ _ HW (λ x, @gf_mul (gf_field f) c (row_coef r' x)));
      [|by apply (ss_scale _ _ HW c)].
    intros x. unfold row_coef at 1. cbn [mr_coefs r']. rw Hg.
    rw -gf_mul_assoc; [|exact Hc|exact Hbo|exact (row_coef_ok r x Hr)].
    pose proof (gf_mul_comm (gf_field f) c b Hc Hbo) as Hcb. rw Hcb Hbc. rw gf_mul_1 //. exact (row_coef_ok r x Hr).
Qed.

(** ** The matrix invariant *)
Record rows_ok (rows : gmap Z MatrixRow) : Prop := {
  rk_row : ∀ k r, rows !! k = Some r → row_ok r;
  rk_pivot : ∀ k r, rows !! k = Some r → row_coef r k = 1;
  rk_reduced : ∀ k r k', rows !! k = Some r → is_Some (rows !! k') → k' ≠ k →
    row_coef r k' = 0;
}.

(** No row mentions [x]. *)
Definition zero_at (rows : gmap Z MatrixRow) (x : Z) : Prop :=
  ∀ k r, rows !! k = Some r → row_coef r x = 0.

Lemma rows_key_U rows k : rows_ok rows → is_Some (rows !! k) → k ∈ U.
Proof.
  intros Hm [r Hr]. apply (ro_supp _ (rk_row _ Hm _ _ Hr)). rw (rk_pivot _ Hm _ _ Hr). lia.
Qed.
Lemma zero_not_key rows k : rows_ok rows → zero_at rows k → rows !! k = None.
Proof.
  intros Hm Hz. destruct (rows !! k) as [r|] eqn:E; [|done].
  pose proof (rk_pivot _ Hm _ _ E) as H1. rw (Hz _ _ E) in H1. done.
Qed.

Definition in_span (W : (Z → Z) → Prop) (rows : gmap Z MatrixRow) : Prop :=
  ∀ k row, rows !! k = Some row → W (row_coef row).

Lemma rows_empty_ok : rows_ok ∅.
Proof. constructor; intros *; rw lookup_empty; done. Qed.
Lemma rows_delete_ok rows k : rows_ok rows → rows_ok (delete k rows).
Proof.
  intros [H1 H2 H3]. constructor.
  - intros k' r [_ Hr]%lookup_delete_Some. by eapply H1.
  - intros k' r [_ Hr]%lookup_delete_Some. by eapply H2.
  - intros k' r k'' [_ Hr]%lookup_delete_Some [r' [_ Hr']%lookup_delete_Some].
    eapply H3; [done|by eexists].
Qed.
Lemma zero_at_delete rows k x : zero_at rows x → zero_at (delete k rows) x.
Proof. intros Hz k' r [_ Hr]%lookup_delete_Some. by eapply Hz. Qed.

(** A solved row is solved at its key, and carries that symbol. *)
Lemma solved_row rows k r s : rows_ok rows → rows !! k = Some r →
  is_solved (mr_coefs r) = Some s → s = k ∧ mr_payload r = src k.
Proof.
  intros Hm Hr Hs. pose proof (rk_row _ Hm _ _ Hr) as Hrow. pose proof (rk_pivot _ Hm _ _ Hr) as Hp.
  apply (is_solved_spec f) in Hs as [Hne Hz]; [|apply Hrow].
  assert (s = k) as ->.
  { destruct (Z.eq_dec s k) as [|Hsk]; [done|]. specialize (Hz k ltac:(done)).
    unfold row_coef in Hp. rw Hz in Hp. done. }
  split; [done|]. by apply row_singleton.
Qed.

(** *** Forward elimination *)
Lemma eliminate_one_ok m row pid : dm_field m = f → rows_ok (dm_rows m) → row_ok row →
  is_Some (dm_rows m !! pid) →
  ∃ row', eliminate_one disp m row pid = Ok row' ∧ row_ok row' ∧
    (∀ k, is_Some (dm_rows m !! k) → k = pid ∨ row_coef row k = 0 → row_coef row' k = 0) ∧
    (∀ x, zero_at (dm_rows m) x → row_coef row' x = row_coef row x) ∧
    (∀ W, subspace f W → (∀ k r, dm_rows m !! k = Some r → W (row_coef r)) →
       W (row_coef row') → W (row_coef row)).
Proof.
  intros Hf Hm Hrow [e He].
  assert (is_u32 pid) as Hpid by (apply U_u32; eapply rows_key_U; [done|by eexists]).
  unfold eliminate_one. rw row_get // Hf He.
  destruct (Z.eqb_spec (row_coef row pid) 0) as [H0|H0].
  { exists row. split_and!; [done..| |done|done]. by intros k _ [->|]. }
  destruct (row_subtract_ok row e (row_coef row pid)) as (r' & Hr' & Hok & Hg);
    [done|by eapply rk_row|by apply row_coef_ok|].
  exists r'. split_and!; [done..| | |].
  - intros k Hk Hor. rw Hg. destruct (decide (k = pid)) as [->|Hne].
    + rw (rk_pivot _ Hm _ _ He) gf_mul_1_r; [apply Z.lxor_nilpotent|by apply row_coef_ok].
    + destruct Hor as [|H0']; [done|]. rw H0' (rk_reduced _ Hm _ _ k He) //.
      rw gf_mul_0_r //. by apply row_coef_ok.
  - intros x Hx. rw Hg (Hx _ _ He) gf_mul_0_r ?Z.lxor_0_r //. by apply row_coef_ok.
  - intros W HW Hrows. eapply span_sub; [done| |by eapply Hrows|exact Hg]. by apply row_coef_ok.
Qed.

Lemma eliminate_loop_ok m ks row : dm_field m = f → rows_ok (dm_rows m) → row_ok row →
  NoDup ks → (∀ k, k ∈ ks → is_Some (dm_rows m !! k)) →
  ∃ row', mfor (eliminate_one disp m) row ks = Ok row' ∧ row_ok row' ∧
    (∀ k, is_Some (dm_rows m !! k) → k ∈ ks ∨ row_coef row k = 0 → row_coef row' k = 0) ∧
    (∀ x, zero_at (dm_rows m) x → row_coef row' x = row_coef row x) ∧
    (∀ W, subspace f W → (∀ k r, dm_rows m !! k = Some r → W (row_coef r)) →
       W (row_coef row') → W (row_coef row)).
Proof.
  intros Hf Hm. revert row. induction ks as [|pid ks IH]; intros row Hrow Hnd Hks.
  { exists row. split_and!; [done..| |done|done]. intros k _ [Hk|Hk]; [by apply elem_of_nil in Hk|done]. }
  apply NoDup_cons in Hnd as [_ Hnd].
  destruct (eliminate_one_ok m row pid) as (row1 & Hstep & Hrow1 & Hz1 & Hk1 & Hw1);
    [done..|apply Hks; by left|].
  cbn [mfor]. rw Hstep bind_Ok.
  destruct (IH row1) as (row2 & Hl & Hrow2 & Hz2 & Hk2 & Hw2); [done|done|intros; apply Hks; by right|].
  exists row2. split_and!; [done..| | |].
  - intros k Hk [[->|Hin]%elem_of_cons|H0]; apply Hz2; auto.
  - intros x Hx. rw Hk2 //. by apply Hk1.
  - intros W HW Hrows ?. apply Hw1; [done..|]. by apply Hw2.
Qed.

Lemma forward_eliminate_ok m row : dm_field m = f → rows_ok (dm_rows m) → row_ok row →
  ∃ row', forward_eliminate disp m row = Ok row' ∧ row_ok row' ∧
    (∀ k, is_Some (dm_rows m !! k) → row_coef row' k = 0) ∧
    (∀ x, zero_at (dm_rows m) x → row_coef row' x = row_coef row x) ∧
    (∀ W, subspace f W → (∀ k r, dm_rows m !! k = Some r → W (row_coef r)) →
       W (row_coef row') → W (row_coef row)).
Proof.
  intros Hf Hm Hrow. unfold forward_eliminate.
  destruct (eliminate_loop_ok m (bt_keys (dm_rows m)) row) as (row' & Hl & Hok & Hz & Hk & Hw);
    [done..|apply bt_keys_NoDup|intros k Hk; by apply elem_of_bt_keys|].
  exists row'. split_and!; [done..| |done|done].
  intros k Hkey. apply Hz; [done|]. left. by apply elem_of_bt_keys.
Qed.

(** *** Back substitution and insertion *)
Lemma back_substitute_one_ok p row r : row_ok row → row_coef row p = 1 → row_ok r →
  ∃ r', back_substitute_one disp f p row r = Ok r' ∧ row_ok r' ∧
    ∀ x, row_coef r' x
      = Z.lxor (row_coef r x) (@gf_mul (gf_field f) (row_coef r p) (row_coef row x)).
Proof.
  intros Hrow Hp Hr. assert (p ∈ U) as HpU by (apply (ro_supp _ Hrow); rw Hp; lia).
  unfold back_substitute_one. rw row_get //; [|by apply U_u32].
  destruct (Z.eqb_spec (row_coef r p) 0) as [H0|H0].
  - exists r. split_and!; [done..|]. intros x. rw H0 gf_mul_0_l ?Z.lxor_0_r //.
    by apply row_coef_ok.
  - apply row_subtract_ok; [done..|by apply row_coef_ok].
Qed.

Lemma back_substitute_ok m p row : dm_field m = f → rows_ok (dm_rows m) → row_ok row →
  row_coef row p = 1 → (∀ k, is_Some (dm_rows m !! k) → row_coef row k = 0) →
  ∃ m', back_substitute disp m p row = Ok m' ∧ dm_field m' = f ∧
    (dm_max_rows m' = dm_max_rows m) ∧ rows_ok (dm_rows m') ∧ zero_at (dm_rows m') p ∧
    (∀ k, is_Some (dm_rows m' !! k) ↔ is_Some (dm_rows m !! k)) ∧
    (∀ x, zero_at (dm_rows m) x → row_coef row x = 0 → zero_at (dm_rows m') x) ∧
    (∀ W, subspace f W → W (row_coef row) → in_span W (dm_rows m') → in_span W (dm_rows m)).
Proof.
  intros Hf Hm Hrow Hp Hkeys. unfold back_substitute. rw Hf.
  set (body := back_substitute_one disp f p row).
  assert (∀ r, row_ok r → ∃ r', body r = Ok r' ∧ row_ok r' ∧
    ∀ x, row_coef r' x = Z.lxor (row_coef r x) (@gf_mul (gf_field f) (row_coef r p) (row_coef row x)))
    as Hbody by (intros; by apply back_substitute_one_ok).
  set (g := λ (k : Z) r, match body r with Ok r' => r' | _ => r end).
  destruct (bt_update_ok (λ _, body) g (dm_rows m) (bt_keys (dm_rows m))) as (rows' & Hupd & Hl).
  { apply bt_keys_NoDup. } { intros k Hk. by apply elem_of_bt_keys. }
  { intros k r _ Hr. unfold g. destruct (Hbody r) as (r' & Hb & _); [by eapply rk_row|]. by rw Hb. }
  rw Hupd bind_Ok. eexists. split; [done|]. cbn [set_rows dm_field dm_rows dm_max_rows].
  assert (∀ k, rows' !! k = g k <$> (dm_rows m !! k)) as Hlk.
  { intros k. rw Hl. case_decide as Hd; [done|].
    destruct (dm_rows m !! k) eqn:E; [|done]. destruct Hd. apply elem_of_bt_keys. by eexists. }
  assert (∀ k r', rows' !! k = Some r' → ∃ r, dm_rows m !! k = Some r ∧ row_ok r' ∧
    ∀ x, row_coef r' x = Z.lxor (row_coef r x)
           (@gf_mul (gf_field f) (row_coef r p) (row_coef row x))) as Hrows.
  { intros k r'. rw Hlk. intros (r & Hr & ->)%fmap_Some_1. exists r. split; [done|].
    destruct (Hbody r) as (r' & Hb & Hok & Hg); [by eapply rk_row|].
    unfold g. by rw Hb. }
  assert (∀ k, is_Some (rows' !! k) ↔ is_Some (dm_rows m !! k)) as Hdom
    by (intros k; rw Hlk fmap_is_Some; done).
  assert (∀ k r, dm_rows m !! k = Some r → row_ok r) as Hmr by apply (rk_row _ Hm).
  split_and!; [done|done| | |done| |].
  - constructor.
    + intros k r' Hr'. by destruct (Hrows _ _ Hr') as (r & _ & ? & _).
    + intros k r' Hr'. destruct (Hrows _ _ Hr') as (r & Hr & _ & Hg). rw Hg.
      rw (rk_pivot _ Hm _ _ Hr) (Hkeys k ltac:(by eexists)) gf_mul_0_r //; eapply row_coef_ok; eauto.
    + intros k r' k' Hr' Hk' Hne. destruct (Hrows _ _ Hr') as (r & Hr & _ & Hg). rw Hg.
      apply Hdom in Hk'. rw (rk_reduced _ Hm _ _ _ Hr Hk' Hne) (Hkeys k' Hk') gf_mul_0_r //;
        eapply row_coef_ok; eauto.

  - intros k r' Hr'. destruct (Hrows _ _ Hr') as (r & Hr & _ & Hg). rw Hg Hp gf_mul_1_r.
    + apply Z.lxor_nilpotent.
    + eapply row_coef_ok; eauto.
  - intros x Hx H0 k r' Hr'. destruct (Hrows _ _ Hr') as (r & Hr & _ & Hg).
    rw Hg H0 (Hx _ _ Hr) gf_mul_0_r //; eapply row_coef_ok; eauto.
  - intros W HW Hwr Hin k r Hr. destruct (proj2 (Hdom k)) as [r' Hr']; [by eexists|].
    destruct (Hrows _ _ Hr') as (r0 & Hr0 & _ & Hg). replace r0 with r in * by congruence.
    eapply (span_sub f W (row_coef r p)); [done| |exact Hwr|exact Hg|by eapply Hin].
    eapply row_coef_ok; eauto.
Qed.

Lemma rows_insert_ok rows p row : rows_ok rows → row_ok row → row_coef row p = 1 →
  zero_at rows p → (∀ k, is_Some (rows !! k) → row_coef row k = 0) →
  rows_ok (<[p := row]> rows).
Proof.
  intros Hm Hrow Hp Hz Hkeys. constructor.
  - intros k r [[<- <-]|[_ Hr]]%lookup_insert_Some; [done|by eapply rk_row].
  - intros k r [[<- <-]|[_ Hr]]%lookup_insert_Some; [done|by eapply rk_pivot].
  - intros k r k' [[<- <-]|[Hne Hr]]%lookup_insert_Some Hk' Hkk.
    + apply Hkeys. rw lookup_insert_ne // in Hk'.
    + destruct (decide (k' = p)) as [->|Hkp]; [by eapply Hz|].
      rw lookup_insert_ne in Hk'; [|done]. by eapply rk_reduced.
Qed.

(** *** Substituting what is known *)

(** A map of known symbols: each the source symbol of its ID. *)
Definition known_ok (known : gmap Z bytes) : Prop :=
  ∀ id d, known !! id = Some d → d = src id ∧ is_u32 id.

Lemma substitute_loop_ok known ks r : known_ok known → row_ok r →
  (∀ k, k ∈ ks → is_Some (known !! k)) →
  ∃ r', mfor (λ r id, match known !! id with
                      | Some data => substitute disp f r id data | None => Panic end) r ks = Ok r' ∧
    row_ok r' ∧ (∀ x, row_coef r' x = if decide (x ∈ ks) then 0 else row_coef r x) ∧
    (∀ W, subspace f W → (∀ k, k ∈ ks → W (unit_vec k)) → W (row_coef r') → W (row_coef r)).
Proof.
  intros Hk. revert r. induction ks as [|k ks IH]; intros r Hr Hks.
  { exists r. split_and!; [done..| |done]. intros x.
    case_decide as Hx; [by apply elem_of_nil in Hx|done]. }
  destruct (Hks k) as [d Hd]; [by left|]. destruct (Hk _ _ Hd) as [-> Hu].
  destruct (substitute_ok r k) as (r1 & Hs & Hr1 & Hg1); [done..|].
  cbn [mfor]. rw Hd Hs bind_Ok.
  destruct (IH r1) as (r2 & Hl & Hr2 & Hg2 & Hw2); [done|intros; apply Hks; by right|].
  exists r2. split_and!; [done..| |].
  - intros x. rw Hg2 Hg1. repeat case_decide; set_solver.
  - intros W HW Hun Hr2w. eapply (span_clear f W k); [done|by intros; apply row_coef_ok| |exact Hg1|].
    + apply Hun. by left.
    + apply Hw2; [done| |done]. intros x Hx. apply Hun. by right.
Qed.

Lemma substitute_known_ok known r : known_ok known → row_ok r →
  ∃ r', substitute_known disp f known r = Ok r' ∧ row_ok r' ∧
    (∀ x, row_coef r' x = if decide (is_Some (known !! x)) then 0 else row_coef r x) ∧
    (∀ W, subspace f W → (∀ k, is_Some (known !! k) → W (unit_vec k)) →
       W (row_coef r') → W (row_coef r)).
Proof.
  intros Hk Hr. destruct (substitute_loop_ok known (bt_keys known) r) as (r' & Hl & Hok & Hg & Hw);
    [done..|intros k; by rw elem_of_bt_keys|].
  exists r'. split_and!; [done..| |].
  - intros x. rw Hg. apply decide_ext. by rw elem_of_bt_keys.
  - intros W HW Hun. apply Hw; [done|]. intros k Hin. by apply Hun, elem_of_bt_keys.
Qed.

(** [rows'] is [rows] with the column [id] cleared in the rows [ks]. *)
Definition cleared (id : Z) (ks : list Z) (rows rows' : gmap Z MatrixRow) : Prop :=
  (∀ k, is_Some (rows' !! k) ↔ is_Some (rows !! k)) ∧
  (∀ k r', rows' !! k = Some r' → ∃ r, rows !! k = Some r ∧
     ∀ x, row_coef r' x = if decide (x = id ∧ k ∈ ks) then 0 else row_coef r x).

Lemma cleared_ok id ks rows rows' : rows_ok rows → rows !! id = None → cleared id ks rows rows' →
  (∀ k r', rows' !! k = Some r' → row_ok r') → rows_ok rows'.
Proof.
  intros Hm Hid [Hdom Hg] Hok. constructor; [done|..].
  - intros k r' Hr'. destruct (Hg _ _ Hr') as (r & Hr & ->).
    rw decide_False; [by eapply rk_pivot|]. intros [-> _]. congruence.
  - intros k r' k' Hr' Hk' Hne. destruct (Hg _ _ Hr') as (r & Hr & ->).
    case_decide; [done|]. eapply rk_reduced; [done..|by apply Hdom|done].
Qed.
Lemma cleared_zero id ks rows rows' x : cleared id ks rows rows' → zero_at rows x → zero_at rows' x.
Proof.
  intros [_ Hg] Hz k r' Hr'. destruct (Hg _ _ Hr') as (r & Hr & ->). case_decide; [done|].
  by eapply Hz.
Qed.

(** The row under [s] carries the symbol [s] alone. *)
Definition row_carries (rows : gmap Z MatrixRow) (s : Z) : Prop :=
  ∃ r, rows !! s = Some r ∧ ∀ x, x ≠ s → row_coef r x = 0.

Lemma row_carries_payload rows s r : rows_ok rows → row_carries rows s → rows !! s = Some r →
  mr_payload r = src s.
Proof.
  intros Hm (r' & Hr' & Hz) Hr. replace r' with r in * by congruence.
  apply row_singleton; [by eapply rk_row|by eapply rk_pivot|done].
Qed.

Lemma is_solved_carries rows k r s : rows_ok rows → rows !! k = Some r →
  is_solved (mr_coefs r) = Some s → s = k ∧ row_carries rows k.
Proof.
  intros Hm Hr Hs. destruct (solved_row rows k r s Hm Hr Hs) as [-> _]. split; [done|].
  exists r. split; [done|]. apply (is_solved_spec f) in Hs as [_ Hz]; [done|].
  apply (rk_row _ Hm _ _ Hr).
Qed.
Lemma carries_is_solved rows k r : rows_ok rows → rows !! k = Some r → row_carries rows k →
  is_solved (mr_coefs r) = Some k.
Proof.
  intros Hm Hr (r' & Hr' & Hz). replace r' with r in * by congruence.
  apply (is_solved_spec f); [apply (rk_row _ Hm _ _ Hr)|]. split; [|done].
  pose proof (rk_pivot _ Hm _ _ Hr) as H1. unfold row_coef in H1. lia.
Qed.

Definition no_new_carriers (rows rows' : gmap Z MatrixRow) : Prop :=
  ∀ k, row_carries rows' k → row_carries rows k.
Lemma carriers_refl rows : no_new_carriers rows rows.
Proof. by intros k Hk. Qed.
Lemma carriers_delete rows k : no_new_carriers rows (delete k rows).
Proof. intros p (r & [_ Hr]%lookup_delete_Some & Hz). by exists r. Qed.

Lemma subst_row_ok rows id k acc : rows_ok rows → is_u32 id → rows !! id = None →
  is_Some (rows !! k) →
  ∃ rows1 new, subst_row disp f id (src id) (rows, acc) k = Ok (rows1, acc ++ new) ∧
    rows_ok rows1 ∧ cleared id [k] rows rows1 ∧ (∀ s, s ∈ new → row_carries rows1 s) ∧
    (zero_at rows id → new = []) ∧
    (∀ k, row_carries rows1 k → row_carries rows k ∨ k ∈ new).
Proof.
  intros Hm Hid Hnk [r Hr]. pose proof (rk_row _ Hm _ _ Hr) as Hrow.
  unfold subst_row. rw Hr row_get //. destruct (Z.eqb_spec (row_coef r id) 0) as [H0|H0].
  { exists rows, []. rw app_nil_r. split_and!; try done.
    - split; [done|]. intros k' r' Hr'. exists r'. split; [done|]. intros x.
      case_decide as Hd; [|done]. destruct Hd as [-> ->%list_elem_of_singleton].
      replace r' with r by congruence. done.
    - intros s Hs. by apply elem_of_nil in Hs.
    - intros p Hp. by left. }
  destruct (substitute_ok r id) as (r1 & Hs & Hr1 & Hg1); [done..|]. rw Hs bind_Ok.
  set (rows1 := <[k := r1]> rows).
  assert (cleared id [k] rows rows1) as Hcl.
  { split.
    - intros k'. unfold rows1. rw lookup_insert. case_decide as Hk'; [subst; by rw Hr|done].
    - intros k' r' [[<- <-]|[Hne Hr']]%lookup_insert_Some.
      + exists r. split; [done|]. intros x. rw Hg1. apply decide_ext. set_solver.
      + exists r'. split; [done|]. intros x. rw decide_False //. set_solver. }
  assert (rows_ok rows1) as Hm1.
  { eapply cleared_ok; [exact Hm|done..|].
    intros k' r' [[<- <-]|[Hne Hr']]%lookup_insert_Some; [done|by eapply rk_row]. }
  assert (∀ p, row_carries rows1 p → p ≠ k → row_carries rows p) as Hother.
  { intros p (r' & Hr' & Hz) Hne. unfold rows1 in Hr'. rw lookup_insert_ne in Hr'; [|by apply not_eq_sym].
    by exists r'. }
  assert (rows1 !! k = Some r1) as Hk1 by apply lookup_insert_eq.
  destruct (is_solved (mr_coefs r1)) as [s|] eqn:Es.
  - destruct (is_solved_carries rows1 k r1 s Hm1 Hk1 Es) as [-> Hc].
    exists rows1, [k]. split_and!; [done..| | |].
    + by intros s' ->%list_elem_of_singleton.
    + intros Hz. by rw (Hz _ _ Hr) in H0.
    + intros p Hp. destruct (decide (p = k)) as [->|]; [right; by left|left; auto].
  - exists rows1, []. rw app_nil_r. split_and!; try done.
    + intros s0 Hin. by apply elem_of_nil in Hin.
    + intros p Hp. left. apply Hother; [done|]. intros ->.
      by rw (carries_is_solved rows1 k r1 Hm1 Hk1 Hp) in Es.
Qed.

Lemma subst_rows_ok rows id ks acc : rows_ok rows → is_u32 id → rows !! id = None →
  (∀ k, k ∈ ks → is_Some (rows !! k)) →
  ∃ rows' new, mfor (subst_row disp f id (src id)) (rows, acc) ks = Ok (rows', acc ++ new) ∧
    rows_ok rows' ∧ cleared id ks rows rows' ∧ (∀ s, s ∈ new → row_carries rows' s) ∧
    (zero_at rows id → new = []) ∧
    (∀ k, row_carries rows' k → row_carries rows k ∨ k ∈ new).
Proof.
  revert rows acc. induction ks as [|k ks IH]; intros rows acc Hm Hid Hnk Hks.
  { exists rows, []. rw app_nil_r. split_and!; try done.
    - split; [done|]. intros k r' Hr'. exists r'. split; [done|]. intros x.
      case_decide as Hd; [|done]. destruct Hd as [_ Hd]. by apply elem_of_nil in Hd.
    - intros s Hs. by apply elem_of_nil in Hs.
    - intros p Hp. by left. }
  destruct (subst_row_ok rows id k acc) as (rows1 & new1 & Hs1 & Hm1 & Hc1 & Hn1 & Hz1 & Hca1);
    [done..|apply Hks; by left|].
  cbn [mfor]. rw Hs1 bind_Ok. pose proof Hc1 as [Hd1 Hg1].
  destruct (IH rows1 (acc ++ new1)) as (rows2 & new2 & Hs2 & Hm2 & Hc2 & Hn2 & Hz2 & Hca2);
    [done|done|apply eq_None_not_Some; rw Hd1 Hnk; by intros [? ?]
    |intros x Hx; apply Hd1, Hks; by right|].
  exists rows2, (new1 ++ new2). rw app_assoc. pose proof Hc2 as [Hd2 Hg2].
  split_and!; [done..| | | |].
  - split; [intros x; by rw Hd2 Hd1|]. intros k' r2 Hr2.
    destruct (Hg2 _ _ Hr2) as (r1 & Hr1 & Hx2), (Hg1 _ _ Hr1) as (r & Hr & Hx1).
    exists r. split; [done|]. intros x. rw Hx2 Hx1. repeat case_decide; set_solver.
  - intros s [Hs|Hs]%elem_of_app; [|by apply Hn2].
    destruct (Hn1 s Hs) as (r1 & Hr1 & Hz). destruct (proj2 (Hd2 s)) as [r2 Hr2]; [by eexists|].
    exists r2. split; [done|]. intros x Hx. destruct (Hg2 _ _ Hr2) as (r1' & Hr1' & ->).
    case_decide; [done|]. replace r1' with r1 by congruence. by apply Hz.
  - intros Hz. rw Hz1 // Hz2 //. by eapply cleared_zero.
  - intros p Hp. rw elem_of_app. destruct (Hca2 p Hp) as [Hp1|]; [|by auto].
    destruct (Hca1 p Hp1); auto.
Qed.

(** *** The cascade *)

(** A symbol the decoder may take as known. *)
Definition good_sym (t : Z * bytes) : Prop := t.2 = src t.1 ∧ t.1 ∈ U.

(** [p] is not a key, or its row carries it alone. *)
Definition may_extract (rows : gmap Z MatrixRow) (p : Z) : Prop :=
  is_Some (rows !! p) → row_carries rows p.

Lemma may_extract_delete rows p q : may_extract rows p → may_extract (delete q rows) p.
Proof.
  intros Hp [r [Hne Hr]%lookup_delete_Some]. destruct (Hp ltac:(by eexists)) as (r' & Hr' & Hz).
  exists r'. split; [|done]. by apply lookup_delete_Some.
Qed.

Lemma may_extract_cleared id ks rows rows' p : cleared id ks rows rows' →
  may_extract rows p → may_extract rows' p.
Proof.
  intros [Hd Hg] Hp Hr'. destruct (Hp (proj1 (Hd p) Hr')) as (r & Hr & Hz).
  destruct Hr' as [r' Hr']. exists r'. split; [done|]. intros x Hx.
  destruct (Hg _ _ Hr') as (r0 & Hr0 & ->). case_decide; [done|].
  replace r0 with r by congruence. by apply Hz.
Qed.

(** [rows'] comes from [rows]: no new key, no new mention of a symbol. *)
Definition shrinks (rows rows' : gmap Z MatrixRow) : Prop :=
  rows_ok rows' ∧ (∀ x, zero_at rows x → zero_at rows' x) ∧
  (∀ k, rows !! k = None → rows' !! k = None) ∧ (∀ p, may_extract rows p → may_extract rows' p) ∧
  (size rows' ≤ size rows)%nat.

Lemma shrinks_refl rows : rows_ok rows → shrinks rows rows.
Proof. intros Hm. unfold shrinks. split_and!; auto. Qed.
Lemma shrinks_trans rows1 rows2 rows3 : shrinks rows1 rows2 → shrinks rows2 rows3 → shrinks rows1 rows3.
Proof.
  intros (H1 & H2 & H3 & H4 & H5) (H6 & H7 & H8 & H9 & H10). split_and!; [done|auto..|lia].
Qed.
Lemma shrinks_delete rows k : rows_ok rows → shrinks rows (delete k rows).
Proof.
  intros Hm. split_and!; [by apply rows_delete_ok|intros x; apply zero_at_delete| | |].
  - intros k' Hk'. apply lookup_delete_None. by right.
  - intros p. apply may_extract_delete.
  - rw map_size_delete. destruct (rows !! k); unfold id; lia.
Qed.

(** Taking a row out makes its key disappear from the matrix. *)
Lemma zero_at_delete_key rows k : rows_ok rows → is_Some (rows !! k) → zero_at (delete k rows) k.
Proof.
  intros Hm Hk k' r [Hne Hr]%lookup_delete_Some. eapply rk_reduced; done.
Qed.

Lemma cleared_shrinks id ks rows rows' : rows_ok rows' → cleared id ks rows rows' →
  shrinks rows rows'.
Proof.
  intros Hm Hc. pose proof Hc as [Hd _]. split_and!; [done|intros; by eapply cleared_zero| |intros p; by eapply may_extract_cleared|].
  - intros k Hk. apply eq_None_not_Some. rw Hd Hk. by intros [? ?].
  - rw -!size_dom. apply subseteq_size. intros k. by rw !elem_of_dom Hd.
Qed.

(** A row that carries one symbol yields a good symbol. *)
Lemma row_carries_good rows p r : rows_ok rows → row_carries rows p → rows !! p = Some r →
  good_sym (p, mr_payload r).
Proof.
  intros Hm Hc Hr. split_and!; cbn.
  - by eapply row_carries_payload.
  - eapply rows_key_U; [done|by eexists].
Qed.

(** *** No equation is lost

    Every coefficient vector of the old rows is a combination of the new rows
    and of the recovered symbols: a subspace that holds these holds those. *)
Definition units_in (W : (Z → Z) → Prop) (r : list (Z * bytes)) : Prop :=
  ∀ t, t ∈ r → W (unit_vec t.1).
Definition spans_back (rows rows' : gmap Z MatrixRow) (r : list (Z * bytes)) : Prop :=
  ∀ W, subspace f W → in_span W rows' → units_in W r → in_span W rows.

Lemma spans_back_trans rows1 rows2 rows3 r1 r2 :
  spans_back rows1 rows2 r1 → spans_back rows2 rows3 r2 → spans_back rows1 rows3 (r1 ++ r2).
Proof.
  intros H1 H2 W HW H3 Hu. apply H1; [done|apply H2; [done..|]|];
    intros t Ht; apply Hu, elem_of_app; auto.
Qed.
Lemma spans_back_mono rows rows' r r' : r ⊆ r' → spans_back rows rows' r → spans_back rows rows' r'.
Proof. intros Hsub Hb W HW Hr Hu. apply Hb; [done..|]. intros t Ht. by apply Hu, Hsub. Qed.
Lemma spans_back_refl rows : spans_back rows rows [].
Proof. by intros W HW Hr _. Qed.

Lemma row_carries_span W rows k row : subspace f W → rows_ok rows → rows !! k = Some row →
  row_carries rows k → W (unit_vec k) → W (row_coef row).
Proof.
  intros HW Hm Hr (r' & Hr' & Hz) Hu. replace r' with row in * by congruence.
  apply (ss_ext _ _ HW (unit_vec k)); [|done]. intros x. unfold unit_vec.
  case_decide as Hx; [|by rw Hz]. subst x. symmetry. by eapply rk_pivot.
Qed.
Lemma spans_back_delete rows k data : rows_ok rows → row_carries rows k →
  spans_back rows (delete k rows) [(k, data)].
Proof.
  intros Hm Hc W HW Hr Hu x row Hx. destruct (decide (k = x)) as [->|Hne].
  - eapply row_carries_span; [done..|]. apply (Hu (x, data)). by left.
  - apply (Hr x). by rw lookup_delete_ne.
Qed.
Lemma cleared_span W id ks rows rows' : subspace f W → rows_ok rows → cleared id ks rows rows' →
  W (unit_vec id) → in_span W rows' → in_span W rows.
Proof.
  intros HW Hm [Hd Hg] Hu Hr k row Hk. destruct (proj2 (Hd k)) as [r' Hr']; [by eexists|].
  destruct (Hg _ _ Hr') as (row' & Hrow' & Hc). replace row' with row in * by congruence.
  specialize (Hr _ _ Hr'). destruct (decide (k ∈ ks)) as [Hin|Hnin].
  - eapply (span_clear f W id); [done| |done| |exact Hr].
    + intros x. eapply row_coef_ok, rk_row; done.
    + intros x. rw Hc. apply decide_ext. intuition.
  - apply (ss_ext _ _ HW (row_coef r')); [|done]. intros x. rw Hc decide_False //. by intros [_ ?].
Qed.

(** What the cascade adds to its queue and to its results, after substituting
    [u]. *)
Record ca_adds (u : list (Z * bytes)) (s s' : cascade) (q r : list (Z * bytes)) : Prop := {
  cd_shrinks : shrinks (ca_rows s) (ca_rows s');
  cd_queue : ca_queue s' = ca_queue s ++ q;
  cd_queue_good : Forall (λ t, good_sym t ∧ zero_at (ca_rows s') t.1) q;
  cd_rec : ca_recovered s' = ca_recovered s ++ r;
  cd_rec_good : Forall (λ t, good_sym t ∧ zero_at (ca_rows s') t.1) r;
  cd_spans : spans_back (ca_rows s) (ca_rows s') (u ++ r);
  cd_incl : q ⊆ r;
  cd_count : (length r + size (ca_rows s') = size (ca_rows s))%nat;
  cd_size : (length q + size (ca_rows s') ≤ size (ca_rows s))%nat;
}.

Lemma ca_adds_trans u1 u2 s1 s2 s3 q1 r1 q2 r2 :
  ca_adds u1 s1 s2 q1 r1 → ca_adds u2 s2 s3 q2 r2 →
  ca_adds (u1 ++ u2) s1 s3 (q1 ++ q2) (r1 ++ r2).
Proof.
  intros [A1 B1 C1 D1 E1 K1 I1 F1 G1] [A2 B2 C2 D2 E2 K2 I2 F2 G2]. pose proof A2 as (_ & Hz & _).
  assert (∀ l, Forall (λ t : Z * bytes, good_sym t ∧ zero_at (ca_rows s2) t.1) l →
    Forall (λ t : Z * bytes, good_sym t ∧ zero_at (ca_rows s3) t.1) l) as Hmono.
  { intros l Hl. eapply Forall_impl; [exact Hl|]. intros t [? ?]. auto. }
  constructor.
  - by eapply shrinks_trans.
  - by rw B2 B1 app_assoc.
  - apply Forall_app_2; [by apply Hmono|done].
  - by rw D2 D1 app_assoc.
  - apply Forall_app_2; [by apply Hmono|done].
  - eapply spans_back_mono; [|by eapply spans_back_trans]. set_solver.
  - set_solver.
  - rw length_app. lia.
  - rw length_app. lia.
Qed.

Lemma extract_solved_ok s p : rows_ok (ca_rows s) → may_extract (ca_rows s) p →
  (∃ q r, ca_adds [] s (extract_solved s p) q r) ∧
  no_new_carriers (ca_rows s) (ca_rows (extract_solved s p)) ∧
  ca_rows (extract_solved s p) !! p = None.
Proof.
  intros Hm Hp. unfold extract_solved. destruct (ca_rows s !! p) as [row|] eqn:Hrow.
  2: { split; [|by split; [apply carriers_refl|]]. 
  exists [], []. constructor; rw ?app_nil_r; try done; auto using shrinks_refl, spans_back_refl. }
  pose proof (row_carries_good _ _ _ Hm (Hp ltac:(by eexists)) Hrow) as Hg.
  pose proof (zero_at_delete_key _ p Hm ltac:(by eexists)) as Hz.
  assert (Forall (λ t, good_sym t ∧ zero_at (delete p (ca_rows s)) t.1) [(p, mr_payload row)])
    as Hone by by apply Forall_singleton.
  assert (0 < size (ca_rows s))%nat as Hsz.
  { apply Nat.neq_0_lt_0. intros H0%map_size_empty_inv. by rw H0 lookup_empty in Hrow. }
  split; [|split; [apply carriers_delete|apply lookup_delete_eq]].
  exists (if ca_known s !! p is Some _ then [] else [(p, mr_payload row)]), [(p, mr_payload row)].
  constructor; cbn [ca_rows ca_queue ca_recovered]; [by apply shrinks_delete| | |done|done|..].
  - destruct (ca_known s !! p); by rw ?app_nil_r.
  - by destruct (ca_known s !! p).
  - apply spans_back_delete; [done|apply Hp; by eexists].
  - destruct (ca_known s !! p); set_solver.
  - rw map_size_delete_Some; [cbn; lia|by eexists].
  - rw map_size_delete_Some; [|by eexists]. destruct (ca_known s !! p); cbn; lia.
Qed.

Lemma extract_all_ok ps s : rows_ok (ca_rows s) → (∀ p, p ∈ ps → may_extract (ca_rows s) p) →
  (∃ q r, ca_adds [] s (fold_left extract_solved ps s) q r) ∧
  let rows' := ca_rows (fold_left extract_solved ps s) in
  no_new_carriers (ca_rows s) rows' ∧ ∀ p, p ∈ ps → rows' !! p = None.
Proof.
  revert s. induction ps as [|p ps IH]; intros s Hm Hps.
  { split; [|split; [apply carriers_refl|intros p Hp; by apply elem_of_nil in Hp]]. exists [], []. constructor; rw ?app_nil_r; try done; auto using shrinks_refl, spans_back_refl. }
  destruct (extract_solved_ok s p) as ((q1 & r1 & Ha1) & Hc1 & Hp1); [done|apply Hps; by left|].
  destruct (IH (extract_solved s p)) as ((q2 & r2 & Ha2) & Hc2 & Hp2); [apply Ha1| |].
  - intros p' Hp'. specialize (Hps p' ltac:(by right)). unfold extract_solved.
    destruct (ca_rows s !! p); [by apply may_extract_delete|done].
  - cbn [fold_left]. split; [exists (q1 ++ q2), (r1 ++ r2); by apply (ca_adds_trans [] [] s _ _ _ _ _ _ Ha1 Ha2)|]. split.
    + intros k Hk. by apply Hc1, Hc2.
    + intros p' [->|Hp']%elem_of_cons; [|by apply Hp2].
      destruct Ha2 as [(_ & _ & Hnone & _) _ _ _ _ _ _ _ _]. by apply Hnone.
Qed.

Lemma cascade_step_ok s id : rows_ok (ca_rows s) → good_sym (id, src id) → ca_rows s !! id = None →
  ∃ s' q r, cascade_step disp f s id (src id) = Ok s' ∧ ca_adds [(id, src id)] s s' q r ∧
    zero_at (ca_rows s') id ∧ no_new_carriers (ca_rows s) (ca_rows s').
Proof.
  intros Hm [_ HidU] Hnk. cbn in HidU. unfold cascade_step.
  destruct (subst_rows_ok (ca_rows s) id (bt_keys (ca_rows s)) [])
    as (rows' & new & Hl & Hm' & Hc & Hnew & _ & Hca);
    [done|by apply U_u32|done..|intros k; by rw elem_of_bt_keys|].
  rw Hl app_nil_l bind_Ok. set (s1 := {| ca_rows := rows'; ca_known := _; ca_queue := _; ca_recovered := _ |}).
  assert (ca_adds [(id, src id)] s s1 [] []) as Ha1.
  { assert (size rows' = size (ca_rows s)) as Hsz.
    { rw -!size_dom. f_equal. apply set_eq. intros k. rw !elem_of_dom. apply Hc. }
    constructor; cbn [ca_rows ca_queue ca_recovered s1]; rw ?app_nil_r ?Hsz; try done.
    { by eapply cleared_shrinks. }
    intros W HW Hr Hu. eapply cleared_span; [done..| |exact Hr]. apply (Hu (id, src id)). by left. }
  destruct (extract_all_ok new s1) as ((q & r & Ha2) & Hc2 & Hp2); [done|intros p Hp _; by apply Hnew|].
  exists (fold_left extract_solved new s1), q, r. split; [done|].
  split; [pose proof (ca_adds_trans _ _ _ _ _ _ _ _ _ Ha1 Ha2) as Ha; exact Ha|].
  split; [|intros k Hk; destruct (Hca k (Hc2 k Hk)) as [|Hin]; [done|];
    destruct Hk as (r' & Hr' & _); by rw (Hp2 k Hin) in Hr'].
  apply (cd_shrinks _ _ _ _ _ Ha2). cbn [ca_rows s1]. intros k r' Hr'.
  destruct Hc as [Hd Hg]. destruct (Hg _ _ Hr') as (r0 & Hr0 & ->).
  rw decide_True //. split; [done|]. apply elem_of_bt_keys. by eexists.
Qed.

(** Enough fuel for the queue and every row that may join it. *)
Lemma cascade_loop_ok fuel s : rows_ok (ca_rows s) →
  Forall (λ t, good_sym t ∧ ca_rows s !! t.1 = None) (ca_queue s) →
  (length (ca_queue s) + size (ca_rows s) ≤ fuel)%nat →
  ∃ s' r, cascade_loop disp fuel f s = Ok s' ∧ shrinks (ca_rows s) (ca_rows s') ∧
    ca_recovered s' = ca_recovered s ++ r ∧ (length r + size (ca_rows s') = size (ca_rows s))%nat ∧
    spans_back (ca_rows s) (ca_rows s') (ca_queue s ++ r) ∧ no_new_carriers (ca_rows s) (ca_rows s') ∧
    Forall (λ t, good_sym t ∧ zero_at (ca_rows s') t.1) r ∧
    (∀ t, t ∈ ca_queue s → zero_at (ca_rows s') t.1).
Proof.
  revert s. induction fuel as [|fuel IH]; intros s Hm Hq Hf.
  all: cbn [cascade_loop]; destruct (ca_queue s) as [|[id d] queue] eqn:Eq.
  1, 3: exists s, []; rw app_nil_r; split_and!; try done; auto using shrinks_refl, spans_back_refl, carriers_refl;
    intros t Ht; by apply elem_of_nil in Ht.
  { cbn in Hf. lia. }
  apply Forall_cons in Hq as [[Hg Hnk] Hq]. cbn in Hnk. pose proof Hg as (Hd & _). cbn in Hd. subst d.
  set (s0 := {| ca_rows := ca_rows s; ca_known := _; ca_queue := queue; ca_recovered := _ |}).
  destruct (cascade_step_ok s0 id) as (s1 & q & r & Hs1 & Ha & Hz & Hnc); [done..|].
  rw Hs1 bind_Ok. destruct Ha as [Hsh Hqueue Hqg Hrec Hrg Hspan Hincl Hcount Hsize].
  cbn [ca_rows ca_queue ca_recovered s0] in *. pose proof Hsh as (Hm1 & Hz1 & Hk1 & _).
  destruct (IH s1) as (s' & r' & Hl & Hsh' & Hrec' & Hcount' & Hspan' & Hnc' & Hrg' & Hqz); [done| |rw Hqueue length_app; cbn in Hf; lia|].
  { rw Hqueue. apply Forall_app_2.
    - eapply Forall_impl; [exact Hq|]. intros t [? ?]. auto.
    - eapply Forall_impl; [exact Hqg|]. intros t [? ?]. split; [done|]. by apply zero_not_key. }
  pose proof Hsh' as (_ & Hz' & _).
  exists s', (r ++ r'). split_and!; [done|by eapply shrinks_trans|by rw Hrec' Hrec app_assoc
    |rw length_app; lia| |intros k Hk; by apply Hnc, Hnc'| |].
  - eapply spans_back_mono; [|by eapply spans_back_trans]. rw Hqueue. set_solver.
  - apply Forall_app_2; [|done]. eapply Forall_impl; [exact Hrg|]. intros t [? ?]. auto.
  - intros t [->|Ht]%elem_of_cons; [by apply Hz'|]. apply Hqz. rw Hqueue. apply elem_of_app. by left.
Qed.

Lemma add_known_source_ok m id known : dm_field m = f → rows_ok (dm_rows m) →
  good_sym (id, src id) → dm_rows m !! id = None →
  ∃ rows' r, add_known_source disp m id (src id) known = Ok (set_rows m rows', r) ∧
    shrinks (dm_rows m) rows' ∧ zero_at rows' id ∧ (length r + size rows' = size (dm_rows m))%nat ∧
    spans_back (dm_rows m) rows' ((id, src id) :: r) ∧ no_new_carriers (dm_rows m) rows' ∧
    Forall (λ t, good_sym t ∧ zero_at rows' t.1) r.
Proof.
  intros Hf Hm Hg Hnk. unfold add_known_source. rw Hf.
  set (s := {| ca_rows := dm_rows m; ca_known := known; ca_queue := _; ca_recovered := [] |}).
  destruct (cascade_loop_ok (S (size (dm_rows m))) s) as (s' & r & Hl & Hsh & Hrec & Hcount & Hspan & Hnc & Hrg & Hqz);
    [done|by apply Forall_singleton|cbn; lia|].
  rw Hl bind_Ok. cbn [ca_recovered s app] in Hrec. exists (ca_rows s'), r. rw Hrec.
  split_and!; [done..| |done|done|done|done]. apply (Hqz (id, src id)). by left.
Qed.

(** *** Collecting the solved rows *)
Lemma elem_of_solved_keys rows k : rows_ok rows → k ∈ solved_keys rows ↔ row_carries rows k.
Proof.
  intros Hm. unfold solved_keys. rw list_elem_of_filter. unfold row_solved. split.
  - destruct (rows !! k) as [r|] eqn:Hr; [|by intros [? _]].
    destruct (is_solved (mr_coefs r)) as [s|] eqn:Es; [|by intros [? _]].
    intros _. by eapply is_solved_carries.
  - intros Hc. pose proof Hc as (r & Hr & _). rw Hr (carries_is_solved rows k r) //.
    split; [done|]. apply elem_of_bt_keys. by eexists.
Qed.

Lemma solved_keys_nil rows : rows_ok rows → solved_keys rows = [] ↔ ∀ k, ¬ row_carries rows k.
Proof.
  intros Hm. split.
  - intros Hnil k Hk%elem_of_solved_keys; [|done]. rw Hnil in Hk. by apply elem_of_nil in Hk.
  - intros Hn. destruct (solved_keys rows) as [|k ks] eqn:E; [done|]. destruct (Hn k).
    apply elem_of_solved_keys; [done|]. rw E. by left.
Qed.
Lemma solved_keys_mono rows rows' : rows_ok rows → rows_ok rows' → no_new_carriers rows rows' →
  solved_keys rows = [] → solved_keys rows' = [].
Proof. intros Hm Hm' Hn. rw !solved_keys_nil //. intros Hk k Hc. by eapply Hk, Hn. Qed.

(** What a round of collecting adds to the results. *)
Record co_adds (s s' : collect) (r : list (Z * bytes)) : Prop := {
  cc_matrix : co_matrix s' = set_rows (co_matrix s) (dm_rows (co_matrix s'));
  cc_shrinks : shrinks (dm_rows (co_matrix s)) (dm_rows (co_matrix s'));
  cc_rec : co_recovered s' = co_recovered s ++ r;
  cc_rec_good : Forall (λ t, good_sym t ∧ zero_at (dm_rows (co_matrix s')) t.1) r;
  cc_spans : spans_back (dm_rows (co_matrix s)) (dm_rows (co_matrix s')) r;
  cc_count : (length r + size (dm_rows (co_matrix s')) = size (dm_rows (co_matrix s)))%nat;
}.

Lemma set_rows_self m : set_rows m (dm_rows m) = m.
Proof. by destruct m. Qed.

Lemma co_adds_refl s : rows_ok (dm_rows (co_matrix s)) → co_adds s s [].
Proof.
  intros Hm. constructor; rw ?app_nil_r ?set_rows_self //; auto using shrinks_refl, spans_back_refl.
Qed.
Lemma co_adds_trans s1 s2 s3 r1 r2 : co_adds s1 s2 r1 → co_adds s2 s3 r2 → co_adds s1 s3 (r1 ++ r2).
Proof.
  intros [A1 B1 C1 D1 K1 E1] [A2 B2 C2 D2 K2 E2]. pose proof B2 as (_ & Hz & _). constructor.
  - rw A2 A1. done.
  - by eapply shrinks_trans.
  - by rw C2 C1 app_assoc.
  - apply Forall_app_2; [|done]. eapply Forall_impl; [exact D1|]. intros t [? ?]. auto.
  - by eapply spans_back_trans.
  - rw length_app. lia.
Qed.

Definition collect_ok (s : collect) : Prop :=
  dm_field (co_matrix s) = f ∧ rows_ok (dm_rows (co_matrix s)).

Lemma co_adds_ok s s' r : collect_ok s → co_adds s s' r → collect_ok s'.
Proof. intros [Hf _] [A [B _] _ _ _ _]. split; [by rw A|done]. Qed.

Lemma collect_one_ok s p : collect_ok s → may_extract (dm_rows (co_matrix s)) p →
  ∃ s' r, collect_one disp s p = Ok s' ∧ co_adds s s' r ∧
    (is_Some (dm_rows (co_matrix s) !! p) → r ≠ []).
Proof.
  intros [Hf Hm] Hp. unfold collect_one. destruct (dm_rows (co_matrix s) !! p) as [row|] eqn:Hrow.
  2: { exists s, []. split_and!; [done|by apply co_adds_refl|by intros [? ?]]. }
  pose proof (Hp ltac:(by eexists)) as Hc.
  pose proof (row_carries_good _ _ _ Hm Hc Hrow) as Hg.
  rw (carries_is_solved _ _ _ Hm Hrow Hc). cbn zeta. pose proof Hg as (Hd & _). cbn in Hd.
  rw Hd. rw Hd in Hg. pose proof (shrinks_delete _ p Hm) as Hsh0. pose proof Hsh0 as (Hm0 & _).
  set (m0 := set_rows (co_matrix s) (delete p (dm_rows (co_matrix s)))).
  destruct (add_known_source_ok m0 p (<[p:=src p]> (co_extra s)))
    as (rows' & more & Ha & Hsh & Hz & Hcount & Hspan & _ & Hmore); [done..|apply lookup_delete_eq|].
  rw Ha bind_Ok. eexists _, ((p, src p) :: more). split; [done|]. split; [|done].
  constructor; cbn [co_matrix co_recovered dm_rows set_rows m0] in *; [done| |done|..].
  - by eapply shrinks_trans.
  - constructor; [by split|done].
  - eapply spans_back_mono; [|eapply spans_back_trans;
      [by apply (spans_back_delete _ p (src p))|exact Hspan]]. set_solver.
  - rw map_size_delete_Some in Hcount; [|by eexists]. cbn [length].
    assert (0 < size (dm_rows (co_matrix s)))%nat; [|lia].
    apply Nat.neq_0_lt_0. intros H0%map_size_empty_inv. by rw H0 lookup_empty in Hrow.
Qed.

Lemma collect_round_ok ps s : collect_ok s → (∀ p, p ∈ ps → may_extract (dm_rows (co_matrix s)) p) →
  ∃ s' r, mfor (collect_one disp) s ps = Ok s' ∧ co_adds s s' r ∧
    (∀ p, head ps = Some p → is_Some (dm_rows (co_matrix s) !! p) → r ≠ []).
Proof.
  revert s. induction ps as [|p ps IH]; intros s Hs Hps.
  { exists s, []. split_and!; [done|by apply co_adds_refl, Hs|done]. }
  destruct (collect_one_ok s p) as (s1 & r1 & H1 & Ha1 & Hne); [done|apply Hps; by left|].
  cbn [mfor]. rw H1 bind_Ok. destruct (IH s1) as (s2 & r2 & H2 & Ha2 & _).
  - by eapply co_adds_ok.
  - intros q Hq. destruct Ha1 as [_ (_ & _ & _ & Hme & _) _ _ _ _]. apply Hme, Hps. by right.
  - exists s2, (r1 ++ r2). split_and!; [done|by eapply co_adds_trans|].
    intros q [= <-] Hrow [Hnil _]%app_nil. by apply Hne.
Qed.

(** The loop ends: every round removes a row. *)
Lemma collect_loop_ok fuel s : collect_ok s → (size (dm_rows (co_matrix s)) ≤ fuel)%nat →
  ∃ s' r, collect_loop disp fuel s = Ok s' ∧ co_adds s s' r ∧
    solved_keys (dm_rows (co_matrix s')) = [].
Proof.
  revert s. induction fuel as [|fuel IH]; intros s Hs Hfuel.
  - exists s, []. pose proof Hs as [_ Hm].
    assert (solved_keys (dm_rows (co_matrix s)) = []) as Hnil.
    { assert (dm_rows (co_matrix s) = ∅) as -> by (apply map_size_empty_inv; lia). done. }
    cbn [collect_loop]. rw Hnil. split_and!; [done|by apply co_adds_refl|done].
  - cbn [collect_loop]. destruct (solved_keys (dm_rows (co_matrix s))) as [|p ps] eqn:Hk.
    { exists s, []. split_and!; [done|by apply co_adds_refl, Hs|done]. }
    assert (∀ q, q ∈ p :: ps → row_carries (dm_rows (co_matrix s)) q) as Hcar.
    { intros q Hq. apply elem_of_solved_keys; [apply Hs|by rw Hk]. }
    destruct (collect_round_ok (p :: ps) s) as (s1 & r1 & H1 & Ha1 & Hne); [done| |].
    { intros q Hq _. by apply Hcar. }
    rw H1 bind_Ok. assert (r1 ≠ []) as Hr1.
    { apply (Hne p eq_refl). destruct (Hcar p ltac:(by left)) as (r & Hr & _). by eexists. }
    destruct (IH s1) as (s2 & r2 & H2 & Ha2 & Hnil); [by eapply co_adds_ok| |].
    { destruct Ha1 as [_ _ _ _ _ Hcount]. destruct r1; [done|]. cbn in Hcount. lia. }
    exists s2, (r1 ++ r2). split_and!; [done|by eapply co_adds_trans|done].
Qed.

(** *** A coded equation *)

(** An encoding vector the matrix can take: distinct IDs, one coefficient of
    the field for each. *)
Record ev_usable (ev : EncodingVector) : Prop := {
  eu_ids : NoDup (ev_source_ids ev);
  eu_in : ev_source_ids ev ⊆ U;
  eu_coefs : ev_coefficients ev = [] ∨ length (ev_coefficients ev) = length (ev_source_ids ev);
  eu_field : Forall (coef_ok f) (ev_coefficients ev);
}.

Lemma ev_terms_ids ev : ev_usable ev → (ev_terms ev).*1 = ev_source_ids ev.
Proof.
  intros [_ _ Hc _]. unfold ev_terms, has_explicit_coefs.
  destruct (Nat.eqb_spec (length (ev_coefficients ev)) 0) as [H0|H0]; cbn [negb].
  - rw -list_fmap_compose. apply list_fmap_id.
  - apply fst_zip. destruct Hc as [Hn|Hn]; [by rw Hn in H0|lia].
Qed.
Lemma ev_terms_ok ev : ev_field ev = f → ev_usable ev → terms_ok f (ev_terms ev).
Proof.
  intros Hf [_ _ Hc Hco]. unfold ev_terms, terms_ok. destruct (has_explicit_coefs ev).
  - apply Forall_forall. intros [x c] Hin. apply elem_of_zip_r in Hin. cbn.
    by eapply (Forall_forall (coef_ok f)).
  - apply Forall_fmap, Forall_true. intros x. cbn. rw Hf. apply vandermonde_coef_ok.
Qed.

(** The coefficient of the [i]-th ID, as the loop reads it. *)
Lemma coef_map_loop_ok ev ids terms i map :
  NoDup ids → (∀ x, x ∈ ids → map !! x = None) → terms.*1 = ids →
  (∀ j t, terms !! j = Some t →
     (if has_explicit_coefs ev then index (ev_coefficients ev) (i + j)%nat
      else Ok (vandermonde_coef (ev_field ev) t.1 (ev_coded_id ev))) = (Ok t.2 : result Z)) →
  ∃ map', coef_map_loop ev i ids map = Ok map' ∧
    ∀ x, map' !! x = if decide (x ∈ ids)
                     then (if coef_at terms x =? 0 then None else Some (coef_at terms x))
                     else map !! x.
Proof.
  revert i terms map. induction ids as [|id ids IH]; intros i terms map Hnd Hnone Ht Hc.
  { exists map. split; [done|]. intros x. case_decide as Hx; [by apply elem_of_nil in Hx|done]. }
  destruct terms as [|[a c] terms]; [done|]. injection Ht as -> Hids.
  apply NoDup_cons in Hnd as [Hid Hnd]. cbn [coef_map_loop].
  specialize (Hc 0%nat (id, c) eq_refl) as Hc0. rw Nat.add_0_r in Hc0. cbn [fst snd] in Hc0.
  rw Hc0 bind_Ok. set (map1 := if c =? 0 then map else <[id:=c]> map).
  destruct (IH (S i) terms map1) as (map' & Hl & Hg); [done| |done| |].
  - intros x Hx. unfold map1. destruct (c =? 0); [|rw lookup_insert_ne; [|intros ->; done]];
      apply Hnone; by right.
  - intros j t Hj. specialize (Hc (S j) t Hj). by rw Nat.add_succ_r in Hc.
  - exists map'. split; [done|]. intros x. rw Hg. cbn [coef_at].
    destruct (decide (x = id)) as [->|Hne].
    + rw (decide_False (P := id ∈ ids)) //. rw (decide_True (P := id ∈ id :: ids)); [|by left].
      unfold map1. destruct (Z.eqb_spec c 0); [apply Hnone; by left|by rw lookup_insert_eq].
    + rw (decide_ext (x ∈ ids) (x ∈ id :: ids)); [|set_solver].
      unfold map1. destruct (c =? 0); [done|]. by rw lookup_insert_ne.
Qed.

Lemma coef_map_ok ev : ev_field ev = f → ev_usable ev →
  ∃ map, coef_map_loop ev 0 (ev_source_ids ev) ∅ = Ok map ∧
    ∀ x, map !! x = if coef_at (ev_terms ev) x =? 0 then None else Some (coef_at (ev_terms ev) x).
Proof.
  intros Hf He. pose proof (ev_terms_ids ev He) as Hids.
  destruct (coef_map_loop_ok ev (ev_source_ids ev) (ev_terms ev) 0 ∅) as (map & Hl & Hg).
  - apply He.
  - intros x _. apply lookup_empty.
  - done.
  - intros j [x c] Hj. unfold ev_terms in Hj. destruct (has_explicit_coefs ev).
    + apply lookup_zip_Some in Hj as [_ Hj]. unfold index. cbn. by rw Hj.
    + rw list_lookup_fmap in Hj. destruct (ev_source_ids ev !! j); [|done].
      injection Hj as <- <-. done.
  - exists map. split; [done|]. intros x. rw Hg. case_decide as Hx; [done|].
    rw coef_at_notin; [|by rw Hids]. apply lookup_empty.
Qed.

(** The row of an honest packet. *)
Lemma coded_row_ok ev payload : honest_coded f sz src ev payload → ev_usable ev →
  ∃ map d, coef_map_loop ev 0 (ev_source_ids ev) ∅ = Ok map ∧ from_map map = Ok d ∧
    row_ok {| mr_coefs := d; mr_payload := payload |} ∧
    ∀ x, coef_off d x = coef_at (ev_terms ev) x.
Proof.
  intros [Hf Hpay] He. destruct (coef_map_ok ev Hf He) as (map & Hmap & Hl).
  pose proof (ev_terms_ids ev He) as Hids. pose proof (ev_terms_ok ev Hf He) as Hto.
  assert (∀ x, coef_at (ev_terms ev) x ≠ 0 → x ∈ U) as Hin.
  { intros x Hx. apply (eu_in ev He). rw -Hids.
    destruct (decide (x ∈ (ev_terms ev).*1)) as [|Hn]; [done|]. by rw coef_at_notin in Hx. }
  destruct (from_map_spec f map) as (d & Hd & Hok & Hg).
  { intros k c. rw Hl. destruct (Z.eqb_spec (coef_at (ev_terms ev) k) 0); [done|]. intros [= <-].
    split; [|by apply coef_at_ok]. by apply (proj1 (Forall_forall _ _) HUr), Hin. }
  assert (∀ x, coef_off d x = coef_at (ev_terms ev) x) as Hcoef.
  { intros x. rw Hg Hl. by destruct (Z.eqb_spec (coef_at (ev_terms ev) x) 0) as [->|]. }
  exists map, d. split_and!; [done|done| |done].
  constructor; cbn [mr_coefs mr_payload]; [done| |].
  - intros x. unfold row_coef. cbn. rw Hcoef. apply Hin.
  - rw Hpay (lincomb_rowsum f sz src Hsrc _ U) //; [|rw Hids; apply He|rw Hids; apply He].
    apply rowsum_ext. intros x _. unfold row_coef. cbn. by rw Hcoef.
Qed.

Lemma matrix_evict_ok m : dm_field m = f → rows_ok (dm_rows m) →
  evict_row m = set_rows m (dm_rows (evict_row m)) ∧ shrinks (dm_rows m) (dm_rows (evict_row m)).
Proof.
  intros Hf Hm. unfold evict_row. destruct (Z.leb_spec (dm_max_rows m) (Z.of_nat (size (dm_rows m)))).
  2: { rw set_rows_self. by split; [|apply shrinks_refl]. }
  destruct (bt_first (dm_rows m)); [|rw set_rows_self; by split; [|apply shrinks_refl]].
  split; [done|by apply shrinks_delete].
Qed.

(** The part of [add_coded] after the row became nonzero: insertion and
    recovery. *)
Lemma insert_row_ok m row known : dm_field m = f → rows_ok (dm_rows m) → row_ok row →
  (∀ k, is_Some (dm_rows m !! k) → row_coef row k = 0) → is_zero (mr_coefs row) = false →
  ∃ row1 pid m1 s r, normalize disp row f = Ok row1 ∧ pivot_id (mr_coefs row1) = Some pid ∧
    back_substitute disp m pid row1 = Ok m1 ∧
    (let m2 := evict_row m1 in let m3 := set_rows m2 (<[pid := row1]> (dm_rows m2)) in
     collect_loop disp (S (size (dm_rows m3))) {| co_matrix := m3; co_extra := known; co_recovered := [] |}
     = Ok s) ∧
    co_matrix s = set_rows m (dm_rows (co_matrix s)) ∧ co_recovered s = r ∧
    rows_ok (dm_rows (co_matrix s)) ∧
    (∀ x, zero_at (dm_rows m) x → row_coef row x = 0 → zero_at (dm_rows (co_matrix s)) x) ∧
    Forall (λ t, good_sym t ∧ zero_at (dm_rows (co_matrix s)) t.1) r ∧
    solved_keys (dm_rows (co_matrix s)) = [] ∧
    (Z.of_nat (size (dm_rows m)) < dm_max_rows m →
       spans_back (dm_rows m) (dm_rows (co_matrix s)) r ∧
       ∀ W, subspace f W → in_span W (dm_rows (co_matrix s)) → units_in W r → W (row_coef row)).
Proof.
  intros Hf Hm Hrow Hkeys Hz.
  destruct (normalize_ok row) as (row1 & pid & c & Hn & Hrow1 & Hpid & Hp1 & HpU & Hc & Hg & Hnw);
    [done..|].
  assert (∀ x, row_coef row x = 0 → row_coef row1 x = 0) as Hz1 by (intros x Hx; rw Hg Hx gf_mul_0_r //).
  destruct (back_substitute_ok m pid row1) as (m1 & Hb & Hf1 & Hmax1 & Hm1 & Hzp & Hdom & Hzx & Hbs); [by auto..|].
  assert (m1 = set_rows m (dm_rows m1)) as Hm1e.
  { unfold back_substitute in Hb. apply bind_Ok_inv in Hb as (rows' & _ & [= <-]). done. }
  destruct (matrix_evict_ok m1 Hf1 Hm1) as [He Hsh]. pose proof Hsh as (Hm2 & Hz2 & Hk2 & _).
  set (m2 := evict_row m1) in *. set (m3 := set_rows m2 (<[pid := row1]> (dm_rows m2))).
  assert (∀ k, is_Some (dm_rows m2 !! k) → row_coef row1 k = 0) as Hkeys2.
  { intros k Hk. apply Hz1, Hkeys, Hdom. destruct (dm_rows m1 !! k) eqn:E; [done|].
    by rw Hk2 in Hk. }
  assert (rows_ok (dm_rows m3)) as Hm3 by (apply rows_insert_ok; auto).
  destruct (collect_loop_ok (S (size (dm_rows m3))) {| co_matrix := m3; co_extra := known; co_recovered := [] |})
    as (s & r & Hl & [Hce Hcsh Hcr Hcg Hck Hcc] & Hnil); [|cbn; lia|].
  { split; [|done]. cbn. by rw He. }
  cbn [co_matrix co_recovered app] in *.
  exists row1, pid, m1, s, r. split_and!; try done.
  - rw Hce /m3 He Hm1e. done.
  - apply Hcsh.
  - intros x Hx Hrx. apply Hcsh. cbn [m3 dm_rows set_rows].
    intros k r' [[<- <-]|[_ Hr']]%lookup_insert_Some; [by apply Hz1|].
    eapply Hz2; [|exact Hr']. auto.
  - intros Hmax.
    assert (size (dm_rows m1) = size (dm_rows m)) as Hsz.
    { rw -!size_dom. f_equal. apply set_eq. intros k. rw !elem_of_dom. apply Hdom. }
    assert (m2 = m1) as Hm12 by (unfold m2, evict_row; rw Hmax1 Hsz (proj2 (Z.leb_gt _ _) Hmax) //).
    unfold m3 in Hck. rw Hm12 in Hck. cbn [dm_rows set_rows] in Hck.
    assert (∀ W, subspace f W → in_span W (dm_rows (co_matrix s)) → units_in W r →
      W (row_coef row1) ∧ in_span W (dm_rows m1)) as Hins.
    { intros W HW Hin Hu. pose proof (Hck W HW Hin Hu) as Hall. split.
      - apply (Hall pid). apply lookup_insert_eq.
      - intros k r0 Hk. apply (Hall k). rw lookup_insert_ne //. intros ->.
        by rw (zero_not_key _ _ Hm1 Hzp) in Hk. }
    split; intros W HW Hin Hu; destruct (Hins W HW Hin Hu) as [Hw1 Hw2].
    + by apply (Hbs W).
    + by apply (Hnw W).
Qed.

Lemma add_coded_ok m ev payload known : dm_field m = f → rows_ok (dm_rows m) → known_ok known →
  (∀ x, is_Some (known !! x) → zero_at (dm_rows m) x) →
  honest_coded f sz src ev payload → ev_usable ev →
  ∃ rows' r, add_coded disp m ev payload known = Ok (set_rows m rows', r) ∧ rows_ok rows' ∧
    (∀ x, zero_at (dm_rows m) x → is_Some (known !! x) ∨ coef_at (ev_terms ev) x = 0 →
       zero_at rows' x) ∧
    Forall (λ t, good_sym t ∧ zero_at rows' t.1) r ∧
    (solved_keys (dm_rows m) = [] → solved_keys rows' = []) ∧
    (Z.of_nat (size (dm_rows m)) < dm_max_rows m →
     spans_back (dm_rows m) rows' r ∧
     ∀ W, subspace f W → (∀ k, is_Some (known !! k) → W (unit_vec k)) → in_span W rows' →
       units_in W r → W (coef_at (ev_terms ev))).
Proof.
  intros Hf Hm Hk Hkz Hh He.
  destruct (coded_row_ok ev payload) as (map & d & Hmap & Hd & Hrow & Hcoef); [done..|].
  unfold add_coded. rw Hmap bind_Ok Hd bind_Ok Hf.
  destruct (substitute_known_ok known {| mr_coefs := d; mr_payload := payload |})
    as (row1 & Hs & Hrow1 & Hg1 & Hw1); [done..|].
  rw Hs bind_Ok.
  assert (∀ W, subspace f W → (∀ k, is_Some (known !! k) → W (unit_vec k)) →
    W (row_coef row1) → W (coef_at (ev_terms ev))) as Hspan1.
  { intros W HW Hu Hr. eapply (ss_ext _ _ HW); [|by apply (Hw1 W)]. exact Hcoef. }
  assert (∀ W r, subspace f W → is_zero (mr_coefs r) = true → W (row_coef r)) as Hzw.
  { intros W r HW Hz. apply (ss_ext _ _ HW (λ _, 0)); [|apply (ss_zero _ _ HW)].
    intros x. symmetry. by apply is_zero_spec. }
  destruct (is_zero (mr_coefs row1)) eqn:Hz1.
  { exists (dm_rows m), []. rw set_rows_self. split_and!; try done.
    intros _. split; [apply spans_back_refl|]. intros W HW Hu Hrows _.
    apply Hspan1; [done..|]. by apply Hzw. }
  destruct (forward_eliminate_ok m row1) as (row2 & Hfe & Hrow2 & Hkeys & Hsame & Hw2); [done..|].
  rw Hfe bind_Ok. destruct (is_zero (mr_coefs row2)) eqn:Hz2.
  { exists (dm_rows m), []. rw set_rows_self. split_and!; try done.
    intros _. split; [apply spans_back_refl|]. intros W HW Hu Hrows _.
    apply Hspan1; [done..|]. apply Hw2; [done..|]. by apply Hzw. }
  destruct (insert_row_ok m row2 known)
    as (row3 & pid & m1 & s & r & Hn & Hpid & Hb & Hc & Hse & Hsr & Hok & Hz & Hg & Hnil & Hcount);
    [done..|].
  rw Hn bind_Ok Hpid Hb bind_Ok. cbn zeta in Hc. rw Hc bind_Ok.
  exists (dm_rows (co_matrix s)), r. rw -Hse Hsr. split_and!; try done.
  2: { intros Hmax. destruct (Hcount Hmax) as [Hback Hin2]. split; [done|].
    intros W HW Hu Hin Hur. apply Hspan1; [done..|]. apply Hw2; [done| |by apply Hin2].
    by apply Hback. }
  intros x Hx Hor. apply Hz; [done|]. rw Hsame // Hg1.
  destruct Hor as [Hin|H0]; [by rw decide_True|]. rw (_ : row_coef _ x = coef_off d x) // Hcoef H0.
  by destruct (decide _).
Qed.

(** *** Packets that change nothing *)

Lemma bt_keys_empty {A} : bt_keys (∅ : gmap Z A) = [].
Proof. apply nil_length_inv. by rw length_bt_keys map_size_empty. Qed.

(** Without rows, a known symbol recovers nothing. *)
Lemma add_known_empty m id data known : dm_rows m = ∅ →
  add_known_source disp m id data known = Ok (m, []).
Proof.
  intros Hm. unfold add_known_source. rw Hm map_size_empty. cbn [cascade_loop ca_queue].
  unfold cascade_step. cbn [ca_rows]. rw bt_keys_empty /= -Hm. by rw set_rows_self.
Qed.

(** An equation over known symbols is dropped. *)
Lemma add_coded_redundant m ev payload known : dm_field m = f → known_ok known →
  honest_coded f sz src ev payload → ev_usable ev →
  (∀ x, x ∈ ev_source_ids ev → is_Some (known !! x)) →
  add_coded disp m ev payload known = Ok (m, []).
Proof.
  intros Hf Hk Hh He Hall.
  destruct (coded_row_ok ev payload) as (map & d & Hmap & Hd & Hrow & Hcoef); [done..|].
  unfold add_coded. rw Hmap bind_Ok Hd bind_Ok Hf.
  destruct (substitute_known_ok known {| mr_coefs := d; mr_payload := payload |})
    as (row & Hs & Hrow1 & Hg & _); [done..|].
  rw Hs bind_Ok. rw (proj2 (is_zero_spec (mr_coefs row))) //. intros x.
  change (row_coef row x = 0). rw Hg. case_decide as Hx; [done|]. unfold row_coef. cbn. rw Hcoef.
  apply coef_at_notin. rw (ev_terms_ids ev He). intros Hin. by apply Hx, Hall.
Qed.
End elim.
