(* ===== verification/Decoder.v ===== *)
(** * codec/decoder/mod.rs: the decoder state machine *)

From S2P Require Import Prelude Error Config Simd EncVec Common Packets F64 Feedback Policy LinComb BTree Buffer Matrix Dense Elim.
From stdpp Require Import sorting.
#[global] Open Scope Z_scope.

Inductive DecoderEvent : Type :=
| SourceReady (id : Z) (data : bytes)
| SendFeedback (pkt : bytes)
| UnrecoverableGap (first_missing count : Z).

(** ** Loss tracking *)
Record LossTracker := { lt_received : Z; lt_expected : Z; lt_last_seen : Z }.

Definition loss_default : LossTracker := {| lt_received := 0; lt_expected := 0; lt_last_seen := 0 |}.

Definition on_source (t : LossTracker) (id : Z) : LossTracker :=
  let gap := Z.min (u32 (id - lt_last_seen t)) 1000 in
  {| lt_received := u64 (lt_received t + 1); lt_expected := u64 (lt_expected t + gap);
     lt_last_seen := id |}.
Definition on_coded (t : LossTracker) : LossTracker :=
  {| lt_received := u64 (lt_received t + 1); lt_expected := u64 (lt_expected t + 1);
     lt_last_seen := lt_last_seen t |}.

Definition tracker_loss_rate (t : LossTracker) : result f64 :=
  if lt_expected t =? 0 then Ok (f_of_Z 0)
  else
    let lost := Z.max 0 (lt_expected t - lt_received t) in
    f_clamp (f_div (f_of_Z lost) (f_of_Z (lt_expected t))) (f_of_Z 0) (f_of_Z 1).

(** ** The decoder *)
Section decoder.
Context (disp : Dispatch) {P : Type} `{FeedbackPolicy P}.

Record Decoder := {
  de_config : DecoderConfig;
  de_buffer : SymbolBuffer;
  de_matrix : DecodingMatrix;
  de_known : gmap Z bytes;
  de_encoder_win_min : Z;
  de_loss : LossTracker;
  de_feedback_policy : P;
  de_packets_received : Z;
}.

Definition decoder_new (config : DecoderConfig) (feedback_policy : P) : Decoder :=
  {| de_config := config; de_buffer := buffer_new 0;
     de_matrix := matrix_new (dc_field config) (dc_symbol_size config) (dc_max_matrix_rows config);
     de_known := ∅; de_encoder_win_min := 0; de_loss := loss_default;
     de_feedback_policy := feedback_policy; de_packets_received := 0 |}.

(** Assignments to the mutable fields. *)
Definition set_reception (d : Decoder) (loss : LossTracker) (packets win_min : Z) : Decoder :=
  {| de_config := de_config d; de_buffer := de_buffer d; de_matrix := de_matrix d;
     de_known := de_known d; de_encoder_win_min := win_min; de_loss := loss;
     de_feedback_policy := de_feedback_policy d; de_packets_received := packets |}.
Definition set_symbols (d : Decoder) (known : gmap Z bytes) (buffer : SymbolBuffer) : Decoder :=
  {| de_config := de_config d; de_buffer := buffer; de_matrix := de_matrix d;
     de_known := known; de_encoder_win_min := de_encoder_win_min d; de_loss := de_loss d;
     de_feedback_policy := de_feedback_policy d; de_packets_received := de_packets_received d |}.
Definition set_matrix (d : Decoder) (m : DecodingMatrix) : Decoder :=
  {| de_config := de_config d; de_buffer := de_buffer d; de_matrix := m;
     de_known := de_known d; de_encoder_win_min := de_encoder_win_min d; de_loss := de_loss d;
     de_feedback_policy := de_feedback_policy d; de_packets_received := de_packets_received d |}.
Definition set_policy (d : Decoder) (p : P) : Decoder :=
  {| de_config := de_config d; de_buffer := de_buffer d; de_matrix := de_matrix d;
     de_known := de_known d; de_encoder_win_min := de_encoder_win_min d; de_loss := de_loss d;
     de_feedback_policy := p; de_packets_received := de_packets_received d |}.

(** A symbol enters the known set and the delivery buffer. *)
Definition absorb_recovered (d : Decoder) (id : Z) (data : bytes) : Decoder :=
  set_symbols d (or_insert (de_known d) id data) (buffer_insert (de_buffer d) id data).
Definition absorb_all (d : Decoder) (recovered : list (Z * bytes)) : Decoder :=
  fold_left (λ d '(rid, rdata), absorb_recovered d rid rdata) recovered d.

Definition drain_to_events (d : Decoder) : Decoder * list DecoderEvent :=
  let '(buffer, out) := drain_deliverable (de_buffer d) in
  (set_symbols d (de_known d) buffer, (λ '(id, data), SourceReady id data) <$> out).

Definition count_missing (d : Decoder) : Z :=
  let next := sb_next_delivery_id (de_buffer d) in
  let high := default next (highest_id (de_buffer d)) in
  if high <? next then 0
  else
    let span := u32 (high - next + 1) in
    let buffered := u32 (Z.of_nat (length (ids_from (de_buffer d) next))) in
    Z.max 0 (span - buffered).

Definition make_state (d : Decoder) : result DecoderState :=
  loss_rate ← tracker_loss_rate (de_loss d);
  Ok {| ds_next_delivery_id := sb_next_delivery_id (de_buffer d);
        ds_packets_received := de_packets_received d;
        ds_loss_rate := loss_rate;
        ds_nb_missing_src := count_missing d;
        ds_nb_not_used_coded := u32 (Z.of_nat (row_count (de_matrix d))) |}.

Definition maybe_send_feedback (d : Decoder) : result (Decoder * list DecoderEvent) :=
  state ← make_state d;
  let '(policy, send) := should_send_feedback (de_feedback_policy d) state in
  let d := set_policy d policy in
  if negb send then Ok (d, [])
  else
    let next := sb_next_delivery_id (de_buffer d) in
    let acked := take 256 (ids_from (de_buffer d) next) in
    let nb_missing := count_missing d in
    loss_rate ← tracker_loss_rate (de_loss d);
    pkt ← Feedback.build next nb_missing (u32 (Z.of_nat (row_count (de_matrix d)))) loss_rate acked;
    Ok (d, [SendFeedback (fb_serialise pkt)]).

Definition check_gap (d : Decoder) : Decoder * list DecoderEvent :=
  let next := sb_next_delivery_id (de_buffer d) in
  if next <? de_encoder_win_min d then
    let count := de_encoder_win_min d - next in
    (set_symbols d (de_known d) (prune_below (de_buffer d) (de_encoder_win_min d)),
     [UnrecoverableGap next count])
  else (d, []).

(** An error return leaves the decoder as far as the call had changed it. *)
Definition handler : Type := outcome (Decoder * DelpError) (Decoder * list DecoderEvent).
Definition failing_at {A} (d : Decoder) (m : result A) : outcome (Decoder * DelpError) A :=
  match m with Ok a => Ok a | Err e => Err (d, e) | Panic => Panic end.

(** What both handlers do with the recovered symbols. *)
Definition finish (d : Decoder) (recovered : list (Z * bytes)) : handler :=
  let d := absorb_all d recovered in
  let '(d, ready) := drain_to_events d in
  '(d, feedback) ← failing_at d (maybe_send_feedback d);
  let '(d, gap) := check_gap d in
  Ok (d, ready ++ feedback ++ gap).

Definition size_mismatch (d : Decoder) (payload : bytes) : bool :=
  negb (Z.of_nat (length payload) =? dc_symbol_size (de_config d)).

Definition handle_source (d : Decoder) (pkt : Source.SourcePacket) : handler :=
  let data := Source.payload pkt in
  if size_mismatch d data then
    Err (d, SymbolSizeMismatch (dc_symbol_size (de_config d)) (Z.of_nat (length data)))
  else
    let id := Source.source_symbol_id pkt in
    let d := set_reception d (on_source (de_loss d) id) (u64 (de_packets_received d + 1))
               (de_encoder_win_min d) in
    let d := absorb_recovered d id data in
    '(m, recovered) ← failing_at d (add_known_source disp (de_matrix d) id data (de_known d));
    finish (set_matrix d m) recovered.

Definition window_min (win_min : Z) (ids : list Z) : Z :=
  match ids with
  | first_src :: _ => if win_min <? first_src then first_src else win_min
  | [] => win_min
  end.

Definition handle_coded (d : Decoder) (pkt : Coded.CodedPacket) : handler :=
  let data := Coded.payload pkt in
  if size_mismatch d data then
    Err (d, SymbolSizeMismatch (dc_symbol_size (de_config d)) (Z.of_nat (length data)))
  else
    let d := set_reception d (on_coded (de_loss d)) (u64 (de_packets_received d + 1))
               (window_min (de_encoder_win_min d) (ev_source_ids (Coded.ev pkt))) in
    '(m, recovered) ← failing_at d (add_coded disp (de_matrix d) (Coded.ev pkt) data (de_known d));
    finish (set_matrix d m) recovered.

Definition next_delivery_id (d : Decoder) : Z := sb_next_delivery_id (de_buffer d).
Definition loss_rate (d : Decoder) : result f64 := tracker_loss_rate (de_loss d).
Definition packets_received (d : Decoder) : Z := de_packets_received d.
End decoder.

Arguments Decoder P : clear implicits.

Definition decoder_with_defaults (config : DecoderConfig) : result (Decoder ConstantFeedbackPolicy) :=
  p ← ConstantFeedbackPolicy_new 16;
  Ok (decoder_new config p).

(** ** The decoder on honest packets

    [src] gives the session's source symbols, [U] the IDs packets may mention. *)
Section invariant.
Context (disp : Dispatch) {P : Type} `{FeedbackPolicy P}.
Context (f : Field) (sz : nat) (src : Z → bytes) (U : list Z).
Hypothesis Hsrc : ∀ id, symbol sz (src id).
Hypothesis HU : NoDup U.
Hypothesis HUr : Forall id_range U.
Implicit Types d : Decoder P.

Local Abbreviation rows d := (dm_rows (de_matrix d)).
Local Abbreviation next d := (sb_next_delivery_id (de_buffer d)).

Record decoder_ok d : Prop := {
  dk_field : dm_field (de_matrix d) = f;
  dk_size : dc_symbol_size (de_config d) = Z.of_nat sz;
  dk_rows : rows_ok f sz src U (rows d);
  dk_known : ∀ id data, de_known d !! id = Some data → good_sym src U (id, data);
  dk_zero : ∀ id, is_Some (de_known d !! id) → zero_at (rows d) id;
  dk_solved : solved_keys (rows d) = [];
  dk_buffer : buffer_ok (de_buffer d);
  dk_content : ∀ id data, sb_symbols (de_buffer d) !! id = Some data → data = src id ∧ id ∈ U;
  dk_kept : ∀ id, is_Some (de_known d !! id) → id < next d ∨ is_Some (sb_symbols (de_buffer d) !! id);
  dk_win : 0 ≤ de_encoder_win_min d < 4294967295;
}.

Lemma U_range id : id ∈ U → id_range id.
Proof. apply (proj1 (Forall_forall _ _) HUr). Qed.

(** *** Absorbing and delivering *)

(** All that the delivery half of a handler relies on. *)
Record delivery_ok d : Prop := {
  dl_buffer : buffer_ok (de_buffer d);
  dl_content : ∀ id data, sb_symbols (de_buffer d) !! id = Some data → data = src id ∧ id ∈ U;
  dl_kept : ∀ id, is_Some (de_known d !! id) → id < next d ∨ is_Some (sb_symbols (de_buffer d) !! id);
  dl_win : 0 ≤ de_encoder_win_min d < 4294967295;
}.

Lemma absorb_delivery d id : delivery_ok d → id ∈ U → delivery_ok (absorb_recovered d id (src id)).
Proof.
  intros [Hb Hc Hk Hw] Hin. pose proof (U_range id Hin) as Hid. unfold id_range in Hid.
  constructor; cbn [absorb_recovered set_symbols de_buffer de_known de_encoder_win_min]; [|..|done].
  - apply buffer_insert_ok; [done|lia].
  - intros k data. unfold buffer_insert. case_match; [|apply Hc]. cbn. rw or_insert_lookup.
    destruct (sb_symbols (de_buffer d) !! k) eqn:E; [intros [= <-]; by apply Hc|].
    case_decide; [by intros [= <-]; subst|done].
  - intros k. rw or_insert_lookup. unfold buffer_insert.
    destruct (Z.leb_spec (next d) id) as [Hle|Hgt]; cbn [sb_next_delivery_id sb_symbols].
    + rw or_insert_lookup. destruct (de_known d !! k) eqn:E.
      * intros _. destruct (Hk k ltac:(by eexists)) as [|[x ->]]; [by left|right; by eexists].
      * case_decide; [|by intros [? ?]]. intros _. right. by case_match.
    + destruct (de_known d !! k) eqn:E; [intros _; apply Hk; by eexists|].
      case_decide; [subst; by left|by intros [? ?]].
Qed.

Lemma absorb_all_delivery d rec : delivery_ok d → Forall (λ t, t.2 = src t.1 ∧ t.1 ∈ U) rec →
  let d' := absorb_all d rec in
  delivery_ok d' ∧ next d' = next d ∧ de_matrix d' = de_matrix d ∧ de_config d' = de_config d ∧
  (∀ id, is_Some (de_known d' !! id) ↔ is_Some (de_known d !! id) ∨ id ∈ rec.*1) ∧
  (∀ id data, de_known d' !! id = Some data → de_known d !! id = Some data ∨ (id, data) ∈ rec).
Proof.
  intros Hd Hrec. revert d Hd. induction Hrec as [|[id data] rec [Hdata Hid] _ IH]; intros d Hd.
  { cbn. split_and!; try done; [|by left]. intros id. rw elem_of_nil. intuition. }
  cbn in Hdata, Hid. subst data. cbn [absorb_all fold_left].
  destruct (IH (absorb_recovered d id (src id))) as (H1 & H2 & H3 & H4 & H5 & H6);
    [by apply absorb_delivery|].
  change (fold_left _ rec _) with (absorb_all (absorb_recovered d id (src id)) rec).
  set (d' := absorb_all _ rec) in *. clearbody d'. cbn in H5, H6.
  split_and!; [done|by rw H2 /= /buffer_insert; case_match|done|done| |].
  - intros k. rw H5 or_insert_lookup. cbn. rw elem_of_cons.
    split.
    + intros [Hk|Hk]; [|by right; right]. destruct (de_known d !! k) eqn:E; [by left|].
      case_decide; [right; by left|by destruct Hk].
    + intros [[x ->]|[->|Hk]]; [left; by eexists| |by right].
      left. rw decide_True //. case_match; by eexists.
  - intros k data [Hk|Hk]%H6; [|right; by right]. rw or_insert_lookup in Hk.
    destruct (de_known d !! k) eqn:E; [by left|]. case_decide; [|done].
    injection Hk as <-. subst. right. by left.
Qed.

(** *** Events *)

(** The IDs an event accounts for: one delivered, or a gap given up. *)
Definition event_ids (e : DecoderEvent) : list Z :=
  match e with
  | SourceReady id _ => [id]
  | SendFeedback _ => []
  | UnrecoverableGap first_missing count => seqZ first_missing count
  end.
Definition events_ids (evs : list DecoderEvent) : list Z := concat (event_ids <$> evs).
Definition event_honest (e : DecoderEvent) : Prop :=
  match e with SourceReady id data => data = src id ∧ id ∈ U | _ => True end.

Lemma events_ids_app evs1 evs2 : events_ids (evs1 ++ evs2) = events_ids evs1 ++ events_ids evs2.
Proof. unfold events_ids. by rw fmap_app concat_app. Qed.

Lemma ready_ids (g : Z → bytes) ids :
  events_ids ((λ '(id, data), SourceReady id data) <$> ((λ id, (id, g id)) <$> ids)) = ids.
Proof.
  unfold events_ids. induction ids as [|id ids IH]; [done|]. cbn in IH |- *. f_equal. exact IH.
Qed.

(** The decoder moved from [d] to [d'], accounting for exactly the IDs in
    between. *)
Record moves d d' (evs : list DecoderEvent) : Prop := {
  mv_delivery : delivery_ok d';
  mv_matrix : de_matrix d' = de_matrix d;
  mv_config : de_config d' = de_config d;
  mv_known : de_known d' = de_known d;
  mv_next : next d ≤ next d';
  mv_ids : events_ids evs = seqZ (next d) (next d' - next d);
  mv_honest : Forall event_honest evs;
}.

Lemma moves_refl d d' evs : delivery_ok d' → de_matrix d' = de_matrix d → de_config d' = de_config d →
  de_known d' = de_known d → next d' = next d → events_ids evs = [] → Forall event_honest evs →
  moves d d' evs.
Proof. intros ? ? ? ? Hn He ?. constructor; try done; [lia|]. by rw He Hn Z.sub_diag. Qed.

Lemma moves_trans d1 d2 d3 evs1 evs2 : moves d1 d2 evs1 → moves d2 d3 evs2 →
  moves d1 d3 (evs1 ++ evs2).
Proof.
  intros [A1 B1 C1 D1 E1 F1 G1] [A2 B2 C2 D2 E2 F2 G2]. constructor; [done|congruence..|lia| |].
  - rw events_ids_app F1 F2.
    replace (next d3 - next d1) with ((next d2 - next d1) + (next d3 - next d2)) by lia.
    rw seqZ_app; [|lia..]. do 2 f_equal. lia.
  - by apply Forall_app_2.
Qed.

Lemma drain_moves d : delivery_ok d → moves d (drain_to_events d).1 (drain_to_events d).2.
Proof.
  intros [Hb Hc Hk Hw]. unfold drain_to_events, drain_deliverable.
  destruct (drain_loop_spec (S (size (sb_symbols (de_buffer d)))) (de_buffer d) [] Hb)
    as (n & b' & Hl & Hok & Hn & Hnone & Hall & Hrest); [lia|].
  rw Hl app_nil_l. cbn [fst snd]. constructor; cbn [set_symbols de_buffer de_matrix de_config de_known].
  - constructor; cbn [set_symbols de_buffer de_known de_encoder_win_min]; [done| | |done].
    + intros id data Hid. apply Hc. rw -Hrest //. apply (bo_ids _ Hok). by eexists.
    + intros id Hid. destruct (decide (id < sb_next_delivery_id b')) as [|Hge]; [by left|].
      right. rw Hrest; [|lia]. destruct (Hk id Hid); [lia|done].
  - done. - done. - done. - lia.
  - replace (sb_next_delivery_id b' - next d) with (Z.of_nat n) by lia.
    apply ready_ids.
  - apply Forall_fmap, Forall_fmap, Forall_forall. intros id Hid%elem_of_seqZ. cbn.
    destruct (Hall id) as [data Hdata]; [lia|]. rw Hdata. by apply Hc.
Qed.

Lemma loss_rate_ok t : ∃ x, tracker_loss_rate t = Ok x.
Proof. unfold tracker_loss_rate. case_match; eexists; reflexivity. Qed.

Lemma feedback_moves d : delivery_ok d →
  ∃ d' evs, maybe_send_feedback d = Ok (d', evs) ∧ moves d d' evs.
Proof.
  intros Hd. unfold maybe_send_feedback, make_state.
  destruct (loss_rate_ok (de_loss d)) as [x Hx]. rw !Hx !bind_Ok.
  destruct (should_send_feedback _ _) as [policy send].
  assert (delivery_ok (set_policy d policy)) as Hd' by (destruct Hd; by constructor).
  destruct send; cbn [negb].
  - cbn [set_policy de_loss de_buffer de_matrix].
    destruct (build_acks (next d) (count_missing (set_policy d policy))
      (u32 (Z.of_nat (row_count (de_matrix d)))) x (take 256 (ids_from (de_buffer d) (next d))))
      as (pkt & Hp & _); [apply (dl_buffer _ Hd)|].
    rw bind_Ok Hp bind_Ok. eexists _, _. split; [done|]. apply moves_refl; try done.
    by apply Forall_singleton.
  - eexists _, _. split; [done|]. by apply moves_refl.
Qed.

Lemma gap_moves d : delivery_ok d → moves d (check_gap d).1 (check_gap d).2.
Proof.
  intros Hd. pose proof Hd as [Hb Hc Hk Hw]. unfold check_gap.
  destruct (Z.ltb_spec (next d) (de_encoder_win_min d)) as [Hlt|Hge]; [|by apply moves_refl].
  cbn [fst snd]. assert (next (set_symbols d (de_known d) (prune_below (de_buffer d) (de_encoder_win_min d)))
    = de_encoder_win_min d) as Hnext by (cbn; by rw (proj2 (Z.ltb_lt _ _) Hlt)).
  constructor; [| done..| | |by apply Forall_singleton].
  - constructor; rw ?Hnext; [|..|done].
    + apply prune_ok; [done|word_bound].
    + intros id data. cbn. intros [Hid _]%map_lookup_filter_Some. by apply Hc.
    + intros id Hid. destruct (decide (id < de_encoder_win_min d)) as [|Hid']; [by left|].
      right. destruct (Hk id Hid) as [|[data Hdata]]; [lia|]. exists data. cbn.
      apply map_lookup_filter_Some. split; [done|lia].
  - rw Hnext. lia.
  - rw Hnext. unfold events_ids. cbn. apply app_nil_r.
Qed.

Lemma finish_moves d rec : delivery_ok d → Forall (λ t, t.2 = src t.1 ∧ t.1 ∈ U) rec →
  ∃ d' evs, finish d rec = Ok (d', evs) ∧ moves (absorb_all d rec) d' evs.
Proof.
  intros Hd Hrec. destruct (absorb_all_delivery d rec Hd Hrec) as [Hd1 _].
  unfold finish. set (d1 := absorb_all d rec) in *. clearbody d1.
  pose proof (drain_moves d1 Hd1) as H2. destruct (drain_to_events d1) as [d2 ready].
  cbn [fst snd] in H2. destruct (feedback_moves d2) as (d3 & feedback & Hf & H3); [apply H2|].
  rw Hf. cbn [failing_at]. rw bind_Ok. pose proof (gap_moves d3) as H4.
  destruct (check_gap d3) as [d4 gap]. cbn [fst snd] in H4.
  exists d4, (ready ++ feedback ++ gap). split; [done|].
  eapply moves_trans; [exact H2|]. eapply moves_trans; [exact H3|]. apply H4, H3.
Qed.

(** *** The handlers *)
Lemma decoder_delivery d : decoder_ok d → delivery_ok d.
Proof. by intros []; constructor. Qed.

Lemma decoder_new_ok config policy : dc_field config = f →
  dc_symbol_size config = Z.of_nat sz → decoder_ok (decoder_new config policy).
Proof.
  intros Hf Hs. constructor; cbn; try done.
  - by apply buffer_new_ok.
  - intros id [x Hx]. by rw lookup_empty in Hx.
Qed.

(** What a handler call does, seen from outside. *)
Record step_ok d d' (evs : list DecoderEvent) : Prop := {
  sk_ok : decoder_ok d';
  sk_max : dm_max_rows (de_matrix d') = dm_max_rows (de_matrix d);
  sk_known : ∀ id, is_Some (de_known d !! id) → is_Some (de_known d' !! id);
  sk_next : next d ≤ next d';
  sk_ids : events_ids evs = seqZ (next d) (next d' - next d);
  sk_honest : Forall event_honest evs;
}.

(** The common end of both handlers: new rows, recovered symbols. *)
Lemma finish_ok d0 d rows' r : dm_field (de_matrix d) = f →
  dc_symbol_size (de_config d) = Z.of_nat sz → delivery_ok d →
  rows_ok f sz src U rows' → solved_keys rows' = [] →
  (∀ id data, de_known d !! id = Some data → good_sym src U (id, data)) →
  (∀ id, is_Some (de_known d !! id) → zero_at rows' id) →
  Forall (λ t, good_sym src U t ∧ zero_at rows' t.1) r →
  dm_max_rows (de_matrix d) = dm_max_rows (de_matrix d0) → next d = next d0 →
  (∀ id, is_Some (de_known d0 !! id) → is_Some (de_known d !! id)) →
  ∃ d' evs, finish (set_matrix d (set_rows (de_matrix d) rows')) r = Ok (d', evs) ∧
    step_ok d0 d' evs ∧ rows d' = rows' ∧
    ∀ id, is_Some (de_known d' !! id) ↔ is_Some (de_known d !! id) ∨ id ∈ r.*1.
Proof.
  intros Hf Hs Hd Hrows Hsol Hk Hz Hr Hmax Hnext Hk0. set (d1 := set_matrix d _).
  assert (delivery_ok d1) as Hd1 by (destruct Hd; by constructor).
  assert (Forall (λ t, t.2 = src t.1 ∧ t.1 ∈ U) r) as Hr'.
  { eapply Forall_impl; [exact Hr|]. by intros t [[? ?] _]. }
  destruct (finish_moves d1 r Hd1 Hr') as (d' & evs & Hfin & [A B C D E F G]).
  destruct (absorb_all_delivery d1 r Hd1 Hr') as (H1 & H2 & H3 & H4 & H5 & H6).
  cbn [d1 set_matrix de_buffer de_matrix de_config de_known] in H2, H3, H4, H5, H6.
  rw H2 Hnext in E. rw H2 Hnext in F. rw H3 in B. rw H4 in C.
  assert (∀ id, is_Some (de_known d' !! id) ↔ is_Some (de_known d !! id) ∨ id ∈ r.*1) as Hdom
    by (intros id; by rw D H5).
  exists d', evs. split; [done|]. split; [|split; [by rw B|done]].
  constructor; [|by rw B| |done..].
  - destruct A as [HA1 HA2 HA3 HA4]. constructor; rw ?B ?C; try done.
    + intros id data. rw D. intros [Hid|Hid]%H6; [by apply Hk|].
      by apply (proj1 (Forall_forall _ _) Hr) in Hid as [Hid _].
    + intros id [Hid|Hid]%Hdom; [by apply Hz|].
      apply list_elem_of_fmap in Hid as (t & -> & Ht).
      by apply (proj1 (Forall_forall _ _) Hr) in Ht as [_ Ht].
  - intros id Hid. apply Hdom. left. by apply Hk0.
Qed.

(** A subspace that holds the decoder's rows and its known symbols. *)
Definition holds (W : (Z → Z) → Prop) d : Prop :=
  in_span W (rows d) ∧ ∀ id, is_Some (de_known d !! id) → W (unit_vec id).
Definition spans_known d d' : Prop :=
  ∀ W, subspace f W → holds W d' → in_span W (rows d).

Lemma source_step d pkt : decoder_ok d →
  let id := Source.source_symbol_id pkt in
  Source.payload pkt = src id → id ∈ U → zero_at (rows d) id ∨ is_Some (de_known d !! id) →
  ∃ d' evs, handle_source disp d pkt = Ok (d', evs) ∧ step_ok d d' evs ∧
    is_Some (de_known d' !! id) ∧ (∀ x, zero_at (rows d) x → zero_at (rows d') x) ∧
    spans_known d d'.
Proof.
  intros Hd id Hpay Hid Hor. pose proof (decoder_delivery d Hd) as Hdel.
  assert (zero_at (rows d) id) as Hz by (destruct Hor; [done|by apply (dk_zero _ Hd)]).
  unfold handle_source, size_mismatch. fold id. rw (dk_size _ Hd) Hpay.
  destruct (Hsrc id) as [Hlen _]. rw Hlen Z.eqb_refl /=.
  set (d0 := set_reception d _ _ _).
  assert (delivery_ok d0) as Hdel0 by (destruct Hdel; by constructor).
  destruct (add_known_source_ok disp f sz src U Hsrc HU HUr (de_matrix d) id (or_insert (de_known d) id (src id)))
    as (rows' & r & Ha & Hsh & Hzid & _ & Hback & Hnc & Hr); [apply Hd..|by split| |].
  { eapply zero_not_key; [apply Hd|done]. }
  destruct Hsh as (Hrows' & Hz' & Hkeys' & Hme & _).
  rw Ha. cbn [failing_at]. rw bind_Ok.
  destruct (finish_ok d (absorb_recovered d0 id (src id)) rows' r)
    as (d' & evs & Hfin & Hst & Hrw & Hdom); try done; try apply Hd.
  - by apply absorb_delivery.
  - apply (solved_keys_mono f sz src U Hsrc HU (rows d)); try done; apply Hd.
  - intros k data. cbn. rw or_insert_lookup.
    destruct (de_known d !! k) eqn:E; [intros [= <-]; by apply (dk_known _ Hd)|].
    case_decide; [|done]. intros [= <-]. subst k. by split.
  - intros k. cbn. rw or_insert_lookup.
    destruct (de_known d !! k) eqn:E; [intros _; apply Hz', (dk_zero _ Hd); by eexists|].
    case_decide; [by subst|by intros [? ?]].
  - cbn. unfold buffer_insert. by case_match.
  - intros k [x Hk]. cbn. rw or_insert_lookup Hk. by eexists.
  - exists d', evs. split_and!; [done|done| |by rw Hrw|].
    + apply Hdom. left. cbn. rw or_insert_lookup decide_True //. case_match; by eexists.
    + intros W HW [Hrows Hu]. rw Hrw in Hrows. apply Hback; [done..|].
      intros t [->|Ht]%elem_of_cons; apply Hu, Hdom.
      * left. cbn. rw or_insert_lookup decide_True //. case_match; by eexists.
      * right. apply list_elem_of_fmap. by exists t.
Qed.

Lemma window_min_range w ids : 0 ≤ w < 4294967295 → ids ⊆ U → 0 ≤ window_min w ids < 4294967295.
Proof.
  intros Hw Hsub. unfold window_min. destruct ids as [|x ids]; [done|]. case_match; [|done].
  assert (id_range x) as Hx by (apply U_range, Hsub; by left). exact Hx.
Qed.

Lemma coded_step d pkt : decoder_ok d →
  let ev := Coded.ev pkt in
  honest_coded f sz src ev (Coded.payload pkt) → ev_usable f U ev →
  ∃ d' evs, handle_coded disp d pkt = Ok (d', evs) ∧ step_ok d d' evs ∧
    (∀ x, zero_at (rows d) x → x ∉ ev_source_ids ev → zero_at (rows d') x) ∧
    (Z.of_nat (size (rows d)) < dm_max_rows (de_matrix d) →
     spans_known d d' ∧ ∀ W, subspace f W → holds W d' → W (coef_at (ev_terms ev))).
Proof.
  intros Hd ev Hh He. pose proof (decoder_delivery d Hd) as Hdel.
  pose proof (ev_terms_ids f U ev He) as Hids.
  assert (length (Coded.payload pkt) = sz) as Hlen.
  { destruct Hh as [Hf ->]. apply lincomb_symbol; [done|]. by eapply ev_terms_ok. }
  unfold handle_coded, size_mismatch. fold ev. rw (dk_size _ Hd) Hlen Z.eqb_refl /=.
  set (d0 := set_reception d _ _ _).
  assert (delivery_ok d0) as Hdel0.
  { destruct Hdel. constructor; cbn; try done. apply window_min_range; [done|apply He]. }
  destruct (add_coded_ok disp f sz src U Hsrc HU HUr (de_matrix d) ev (Coded.payload pkt) (de_known d))
    as (rows' & r & Ha & Hrows' & Hz' & Hr & Hsol & Hcount); try done; try apply Hd.
  { intros k data Hk. destruct (dk_known _ Hd k data Hk). split; [done|]. by eapply U_u32. }
  rw Ha. cbn [failing_at]. rw bind_Ok.
  destruct (finish_ok d d0 rows' r) as (d' & evs & Hfin & Hst & Hrw & Hdom); try done; try apply Hd.
  - apply Hsol, (dk_solved _ Hd).
  - intros id Hid. apply Hz'; [by apply (dk_zero _ Hd)|by left].
  - exists d', evs. split_and!; [done|done| |].
    + intros x Hx Hnin. rw Hrw. apply Hz'; [done|]. right. apply coef_at_notin. by rw Hids.
    + intros Hmax. destruct (Hcount Hmax) as [Hback Hin].
      assert (∀ W : (Z → Z) → Prop, (∀ id, is_Some (de_known d' !! id) → W (unit_vec id)) →
        units_in W r) as Hur.
      { intros W Hu t Ht. apply Hu, Hdom. right. apply list_elem_of_fmap. by exists t. }
      split.
      * intros W HW [Hrows Hu]. rw Hrw in Hrows. apply Hback; auto.
      * intros W HW [Hrows Hu]. rw Hrw in Hrows. apply Hin; auto. intros k Hk.
        apply Hu. by apply (sk_known _ _ _ Hst).
Qed.

(** *** Sessions

    The packets of an honest sender, in any order with any losses, except that
    a source symbol does not arrive for the first time after a coded packet
    that covers it ([srcs] and [evs]: the source IDs and encoding vectors
    received so far).  [Q] is a condition on the decoder when a coded packet
    arrives: none for what follows, room in the matrix in Recovery.v. *)
Definition covered (x : Z) (evs : list EncodingVector) : Prop :=
  ∃ ev, ev ∈ evs ∧ x ∈ ev_source_ids ev.

Definition source_packet_ok d (evs : list EncodingVector) (pkt : Source.SourcePacket) : Prop :=
  let id := Source.source_symbol_id pkt in
  Source.payload pkt = src id ∧ id ∈ U ∧ (¬ covered id evs ∨ is_Some (de_known d !! id)).
Definition coded_packet_ok (pkt : Coded.CodedPacket) : Prop :=
  honest_coded f sz src (Coded.ev pkt) (Coded.payload pkt) ∧ ev_usable f U (Coded.ev pkt).

Inductive dec_session (Q : Decoder P → Prop) :
    Decoder P → list Z → list EncodingVector → list DecoderEvent → Prop :=
| dec_new config policy : dc_field config = f → dc_symbol_size config = Z.of_nat sz →
    dec_session Q (decoder_new config policy) [] [] []
| dec_source d srcs evs out pkt d' new : dec_session Q d srcs evs out →
    source_packet_ok d evs pkt → handle_source disp d pkt = Ok (d', new) →
    dec_session Q d' (Source.source_symbol_id pkt :: srcs) evs (out ++ new)
| dec_coded d srcs evs out pkt d' new : dec_session Q d srcs evs out → Q d →
    coded_packet_ok pkt → handle_coded disp d pkt = Ok (d', new) →
    dec_session Q d' srcs (Coded.ev pkt :: evs) (out ++ new).

Record session_inv d (srcs : list Z) (evs : list EncodingVector) (out : list DecoderEvent) : Prop := {
  si_ok : decoder_ok d;
  si_uncovered : ∀ x, ¬ covered x evs → zero_at (rows d) x;
  si_srcs : ∀ x, x ∈ srcs → is_Some (de_known d !! x);
  si_ids : events_ids out = seqZ 0 (next d);
  si_next : 0 ≤ next d;
  si_honest : Forall event_honest out;
  si_usable : ∀ ev, ev ∈ evs → ev_usable f U ev ∧ ev_field ev = f;
}.

Lemma step_events d d' out new : 0 ≤ next d → events_ids out = seqZ 0 (next d) →
  Forall event_honest out → step_ok d d' new →
  0 ≤ next d' ∧ events_ids (out ++ new) = seqZ 0 (next d') ∧ Forall event_honest (out ++ new).
Proof.
  intros H0 Hout Hh [_ _ _ Hn Hids Hnew]. split_and!; [lia| |by apply Forall_app_2].
  rw events_ids_app Hout Hids -{2}(Z.add_0_l (next d)) -seqZ_app; [f_equal; lia|lia..].
Qed.

Lemma source_packet_zero d evs pkt : decoder_ok d → (∀ x, ¬ covered x evs → zero_at (rows d) x) →
  source_packet_ok d evs pkt →
  zero_at (rows d) (Source.source_symbol_id pkt) ∨ is_Some (de_known d !! Source.source_symbol_id pkt).
Proof. intros Hd Hu (_ & _ & [|]); auto. Qed.

Lemma dec_session_inv Q d srcs evs out : dec_session Q d srcs evs out → session_inv d srcs evs out.
Proof.
  induction 1 as [config policy Hf Hs|d srcs evs out pkt d' new _ [Hd Hu Hsr Hids Hn Hh Hev] Hpkt Hstep
    |d srcs evs out pkt d' new _ [Hd Hu Hsr Hids Hn Hh Hev] _ Hpkt Hstep].
  - constructor; try done.
    + by apply decoder_new_ok. + intros x Hx. by apply elem_of_nil in Hx.
    + intros ev Hx. by apply elem_of_nil in Hx.
  - pose proof (source_packet_zero d evs pkt Hd Hu Hpkt) as Hor. destruct Hpkt as (Hpay & HidU & _).
    destruct (source_step d pkt) as (d1 & evs1 & Hs1 & Hst & Hk & Hz & _); [done..|].
    rw Hstep in Hs1. injection Hs1 as <- <-.
    destruct (step_events d d' out new) as (? & ? & ?); [done..|].
    constructor; [apply Hst| | |done..].
    + intros x Hx. by apply Hz, Hu.
    + intros x [->|Hx]%elem_of_cons; [done|]. by apply (sk_known _ _ _ Hst), Hsr.
  - destruct Hpkt as [Hhon Hus].
    destruct (coded_step d pkt) as (d1 & evs1 & Hs1 & Hst & Hz & _); [done..|].
    rw Hstep in Hs1. injection Hs1 as <- <-.
    destruct (step_events d d' out new) as (? & ? & ?); [done..|].
    constructor; [apply Hst| | |done..|].
    + intros x Hx. apply Hz.
      * apply Hu. intros (ev & Hin & ?). apply Hx. exists ev. split; [by right|done].
      * intros Hin. apply Hx. exists (Coded.ev pkt). split; [by left|done].
    + intros x Hx. by apply (sk_known _ _ _ Hst), Hsr.
    + intros ev [->|Hin]%elem_of_cons; [|by apply Hev]. split; [done|apply Hhon].
Qed.
End invariant.

(** What the application receives. *)
Definition delivered (out : list DecoderEvent) : list (Z * bytes) :=
  omap (λ e, match e with SourceReady id data => Some (id, data) | _ => None end) out.
Lemma delivered_app evs1 evs2 : delivered (evs1 ++ evs2) = delivered evs1 ++ delivered evs2.
Proof. apply omap_app. Qed.

Lemma delivered_sublist out : (delivered out).*1 `sublist_of` events_ids out.
Proof.
  unfold events_ids. induction out as [|[id data|pkt|a n] out IH]; cbn; [constructor|..].
  - by apply sublist_skip.
  - done.
  - by apply sublist_inserts_l.
Qed.

Lemma StronglySorted_sublist {A} (R : A → A → Prop) (l k : list A) :
  l `sublist_of` k → StronglySorted R k → StronglySorted R l.
Proof.
  induction 1 as [|x l k Hs IH|x l k Hs IH]; intros Hk; [done|..];
    apply StronglySorted_inv in Hk as [Hk Hx]; [|by apply IH].
  constructor; [by apply IH|]. apply Forall_forall. intros y Hy.
  rw Forall_forall in Hx. apply Hx. by eapply elem_of_sublist.
Qed.

Lemma seqZ_sorted m n : StronglySorted Z.lt (seqZ m n).
Proof.
  unfold seqZ. remember (seq 0 (Z.to_nat n)) as l eqn:Hl.
  assert (StronglySorted lt l) as Hs.
  { subst l. generalize 0%nat. induction (Z.to_nat n) as [|k IH]; intros a; [constructor|].
    cbn. constructor; [apply IH|]. apply Forall_forall. intros x Hx%elem_of_seq. lia. }
  clear Hl. induction Hs as [|x l Hs IH Hx]; cbn; [constructor|]. constructor; [done|].
  apply Forall_fmap. eapply Forall_impl; [exact Hx|]. intros y Hy. cbn. lia.
Qed.

Lemma delivered_honest src U out : Forall (event_honest src U) out →
  Forall (λ '(id, data), data = src id) (delivered out) ∧ (delivered out).*1 ⊆ U.
Proof.
  induction 1 as [|[id data|pkt|a n] out He _ [IH IHr]]; [by split; [apply Forall_nil|intros x Hx%elem_of_nil]| |done|done].
  destruct He as [-> Hid]. split; [by apply Forall_cons|]. intros x [->|Hx]%elem_of_cons; [done|by apply IHr].
Qed.

(** C8: whatever packets of an honest sender are lost, repeated or reordered, as
    long as no source packet whose symbol is still unknown arrives behind a coded
    packet that covers it, the application receives only true symbols, in strictly
    ascending ID order, and every ID below the delivery pointer was either
    delivered or reported in exactly one gap. *)
Theorem decoder_delivers_truth disp {P} `{FeedbackPolicy P} f sz src U Q d srcs evs out :
  (∀ id, symbol sz (src id)) → NoDup U → Forall id_range U →
  @dec_session disp P _ f sz src U Q d srcs evs out →
  Forall (λ '(id, data), data = src id) (delivered out) ∧
  StronglySorted Z.lt (delivered out).*1 ∧
  events_ids out = seqZ 0 (next_delivery_id d).
Proof.
  intros Hsrc HU HUr Hs. apply dec_session_inv in Hs as [_ _ _ Hids _ Hh _]; [|done..].
  split_and!; [by eapply delivered_honest| |done].
  - eapply StronglySorted_sublist; [apply delivered_sublist|]. rw Hids. apply seqZ_sorted.
Qed.

(** A session that loses two of three source packets, and the two coded packets
    that repair it. *)
Definition demo_u : list Z := [0; 1; 2].
Definition demo_symbol (id : Z) : bytes := [u8 (id * 3 + 1); u8 (id * 5 + 2)].
Definition demo_source (id : Z) : Source.SourcePacket :=
  {| Source.header := header_new PtSource CciZero false 2; Source.cci := []; Source.tsi := None;
     Source.source_symbol_id := id; Source.payload := demo_symbol id |}.
Definition demo_coded (coded : Z) (ids : list Z) : Coded.CodedPacket :=
  let ev := ev_vandermonde Gf2_8 coded ids in
  {| Coded.header := header_new PtCoded CciZero false 2; Coded.cci := []; Coded.tsi := None;
     Coded.coded_symbol_id := coded; Coded.ev := ev;
     Coded.payload := lincomb Gf2_8 2 demo_symbol (ev_terms ev) |}.
Definition demo_decoder_config : DecoderConfig :=
  {| dc_symbol_size := 2; dc_field := Gf2_8; dc_max_matrix_rows := 512; dc_feedback_every := 16 |}.
Definition demo_decoder : Decoder ImmediateFeedbackPolicy := decoder_new demo_decoder_config Immediate.

Lemma demo_symbols id : symbol 2 (demo_symbol id).
Proof. split; [done|]. repeat constructor; apply u8_is. Qed.
Lemma demo_u_nodup : NoDup demo_u.
Proof. apply (bool_decide_unpack _). vm_compute. exact I. Qed.
Lemma demo_u_range : Forall id_range demo_u.
Proof. repeat constructor; unfold id_range; lia. Qed.

Lemma demo_usable coded : ev_usable Gf2_8 demo_u (ev_vandermonde Gf2_8 coded [0; 1; 2]).
Proof.
  constructor; cbn; [apply demo_u_nodup|done|by left|constructor].
Qed.

(** The matrix will not evict a row. *)
Definition has_room {P} (d : Decoder P) : Prop :=
  Z.of_nat (row_count (de_matrix d)) < dm_max_rows (de_matrix d).

(** The three calls of the session, and what each returned. *)
Definition demo_step1 := ok_or (demo_decoder, []) (handle_source Ssse3 demo_decoder (demo_source 1)).
Definition demo_step2 :=
  ok_or (demo_decoder, []) (handle_coded Ssse3 demo_step1.1 (demo_coded 1 [0; 1; 2])).
Definition demo_step3 :=
  ok_or (demo_decoder, []) (handle_coded Ssse3 demo_step2.1 (demo_coded 2 [0; 1; 2])).
Definition demo_events : list DecoderEvent := (([] ++ demo_step1.2) ++ demo_step2.2) ++ demo_step3.2.

Lemma demo_session :
  dec_session Ssse3 Gf2_8 2 demo_symbol demo_u has_room demo_step3.1 [1]
    [ev_vandermonde Gf2_8 2 [0; 1; 2]; ev_vandermonde Gf2_8 1 [0; 1; 2]] demo_events.
Proof.
  eapply (dec_coded _ _ _ _ _ _ demo_step2.1 _ _ _ (demo_coded 2 [0; 1; 2])).
  - eapply (dec_coded _ _ _ _ _ _ demo_step1.1 _ _ _ (demo_coded 1 [0; 1; 2])).
    + eapply (dec_source _ _ _ _ _ _ demo_decoder _ _ _ (demo_source 1)).
      * by apply dec_new.
      * split; [done|]. split; [by right; left|]. left. by intros (ev & Hev%elem_of_nil & _).
      * rw -surjective_pairing. apply ok_or_eq. vm_compute. reflexivity.
    + vm_compute. reflexivity.
    + split; [by split|]. apply demo_usable.
    + rw -surjective_pairing. apply ok_or_eq. vm_compute. reflexivity.
  - vm_compute. reflexivity.
  - split; [by split|]. apply demo_usable.
  - rw -surjective_pairing. apply ok_or_eq. vm_compute. reflexivity.
Qed.

Lemma decoder_delivers_truth_witness :
  delivered demo_events = [(0, demo_symbol 0); (1, demo_symbol 1); (2, demo_symbol 2)] ∧
  Forall (λ '(id, data), data = demo_symbol id) (delivered demo_events) ∧
  StronglySorted Z.lt (delivered demo_events).*1 ∧
  events_ids demo_events = seqZ 0 (next_delivery_id demo_step3.1).
Proof.
  split; [vm_compute; reflexivity|].
  exact (decoder_delivers_truth Ssse3 Gf2_8 2 demo_symbol demo_u _ _ _ _ _
    demo_symbols demo_u_nodup demo_u_range demo_session).
Defined.

(** C9: in a session of honest packets, lost, repeated or reordered, no coded packet
    makes the decoder fail, nor does a source packet, unless its symbol is still
    unknown and a coded packet that covers it came before: every other call
    returns [Ok], and the source symbol is known, with its true content, from then
    on. *)
Theorem decoder_never_fails disp {P} `{FeedbackPolicy P} f sz src U Q d srcs evs out :
  (∀ id, symbol sz (src id)) → NoDup U → Forall id_range U →
  @dec_session disp P _ f sz src U Q d srcs evs out →
  (∀ pkt, source_packet_ok src U d evs pkt → ∃ d' new, handle_source disp d pkt = Ok (d', new) ∧
     de_known d' !! Source.source_symbol_id pkt = Some (src (Source.source_symbol_id pkt))) ∧
  (∀ pkt, coded_packet_ok f sz src U pkt → ∃ d' new, handle_coded disp d pkt = Ok (d', new)).
Proof.
  intros Hsrc HU HUr Hs. apply dec_session_inv in Hs as [Hd Hu _ _ _ _ _]; [|done..]. split.
  - intros pkt Hpkt. pose proof (source_packet_zero f sz src U d evs pkt Hd Hu Hpkt) as Hor.
    destruct Hpkt as (Hpay & HidU & _).
    destruct (source_step disp f sz src U Hsrc HU HUr d pkt) as (d' & new & Hstep & Hst & [data Hk] & _); [done..|].
    exists d', new. split; [done|]. rw Hk. f_equal.
    by destruct (dk_known _ _ _ _ _ (sk_ok _ _ _ _ _ _ _ Hst) _ _ Hk).
  - intros pkt [Hhon Hus].
    destruct (coded_step disp f sz src U Hsrc HU HUr d pkt) as (d' & new & Hstep & _); [done..|].
    by exists d', new.
Qed.

Lemma decoder_never_fails_witness :
  ∃ d' new, handle_coded Ssse3 demo_step3.1 (demo_coded 3 [0; 1; 2]) = Ok (d', new).
Proof.
  apply (proj2 (decoder_never_fails Ssse3 Gf2_8 2 demo_symbol demo_u _ _ _ _ _
    demo_symbols demo_u_nodup demo_u_range demo_session)).
  split; [by split|]. apply demo_usable.
Defined.

(** A packet whose payload is not a symbol is refused with both sizes, and
    changes nothing. *)
Theorem decoder_refuses_wrong_size disp {P} `{FeedbackPolicy P} (d : Decoder P) src_pkt coded_pkt :
  let size := dc_symbol_size (de_config d) in
  (Z.of_nat (length (Source.payload src_pkt)) ≠ size →
   handle_source disp d src_pkt
   = Err (d, SymbolSizeMismatch size (Z.of_nat (length (Source.payload src_pkt))))) ∧
  (Z.of_nat (length (Coded.payload coded_pkt)) ≠ size →
   handle_coded disp d coded_pkt
   = Err (d, SymbolSizeMismatch size (Z.of_nat (length (Coded.payload coded_pkt))))).
Proof.
  intros size. unfold handle_source, handle_coded, size_mismatch. fold size.
  by split; intros Hne%Z.eqb_neq; rw Hne.
Qed.

Lemma decoder_refuses_wrong_size_witness :
  let pkt := {| Source.header := header_new PtSource CciZero false 2; Source.cci := [];
    Source.tsi := None; Source.source_symbol_id := 7; Source.payload := [1; 2; 3] |} in
  handle_source Ssse3 demo_decoder pkt = Err (demo_decoder, SymbolSizeMismatch 2 3).
Proof.
  intros pkt. apply (proj1 (decoder_refuses_wrong_size Ssse3 demo_decoder pkt (demo_coded 1 []))).
  vm_compute. discriminate.
Defined.

(** *** What the code does outside of those sessions *)

(** A source symbol that arrives after a coded packet that covers it: the row
    keyed by it loses its pivot, and the next coded packet hands the application
    a wrong symbol 1. *)
Definition late_step1 := ok_or (demo_decoder, []) (handle_coded Ssse3 demo_decoder (demo_coded 1 [0; 1])).
Definition late_step2 := ok_or (demo_decoder, []) (handle_source Ssse3 late_step1.1 (demo_source 0)).
Definition late_step3 := ok_or (demo_decoder, []) (handle_coded Ssse3 late_step2.1 (demo_coded 2 [0; 2])).
Lemma late_source_delivers_wrong_symbol :
  delivered (late_step1.2 ++ late_step2.2 ++ late_step3.2)
    = [(0, demo_symbol 0); (1, [8; 14]); (2, demo_symbol 2)] ∧ demo_symbol 1 = [4; 7].
Proof. split; vm_compute; reflexivity. Qed.

(** A reported gap also drops the symbols in it that had been received: source
    symbol 1 is in the buffer when a packet whose window starts at 2 arrives,
    and neither it nor a later packet delivers it. *)
Definition gap_step1 := ok_or (demo_decoder, []) (handle_source Ssse3 demo_decoder (demo_source 1)).
Definition gap_step2 := ok_or (demo_decoder, []) (handle_coded Ssse3 gap_step1.1 (demo_coded 1 [2])).
Lemma gap_discards_received :
  de_known gap_step1.1 !! 1 = Some (demo_symbol 1) ∧
  last gap_step2.2 = Some (UnrecoverableGap 0 2) ∧
  delivered (gap_step1.2 ++ gap_step2.2) = [] ∧ next_delivery_id gap_step2.1 = 2.
Proof. split_and!; vm_compute; reflexivity. Qed.
