(* ===== verification/Recovery.v ===== *)
(** * When the decoder recovers everything

    The decoder solves the received equations: as soon as they determine the
    missing symbols, it knows them all.  With the Cauchy coefficients of the
    encoder, as many coded packets as missing symbols are enough. *)

From S2P Require Import Prelude Error Config Gf CoefGen Vandermonde IdStorage Simd EncVec Common Packets Policy LinComb BTree Buffer Matrix Dense Elim Decoder.
From stdpp Require Import sorting.
#[global] Open Scope Z_scope.

(** ** Orthogonal vectors *)
Section orthogonal.
Context (f : Field).
Local Notation "a ⊗ b" := (@gf_mul (gf_field f) a b) (at level 40, left associativity).

Definition inner (U : list Z) (g v : Z → Z) : Z := gsum (λ x, g x ⊗ v x) U.

(** The coefficient vectors orthogonal to [v]. *)
Definition orthogonal (U : list Z) (v g : Z → Z) : Prop :=
  (∀ x, coef_ok f (g x)) ∧ inner U g v = 0.

Lemma orthogonal_subspace U v : (∀ x, coef_ok f (v x)) → subspace f (orthogonal U v).
Proof.
  intros Hv. constructor.
  - split; [intros; apply coef_0|]. apply gsum_zero. intros x _. by rw gf_mul_0_l.
  - intros g h Hgh [Hg H0]. split; [intros x; rw -Hgh; apply Hg|]. rw -H0. apply gsum_ext.
    intros x _. by rw Hgh.
  - intros g h [Hg H0] [Hh H1]. split; [intros x; by apply coef_lxor|]. unfold inner.
    rw (gsum_ext _ (λ x, Z.lxor (g x ⊗ v x) (h x ⊗ v x))); [|intros x _; by rw gf_mul_lxor_l].
    rw gsum_lxor. unfold inner in H0, H1. by rw H0 H1.
  - intros c g Hc [Hg H0]. split; [intros x; by apply coef_mul|].
    rw -(gf_mul_0_r (gf_field f) c) // -H0. unfold inner. rw (gsum_mul (gf_field f)) //.
    + apply gsum_ext. intros x _. by rw gf_mul_assoc.
    + intros x _. by apply coef_mul.
Qed.

Lemma gsum_single (U : list Z) a c : NoDup U → a ∈ U → gsum (λ x, if decide (x = a) then c else 0) U = c.
Proof.
  induction 1 as [|x U Hx Hnd IH]; intros Ha; [by apply elem_of_nil in Ha|].
  change (Z.lxor (if decide (x = a) then c else 0) (gsum (λ x, if decide (x = a) then c else 0) U) = c).
  destruct (decide (x = a)) as [->|Hne].
  - rw (gsum_zero _ U) ?Z.lxor_0_r //. intros y Hy. by rw decide_False; [|intros ->].
  - apply elem_of_cons in Ha as [->|Ha]; [done|]. by rw IH // Z.lxor_0_l.
Qed.
End orthogonal.

(** ** Solving the received equations *)
Section solve.
Context (disp : Dispatch) {P : Type} `{FeedbackPolicy P}.
Context (f : Field) (sz : nat) (src : Z → bytes) (U : list Z).
Hypothesis Hsrc : ∀ id, symbol sz (src id).
Hypothesis HU : NoDup U.
Hypothesis HUr : Forall id_range U.
Implicit Types d : Decoder P.
Local Abbreviation rows d := (dm_rows (de_matrix d)).
Local Notation "a ⊗ b" := (@gf_mul (gf_field f) a b) (at level 40, left associativity).

(** All received equations are combinations of the rows and the known symbols. *)
Lemma session_spans d srcs evs out :
  dec_session disp f sz src U has_room d srcs evs out →
  ∀ W, subspace f W → holds W d → ∀ ev, ev ∈ evs → W (coef_at (ev_terms ev)).
Proof.
  intros Hs. induction Hs as [config policy|d srcs evs out pkt d' new Hs IH Hpkt Hstep
    |d srcs evs out pkt d' new Hs IH Hroom Hpkt Hstep].
  - intros W _ _ ev Hev. by apply elem_of_nil in Hev.
  - apply dec_session_inv in Hs as Hinv; [|done..]. destruct Hinv as [Hd Hu _ _ _ _ _].
    pose proof (source_packet_zero f sz src U d evs pkt Hd Hu Hpkt) as Hor. destruct Hpkt as (Hpay & HidU & _).
    destruct (source_step disp f sz src U Hsrc HU HUr d pkt) as (d1 & evs1 & Hs1 & Hst & _ & _ & Hsp); [done..|].
    rw Hstep in Hs1. injection Hs1 as <- <-. destruct Hst as [_ _ Hk _ _ _].
    intros W HW Hholds. apply IH; [done|]. split; [by apply Hsp|].
    intros id Hid. by apply Hholds, Hk.
  - apply dec_session_inv in Hs as Hinv; [|done..]. destruct Hinv as [Hd Hu _ _ _ _ _].
    destruct Hpkt as [Hhon Hus].
    destruct (coded_step disp f sz src U Hsrc HU HUr d pkt) as (d1 & evs1 & Hs1 & Hst & _ & Hsp); [done..|].
    rw Hstep in Hs1. injection Hs1 as <- <-. destruct Hst as [_ _ Hk _ _ _].
    destruct Hsp as [Hsp1 Hsp2]; [exact Hroom|].
    intros W HW Hholds ev [->|Hev]%elem_of_cons; [by apply Hsp2|].
    apply IH; [done| |done]. split; [by apply Hsp1|]. intros id Hid. by apply Hholds, Hk.
Qed.

(** A vector orthogonal to every row, zero at the known symbols, and 1 at a
    symbol that is neither known nor a key. *)
Definition free_vector (rows : gmap Z MatrixRow) (x y : Z) : Z :=
  if decide (y = x) then 1
  else match rows !! y with Some row => row_coef row x | None => 0 end.

Lemma free_vector_ok rows x y : rows_ok f sz src U rows → coef_ok f (free_vector rows x y).
Proof.
  intros Hm. unfold free_vector. case_decide; [apply coef_1|].
  destruct (rows !! y) as [row|] eqn:E; [|apply coef_0]. eapply row_coef_ok, rk_row; done.
Qed.

Lemma free_vector_row rows x k row : rows_ok f sz src U rows → x ∈ U → rows !! x = None →
  rows !! k = Some row → inner f U (row_coef row) (free_vector rows x) = 0.
Proof.
  intros Hm Hx Hnk Hk. assert (k ≠ x) as Hkx by (intros ->; congruence).
  assert (∀ z, coef_ok f (row_coef row z)) as Hc by (intros z; eapply row_coef_ok, rk_row; done).
  assert (k ∈ U) as HkU by (eapply rows_key_U; [done|by eexists]).
  unfold inner. rw (gsum_ext _ (λ y, Z.lxor (if decide (y = x) then row_coef row x else 0)
                                      (if decide (y = k) then row_coef row x else 0))).
  - rw gsum_lxor !gsum_single // Z.lxor_nilpotent //.
  - intros y _. unfold free_vector. destruct (decide (y = x)) as [->|Hyx].
    + rw (decide_False (P := x = k)); [|by apply not_eq_sym]. rw gf_mul_1_r // Z.lxor_0_r //.
    + rw Z.lxor_0_l. destruct (decide (y = k)) as [->|Hyk].
      * rw Hk (rk_pivot _ _ _ _ _ Hm _ _ Hk) gf_mul_1 //.
      * destruct (rows !! y) as [row'|] eqn:Ey; [|by rw gf_mul_0_r].
        rw (rk_reduced _ _ _ _ _ Hm _ _ y Hk); [|by eexists|done]. rw gf_mul_0_l //.
        eapply row_coef_ok, rk_row; done.
Qed.

(** The symbols in [K] and the received equations determine every symbol: no
    other assignment satisfies them. *)
Definition determined_by (K : Z → Prop) (evs : list EncodingVector) : Prop :=
  ∀ v, (∀ x, coef_ok f (v x)) → (∀ x, K x → v x = 0) →
    (∀ ev, ev ∈ evs → inner f U (coef_at (ev_terms ev)) v = 0) → ∀ x, x ∈ U → v x = 0.
Definition determined (srcs : list Z) : list EncodingVector → Prop := determined_by (λ x, x ∈ srcs).

Definition is_known d (x : Z) : Prop := is_Some (de_known d !! x).

Lemma determined_mono (K K' : Z → Prop) evs :
  (∀ x, K x → K' x) → determined_by K evs → determined_by K' evs.
Proof. intros HK Hdet v Hv HKv. apply Hdet; [done|]. intros x Hx. by apply HKv, HK. Qed.

Lemma unit_inner v x : (∀ y, coef_ok f (v y)) → v x = 0 → inner f U (unit_vec x) v = 0.
Proof.
  intros Hv H0. apply gsum_zero. intros y _. unfold unit_vec. case_decide as Hy.
  - subst y. rw H0. apply gf_mul_0_r, coef_1. apply _.
  - apply gf_mul_0_l, Hv. apply _.
Qed.

Lemma solved_or_key d srcs evs out :
  dec_session disp f sz src U has_room d srcs evs out → determined_by (is_known d) evs →
  ∀ x, x ∈ U → is_Some (de_known d !! x) ∨ is_Some (rows d !! x).
Proof.
  intros Hs Hdet x Hx. apply dec_session_inv in Hs as Hinv; [|done..].
  destruct Hinv as [Hd _ Hsr _ _ _ _]. pose proof (dk_rows _ _ _ _ _ Hd) as Hm.
  destruct (de_known d !! x) as [data|] eqn:Ek; [left; by eexists|].
  destruct (rows d !! x) as [row|] eqn:Er; [right; by eexists|]. exfalso.
  set (v := free_vector (rows d) x).
  assert (∀ y, coef_ok f (v y)) as Hv by (intros y; by apply free_vector_ok).
  assert (∀ y, is_Some (de_known d !! y) → v y = 0) as Hvk.
  { intros y Hy. unfold v, free_vector. rw decide_False; [|intros ->; rw Ek in Hy; by destruct Hy].
    rw (zero_not_key f sz src U (rows d) y) //. by apply (dk_zero _ _ _ _ _ Hd). }
  assert (v x = 0) as H0; [|by unfold v, free_vector in H0; rw decide_True in H0].
  apply (Hdet v); [done|done| |done].
  - intros ev Hev. assert (orthogonal f U v (coef_at (ev_terms ev))) as [_ ?]; [|done].
    eapply session_spans; [done|by apply orthogonal_subspace| |done].
    split.
    + intros k row Hk. split; [intros z; eapply row_coef_ok, rk_row; done|]. by apply free_vector_row with k.
    + intros id Hid. split; [|by apply unit_inner, Hvk].
      intros z. unfold unit_vec. case_decide; [apply coef_1|apply coef_0].
Qed.

Lemma recovers_known d srcs evs out :
  dec_session disp f sz src U has_room d srcs evs out → determined_by (is_known d) evs →
  ∀ x, x ∈ U → de_known d !! x = Some (src x) ∧
    (x < next_delivery_id d ∨ buffer_get (de_buffer d) x = Some (src x)).
Proof.
  intros Hs Hdet. pose proof (solved_or_key d srcs evs out Hs Hdet) as Hall.
  apply dec_session_inv in Hs as Hinv; [|done..]. destruct Hinv as [Hd _ Hsr _ _ _ _].
  pose proof (dk_rows _ _ _ _ _ Hd) as Hm.
  assert (∀ k, rows d !! k = None) as Hnone.
  { intros k. destruct (rows d !! k) as [row|] eqn:Ek; [|done]. exfalso.
    assert (row_carries (rows d) k) as Hc.
    { exists row. split; [done|]. intros y Hy. destruct (Z.eq_dec (row_coef row y) 0) as [|Hne]; [done|].
      assert (y ∈ U) as HyU by (eapply ro_supp; [by eapply rk_row|done]).
      destruct (Hall y HyU) as [Hk|Hk].
      - by apply (dk_zero _ _ _ _ _ Hd) in Hk; rw (Hk _ _ Ek) in Hne.
      - by rw (rk_reduced _ _ _ _ _ Hm _ _ y Ek) in Hne. }
    pose proof (dk_solved _ _ _ _ _ Hd) as Hsol.
    by apply (solved_keys_nil f sz src U Hsrc HU (rows d) Hm) with k in Hsol. }
  intros x Hx. destruct (Hall x Hx) as [[data Hk]|Hk]; [|rw Hnone in Hk; by destruct Hk].
  destruct (dk_known _ _ _ _ _ Hd _ _ Hk) as [Hdata _]. cbn in Hdata. subst data.
  split; [done|]. destruct (dk_kept _ _ _ _ _ Hd x) as [|[data Hb]]; [by eexists|by left|].
  right. unfold buffer_get. rw Hb. f_equal. by apply (dk_content _ _ _ _ _ Hd) in Hb as [-> _].
Qed.

Lemma recovers_all d srcs evs out :
  dec_session disp f sz src U has_room d srcs evs out → determined srcs evs →
  ∀ x, x ∈ U → de_known d !! x = Some (src x) ∧
    (x < next_delivery_id d ∨ buffer_get (de_buffer d) x = Some (src x)).
Proof.
  intros Hs Hdet. apply (recovers_known d srcs evs out Hs). eapply determined_mono; [|exact Hdet].
  intros x Hx. apply dec_session_inv in Hs as [_ _ Hsr _ _ _ _]; [|done..]. by apply Hsr.
Qed.
End solve.

(** ** Enough packets *)
Section enough.
Context (f : Field) (U : list Z).
Hypothesis HU : NoDup U.

Lemma coef_at_fmap (h : Z → Z) ids x : x ∈ ids → coef_at ((λ y, (y, h y)) <$> ids) x = h x.
Proof.
  induction ids as [|y ids IH]; intros Hx; [by apply elem_of_nil in Hx|].
  cbn [fmap list_fmap coef_at]. case_decide as Hyx; [by subst|]. apply IH.
  apply elem_of_cons in Hx as [->|]; done.
Qed.

Lemma gsum_perm (g : Z → Z) l k : l ≡ₚ k → gsum g l = gsum g k.
Proof.
  induction 1 as [|x l k _ IH|x y l|l k m _ IH1 _ IH2]; [done|..].
  - change (Z.lxor (g x) (gsum g l) = Z.lxor (g x) (gsum g k)). by rw IH.
  - change (Z.lxor (g y) (Z.lxor (g x) (gsum g l)) = Z.lxor (g x) (Z.lxor (g y) (gsum g l))).
    rw -!Z.lxor_assoc (Z.lxor_comm (g y)) //.
  - by rw IH1.
Qed.
Lemma gsum_app (g : Z → Z) l k : gsum g (l ++ k) = Z.lxor (gsum g l) (gsum g k).
Proof.
  induction l as [|x l IH]; [by rw Z.lxor_0_l|].
  change (Z.lxor (g x) (gsum g (l ++ k)) = Z.lxor (Z.lxor (g x) (gsum g l)) (gsum g k)).
  by rw IH Z.lxor_assoc.
Qed.

Lemma gsum_restrict (g : Z → Z) L : NoDup L → L ⊆ U → (∀ x, x ∈ U → x ∉ L → g x = 0) →
  gsum g U = gsum g L.
Proof.
  intros HL Hsub Hz. rw (gsum_perm g U (L ++ filter (λ x, x ∉ L) U)).
  - rw gsum_app (gsum_zero g (filter _ U)) ?Z.lxor_0_r //.
    intros x [Hn Hx]%list_elem_of_filter. by apply Hz.
  - apply NoDup_Permutation; [done| |].
    + apply NoDup_app. split_and!; [done| |by apply NoDup_filter].
      intros x Hx [Hn _]%list_elem_of_filter. done.
    + intros x. rw elem_of_app list_elem_of_filter. split.
      * intros Hx. destruct (decide (x ∈ L)); auto.
      * intros [Hx|[_ Hx]]; auto.
Qed.

Lemma dot_gsum (v h : Z → Z) L :
  dot f (v <$> L) (h <$> L) = gsum (λ x, @gf_mul (gf_field f) (v x) (h x)) L.
Proof.
  induction L as [|x L IH]; [done|].
  change (Z.lxor (@gf_mul (gf_field f) (v x) (h x)) (dot f (v <$> L) (h <$> L))
    = Z.lxor (@gf_mul (gf_field f) (v x) (h x)) (gsum (λ y, @gf_mul (gf_field f) (v y) (h y)) L)).
  by rw IH.
Qed.

(** Packets whose coefficients on the lost symbols have independent columns
    determine those symbols. *)
Lemma independent_determined (K : Z → Prop) evs lost good (row : EncodingVector → Z → Z) :
  NoDup lost → lost ⊆ U → (∀ x, x ∈ U → K x ∨ x ∈ lost) → good ⊆ evs →
  (∀ ev, ev ∈ evs → ∀ x, coef_ok f (coef_at (ev_terms ev) x)) →
  (∀ ev x, ev ∈ good → x ∈ lost → coef_at (ev_terms ev) x = row ev x) →
  (∀ v, length v = length lost → Forall (coef_ok f) v →
    (∀ ev, ev ∈ good → dot f v (row ev <$> lost) = 0) → Forall (λ a, a = 0) v) →
  determined_by f U K evs.
Proof.
  intros HndL Hlost Hcov Hsub Hco Hrow Hind v Hv HK Hevs.
  assert (Forall (λ a, a = 0) (v <$> lost)) as Hz.
  { apply Hind; [apply length_fmap|by apply Forall_fmap, Forall_true|].
    intros ev Hev. rw dot_gsum -(Hevs ev); [|by apply Hsub]. unfold inner. symmetry.
    rw (gsum_restrict _ lost HndL Hlost).
    - apply gsum_ext. intros x Hx. rw -(Hrow ev x) //.
      apply gf_mul_comm; [apply _|by apply Hco, Hsub|apply Hv].
    - intros x Hx Hn. rw HK; [|by destruct (Hcov x Hx)].
      apply gf_mul_0_r; [apply _|by apply Hco, Hsub]. }
  intros x Hx. destruct (Hcov x Hx) as [|Hl]; [by apply HK|].
  rw Forall_fmap Forall_forall in Hz. by apply Hz.
Qed.

(** *** Cauchy coefficients *)

(** The value at which the packet's column is taken. *)
Definition ev_point (ev : EncodingVector) : Z := cy f (ev_coded_id ev) (ev_generation ev).
Definition cauchy_at (ev : EncodingVector) (x : Z) : Z :=
  ginv (gf_field f) (Z.lxor (cx f x) (ev_point ev)).

Lemma cauchy_coef_at ev x : cauchy_packet f ev → x ∈ ev_source_ids ev →
  coef_at (ev_terms ev) x = cauchy_at ev x.
Proof.
  intros [Hc Hids Hco Hg] Hx. rw cauchy_batch_ok in Hc; [|done..]. injection Hc as Hc.
  unfold ev_terms, has_explicit_coefs. rw -Hc length_fmap.
  destruct (ev_source_ids ev) as [|y ids] eqn:E; [by apply elem_of_nil in Hx|]. rw -E in Hx |- *.
  assert (negb (length (ev_source_ids ev) =? 0)%nat = true) as -> by by rw E.
  rw zip_fmap_id. by apply (coef_at_fmap (cauchy_at ev)).
Qed.

(** As many Cauchy packets, at distinct points, as symbols were lost. *)
Record enough_packets (lost : list Z) (evs : list EncodingVector) : Prop := {
  ep_lost : NoDup (cx f <$> lost);
  ep_count : length evs = length lost;
  ep_points : NoDup (ev_point <$> evs);
  ep_cauchy : ∀ ev, ev ∈ evs → cauchy_packet f ev ∧ lost ⊆ ev_source_ids ev;
}.

Lemma enough_determined (K : Z → Prop) evs lost good : Forall id_range U → lost ⊆ U →
  (∀ x, x ∈ U → K x ∨ x ∈ lost) → good ⊆ evs →
  (∀ ev, ev ∈ evs → ∀ x, coef_ok f (coef_at (ev_terms ev) x)) →
  enough_packets lost good → determined_by f U K evs.
Proof.
  intros HUr Hlost Hcov Hsub Hco [Hnd Hcount Hpts Hgood].
  assert (Forall is_u32 lost) as Hu32.
  { apply Forall_forall. intros x Hx. apply Hlost in Hx. rw Forall_forall in HUr.
    specialize (HUr x Hx). unfold id_range in HUr. word_bound. }
  apply (independent_determined K evs lost good cauchy_at); try done.
  - by apply NoDup_fmap_1 in Hnd.
  - intros ev x Hev Hx. destruct (Hgood ev Hev) as [Hc Hin]. by apply cauchy_coef_at, Hin.
  - intros v Hlen Hv Hdot.
    apply (cauchy_columns_independent f lost ((λ ev, (ev_coded_id ev, ev_generation ev)) <$> good));
      try done.
    + apply Forall_fmap, Forall_forall. intros ev Hev. cbn. by destruct (Hgood ev Hev) as [[]].
    + rw -list_fmap_compose. exact Hpts.
    + by rw length_fmap.
    + intros r (ev & -> & Hev)%list_elem_of_fmap. cbn. destruct (Hgood ev Hev) as [Hc Hin].
      exists (cauchy_at ev <$> lost). split; [by destruct Hc; apply cauchy_batch_ok|by apply Hdot].
Qed.

(** Within a generation, different coded IDs are different points. *)
Lemma cauchy_points_distinct gen evs :
  Forall (λ ev, ev_generation ev = gen ∧ 0 ≤ ev_coded_id ev < cauchy_cycle f) evs →
  NoDup (ev_coded_id <$> evs) → NoDup (ev_point <$> evs).
Proof.
  intros Hall Hnd. rw Forall_forall in Hall.
  assert (ev_point <$> evs = (λ c, cy f c gen) <$> (ev_coded_id <$> evs)) as ->.
  { rw -list_fmap_compose. apply list_fmap_ext. intros i ev Hev%list_elem_of_lookup_2.
    unfold ev_point. cbn. by destruct (Hall ev Hev) as [-> _]. }
  apply NoDup_fmap_2_strong; [|done].
  intros c c' (ev & -> & Hev)%list_elem_of_fmap (ev' & -> & Hev')%list_elem_of_fmap.
  destruct (Hall ev Hev) as [_ Hc], (Hall ev' Hev') as [_ Hc']. by apply cy_inj.
Qed.

(** *** Vandermonde coefficients *)

(** As many Vandermonde packets, with distinct coded IDs, as symbols were lost in
    a burst. *)
Record enough_for_burst (s0 k : Z) (evs : list EncodingVector) : Prop := {
  eb_count : Z.of_nat (length evs) = k;
  eb_points : NoDup (ev_coded_id <$> evs);
  eb_packets : ∀ ev, ev ∈ evs → ev_field ev = f ∧ vandermonde_packet f ev ∧
    seqZ s0 k ⊆ ev_source_ids ev;
}.

Lemma burst_determined (K : Z → Prop) evs s0 k good : Forall id_range U →
  seqZ s0 k ⊆ U → (∀ x, x ∈ U → K x ∨ s0 ≤ x < s0 + k) → good ⊆ evs →
  (∀ ev, ev ∈ evs → ∀ x, coef_ok f (coef_at (ev_terms ev) x)) →
  enough_for_burst s0 k good → determined_by f U K evs.
Proof.
  intros HUr Hlost Hcov Hsub Hco [Hcount Hpts Hgood].
  assert (∀ x, s0 ≤ x < s0 + k → 0 ≤ x < 4294967295) as Hr.
  { intros x Hx. rw Forall_forall in HUr. apply HUr, Hlost, elem_of_seqZ. lia. }
  apply (independent_determined K evs (seqZ s0 k) good
    (λ ev x, vandermonde_coef f x (ev_coded_id ev))); try done.
  - apply NoDup_seqZ.
  - intros x Hx. destruct (Hcov x Hx) as [|?]; [by left|right]. apply elem_of_seqZ. lia.
  - intros ev x Hev Hx. destruct (Hgood ev Hev) as (Hf & [Himp _] & Hin).
    unfold ev_terms. rw Himp Hf. by apply (coef_at_fmap (λ x, vandermonde_coef f x (ev_coded_id ev))), Hin.
  - intros v Hlen Hv Hdot. rw length_seqZ in Hlen. destruct (decide (k ≤ 0)) as [|Hk].
    { assert (length v = 0%nat) as ->%nil_length_inv by lia. done. }
    pose proof (Hr s0 ltac:(lia)). pose proof (Hr (s0 + k - 1) ltac:(lia)).
    apply (burst_columns_independent f s0 (ev_coded_id <$> good)); [lia|lia| | |rw length_fmap; lia|done|].
    + apply Forall_fmap, Forall_forall. intros ev Hev. destruct (Hgood ev Hev) as (_ & [_ Hc] & _).
      pose proof (alpha_order_pos f). unfold alpha_order in *. cbn. word_bound.
    + apply van_points_distinct; [|done]. apply Forall_fmap, Forall_forall. intros ev Hev.
      by destruct (Hgood ev Hev) as (_ & [_ Hc] & _).
    + intros c (ev & -> & Hev)%list_elem_of_fmap. replace (Z.of_nat (length v)) with k by lia.
      rw vandermonde_batch_map. by apply Hdot.
Qed.
End enough.

(** C10: the decoder solves its equations: once the received source symbols and
    coded packets determine the session's symbols (no other values satisfy
    them), every symbol is known and is delivered, passed over by a gap, or in
    the delivery buffer; provided the matrix had room for one more row whenever a
    coded packet arrived, so that no equation was evicted, and that no unknown
    source symbol arrived behind a coded packet that covers it. *)
Theorem decoder_solves disp {P} `{FeedbackPolicy P} f sz src U d srcs evs out :
  (∀ id, symbol sz (src id)) → NoDup U → Forall id_range U →
  @dec_session disp P _ f sz src U has_room d srcs evs out → determined f U srcs evs →
  ∀ x, x ∈ U → de_known d !! x = Some (src x) ∧
    (x < next_delivery_id d ∨ buffer_get (de_buffer d) x = Some (src x)).
Proof. intros. by eapply recovers_all. Qed.

(** C19: erasure recovery: when [k] source symbols of a session were lost, no two
    of them with the same column (IDs that are equal modulo 128, or modulo 7 in
    GF(2^4), share one), any [k] received Cauchy packets that cover them, at
    distinct points of the coded-ID cycle, give all of them back; provided the
    matrix had room for one more row whenever a coded packet arrived, and that no
    unknown source symbol arrived behind a coded packet that covers it. *)
Theorem cauchy_erasure_recovery disp {P} `{FeedbackPolicy P} f sz src U d srcs evs out lost good :
  (∀ id, symbol sz (src id)) → NoDup U → Forall id_range U →
  @dec_session disp P _ f sz src U has_room d srcs evs out →
  lost ⊆ U → (∀ x, x ∈ U → x ∈ srcs ∨ x ∈ lost) → good ⊆ evs → enough_packets f lost good →
  ∀ x, x ∈ lost → de_known d !! x = Some (src x) ∧
    (x < next_delivery_id d ∨ buffer_get (de_buffer d) x = Some (src x)).
Proof.
  intros Hsrc HU HUr Hs Hlost Hcov Hgood Henough x Hx.
  apply (recovers_all disp f sz src U Hsrc HU HUr d srcs evs out Hs); [|by apply Hlost].
  apply (enough_determined f U HU _ evs lost good); try done.
  intros ev Hev y. apply dec_session_inv in Hs as [_ _ _ _ _ _ Hus]; [|done..].
  destruct (Hus ev Hev) as [Hu Hf]. by apply coef_at_ok, (ev_terms_ok f U).
Qed.

(** *** A Cauchy session: symbols 0 and 2 of three are lost, two coded packets
    arrive. *)
Definition cauchy_ev (coded : Z) : EncodingVector :=
  {| ev_field := Gf2_8; ev_coded_id := coded; ev_generation := 0;
     ev_id_format := best_for [0; 1; 2]; ev_source_ids := [0; 1; 2];
     ev_coefficients := ok_or [] (cauchy_batch Gf2_8 [0; 1; 2] coded 0) |}.
Definition cauchy_pkt (coded : Z) : Coded.CodedPacket :=
  {| Coded.header := header_new PtCoded CciZero false 2; Coded.cci := []; Coded.tsi := None;
     Coded.coded_symbol_id := coded; Coded.ev := cauchy_ev coded;
     Coded.payload := lincomb Gf2_8 2 demo_symbol (ev_terms (cauchy_ev coded)) |}.
Definition erasure_step2 := ok_or (demo_decoder, []) (handle_coded Ssse3 demo_step1.1 (cauchy_pkt 0)).
Definition erasure_step3 := ok_or (demo_decoder, []) (handle_coded Ssse3 erasure_step2.1 (cauchy_pkt 1)).
Definition erasure_events := (([] ++ demo_step1.2) ++ erasure_step2.2) ++ erasure_step3.2.

Lemma cauchy_usable coded : 0 ≤ coded < 128 → ev_usable Gf2_8 demo_u (cauchy_ev coded).
Proof.
  intros Hc.
  assert (ev_coefficients (cauchy_ev coded)
    = (λ s, ginv (gf_field Gf2_8) (Z.lxor (cx Gf2_8 s) (cy Gf2_8 coded 0))) <$> [0; 1; 2]) as Hb.
  { unfold cauchy_ev. cbn [ev_coefficients]. rw cauchy_batch_ok //. repeat constructor; lia. }
  constructor; [apply demo_u_nodup|done|right; by rw Hb|]. rw Hb.
  apply Forall_fmap, Forall_forall. intros x Hx. cbn.
  apply (cauchy_coef_ok Gf2_8); [|done|word_bound].
  cbn in Hx. repeat (apply elem_of_cons in Hx as [->|Hx]; [word_bound|]). by apply elem_of_nil in Hx.
Qed.

Lemma erasure_session :
  dec_session Ssse3 Gf2_8 2 demo_symbol demo_u has_room erasure_step3.1 [1]
    [cauchy_ev 1; cauchy_ev 0] erasure_events.
Proof.
  eapply (dec_coded _ _ _ _ _ _ erasure_step2.1 _ _ _ (cauchy_pkt 1)).
  - eapply (dec_coded _ _ _ _ _ _ demo_step1.1 _ _ _ (cauchy_pkt 0)).
    + eapply (dec_source _ _ _ _ _ _ demo_decoder _ _ _ (demo_source 1)).
      * by apply dec_new.
      * split; [done|]. split; [by right; left|]. left. by intros (ev & Hev%elem_of_nil & _).
      * rw -surjective_pairing. apply ok_or_eq. vm_compute. reflexivity.
    + vm_compute. reflexivity.
    + split; [by split|]. apply cauchy_usable. lia.
    + rw -surjective_pairing. apply ok_or_eq. vm_compute. reflexivity.
  - vm_compute. reflexivity.
  - split; [by split|]. apply cauchy_usable. lia.
  - rw -surjective_pairing. apply ok_or_eq. vm_compute. reflexivity.
Qed.

Lemma cauchy_ev_packet coded : 0 ≤ coded < 128 → cauchy_packet Gf2_8 (cauchy_ev coded).
Proof.
  intros Hc. constructor; cbn [cauchy_ev ev_source_ids ev_coded_id ev_generation ev_coefficients].
  - apply ok_or_eq. rw cauchy_batch_ok //. repeat constructor; lia.
  - repeat constructor; lia.
  - exact Hc.
  - word_bound.
Qed.

Lemma erasure_enough : enough_packets Gf2_8 [0; 2] [cauchy_ev 1; cauchy_ev 0].
Proof.
  constructor; [apply (bool_decide_unpack _); by vm_compute|done
    |apply (bool_decide_unpack _); by vm_compute|].
  intros ev Hev. assert (∃ coded, 0 ≤ coded < 128 ∧ ev = cauchy_ev coded) as (coded & Hc & ->).
  { apply elem_of_cons in Hev as [->|Hev]; [by exists 1|].
    apply list_elem_of_singleton in Hev as ->. by exists 0. }
  split; [by apply cauchy_ev_packet|]. cbn. set_solver.
Qed.

Lemma cauchy_erasure_recovery_witness :
  delivered erasure_events = [(0, demo_symbol 0); (1, demo_symbol 1); (2, demo_symbol 2)] ∧
  ∀ x, x ∈ [0; 2] → de_known erasure_step3.1 !! x = Some (demo_symbol x) ∧
    (x < next_delivery_id erasure_step3.1 ∨ buffer_get (de_buffer erasure_step3.1) x = Some (demo_symbol x)).
Proof.
  split; [vm_compute; reflexivity|].
  apply (cauchy_erasure_recovery Ssse3 Gf2_8 2 demo_symbol demo_u _ _ _ _ [0; 2] [cauchy_ev 1; cauchy_ev 0]
    demo_symbols demo_u_nodup demo_u_range erasure_session); [set_solver| |done|exact erasure_enough].
  set_solver.
Defined.

Lemma decoder_solves_witness :
  de_known erasure_step3.1 !! 2 = Some (demo_symbol 2) ∧
  (2 < next_delivery_id erasure_step3.1 ∨ buffer_get (de_buffer erasure_step3.1) 2 = Some (demo_symbol 2)).
Proof.
  apply (decoder_solves Ssse3 Gf2_8 2 demo_symbol demo_u _ _ _ _
    demo_symbols demo_u_nodup demo_u_range erasure_session); [|set_solver].
  apply (enough_determined Gf2_8 demo_u demo_u_nodup (λ x, x ∈ [1]) _ [0; 2] [cauchy_ev 1; cauchy_ev 0]);
    [apply demo_u_range|set_solver|set_solver|done| |exact erasure_enough].
  intros ev Hev y. apply coef_at_ok, (ev_terms_ok Gf2_8 demo_u);
    (apply elem_of_cons in Hev as [->|Hev]; [|apply list_elem_of_singleton in Hev as ->]); try done;
    apply cauchy_usable; lia.
Defined.
