(* ===== verification/Delivery.v ===== *)
(** * When delivery is complete

    A session in which no gap is reported delivers every symbol below its
    delivery pointer, and the pointer stands at the first symbol that is not
    known.  No gap is reported when every coded packet covers the session's first
    symbol, that is when the encoder's window has not moved. *)

From S2P Require Import Prelude Error Config Gf CoefGen Simd IdStorage EncVec Common Packets F64 Feedback Packet Policy Window LinComb BTree Buffer Matrix Dense Elim Decoder Recovery.
From stdpp Require Import sorting.
#[global] Open Scope Z_scope.

Definition is_gap (e : DecoderEvent) : Prop :=
  match e with UnrecoverableGap _ _ => True | _ => False end.
Definition no_gap (evs : list DecoderEvent) : Prop := Forall (λ e, ¬ is_gap e) evs.

(** Symbols [n] to [n + k - 1]. *)
Definition symbols_upto (src : Z → bytes) (n k : Z) : list (Z * bytes) := (λ id, (id, src id)) <$> seqZ n k.

Lemma delivered_no_gap src U out : no_gap out → Forall (event_honest src U) out →
  delivered out = (λ id, (id, src id)) <$> events_ids out.
Proof.
  unfold events_ids. induction out as [|[id data|raw|a n] out IH]; cbn; [done|..];
    intros [Hg Hgs]%Forall_cons [Hh Hhs]%Forall_cons.
  - destruct Hh as [-> _]. f_equal. by apply IH.
  - by apply IH.
  - by destruct Hg.
Qed.

(** ** The delivery half of a handler *)
Lemma drain_loop_stops fuel b out : (size (sb_symbols b) < fuel)%nat → 0 ≤ sb_next_delivery_id b →
  let b' := (drain_loop fuel b out).1 in
  sb_symbols b' !! sb_next_delivery_id b' = None ∧ 0 ≤ sb_next_delivery_id b'.
Proof.
  revert b out. induction fuel as [|fuel IH]; intros b out Hf Hn; [lia|]. cbn [drain_loop].
  destruct (sb_symbols b !! sb_next_delivery_id b) as [data|] eqn:Ed; [|done].
  apply IH; cbn; [|apply Z.mod_pos_bound; lia].
  assert (size (sb_symbols b) ≠ 0)%nat
    by (intros Hz%map_size_empty_inv; by rw Hz lookup_empty in Ed).
  rw map_size_delete_Some; [lia|by exists data].
Qed.

Section handlers.
Context (disp : Dispatch) {P : Type} `{FeedbackPolicy P}.
Implicit Types d : Decoder P.

(** Feedback touches the policy only, and delivers nothing. *)
Lemma feedback_only d d' evs : maybe_send_feedback d = Ok (d', evs) →
  (∃ policy, d' = set_policy d policy) ∧ delivered evs = [] ∧ no_gap evs.
Proof.
  unfold maybe_send_feedback. intros (st & _ & Hf)%bind_Ok_inv.
  destruct (should_send_feedback _ _) as [policy []]; cbn [negb] in Hf.
  - apply bind_Ok_inv in Hf as (x & _ & (pkt & _ & [= <- <-])%bind_Ok_inv).
    split_and!; [by exists policy|done|]. by apply Forall_singleton; intros [].
  - injection Hf as <- <-. split_and!; [by exists policy|done|constructor].
Qed.

Lemma failing_at_inv {A B} d (m : result A) (f : A → outcome (Decoder P * DelpError) B) b :
  (failing_at d m ≫= f) = Ok b → ∃ a, m = Ok a ∧ f a = Ok b.
Proof. destruct m; cbn; naive_solver. Qed.

Lemma absorb_all_fixed d rec :
  sb_next_delivery_id (de_buffer (absorb_all d rec)) = sb_next_delivery_id (de_buffer d) ∧
  de_encoder_win_min (absorb_all d rec) = de_encoder_win_min d.
Proof.
  revert d. induction rec as [|[id data] rec IH]; intros d; [done|].
  change (absorb_all d ((id, data) :: rec)) with (absorb_all (absorb_recovered d id data) rec).
  destruct (IH (absorb_recovered d id data)) as [-> ->]. cbn. unfold buffer_insert. by case_match.
Qed.

Record finished d d' (evs : list DecoderEvent) : Prop := {
  fi_win : de_encoder_win_min d' = de_encoder_win_min d;
  fi_drained : no_gap evs →
    sb_symbols (de_buffer d') !! next_delivery_id d' = None;
  fi_no_gap : de_encoder_win_min d ≤ 0 → no_gap evs;
}.

Lemma finish_finished d rec d' evs : 0 ≤ next_delivery_id d → finish d rec = Ok (d', evs) → finished d d' evs.
Proof.
  intros Hn. unfold finish. destruct (absorb_all_fixed d rec) as [Hnext Hwin].
  set (d1 := absorb_all d rec) in *. clearbody d1. unfold next_delivery_id in Hn. rw -Hnext in Hn.
  unfold drain_to_events. destruct (drain_deliverable (de_buffer d1)) as [b out] eqn:Hdr.
  destruct (drain_loop_stops (S (size (sb_symbols (de_buffer d1)))) (de_buffer d1) [] ltac:(lia) Hn) as [Hnone Hb].
  unfold drain_deliverable in Hdr. rw Hdr in Hnone Hb. cbn [fst] in Hnone, Hb.
  intros ([d3 fb] & Hf & Hfin)%failing_at_inv. apply feedback_only in Hf as ([policy ->] & _ & Hfb).
  assert (no_gap ((λ '(id, data), SourceReady id data) <$> out)) as Hready.
  { apply Forall_fmap, Forall_true. by intros [id data] []. }
  unfold check_gap in Hfin. cbn [set_policy set_symbols de_buffer de_encoder_win_min] in Hfin.
  destruct (Z.ltb_spec (sb_next_delivery_id b) (de_encoder_win_min d1)) as [Hlt|Hge];
    injection Hfin as <- <-; constructor; try done.
  - intros Hg. apply Forall_app in Hg as [_ Hg]. apply Forall_app in Hg as [_ Hg].
    apply Forall_cons in Hg as [Hg _]. by destruct (Hg I).
  - rw -Hwin. lia.
  - intros _. apply Forall_app_2; [done|]. apply Forall_app_2; [done|constructor].
Qed.

Lemma source_finished d pkt d' evs : 0 ≤ next_delivery_id d → handle_source disp d pkt = Ok (d', evs) →
  finished d d' evs.
Proof.
  intros Hn. unfold handle_source. case_match; [done|]. intros ([m r] & _ & Hfin)%failing_at_inv.
  apply finish_finished in Hfin as [Hw Hd Hg]; [by constructor|].
  unfold next_delivery_id in *. cbn. unfold buffer_insert. by case_match.
Qed.

Lemma coded_finished d pkt d' evs : 0 ≤ next_delivery_id d → handle_coded disp d pkt = Ok (d', evs) →
  let win := window_min (de_encoder_win_min d) (ev_source_ids (Coded.ev pkt)) in
  de_encoder_win_min d' = win ∧
  (no_gap evs → sb_symbols (de_buffer d') !! next_delivery_id d' = None) ∧ (win ≤ 0 → no_gap evs).
Proof.
  intros Hn. unfold handle_coded. case_match; [done|]. intros ([m r] & _ & Hfin)%failing_at_inv.
  by apply finish_finished in Hfin as [Hw Hd Hg].
Qed.
End handlers.

(** ** Sessions *)
Section sessions.
Context (disp : Dispatch) {P : Type} `{FeedbackPolicy P}.
Context (f : Field) (sz : nat) (src : Z → bytes) (U : list Z).
Hypothesis Hsrc : ∀ id, symbol sz (src id).
Hypothesis HU : NoDup U.
Hypothesis HUr : Forall id_range U.
Implicit Types d : Decoder P.

Local Abbreviation session Q := (dec_session disp f sz src U Q).

Lemma session_drained Q d srcs evs out : session Q d srcs evs out → no_gap out →
  sb_symbols (de_buffer d) !! next_delivery_id d = None.
Proof.
  induction 1 as [config policy Hf Hs|d srcs evs out pkt d' new Hs _ _ Hstep|d srcs evs out pkt d' new Hs _ _ _ Hstep];
    [done|..]; intros [_ Hnew]%Forall_app;
    apply dec_session_inv in Hs as [_ _ _ _ Hn _ _]; try done.
  - by apply source_finished in Hstep as [_ Hd _]; [apply Hd|].
  - by apply coded_finished in Hstep as (_ & Hd & _); [apply Hd|].
Qed.

(** Every coded packet covers symbol 0. *)
Definition covers_first (evs : list EncodingVector) : Prop :=
  Forall (λ ev, head (ev_source_ids ev) = Some 0) evs.

Lemma session_unmoved Q d srcs evs out : session Q d srcs evs out → covers_first evs →
  de_encoder_win_min d = 0 ∧ no_gap out.
Proof.
  induction 1 as [config policy Hf Hs|d srcs evs out pkt d' new Hs IH _ Hstep|d srcs evs out pkt d' new Hs IH _ _ Hstep];
    [by split; [|constructor]|..]; intros Hall.
  - destruct (IH Hall) as [Hw Hg]. apply dec_session_inv in Hs as [_ _ _ _ Hn _ _]; [|done..].
    apply source_finished in Hstep as [Hw' _ Hg']; [|done].
    split; [by rw Hw'|]. apply Forall_app_2; [done|]. apply Hg'. by rw Hw.
  - apply Forall_cons in Hall as [Hev Hall]. destruct (IH Hall) as [Hw Hg].
    apply dec_session_inv in Hs as [_ _ _ _ Hn _ _]; [|done..].
    apply coded_finished in Hstep as (Hw' & _ & Hg'); [|done].
    assert (window_min (de_encoder_win_min d) (ev_source_ids (Coded.ev pkt)) = 0) as Hz.
    { unfold window_min. rw Hw. destruct (ev_source_ids (Coded.ev pkt)) as [|x l]; [done|].
      cbn in Hev. injection Hev as ->. done. }
    split; [by rw Hw'|]. apply Forall_app_2; [done|]. apply Hg'. by rw Hz.
Qed.

(** Without a gap, exactly the symbols below the pointer were delivered, and the
    symbol at the pointer is not known. *)
Lemma session_delivered Q d srcs evs out : session Q d srcs evs out → no_gap out →
  delivered out = symbols_upto src 0 (next_delivery_id d) ∧ de_known d !! next_delivery_id d = None.
Proof.
  intros Hs Hg. pose proof (session_drained _ _ _ _ _ Hs Hg) as Hnone.
  apply dec_session_inv in Hs as [Hok _ _ Hids Hn Hh _]; [|done..]. split.
  - rw (delivered_no_gap src U) // Hids. done.
  - destruct (de_known d !! next_delivery_id d) as [data|] eqn:Ek; [|done].
    destruct (dk_kept _ _ _ _ _ Hok (next_delivery_id d)) as [Hlt|[x Hx]]; [by exists data| |].
    + unfold next_delivery_id in Hlt. lia.
    + unfold next_delivery_id in Hnone, Hx. by rw Hnone in Hx.
Qed.
End sessions.

(** Every symbol known, none given up: every symbol delivered. *)
Lemma known_delivered disp {P} `{FeedbackPolicy P} f sz src m Q (d : Decoder P) srcs evs out :
  (∀ id, symbol sz (src id)) → 0 ≤ m ≤ 65536 → Forall id_range (seqZ 0 m) →
  dec_session disp f sz src (seqZ 0 m) Q d srcs evs out → no_gap out →
  (∀ x, 0 ≤ x < m → is_Some (de_known d !! x)) →
  delivered out = symbols_upto src 0 m ∧ next_delivery_id d = m.
Proof.
  intros Hsrc Hm Hr Hs Hg Hall. pose proof (NoDup_seqZ 0 m) as Hnd.
  destruct (session_delivered disp f sz src (seqZ 0 m) Hsrc Hnd Hr _ _ _ _ _ Hs Hg) as [Hdel Hnone].
  apply dec_session_inv in Hs as [_ _ _ Hids Hn Hh _]; [|done..].
  destruct (delivered_honest _ _ _ Hh) as [_ Hsub]. rw Hdel in Hsub.
  assert (next_delivery_id d = m) as Hnext; [|by rw Hdel Hnext].
  unfold next_delivery_id in *. set (n := sb_next_delivery_id (de_buffer d)) in *.
  destruct (Z.lt_trichotomy n m) as [Hlt|[|Hgt]]; [|done|].
  - destruct (Hall n) as [x Hx]; [lia|]. by rw Hnone in Hx.
  - assert (m ∈ (symbols_upto src 0 n).*1) as Hin%Hsub%elem_of_seqZ; [|lia].
    unfold symbols_upto. rw -list_fmap_compose list_fmap_id. apply elem_of_seqZ. lia.
Qed.
