(* ===== verification/Reports.v ===== *)
(** * What a decoder reports

    The feedback a decoder asks to send acknowledges symbols it knows, and it
    gives nothing up as long as it knows every symbol below the window the
    encoder announces.  These are the two facts the control loop between sender
    and receiver rests on. *)

From S2P Require Import Prelude Error Config Gf CoefGen Vandermonde Simd IdStorage EncVec Common Packets F64 Feedback Packet Policy Window LinComb BTree Buffer Matrix Dense Elim Decoder Recovery Delivery.
From stdpp Require Import sorting.
#[global] Open Scope Z_scope.

(** ** The end of a handler *)
Section reports.
Context (disp : Dispatch) {P : Type} `{FeedbackPolicy P}.
Context (f : Field) (sz : nat) (src : Z → bytes) (U : list Z).
Hypothesis Hsrc : ∀ id, symbol sz (src id).
Hypothesis HU : NoDup U.
Hypothesis HUr : Forall id_range U.
Implicit Types d : Decoder P.
Local Abbreviation next d := (sb_next_delivery_id (de_buffer d)).

Definition buffer_known d : Prop := ∀ id, is_Some (sb_symbols (de_buffer d) !! id) → is_known d id.

(** The packet acknowledges what is below the delivery pointer, and buffered. *)
Record ack_report d (pkt : FeedbackPacket) : Prop := {
  ar_tsi : fb_tsi pkt = None;
  ar_missing : is_u32 (fb_nb_missing_src pkt);
  ar_unused : is_u32 (fb_nb_not_used_coded pkt);
  ar_first : fb_first_src_id pkt = next d;
  ar_sack : build_sack (next d) (take 256 (ids_from (de_buffer d) (next d))) = Ok (fb_sack pkt);
}.

Record reports d (evs : list DecoderEvent) : Prop := {
  rp_buffer : buffer_known d;
  rp_ready : ∀ id data, SourceReady id data ∈ evs → is_known d id;
  rp_gap : no_gap evs;
  rp_feedback : ∀ raw, SendFeedback raw ∈ evs → ∃ pkt, raw = fb_serialise pkt ∧ ack_report d pkt;
}.

Lemma absorb_all_known d rec : buffer_known d → buffer_known (absorb_all d rec).
Proof.
  revert d. induction rec as [|[id data] rec IH]; intros d Hd; [done|]. apply (IH (absorb_recovered d id data)).
  intros k. unfold is_known. cbn. rw or_insert_lookup. unfold buffer_insert.
  destruct (de_known d !! k) eqn:E; [intros _; by eexists|].
  destruct (next d <=? id); cbn; rw ?or_insert_lookup;
    (destruct (sb_symbols (de_buffer d) !! k) eqn:Eb; [destruct (Hd k) as [? Hk]; [by eexists|by rw E in Hk]|]);
    [|by intros []]. case_decide; [intros _; by eexists|done].
Qed.

Lemma count_missing_u32 d : is_u32 (count_missing d).
Proof.
  unfold count_missing. case_match; [word_bound|]. pose proof (u32_is (default (next d) (highest_id (de_buffer d)) - next d + 1)).
  pose proof (u32_is (Z.of_nat (length (ids_from (de_buffer d) (next d))))). unfold is_u32 in *. lia.
Qed.

Lemma feedback_reports d d' evs raw : maybe_send_feedback d = Ok (d', evs) → SendFeedback raw ∈ evs →
  ∃ pkt, raw = fb_serialise pkt ∧ ack_report d pkt.
Proof.
  unfold maybe_send_feedback. intros (st & _ & Hf)%bind_Ok_inv Hin.
  destruct (should_send_feedback _ _) as [policy []]; cbn [negb] in Hf.
  2: { injection Hf as <- <-. by apply elem_of_nil in Hin. }
  apply bind_Ok_inv in Hf as (x & _ & (pkt & Hp & [= <- <-])%bind_Ok_inv).
  apply list_elem_of_singleton in Hin as [= ->]. exists pkt. split; [done|].
  unfold build in Hp. apply bind_Ok_inv in Hp as (sack & Hs & (plr & _ & [= <-])%bind_Ok_inv).
  constructor; try done; [apply count_missing_u32|apply u32_is].
Qed.

Lemma finish_reports d rec d' evs : delivery_ok src U d →
  Forall (λ t, t.2 = src t.1 ∧ t.1 ∈ U) rec → finish d rec = Ok (d', evs) → 0 ≤ next d →
  buffer_known d →
  (∀ x, 0 ≤ x < de_encoder_win_min d → is_known (absorb_all d rec) x) → reports d' evs.
Proof.
  intros Hd Hrec Hfin Hn Hbk Hwin. destruct (absorb_all_delivery src U HUr d rec Hd Hrec) as (Hd1 & Hn1 & _).
  destruct (absorb_all_fixed d rec) as [_ Hw1]. pose proof (absorb_all_known d rec Hbk) as Hbk1.
  unfold finish in Hfin. set (d1 := absorb_all d rec) in *. clearbody d1. unfold drain_to_events, drain_deliverable in Hfin.
  destruct (drain_loop_spec (S (size (sb_symbols (de_buffer d1)))) (de_buffer d1) [] (dl_buffer _ _ _ Hd1))
    as (n & b & Hl & Hok & Hnb & Hnone & Hall & Hrest); [lia|]. rw Hl app_nil_l in Hfin.
  apply failing_at_inv in Hfin as ([d3 fb] & Hf & Hfin). pose proof (λ raw, feedback_reports _ _ _ raw Hf) as Hrep.
  apply feedback_only in Hf as ([policy ->] & Hnone' & Hfb).
  assert (∀ id, is_Some (sb_symbols b !! id) → is_known d1 id) as Hbb.
  { intros id Hid. apply Hbk1. rw -Hrest //. by apply (bo_ids _ Hok). }
  assert (check_gap (set_policy (set_symbols d1 (de_known d1) b) policy)
    = (set_policy (set_symbols d1 (de_known d1) b) policy, [])) as Hg.
  { unfold check_gap. cbn [set_policy set_symbols de_buffer de_encoder_win_min].
    destruct (Z.ltb_spec (sb_next_delivery_id b) (de_encoder_win_min d1)) as [Hlt|]; [exfalso|done].
    destruct (dl_kept _ _ _ Hd1 (sb_next_delivery_id b)) as [|Hs]; [apply Hwin; lia|lia|].
    rw -Hrest // Hnone in Hs. by destruct Hs. }
  rw Hg in Hfin. injection Hfin as <- <-. constructor.
  - exact Hbb.
  - intros id data Hin. rw app_nil_r in Hin. apply elem_of_app in Hin as [Hin|Hin].
    + apply list_elem_of_fmap in Hin as ([k x] & [= <- <-] & (j & [= -> ->] & Hj%elem_of_seqZ)%list_elem_of_fmap).
      apply Hbk1, Hall. lia.
    + assert ((id, data) ∈ delivered fb) as Hdel; [|rw Hnone' in Hdel; by apply elem_of_nil in Hdel].
      apply list_elem_of_omap. by exists (SourceReady id data).
  - rw app_nil_r. apply Forall_app_2; [|done]. apply Forall_fmap, Forall_true. by intros [] [].
  - intros raw Hin. rw app_nil_r in Hin. apply elem_of_app in Hin as [Hin|Hin].
    + by apply list_elem_of_fmap in Hin as ([] & ? & _).
    + destruct (Hrep raw Hin) as (pkt & -> & Har). exists pkt. split; [done|]. by destruct Har.
Qed.

(** ** The handlers *)
Lemma source_reports d pkt d' evs : decoder_ok f sz src U d →
  let id := Source.source_symbol_id pkt in
  Source.payload pkt = src id → id ∈ U → zero_at (dm_rows (de_matrix d)) id ∨ is_known d id →
  handle_source disp d pkt = Ok (d', evs) → 0 ≤ next d → buffer_known d →
  (∀ x, 0 ≤ x < de_encoder_win_min d → is_known d x) → reports d' evs.
Proof.
  intros Hd id Hpay Hid Hor Hstep Hn Hbk Hwin. pose proof (decoder_delivery f sz src U d Hd) as Hdel.
  assert (zero_at (dm_rows (de_matrix d)) id) as Hz by (destruct Hor; [done|by apply (dk_zero _ _ _ _ _ Hd)]).
  unfold handle_source in Hstep. fold id in Hstep. rw Hpay in Hstep. case_match; [done|].
  set (d0 := set_reception d _ _ _) in *.
  assert (delivery_ok src U d0) as Hdel0 by (destruct Hdel; by constructor).
  destruct (add_known_source_ok disp f sz src U Hsrc HU HUr (de_matrix d) id (or_insert (de_known d) id (src id)))
    as (rows' & r & Ha & _ & _ & _ & _ & _ & Hr); [apply Hd..|by split| |].
  { eapply zero_not_key; [apply Hd|done]. }
  change (de_matrix (absorb_recovered d0 id (src id))) with (de_matrix d) in Hstep.
  change (de_known (absorb_recovered d0 id (src id))) with (or_insert (de_known d) id (src id)) in Hstep.
  rw Ha in Hstep. cbn [failing_at] in Hstep. rw bind_Ok in Hstep.
  assert (Forall (λ t, t.2 = src t.1 ∧ t.1 ∈ U) r) as Hr'.
  { eapply Forall_impl; [exact Hr|]. by intros t [[? ?] _]. }
  pose proof (absorb_delivery src U HUr d0 id Hdel0 Hid) as Hdel1.
  refine (finish_reports _ r d' evs _ Hr' Hstep _ _ _).
  - destruct Hdel1; by constructor.
  - cbn. unfold buffer_insert. by case_match.
  - by apply (absorb_all_known d0 [(id, src id)]).
  - intros x Hx. set (d1 := set_matrix _ _).
    assert (delivery_ok src U d1) as Hdel2 by (destruct Hdel1; by constructor).
    destruct (absorb_all_delivery src U HUr d1 r Hdel2 Hr') as (_ & _ & _ & _ & Hk & _).
    apply Hk. left. destruct (Hwin x) as [y Hy]; [done|]. cbn. rw or_insert_lookup Hy. by eexists.
Qed.

Lemma coded_reports d pkt d' evs : decoder_ok f sz src U d →
  let ev := Coded.ev pkt in
  honest_coded f sz src ev (Coded.payload pkt) → ev_usable f U ev →
  handle_coded disp d pkt = Ok (d', evs) → 0 ≤ next d → buffer_known d →
  (∀ x, 0 ≤ x < window_min (de_encoder_win_min d) (ev_source_ids ev) → is_known d x) → reports d' evs.
Proof.
  intros Hd ev Hh He Hstep Hn Hbk Hwin. pose proof (decoder_delivery f sz src U d Hd) as Hdel.
  unfold handle_coded in Hstep. case_match; [done|]. set (d0 := set_reception d _ _ _) in *.
  assert (delivery_ok src U d0) as Hdel0.
  { destruct Hdel. constructor; cbn; try done. apply (window_min_range U HUr); [done|apply He]. }
  destruct (add_coded_ok disp f sz src U Hsrc HU HUr (de_matrix d) ev (Coded.payload pkt) (de_known d))
    as (rows' & r & Ha & _ & _ & Hr & _); try done; try apply Hd.
  { intros k data Hk. destruct (dk_known _ _ _ _ _ Hd k data Hk). split; [done|]. by eapply U_u32. }
  change (de_matrix d0) with (de_matrix d) in Hstep. change (de_known d0) with (de_known d) in Hstep.
  fold ev in Hstep. rw Ha in Hstep. cbn [failing_at] in Hstep. rw bind_Ok in Hstep.
  assert (Forall (λ t, t.2 = src t.1 ∧ t.1 ∈ U) r) as Hr'.
  { eapply Forall_impl; [exact Hr|]. by intros t [[? ?] _]. }
  refine (finish_reports _ r d' evs _ Hr' Hstep _ _ _); [destruct Hdel0; by constructor|done|done|].
  intros x Hx. set (d1 := set_matrix _ _).
  assert (delivery_ok src U d1) as Hdel2 by (destruct Hdel0; by constructor).
  destruct (absorb_all_delivery src U HUr d1 r Hdel2 Hr') as (_ & _ & _ & _ & Hk & _).
  apply Hk. left. by apply Hwin.
Qed.
End reports.

(** ** What the encoder reads in a report *)
Lemma take_below k (l : list Z) x y : StronglySorted Z.lt l → x ∈ take k l → y ∈ l → y < x → y ∈ take k l.
Proof.
  intros Hs Hx Hy Hlt. rw -(take_drop k l) in Hs Hy. apply elem_of_app in Hy as [|Hy]; [done|].
  apply StronglySorted_app in Hs as (Hs & _ & _). specialize (Hs x y Hx Hy). lia.
Qed.

Lemma elem_of_ids_from b from k : k ∈ ids_from b from ↔ from ≤ k ∧ is_Some (sb_symbols b !! k).
Proof. unfold ids_from, bt_keys_from. by rw list_elem_of_filter elem_of_bt_keys. Qed.

Section read.
Context {P : Type} `{FeedbackPolicy P} `{HeaderCastLaw}.
Implicit Types d : Decoder P.

(** The unknown symbols below [m] are few, so the acknowledged IDs are close. *)
Lemma acked_span d unknown id :
  (∀ x, is_known d x → x < next_delivery_id d ∨ is_Some (sb_symbols (de_buffer d) !! x)) →
  (∀ x, next_delivery_id d ≤ x < id → ¬ is_known d x → x ∈ unknown) → (length unknown ≤ 255)%nat →
  id ∈ take 256 (ids_from (de_buffer d) (next_delivery_id d)) → id < next_delivery_id d + 512.
Proof.
  intros Hkept Hunk Hlen Hid. set (l := ids_from _ _) in *.
  assert (StronglySorted Z.lt l) as Hs.
  { apply StronglySorted_sublist with (bt_keys (sb_symbols (de_buffer d))); [|apply bt_keys_sorted].
    apply sublist_filter. }
  assert (seqZ (next_delivery_id d) (id - next_delivery_id d) ⊆ take 256 l ++ unknown) as Hsub.
  { intros x Hx%elem_of_seqZ. apply elem_of_app. destruct (decide (is_known d x)) as [Hk|Hk].
    - left. apply take_below with id; [done|done| |lia]. apply elem_of_ids_from.
      destruct (Hkept x Hk); [lia|]. by split; [lia|].
    - right. apply Hunk; [lia|done]. }
  apply NoDup_submseteq in Hsub; [|apply NoDup_seqZ]. apply submseteq_length in Hsub.
  rw length_seqZ length_app length_take in Hsub. lia.
Qed.

Lemma report_read d pkt m unknown : ack_report d pkt →
  buffer_known d → (∀ x, 0 ≤ x < next_delivery_id d → is_known d x) →
  (∀ x, is_known d x → x < next_delivery_id d ∨ is_Some (sb_symbols (de_buffer d) !! x)) →
  (∀ x, is_Some (sb_symbols (de_buffer d) !! x) → x < m) → 0 ≤ next_delivery_id d ≤ m → m ≤ 65536 →
  (∀ x, 0 ≤ x < m → ¬ is_known d x → x ∈ unknown) → (length unknown ≤ 255)%nat →
  fb_parse (fb_serialise pkt) = Ok pkt ∧ is_u32 (fb_first_src_id pkt) ∧
  Forall (λ id, 0 ≤ id < 4294967295) (acked_ids pkt) ∧
  ∀ x, 0 ≤ x → x < fb_first_src_id pkt ∨ x ∈ acked_ids pkt → is_known d x.
Proof.
  intros [Ht Hm1 Hu1 Hfirst Hsack] Hbk Hbelow Hkept Hbm Hn Hm Hunk Hlen.
  fold (next_delivery_id d) in Hfirst, Hsack. set (acked := take 256 _) in *.
  assert (∀ id, id ∈ acked → next_delivery_id d ≤ id < m ∧ is_known d id) as Hack.
  { intros id Hid. assert (id ∈ ids_from (de_buffer d) (next_delivery_id d)) as [Hge Hb]%elem_of_ids_from
      by (eapply elem_of_sublist; [exact Hid|apply sublist_take]). split; [split; [done|by apply Hbm]|by apply Hbk]. }
  destruct (build_sack_spec (next_delivery_id d) acked) as (sack & Hs & Htest & Hl).
  rw Hs in Hsack. injection Hsack as Hsack.
  assert (8 * Z.of_nat (length sack) ≤ 519) as Hlen8.
  { apply (Hl 512); [lia|]. intros id Hid. apply (acked_span d unknown); [done| |done|done].
    intros x Hx. apply Hack in Hid. apply Hunk. lia. }
  assert (is_u32 (fb_first_src_id pkt)) as Hf32 by (rw Hfirst; word_bound).
  assert (∀ id, id ∈ acked_ids pkt ↔ id ∈ acked) as Hids.
  { intros id. rw elem_of_acked_ids //; rw -Hsack ?Hfirst; [|lia]. split.
    - intros [Hle Hb]. rw Htest in Hb; [|lia]. apply bool_decide_eq_true in Hb.
      by replace (next_delivery_id d + (id - next_delivery_id d)) with id in Hb by lia.
    - intros Hid. pose proof (Hack id Hid) as [? _]. split; [lia|]. rw Htest; [|lia].
      apply bool_decide_true. by replace (next_delivery_id d + (id - next_delivery_id d)) with id by lia. }
  split_and!.
  - apply fb_parse_serialise. constructor; [by rw Ht|done..|]. rw -Hsack. lia.
  - done.
  - apply Forall_forall. intros id Hid%Hids%Hack. lia.
  - intros x Hx [Hlt|Hin]; [apply Hbelow; lia|]. by apply Hids, Hack in Hin as [_ ?].
Qed.
End read.
