(* ===== verification/Consumer.v ===== *)
(** * What drives a decoder

    The interface between the packets of a session and a program that feeds
    them to a decoder and keeps what it delivers: end-to-end theorems are proved
    against [ConsumerLaws], and each program discharges it. *)

From S2P Require Import Prelude Error Simd Common Packets F64 Feedback Packet Policy Decoder.
#[global] Open Scope Z_scope.

Class Consumer (P R E : Type) := {
  cs_decoder : R → Decoder P;
  (** One datagram. *)
  cs_feed : R → bytes → outcome E R;
  (** The state holds exactly these deliveries, in this order. *)
  cs_got : R → list (Z * bytes) → Prop;
}.

Class ConsumerLaws (disp : Dispatch) (P R E : Type) `{FeedbackPolicy P} `{HeaderCast}
    `{!Consumer P R E} : Prop := {
  cs_source s raw p d new l : cs_got s l → Source.parse raw = Ok p →
    handle_source disp (cs_decoder s) p = Ok (d, new) →
    ∃ s', cs_feed s raw = Ok s' ∧ cs_decoder s' = d ∧ cs_got s' (l ++ delivered new);
  cs_coded s raw p d new l : cs_got s l → Coded.parse raw = Ok p →
    handle_coded disp (cs_decoder s) p = Ok (d, new) →
    ∃ s', cs_feed s raw = Ok s' ∧ cs_decoder s' = d ∧ cs_got s' (l ++ delivered new);
}.

Definition feed_all {P R E} `{!Consumer P R E} (s : R) (raws : list bytes) : outcome E R :=
  mfor cs_feed s raws.
