(* ===== verification/Transport.v ===== *)
(** * transport/mod.rs and receiver.rs: the receiver over a datagram socket

    The socket, tokio and its wakers are not modelled: what a receive finds is an
    argument, and feedback is sent on a best effort, so its fate is not one. *)

From S2P Require Import Prelude Error Config Simd Common Packets F64 Feedback Packet Policy Window Encoder Decoder Consumer.
From stdpp Require Import sorting.
#[global] Open Scope Z_scope.

(** What a call of the transport fails with. *)
Inductive TransportError : Type := TransportIo | TransportCodec (e : DelpError).

(** ** receiver.rs *)
Section receiver.
Context (disp : Dispatch) {P : Type} `{FeedbackPolicy P} `{HeaderCast}.

Record FecReceiver := { fr_decoder : Decoder P; fr_ready : list (Z * bytes) }.

Definition receiver_new (d : Decoder P) : FecReceiver := {| fr_decoder := d; fr_ready := [] |}.

(** The two nested matches on the header and the packet type: [None] when the
    datagram is dropped. *)
Definition datagram_events (d : Decoder P) (raw : bytes)
  : outcome (Decoder P * DelpError) (option (Decoder P * list DecoderEvent)) :=
  match header_parse raw with
  | Panic => Panic
  | Err _ => Ok None
  | Ok hdr =>
      match packet_type hdr with
      | Panic => Panic
      | Err _ => Ok None
      | Ok PtSource =>
          match Source.parse raw with
          | Ok sp => r ← handle_source disp d sp; Ok (Some r)
          | Err _ => Ok None
          | Panic => Panic
          end
      | Ok PtCoded =>
          match Coded.parse raw with
          | Ok cp => r ← handle_coded disp d cp; Ok (Some r)
          | Err _ => Ok None
          | Panic => Panic
          end
      | Ok PtFeedback => Ok None
      end
  end.

(** The loop over the events: symbols are queued, feedback is sent, gaps are
    ignored. *)
Definition take_event (st : list (Z * bytes) * list bytes * bool) (ev : DecoderEvent)
  : list (Z * bytes) * list bytes * bool :=
  let '(ready, sent, became_ready) := st in
  match ev with
  | SourceReady id data => (ready ++ [(id, data)], sent, true)
  | SendFeedback raw_fb => (ready, sent ++ [raw_fb], became_ready)
  | UnrecoverableGap _ _ => st
  end.
Definition take_events (ready : list (Z * bytes)) (evs : list DecoderEvent) :=
  fold_left take_event evs (ready, [], false).

Local Abbreviation receive_outcome := (outcome (FecReceiver * DelpError)).

(** An error return keeps the queue as it was. *)
Definition with_queue {A} (ready : list (Z * bytes)) (m : outcome (Decoder P * DelpError) A)
  : receive_outcome A :=
  match m with
  | Ok a => Ok a
  | Err (d, e) => Err ({| fr_decoder := d; fr_ready := ready |}, e)
  | Panic => Panic
  end.

(** [process_one] on the datagram it received: the new state, whether a symbol
    became ready, and the feedback sent. *)
Definition process_one (r : FecReceiver) (raw : bytes)
  : receive_outcome (FecReceiver * bool * list bytes) :=
  o ← with_queue (fr_ready r) (datagram_events (fr_decoder r) raw);
  match o with
  | None => Ok (r, false, [])
  | Some (d, evs) =>
      let '(ready, sent, became_ready) := take_events (fr_ready r) evs in
      Ok ({| fr_decoder := d; fr_ready := ready |}, became_ready, sent)
  end.

Definition pop_ready (r : FecReceiver) : FecReceiver * option (Z * bytes) :=
  match fr_ready r with
  | sym :: ready => ({| fr_decoder := fr_decoder r; fr_ready := ready |}, Some sym)
  | [] => (r, None)
  end.
Definition try_recv_source := pop_ready.

(** What a receive found: an awaited one never would block. *)
Inductive received : Type := RecvWouldBlock | RecvIoError | RecvDatagram (raw : bytes).

(** [recv_source]: the feedback it sends, the arrivals it has not read, and how it
    ends; [None] is a call that still waits. *)
Fixpoint recv_source (r : FecReceiver) (incoming : list received)
  : list bytes * list received * outcome (FecReceiver * TransportError) (FecReceiver * option (Z * bytes)) :=
  match pop_ready r with
  | (r, Some sym) => ([], incoming, Ok (r, Some sym))
  | (r, None) =>
      match incoming with
      | [] => ([], [], Ok (r, None))
      | RecvWouldBlock :: incoming => recv_source r incoming
      | RecvIoError :: incoming => ([], incoming, Err (r, TransportIo))
      | RecvDatagram raw :: incoming =>
          match process_one r raw with
          | Ok (r, _, sent) =>
              let '(sent', unread, res) := recv_source r incoming in (sent ++ sent', unread, res)
          | Err (r, e) => ([], incoming, Err (r, TransportCodec e))
          | Panic => ([], incoming, Panic)
          end
      end
  end.

(** [dispatch_datagram], of the [Stream] implementation. *)
Definition dispatch_datagram (r : FecReceiver) (raw : bytes)
  : receive_outcome (FecReceiver * option (Z * bytes) * list bytes) :=
  o ← with_queue (fr_ready r) (datagram_events (fr_decoder r) raw);
  match o with
  | None => Ok (r, None, [])
  | Some (d, evs) =>
      let '(ready, sent, _) := take_events (fr_ready r) evs in
      let '(r, sym) := pop_ready {| fr_decoder := d; fr_ready := ready |} in
      Ok (r, sym, sent)
  end.

(** What [poll_next] answers. *)
Inductive polled : Type := Pending | ReadyIoError | ReadySymbol (sym : Z * bytes).

Definition poll_next (r : FecReceiver) (input : received)
  : receive_outcome (FecReceiver * polled * list bytes) :=
  match pop_ready r with
  | (r, Some sym) => Ok (r, ReadySymbol sym, [])
  | (r, None) =>
      match input with
      | RecvWouldBlock => Ok (r, Pending, [])
      | RecvIoError => Ok (r, ReadyIoError, [])
      | RecvDatagram raw =>
          '(r, sym, sent) ← dispatch_datagram r raw;
          match sym with
          | Some sym => Ok (r, ReadySymbol sym, sent)
          | None => Ok (r, Pending, sent)
          end
      end
  end.

Definition ready_count (r : FecReceiver) : nat := length (fr_ready r).
End receiver.
Arguments FecReceiver P : clear implicits.

(** ** The receiver *)

(** What is left of the dispatch when the datagram is parsed as wire/mod.rs
    parses it. *)
Definition handle_packet disp {P} `{FeedbackPolicy P} (d : Decoder P) (p : result DelpPacket)
  : outcome (Decoder P * DelpError) (option (Decoder P * list DecoderEvent)) :=
  match p with
  | Ok (PSource sp) => r ← handle_source disp d sp; Ok (Some r)
  | Ok (PCoded cp) => r ← handle_coded disp d cp; Ok (Some r)
  | Ok (PFeedback _) | Err _ => Ok None
  | Panic => Panic
  end.

Lemma datagram_events_spec disp {P} `{FeedbackPolicy P} `{HeaderCast} (d : Decoder P) raw :
  datagram_events disp d raw = handle_packet disp d (packet_parse raw).
Proof.
  unfold datagram_events. destruct (header_parse raw) as [h|e|] eqn:Hh.
  - destruct (packet_type h) as [ty|e|] eqn:Ht.
    + rw (packet_parse_dispatch raw h ty) //. destruct ty.
      * by destruct (Source.parse raw).
      * by destruct (Coded.parse raw).
      * pose proof (fb_parse_no_panic raw). by destruct (fb_parse raw).
    + unfold packet_parse. case_match; [done|]. by rw Hh bind_Ok Ht.
    + by pose proof (packet_type_no_panic h).
  - unfold packet_parse. case_match; [done|]. by rw Hh.
  - by pose proof (header_parse_no_panic raw).
Qed.

(** C30: the receiver's hand-written dispatch is the parser of wire/mod.rs: a
    datagram it accepts goes to the handler of its type, feedback and anything
    malformed leaves the receiver unchanged, and it unwinds exactly where the
    packet parser or the handler does. *)
Theorem receiver_dispatch_equiv disp {P} `{FeedbackPolicy P} `{HeaderCast} (r : FecReceiver P) raw :
  datagram_events disp (fr_decoder r) raw = handle_packet disp (fr_decoder r) (packet_parse raw) ∧
  (∀ e, packet_parse raw = Err e →
     process_one disp r raw = Ok (r, false, []) ∧ dispatch_datagram disp r raw = Ok (r, None, [])) ∧
  (∀ fp, packet_parse raw = Ok (PFeedback fp) →
     process_one disp r raw = Ok (r, false, []) ∧ dispatch_datagram disp r raw = Ok (r, None, [])).
Proof.
  split; [apply datagram_events_spec|].
  unfold process_one, dispatch_datagram. rw datagram_events_spec.
  by split; intros ? ->.
Qed.

Lemma receiver_dispatch_equiv_witness :
  let r := receiver_new demo_decoder in
  @process_one Ssse3 ImmediateFeedbackPolicy _ ReprC.cast r [16; 0; 9] = Ok (r, false, []).
Proof.
  intros r. apply (proj1 (proj2 (@receiver_dispatch_equiv Ssse3 ImmediateFeedbackPolicy _ ReprC.cast r
    [16; 0; 9])) (BufferTooShort 4 3)).
  vm_compute. reflexivity.
Defined.

(** A datagram of four bytes that announces a CCI takes the receiver down. *)
Lemma receiver_panics_on_short_cci :
  @process_one Ssse3 ImmediateFeedbackPolicy _ ReprC.cast (receiver_new demo_decoder) [28; 0; 1; 1]
  = Panic.
Proof. vm_compute. reflexivity. Qed.

(** *** The queue of symbols *)
Definition feedback_of (evs : list DecoderEvent) : list bytes :=
  omap (λ e, match e with SendFeedback raw => Some raw | _ => None end) evs.

Lemma take_events_spec ready evs :
  take_events ready evs
  = (ready ++ delivered evs, feedback_of evs, negb (length (delivered evs) =? 0)%nat).
Proof.
  unfold take_events.
  assert (∀ ready sent b, fold_left take_event evs (ready, sent, b)
    = (ready ++ delivered evs, sent ++ feedback_of evs, b || negb (length (delivered evs) =? 0)%nat)) as Hall.
  { induction evs as [|[id data|raw|a n] evs IH]; intros ready0 sent b; cbn [fold_left take_event].
    - by rw !app_nil_r orb_false_r.
    - rw IH -app_assoc orb_true_r. done.
    - rw IH -app_assoc. done.
    - apply IH. }
  by rw Hall.
Qed.

Lemma pop_ready_spec {P} `{FeedbackPolicy P} (r : FecReceiver P) r' sym : pop_ready r = (r', sym) →
  fr_decoder r' = fr_decoder r ∧ fr_ready r = option_list sym ++ fr_ready r'.
Proof. unfold pop_ready. destruct (fr_ready r) eqn:E; by intros [= <- <-]; rw ?E. Qed.

(** *** The receiver is its decoder behind a queue *)
Section queue.
Context (disp : Dispatch) {P : Type} `{FeedbackPolicy P} `{HeaderCast}.
Implicit Types (d : Decoder P) (r : FecReceiver P).

(** The decoder alone, fed with datagrams: what it drops and what it refuses
    gives no events; [None] when it unwinds. *)
Definition decode_datagram d raw : option (Decoder P * list DecoderEvent) :=
  match datagram_events disp d raw with
  | Ok (Some st) => Some st
  | Ok None => Some (d, [])
  | Err (d, _) => Some (d, [])
  | Panic => None
  end.
Fixpoint decode_all d (raws : list bytes) : option (Decoder P * list DecoderEvent) :=
  match raws with
  | [] => Some (d, [])
  | raw :: raws =>
      '(d, evs) ← decode_datagram d raw; '(d, evs') ← decode_all d raws; Some (d, evs ++ evs')
  end.

Definition datagrams (used : list received) : list bytes :=
  omap (λ i, match i with RecvDatagram raw => Some raw | _ => None end) used.

(** [r'] and [out] come of [r] by reading [raws] and sending [sent]. *)
Definition refines r (raws : list bytes) r' (out : list (Z * bytes)) (sent : list bytes) : Prop :=
  ∃ evs, decode_all (fr_decoder r) raws = Some (fr_decoder r', evs) ∧
    fr_ready r ++ delivered evs = out ++ fr_ready r' ∧ sent = feedback_of evs.

Lemma decode_all_app d raws1 raws2 :
  decode_all d (raws1 ++ raws2)
  = '(d1, evs1) ← decode_all d raws1; '(d2, evs2) ← decode_all d1 raws2; Some (d2, evs1 ++ evs2).
Proof.
  revert d. induction raws1 as [|raw raws1 IH]; intros d; cbn.
  - by destruct (decode_all d raws2) as [[? ?]|].
  - destruct (decode_datagram d raw) as [[d1 evs1]|]; [|done]. cbn. rw IH.
    destruct (decode_all d1 raws1) as [[d2 evs2]|]; [|done]. cbn.
    destruct (decode_all d2 raws2) as [[d3 evs3]|]; [|done]. cbn. by rw app_assoc.
Qed.

Lemma feedback_of_app evs1 evs2 : feedback_of (evs1 ++ evs2) = feedback_of evs1 ++ feedback_of evs2.
Proof. apply omap_app. Qed.

Lemma refines_trans r raws r1 out sent raws' r2 out' sent' :
  refines r raws r1 out sent → refines r1 raws' r2 out' sent' →
  refines r (raws ++ raws') r2 (out ++ out') (sent ++ sent').
Proof.
  intros (evs & Hd & Hq & ->) (evs' & Hd' & Hq' & ->). exists (evs ++ evs').
  rw decode_all_app Hd /= Hd' delivered_app feedback_of_app. split_and!; [done| |done].
  by rw app_assoc Hq -!app_assoc Hq'.
Qed.
Lemma refines_pop r r' sym : pop_ready r = (r', sym) → refines r [] r' (option_list sym) [].
Proof. intros [Hd Hq]%pop_ready_spec. exists []. cbn. by rw Hd app_nil_r Hq. Qed.

(** Reading one datagram, in both ways of the code. *)
Lemma refines_process r raw :
  match process_one disp r raw with
  | Ok (r', _, sent) => refines r [raw] r' [] sent
  | Err (r', _) => refines r [raw] r' [] []
  | Panic => True
  end.
Proof.
  unfold process_one. destruct (datagram_events disp (fr_decoder r) raw) as [[[d evs]|]|[d e]|] eqn:Hd; cbn; [..|done].
  - rw take_events_spec. exists evs. cbn. unfold decode_datagram. rw Hd. cbn. by rw app_nil_r.
  - exists []. cbn. unfold decode_datagram. rw Hd. cbn. by rw app_nil_r.
  - exists []. cbn. unfold decode_datagram. rw Hd. cbn. by rw app_nil_r.
Qed.
Lemma refines_dispatch r raw :
  match dispatch_datagram disp r raw with
  | Ok (r', sym, sent) => refines r [raw] r' (option_list sym) sent
  | Err (r', _) => refines r [raw] r' [] []
  | Panic => True
  end.
Proof.
  pose proof (refines_process r raw) as Hp. unfold process_one, dispatch_datagram in *.
  destruct (datagram_events disp (fr_decoder r) raw) as [[[d evs]|]|[d e]|]; cbn in *; [..|done]; [|done..].
  destruct (take_events _ _) as [[ready sent] b]. destruct (pop_ready _) as [r' sym] eqn:Hpop.
  cbn in Hp. apply refines_pop in Hpop. pose proof (refines_trans _ _ _ _ _ _ _ _ _ Hp Hpop) as Ht.
  by rw !app_nil_r in Ht.
Qed.

(** What a call leaves, failed or not, and what it hands out. *)
Definition received_by (res : outcome (FecReceiver P * TransportError) (FecReceiver P * option (Z * bytes)))
  : option (FecReceiver P * option (Z * bytes)) :=
  match res with Ok st => Some st | Err (r, _) => Some (r, None) | Panic => None end.
Definition polled_by (res : outcome (FecReceiver P * DelpError) (FecReceiver P * polled * list bytes))
  : option (FecReceiver P * option (Z * bytes) * list bytes) :=
  match res with
  | Ok (r, ReadySymbol sym, sent) => Some (r, Some sym, sent)
  | Ok (r, _, sent) => Some (r, None, sent)
  | Err (r, _) => Some (r, None, [])
  | Panic => None
  end.

Lemma recv_source_refines r incoming sent unread res : recv_source disp r incoming = (sent, unread, res) →
  ∃ used, incoming = used ++ unread ∧
    (∀ r', res = Ok (r', None) → unread = []) ∧
    ∀ r' sym, received_by res = Some (r', sym) → refines r (datagrams used) r' (option_list sym) sent.
Proof.
  revert r sent unread res. induction incoming as [|i incoming IH]; intros r sent unread res; cbn [recv_source];
    destruct (pop_ready r) as [r0 [s|]] eqn:Hpop.
  1,3: intros [= <- <- <-]; exists []; split_and!; [done|done|]; intros ? ? [= <- <-]; exact (refines_pop _ _ _ Hpop).
  - intros [= <- <- <-]. exists []. split_and!; [done..|]. intros ? ? [= <- <-]. exact (refines_pop _ _ _ Hpop).
  - apply refines_pop in Hpop. destruct i as [| |raw].
    + intros (used & -> & Hn & Hu)%IH. exists (RecvWouldBlock :: used). split_and!; [done..|].
      intros r' sym Hr. exact (refines_trans _ [] _ [] [] _ _ _ _ Hpop (Hu r' sym Hr)).
    + intros [= <- <- <-]. exists [RecvIoError]. split_and!; [done..|]. intros ? ? [= <- <-]. exact Hpop.
    + pose proof (refines_process r0 raw) as Hp.
      destruct (process_one disp r0 raw) as [[[r1 b] sent1]|[r1 e]|].
      * destruct (recv_source disp r1 incoming) as [[sent2 unread2] res2] eqn:E. intros [= <- <- <-].
        apply IH in E as (used & -> & Hn & Hu). exists (RecvDatagram raw :: used). split_and!; [done..|].
        intros r' sym Hr. pose proof (refines_trans _ [] _ [] [] _ _ _ _ Hpop Hp) as Hp'.
        exact (refines_trans _ [raw] _ [] _ _ _ _ _ Hp' (Hu r' sym Hr)).
      * intros [= <- <- <-]. exists [RecvDatagram raw]. split_and!; [done..|]. intros ? ? [= <- <-].
        exact (refines_trans _ [] _ [] [] _ _ _ _ Hpop Hp).
      * intros [= <- <- <-]. exists [RecvDatagram raw]. by split_and!.
Qed.

(** [poll_next] reads the socket only when no symbol is ready. *)
Definition read_by r (input : received) : list bytes :=
  if bool_decide (fr_ready r = []) then datagrams [input] else [].
Lemma poll_next_refines r input r' sym sent : polled_by (poll_next disp r input) = Some (r', sym, sent) →
  refines r (read_by r input) r' (option_list sym) sent.
Proof.
  unfold poll_next, read_by. destruct (pop_ready r) as [r0 [s|]] eqn:Hpop.
  - intros [= <- <- <-]. rw bool_decide_false; [exact (refines_pop _ _ _ Hpop)|].
    apply pop_ready_spec in Hpop as [_ Hq]. by rw Hq.
  - assert (fr_ready r = []) as Hr by (unfold pop_ready in Hpop; by destruct (fr_ready r)).
    rw bool_decide_true //. apply refines_pop in Hpop.
    destruct input as [| |raw]; [by intros [= <- <- <-]..|]. pose proof (refines_dispatch r0 raw) as Hd.
    destruct (dispatch_datagram disp r0 raw) as [[[r1 [s|]] sent1]|[r1 e]|]; [..|done]; cbn; intros [= <- <- <-];
      exact (refines_trans _ [] _ [] [] _ _ _ _ Hpop Hd).
Qed.

(** A receiver from its creation, with the datagrams it has read, the symbols it
    has handed out and the feedback it has sent: the application awaits
    [recv_source], polls the stream and looks without waiting as it likes, and
    goes on after an error. *)
Inductive receiver_run d0 : FecReceiver P → list bytes → list (Z * bytes) → list bytes → Prop :=
| rr_new : receiver_run d0 (receiver_new d0) [] [] []
| rr_recv r raws taken fb used unread sent res r' sym :
    receiver_run d0 r raws taken fb → recv_source disp r (used ++ unread) = (sent, unread, res) →
    received_by res = Some (r', sym) →
    receiver_run d0 r' (raws ++ datagrams used) (taken ++ option_list sym) (fb ++ sent)
| rr_poll r raws taken fb input r' sym sent :
    receiver_run d0 r raws taken fb → polled_by (poll_next disp r input) = Some (r', sym, sent) →
    receiver_run d0 r' (raws ++ read_by r input) (taken ++ option_list sym) (fb ++ sent)
| rr_try r raws taken fb r' sym :
    receiver_run d0 r raws taken fb → try_recv_source r = (r', sym) →
    receiver_run d0 r' raws (taken ++ option_list sym) fb.

(** C31: however the application mixes awaiting, polling the stream and
    non-blocking reads, and whatever the socket answers, the receiver is its
    decoder behind a queue: the decoder is as if it had been fed the datagrams
    that were read, what was handed out and what is queued are its deliveries, in
    order, none lost or duplicated, also by a call that fails, and the feedback
    on the wire is the feedback it asked to send. *)
Theorem receiver_queue_is_fifo d0 r raws taken fb : receiver_run d0 r raws taken fb →
  ∃ evs, decode_all d0 raws = Some (fr_decoder r, evs) ∧ taken ++ fr_ready r = delivered evs ∧ fb = feedback_of evs.
Proof.
  intros Hrun. assert (refines (receiver_new d0) raws r taken fb) as (evs & Hd & Hq & Hf); [|by exists evs].
  induction Hrun as [|r raws taken fb used unread sent res r' sym _ IH Hs Hr|r raws taken fb input r' sym sent _ IH Hp
    |r raws taken fb r' sym _ IH Hpop].
  - by exists [].
  - apply recv_source_refines in Hs as (used' & <-%app_inv_tail & _ & Hu).
    exact (refines_trans _ _ _ _ _ _ _ _ _ IH (Hu r' sym Hr)).
  - exact (refines_trans _ _ _ _ _ _ _ _ _ IH (poll_next_refines _ _ _ _ _ Hp)).
  - pose proof (refines_trans _ _ _ _ _ _ _ _ _ IH (refines_pop _ _ _ Hpop)) as Ht. by rw !app_nil_r in Ht.
Qed.
End queue.

(** One call of [recv_source] drops noise, reads a source packet and hands out its
    symbol. *)
Lemma receiver_queue_is_fifo_witness :
  let raw := ok_or [] (Source.serialise 0 (demo_symbol 0) [] None) in
  let used := [RecvDatagram [0; 1]; RecvWouldBlock; RecvDatagram raw] in
  let run := @recv_source Ssse3 ImmediateFeedbackPolicy _ ReprC.cast (receiver_new demo_decoder) (used ++ [RecvIoError]) in
  match run with
  | (sent, unread, Ok (r, sym)) => unread = [RecvIoError] ∧ sym = Some (0, demo_symbol 0) ∧ sent ≠ [] ∧
      ∃ evs, @decode_all Ssse3 _ _ ReprC.cast demo_decoder [[0; 1]; raw] = Some (fr_decoder r, evs) ∧
        [(0, demo_symbol 0)] ++ fr_ready r = delivered evs ∧ sent = feedback_of evs
  | _ => False
  end.
Proof.
  intros raw used run.
  assert (match run with
          | (sent, unread, Ok (_, sym)) =>
              bool_decide (sym = Some (0, demo_symbol 0)) && negb (bool_decide (sent = [])) &&
              match unread with [RecvIoError] => true | _ => false end
          | _ => false end = true) as Hrun by (vm_compute; reflexivity).
  destruct run as [[sent unread] [[r sym]| |]] eqn:E; [|done..].
  apply andb_true_iff in Hrun as [[Hs%bool_decide_eq_true Hf]%andb_true_iff Hu]. subst sym.
  assert (unread = [RecvIoError]) as -> by by repeat (case_match; try done).
  split_and!; [done..|intros ->; by rw bool_decide_true in Hf|].
  apply (@receiver_queue_is_fifo Ssse3 ImmediateFeedbackPolicy _ ReprC.cast demo_decoder r ([] ++ datagrams used)
    ([] ++ [(0, demo_symbol 0)]) ([] ++ sent)).
  by apply (rr_recv _ _ _ [] [] [] used [RecvIoError] sent (Ok (r, Some (0, demo_symbol 0))) r (Some (0, demo_symbol 0))
    (rr_new _ _)).
Defined.

(** ** The receiver as a consumer of packets

    The receiver's loop: one datagram at a time, deliveries queued. *)
Section consumer.
Context (disp : Dispatch) {P : Type} `{FeedbackPolicy P} `{HeaderCast}.

Definition receive (r : FecReceiver P) (raw : bytes)
  : outcome (FecReceiver P * DelpError) (FecReceiver P) :=
  '(r, _, _) ← process_one disp r raw; Ok r.
Definition receive_all (r : FecReceiver P) (raws : list bytes) := mfor receive r raws.

#[export] Instance receiver_consumer : Consumer P (FecReceiver P) (FecReceiver P * DelpError) :=
  {| cs_decoder := fr_decoder; cs_feed := receive; cs_got r l := fr_ready r = l |}.

#[export] Instance receiver_consumer_laws : ConsumerLaws disp P (FecReceiver P) (FecReceiver P * DelpError).
Proof.
  constructor; cbn; intros r raw p d new l <- Hp Hd.
  - destruct (source_parse_type _ _ Hp) as (h & Hh & Ht).
    exists {| fr_decoder := d; fr_ready := fr_ready r ++ delivered new |}. split; [|done].
    unfold receive, process_one.
    rw datagram_events_spec (packet_parse_dispatch raw h PtSource) // Hp /= Hd /=. by rw take_events_spec.
  - destruct (coded_parse_type _ _ Hp) as (h & Hh & Ht).
    exists {| fr_decoder := d; fr_ready := fr_ready r ++ delivered new |}. split; [|done].
    unfold receive, process_one.
    rw datagram_events_spec (packet_parse_dispatch raw h PtCoded) // Hp /= Hd /=. by rw take_events_spec.
Qed.
End consumer.
