(* ===== verification/Sender.v ===== *)
(** * transport/sender.rs: FecSender and SinkSender

    What a call puts on the wire is a list of datagrams with their destination;
    the outcome of every send and what every receive finds are arguments.  A call
    that fails returns the sender as it left it. *)

From S2P Require Import Prelude Error Config Simd Common Feedback Packets Policy Window LinComb Encoder Transport.
#[global] Open Scope Z_scope.

(** What an awaited send, and what a [try_send_to] answers. *)
Inductive awaited : Type := SentOk | SentError.
Inductive send_result : Type := SendOk | SendWouldBlock | SendFailed.

Section sender.
Context (disp : Dispatch) {W C F : Type}.
Context `{WindowPolicy W} `{CongestionControl C} `{FecRateController F} `{HeaderCast}.
(** Socket addresses, and the hash that makes a receiver ID of them. *)
Context {Addr : Type} (addr_to_receiver_id : Addr → Z).

(** What [try_recv_from] or [recv_from] finds. *)
Inductive incoming : Type :=
| InWouldBlock
| InError
| InDatagram (src : Addr) (raw : bytes).

(** The socket is not a field; the receive buffer is not either, a call reads
    only what it has just written to it. *)
Record FecSender := { fs_encoder : Encoder W C F; fs_remote : Addr; fs_receiver_id : Z }.

Definition sender_new (e : Encoder W C F) (remote : Addr) : FecSender :=
  {| fs_encoder := e; fs_remote := remote; fs_receiver_id := addr_to_receiver_id remote |}.
Definition set_encoder (s : FecSender) (e : Encoder W C F) : FecSender :=
  {| fs_encoder := e; fs_remote := fs_remote s; fs_receiver_id := fs_receiver_id s |}.

Definition outbox : Type := list (Addr * bytes).
Local Abbreviation sending := (outcome (FecSender * TransportError)).

(** [?] on a call of the codec. *)
Definition codec_error {A} (s : FecSender) (m : result A) : sending A :=
  match m with Ok a => Ok a | Err e => Err (s, TransportCodec e) | Panic => Panic end.

(** [for pkt in packets { send_to(..).await? }]; sends after the end of [io]
    succeed. *)
Fixpoint send_all (remote : Addr) (pkts : list bytes) (io : list awaited) : outbox * bool :=
  match pkts with
  | [] => ([], true)
  | pkt :: pkts =>
      match io with
      | SentError :: _ => ([], false)
      | _ => let '(sent, ok) := send_all remote pkts (tail io) in ((remote, pkt) :: sent, ok)
      end
  end.

Definition send_source (s : FecSender) (data : bytes) (io : list awaited) : outbox * sending FecSender :=
  match codec_error s (submit_source disp (fs_encoder s) data) with
  | Ok (e, packets) =>
      let s := set_encoder s e in
      let '(sent, ok) := send_all (fs_remote s) (raw_of <$> packets) io in
      (sent, if ok : bool then Ok s else Err (s, TransportIo))
  | Err e => ([], Err e)
  | Panic => ([], Panic)
  end.

Definition send_coded (s : FecSender) (io : list awaited) : outbox * sending (FecSender * bool) :=
  match codec_error s (generate_coded disp (fs_encoder s)) with
  | Ok (e, None) => ([], Ok (set_encoder s e, false))
  | Ok (e, Some pkt) =>
      let s := set_encoder s e in
      let '(sent, ok) := send_all (fs_remote s) [raw_of pkt] io in
      (sent, if ok : bool then Ok (s, true) else Err (s, TransportIo))
  | Err e => ([], Err e)
  | Panic => ([], Panic)
  end.

(** What both ways to receive do with a datagram; the number counts the feedback
    packets. *)
Definition feedback_datagram (st : Encoder W C F * nat) (dg : Addr * bytes)
  : result (Encoder W C F * nat) :=
  let '(e, count) := st in
  match fb_parse dg.2 with
  | Ok fp => e ← handle_feedback e (addr_to_receiver_id dg.1) fp; Ok (e, S count)
  | Err _ => Ok (e, count)
  | Panic => Panic
  end.

Definition absorb_feedback (e : Encoder W C F) (dg : Addr * bytes) : result (Encoder W C F) :=
  '(e, _) ← feedback_datagram (e, 0%nat) dg; Ok e.

(** The loop ends when the socket would block, at the latest after the
    datagrams that are there. *)
Fixpoint feedback_loop (s : FecSender) (count : nat) (input : list incoming) : sending (FecSender * nat) :=
  match input with
  | [] | InWouldBlock :: _ => Ok (s, count)
  | InError :: _ => Err (s, TransportIo)
  | InDatagram src raw :: input =>
      '(e, count) ← codec_error s (feedback_datagram (fs_encoder s, count) (src, raw));
      feedback_loop (set_encoder s e) count input
  end.
Definition recv_feedback (s : FecSender) (input : list incoming) : sending (FecSender * nat) :=
  feedback_loop s 0 input.

(** An awaited receive never would block: [None] is a call that still waits. *)
Definition wait_feedback (s : FecSender) (input : incoming) : sending (option FecSender) :=
  match input with
  | InWouldBlock => Ok None
  | InError => Err (s, TransportIo)
  | InDatagram src raw =>
      e ← codec_error s (absorb_feedback (fs_encoder s) (src, raw));
      Ok (Some (set_encoder s e))
  end.

(** The accessors. *)
Definition sender_encoder (s : FecSender) : Encoder W C F := fs_encoder s.
Definition sender_remote (s : FecSender) : Addr := fs_remote s.
Definition sender_receiver_id (s : FecSender) : Z := fs_receiver_id s.

(** ** SinkSender *)
Record SinkSender := { sk_inner : FecSender; sk_pending : list bytes }.
Definition sink_new (e : Encoder W C F) (remote : Addr) : SinkSender :=
  {| sk_inner := sender_new e remote; sk_pending := [] |}.
Definition into_inner (k : SinkSender) : FecSender := sk_inner k.

Definition MAX_PENDING : nat := 512.
(** [Poll::Ready], or [Poll::Pending]. *)
Definition poll_ready (k : SinkSender) : bool := negb (MAX_PENDING <=? length (sk_pending k))%nat.

Definition start_send (k : SinkSender) (data : bytes) : outcome (SinkSender * TransportError) SinkSender :=
  match codec_error (sk_inner k) (submit_source disp (fs_encoder (sk_inner k)) data) with
  | Ok (e, packets) =>
      Ok {| sk_inner := set_encoder (sk_inner k) e; sk_pending := sk_pending k ++ (raw_of <$> packets) |}
  | Err (s, e) => Err ({| sk_inner := s; sk_pending := sk_pending k |}, e)
  | Panic => Panic
  end.

Inductive flushed : Type := FlushReady | FlushPending | FlushIoError.

(** [poll_flush] with the outcome of each [try_send_to]; a socket that would
    block ends the list. *)
Fixpoint flush_loop (remote : Addr) (pending : list bytes) (io : list send_result)
  : list bytes * outbox * flushed :=
  match pending with
  | [] => ([], [], FlushReady)
  | pkt :: rest =>
      match io with
      | SendOk :: io =>
          let '(unsent, sent, st) := flush_loop remote rest io in (unsent, (remote, pkt) :: sent, st)
      | SendFailed :: _ => (pending, [], FlushIoError)
      | SendWouldBlock :: _ | [] => (pending, [], FlushPending)
      end
  end.
Definition poll_flush (k : SinkSender) (io : list send_result) : SinkSender * outbox * flushed :=
  let '(unsent, sent, st) := flush_loop (fs_remote (sk_inner k)) (sk_pending k) io in
  ({| sk_inner := sk_inner k; sk_pending := unsent |}, sent, st).
Definition poll_close := poll_flush.
End sender.
Arguments incoming : clear implicits.
Arguments FecSender : clear implicits.
Arguments SinkSender : clear implicits.
Arguments outbox : clear implicits.
Arguments sender_new {W C F Addr} addr_to_receiver_id e remote.
Arguments fs_encoder {W C F Addr} f.
Arguments fs_remote {W C F Addr} f.

(** ** Sending *)
Section sending.
Context (disp : Dispatch) {W C F : Type}.
Context `{WindowPolicyLaws W} `{CongestionLaws C} `{!FecRateController F} `{!FecLaws F} `{HeaderCastLaw}.
Context {Addr : Type} (src : Z → bytes).
Implicit Types s : FecSender W C F Addr.

(** A prefix of the packets goes out: those before the first send that fails. *)
Lemma send_all_spec (remote : Addr) pkts io sent ok : send_all remote pkts io = (sent, ok) →
  sent `prefix_of` ((remote,.) <$> pkts) ∧ (ok = true ↔ sent = (remote,.) <$> pkts).
Proof.
  revert io sent ok. induction pkts as [|pkt pkts IH]; intros io sent ok; cbn; [by intros [= <- <-]|].
  assert (∀ io, (let '(l, ok) := send_all remote pkts io in ((remote, pkt) :: l, ok)) = (sent, ok) →
    sent `prefix_of` (remote, pkt) :: ((remote,.) <$> pkts) ∧ (ok = true ↔ sent = (remote, pkt) :: ((remote,.) <$> pkts))) as Hgo.
  { intros io'. destruct (send_all remote pkts io') as [l ok'] eqn:E. intros [= <- <-].
    apply IH in E as [Hp Hok]. split; [by apply prefix_cons|]. rw Hok. split; [by intros ->|by intros [= ->]]. }
  destruct io as [|[] io]; [exact (Hgo [])|exact (Hgo io)|].
  intros [= <- <-]. split; [apply prefix_nil|by split].
Qed.

Lemma datagram_total (addr_to_receiver_id : Addr → Z) (e : Encoder W C F) out n dg : enc_session disp src e out →
  ∃ e' n', feedback_datagram addr_to_receiver_id (e, n) dg = Ok (e', n') ∧ enc_session disp src e' out ∧
    (n ≤ n' ≤ S n)%nat ∧ w_next_id (en_window e') = w_next_id (en_window e).
Proof.
  intros Hs. unfold feedback_datagram. pose proof (fb_parse_no_panic dg.2) as Hp.
  destruct (fb_parse dg.2) as [fp|err|]; [|exists e, n; split_and!; [done|done|lia..|done]|done].
  destruct (handle_feedback_ok src e (addr_to_receiver_id dg.1) fp (si_ok _ _ _ (enc_session_inv disp src e out Hs)))
    as (e' & Hf & _ & _ & Hn & _).
  exists e', (S n). rw Hf bind_Ok. split_and!; [done| |lia..|done]. by apply (session_feedback _ _ e out (addr_to_receiver_id dg.1) fp).
Qed.

(** A run of a sender: any calls, whatever the sockets answer; the sender goes on
    as a call left it, failed or not. *)
Definition left_by {A} (r : outcome (FecSender W C F Addr * TransportError) A) (get : A → FecSender W C F Addr)
  : option (FecSender W C F Addr) :=
  match r with Ok a => Some (get a) | Err (s, _) => Some s | Panic => None end.

Inductive sender_run (rid : Addr → Z) : FecSender W C F Addr → outbox Addr → Prop :=
| sr_new e remote : enc_session disp src e [] → sender_run rid (sender_new rid e remote) []
| sr_source s wire io sent r s' :
    sender_run rid s wire → w_next_id (en_window (fs_encoder s)) < 65536 →
    send_source disp s (src (w_next_id (en_window (fs_encoder s)))) io = (sent, r) → left_by r id = Some s' →
    sender_run rid s' (wire ++ sent)
| sr_coded s wire io sent r s' :
    sender_run rid s wire → send_coded disp s io = (sent, r) → left_by r fst = Some s' →
    sender_run rid s' (wire ++ sent)
| sr_feedback s wire input s' :
    sender_run rid s wire → left_by (recv_feedback rid s input) fst = Some s' → sender_run rid s' wire
| sr_wait s wire input s' :
    sender_run rid s wire → left_by (wait_feedback rid s input) (from_option id s) = Some s' → sender_run rid s' wire.

(** What the encoder behind a run has emitted, and that the wire holds a part of
    it, in order, addressed to the receiver. *)
Definition run_inv s (wire : outbox Addr) : Prop :=
  ∃ out, enc_session disp src (fs_encoder s) out ∧ wire `sublist_of` ((fs_remote s,.) ∘ raw_of <$> out).

Lemma run_inv_emit s wire e out new sent :
  enc_session disp src e (out ++ new) → wire `sublist_of` ((fs_remote s,.) ∘ raw_of <$> out) →
  sent `prefix_of` ((fs_remote s,.) <$> (raw_of <$> new)) → run_inv (set_encoder s e) (wire ++ sent).
Proof.
  intros He Hw Hp. exists (out ++ new). split; [done|]. cbn. rw fmap_app. apply sublist_app; [done|].
  destruct Hp as [rest Hp]. rw list_fmap_compose Hp. by apply sublist_inserts_r.
Qed.

(** The calls, one at a time: no panic, the documented errors only, and the
    invariant with whatever went out. *)
Lemma source_call s wire io : run_inv s wire → w_next_id (en_window (fs_encoder s)) < 65536 →
  let '(sent, r) := send_source disp s (src (w_next_id (en_window (fs_encoder s)))) io in
  match r with
  | Ok s' => run_inv s' (wire ++ sent) ∧ ∃ e new, s' = set_encoder s e ∧
      submit_source disp (fs_encoder s) (src (w_next_id (en_window (fs_encoder s)))) = Ok (e, new) ∧
      sent = (fs_remote s,.) <$> (raw_of <$> new)
  | Err (s', TransportIo) => run_inv s' (wire ++ sent) ∧
      w_next_id (en_window (fs_encoder s')) = w_next_id (en_window (fs_encoder s)) + 1
  | Err (s', TransportCodec e) => s' = s ∧ sent = [] ∧ window_is_full (en_window (fs_encoder s)) = true ∧
      e = WindowFull (ec_window_capacity (en_config (fs_encoder s)))
  | Panic => False
  end.
Proof.
  intros (out & Hs & Hw) Hn. unfold send_source.
  assert ((window_is_full (en_window (fs_encoder s)) = false ∨
      ec_backpressure (en_config (fs_encoder s)) = EvictOldest) ∨
    window_is_full (en_window (fs_encoder s)) = true ∧ ec_backpressure (en_config (fs_encoder s)) = Reject)
    as [Hroom|[Hfull Hrej]].
  { destruct (window_is_full _), (ec_backpressure _); tauto. }
  - destruct (submit_total disp src _ out Hs Hn Hroom) as (e' & pkt & new & Hsub & Hs' & _ & Hn' & _).
    rw Hsub. cbn [codec_error]. destruct (send_all _ _ _) as [sent ok] eqn:Hsend.
    apply send_all_spec in Hsend as [Hp Hok].
    assert (run_inv (set_encoder s e') (wire ++ sent)) as Hinv by by apply (run_inv_emit s wire e' out (OutSource pkt :: new)).
    destruct ok; [|by split]. split; [done|]. exists e', (OutSource pkt :: new). split_and!; [done..|]. by apply Hok.
  - pose proof (enc_session_inv disp src _ _ Hs) as Hi.
    assert (Z.of_nat (length (src (w_next_id (en_window (fs_encoder s))))) = ec_symbol_size (en_config (fs_encoder s)))
      as Hlen.
    { destruct (si_src _ _ _ Hi (w_next_id (en_window (fs_encoder s)))) as [Hl _]. rw Hl. unfold sym_size.
      pose proof (eok_config _ _ (si_ok _ _ _ Hi)) as Hc. unfold encoder_config_ok in Hc. lia. }
    unfold submit_source. by rw Hlen Z.eqb_refl /= Hfull Hrej.
Qed.

Lemma coded_call s wire io : run_inv s wire →
  let '(sent, r) := send_coded disp s io in
  match r with
  | Ok (s', b) => run_inv s' (wire ++ sent) ∧ length sent = (if b : bool then 1 else 0)%nat
  | Err (s', TransportIo) => run_inv s' (wire ++ sent)
  | Err (_, TransportCodec _) | Panic => False
  end.
Proof.
  intros (out & Hs & Hw). unfold send_coded.
  destruct (coded_total disp src _ out Hs) as (e' & o & -> & _ & _ & Ho). cbn [codec_error].
  destruct o as [pkt|].
  - destruct (send_all _ _ _) as [sent ok] eqn:Hsend. apply send_all_spec in Hsend as [Hp Hok].
    assert (run_inv (set_encoder s e') (wire ++ sent)) as Hinv by (apply (run_inv_emit s wire e' out [pkt]); [apply Ho|done|done]).
    destruct ok; [|done]. split; [done|]. by rw (proj1 Hok eq_refl).
  - split; [|done]. rw app_nil_r Ho. by exists out.
Qed.

Lemma recv_call rid s wire input n : run_inv s wire →
  match feedback_loop rid s n input with
  | Ok (s', m) => run_inv s' wire ∧ (n ≤ m ≤ n + length input)%nat
  | Err (s', TransportIo) => run_inv s' wire ∧ InError ∈ input
  | Err (_, TransportCodec _) | Panic => False
  end.
Proof.
  revert s n. induction input as [|[| |a raw] input IH]; intros s n Hr; cbn [feedback_loop length].
  - split; [done|lia].
  - split; [done|lia].
  - split; [done|by left].
  - destruct Hr as (out & Hs & Hw).
    destruct (datagram_total rid (fs_encoder s) out n (a, raw) Hs) as (e' & n' & -> & Hs' & Hn & _).
    cbn [codec_error mbind outcome_bind]. specialize (IH (set_encoder s e') n' ltac:(by exists out)).
    destruct (feedback_loop rid (set_encoder s e') n' input) as [[s' m]|[s' [|e]]|]; [|split; [apply IH|by right; apply IH]|done..].
    split; [apply IH|]. destruct IH as [_ IH]. lia.
Qed.

Lemma wait_call rid s wire input : run_inv s wire →
  match wait_feedback rid s input with
  | Ok (Some s') => run_inv s' wire
  | Ok None => input = InWouldBlock
  | Err (s', TransportIo) => s' = s ∧ input = InError
  | Err (_, TransportCodec _) | Panic => False
  end.
Proof.
  intros (out & Hs & Hw). destruct input as [| |a raw]; [done|done|]. cbn [wait_feedback].
  destruct (datagram_total rid (fs_encoder s) out 0 (a, raw) Hs) as (e' & n' & He & Hs' & _).
  unfold absorb_feedback. rw He. by exists out.
Qed.

Lemma sender_run_inv rid s wire : sender_run rid s wire → run_inv s wire.
Proof.
  induction 1 as [e remote He|s wire io sent r s' _ IH Hn Hc Hl|s wire io sent r s' _ IH Hc Hl
    |s wire input s' _ IH Hl|s wire input s' _ IH Hl].
  - exists []. by split.
  - pose proof (source_call s wire io IH Hn) as Hs. rw Hc in Hs.
    destruct r as [s1|[s1 [|e]]|]; [..|done]; injection Hl as <-; [apply Hs|apply Hs|].
    destruct Hs as (-> & -> & _). by rw app_nil_r.
  - pose proof (coded_call s wire io IH) as Hs. rw Hc in Hs.
    destruct r as [[s1 b]|[s1 [|e]]|]; [..|done]; injection Hl as <-; [apply Hs|apply Hs|done].
  - pose proof (recv_call rid s wire input 0 IH) as Hs. unfold recv_feedback in Hl.
    destruct (feedback_loop _ _ _ _) as [[s1 m]|[s1 [|e]]|]; [..|done]; injection Hl as <-; [apply Hs|apply Hs|done].
  - pose proof (wait_call rid s wire input IH) as Hs.
    destruct (wait_feedback _ _ _) as [[s1|]|[s1 [|e]]|]; [..|done]; injection Hl as <-; [done|done|by destruct Hs as [-> _]|done].
Qed.
End sending.

(** C32: a sender is robust: in any run, whatever arrives at its socket and
    whatever the socket does with what is sent, its encoder is in a session, the
    wire holds the packets of that session in order without those that failed,
    and no call panics; the errors are a full window, before which nothing is
    changed or sent, and the socket's own, after which the symbol of a
    [send_source] has been taken. *)
Theorem sender_never_panics disp {W C F} `{WindowPolicyLaws W} `{CongestionLaws C} `{!FecRateController F} `{!FecLaws F}
    `{HeaderCastLaw} {Addr} (rid : Addr → Z) (src : Z → bytes) (s : FecSender W C F Addr) wire :
  sender_run disp src rid s wire →
  let next := w_next_id (en_window (fs_encoder s)) in
  (∃ out, enc_session disp src (fs_encoder s) out ∧ wire `sublist_of` ((fs_remote s,.) ∘ raw_of <$> out)) ∧
  (∀ io, next < 65536 →
    match send_source disp s (src next) io with
    | (sent, Ok s') => ∃ e new, submit_source disp (fs_encoder s) (src next) = Ok (e, new) ∧
        s' = set_encoder s e ∧ sent = (fs_remote s,.) <$> (raw_of <$> new)
    | (_, Err (s', TransportIo)) => w_next_id (en_window (fs_encoder s')) = next + 1
    | (sent, Err (s', TransportCodec e)) => s' = s ∧ sent = [] ∧ window_is_full (en_window (fs_encoder s)) = true ∧
        e = WindowFull (ec_window_capacity (en_config (fs_encoder s)))
    | (_, Panic) => False
    end) ∧
  (∀ io, match (send_coded disp s io).2 with Err (_, TransportCodec _) | Panic => False | _ => True end) ∧
  (∀ input, match recv_feedback rid s input with
    | Ok (_, n) => (n ≤ length input)%nat
    | Err (_, TransportIo) => InError ∈ input
    | Err (_, TransportCodec _) | Panic => False
    end) ∧
  (∀ input, match wait_feedback rid s input with Err (_, TransportCodec _) | Panic => False | _ => True end).
Proof.
  intros Hrun next. pose proof (sender_run_inv disp src rid s wire Hrun) as Hr. split_and!; [exact Hr|..].
  - intros io Hn. pose proof (source_call disp src s wire io Hr Hn) as Hs. fold next in Hs.
    destruct (send_source disp s (src next) io) as [sent [s'|[s' [|e]]|]]; [|apply Hs|done|done].
    destruct Hs as [_ (e & new & ? & ? & ?)]. by exists e, new.
  - intros io. pose proof (coded_call disp src s wire io Hr) as Hs.
    by destruct (send_coded disp s io) as [sent [[s' b]|[s' [|e]]|]].
  - intros input. pose proof (recv_call disp src rid s wire input 0 Hr) as Hs. unfold recv_feedback.
    destruct (feedback_loop rid s 0 input) as [[s' n]|[s' [|e]]|]; [|apply Hs|done|done].
    destruct Hs as [_ Hn]. lia.
  - intros input. pose proof (wait_call disp src rid s wire input Hr) as Hs.
    by destruct (wait_feedback rid s input) as [[s'|]|[s' [|e]]|].
Qed.

Definition demo_sender : FecSender AnyAckPolicy NoCongestionControl ConstantFecRate Z :=
  sender_new (λ a, a) (encoder_new demo_config AnyAck NoCc demo_fec) 7.

(** The second datagram of the first call is refused by the socket. *)
Lemma sender_never_panics_witness :
  let r := send_source Ssse3 demo_sender (demo_src 0) [SentOk; SentError] in
  let s := default demo_sender (left_by r.2 id) in
  length r.1 = 1%nat ∧ w_next_id (en_window (fs_encoder s)) = 1 ∧
  match @recv_feedback _ _ _ _ _ _ ReprC.cast Z (λ a, a) s [InDatagram 7 [1; 2]; InDatagram 9 []; InWouldBlock] with
  | Ok (_, n) => (n ≤ 3)%nat
  | Err (_, TransportIo) => InError ∈ [InDatagram 7 [1; 2]; InDatagram 9 []; InWouldBlock]
  | Err (_, TransportCodec _) | Panic => False
  end.
Proof.
  intros r s. split; [vm_compute; reflexivity|]. split; [vm_compute; reflexivity|].
  refine (proj1 (proj2 (proj2 (proj2 (@sender_never_panics Ssse3 AnyAckPolicy NoCongestionControl ConstantFecRate
    _ _ _ _ _ _ ReprC.cast ReprC.cast_law Z (λ a, a) demo_src s ([] ++ r.1) _)))) [InDatagram 7 [1; 2]; InDatagram 9 []; InWouldBlock]).
  apply (sr_source _ _ _ demo_sender [] [SentOk; SentError] r.1 r.2).
  - apply sr_new, session_new; [exact demo_config_ok|reflexivity|change (1 ≠ 0); lia|by apply demo_src_symbol].
  - reflexivity.
  - apply surjective_pairing.
  - vm_compute. reflexivity.
Defined.

(** ** The sink *)
Section sink.
Context (disp : Dispatch) {W C F : Type}.
Context `{WindowPolicy W} `{CongestionControl C} `{FecRateController F}.
Context {Addr : Type} (rid : Addr → Z).
Implicit Types k : SinkSender W C F Addr.

(** A sink after any sequence of sends and flushes: what the encoder generated
    and what went on the wire. *)
Inductive sink_run : SinkSender W C F Addr → list bytes → outbox Addr → Prop :=
| sink_start e remote : sink_run (sink_new rid e remote) [] []
| sink_send k gen wire data e packets :
    sink_run k gen wire → submit_source disp (fs_encoder (sk_inner k)) data = Ok (e, packets) →
    sink_run {| sk_inner := set_encoder (sk_inner k) e; sk_pending := sk_pending k ++ (raw_of <$> packets) |}
      (gen ++ (raw_of <$> packets)) wire
| sink_flush k gen wire io k' sent st :
    sink_run k gen wire → poll_flush k io = (k', sent, st) → sink_run k' gen (wire ++ sent).

Lemma flush_loop_spec (remote : Addr) pending io unsent sent st :
  flush_loop remote pending io = (unsent, sent, st) →
  ((remote,.) <$> pending) = sent ++ ((remote,.) <$> unsent) ∧ (st = FlushReady ↔ unsent = []).
Proof.
  revert io unsent sent st. induction pending as [|pkt pending IH]; intros io unsent sent st; cbn.
  { by intros [= <- <- <-]. }
  destruct io as [|[] io]; [by intros [= <- <- <-]| |by intros [= <- <- <-]..].
  destruct (flush_loop remote pending io) as [[u s] st'] eqn:E. intros [= <- <- <-].
  apply IH in E as [-> ?]. done.
Qed.

Lemma poll_flush_spec k io k' sent st : poll_flush k io = (k', sent, st) →
  sk_inner k' = sk_inner k ∧
  ((fs_remote (sk_inner k),.) <$> sk_pending k) = sent ++ ((fs_remote (sk_inner k),.) <$> sk_pending k') ∧
  (st = FlushReady ↔ sk_pending k' = []).
Proof.
  unfold poll_flush. destruct (flush_loop _ _ _) as [[u s] st'] eqn:E. intros [= <- <- <-].
  split; [done|]. by apply flush_loop_spec in E.
Qed.

Lemma start_send_spec k data k' : start_send disp k data = Ok k' →
  ∃ e packets, submit_source disp (fs_encoder (sk_inner k)) data = Ok (e, packets) ∧
    k' = {| sk_inner := set_encoder (sk_inner k) e; sk_pending := sk_pending k ++ (raw_of <$> packets) |}.
Proof.
  unfold start_send. destruct (submit_source _ _ _) as [[e packets]|e|]; cbn [codec_error]; [|done..].
  intros [= <-]. by exists e, packets.
Qed.

(** The outcome of a [try_send_to] as that of an awaited send. *)
Definition awaited_of (r : send_result) : awaited := match r with SendOk => SentOk | _ => SentError end.

Lemma flush_as_sends (remote : Addr) pending io unsent sent st :
  flush_loop remote pending io = (unsent, sent, st) → st ≠ FlushPending →
  send_all remote pending (awaited_of <$> io) = (sent, match st with FlushReady => true | _ => false end).
Proof.
  revert io unsent sent st. induction pending as [|pkt pending IH]; intros io unsent sent st; cbn.
  { by intros [= <- <- <-]. }
  destruct io as [|[] io]; [by intros [= <- <- <-]| |by intros [= <- <- <-]..].
  destruct (flush_loop remote pending io) as [[u s] st'] eqn:E. intros [= <- <- <-] Hst.
  cbn. by rw (IH io u s st' E Hst).
Qed.
End sink.

(** The sink sends every generated packet exactly once and in order, whatever the
    socket accepts and when: the wire and the queue together are what the encoder
    generated, and a flush that reports ready left nothing. *)
Theorem sink_is_fifo disp {W C F} `{WindowPolicy W} `{CongestionControl C} `{FecRateController F}
    {Addr} (rid : Addr → Z) (k : SinkSender W C F Addr) gen wire :
  sink_run disp rid k gen wire →
  let to := (fs_remote (sk_inner k),.) in
  wire ++ (to <$> sk_pending k) = to <$> gen ∧
  ∀ io k' sent, poll_flush k io = (k', sent, FlushReady) → wire ++ sent = to <$> gen ∧ sk_pending k' = [].
Proof.
  intros Hr to. assert (wire ++ (to <$> sk_pending k) = to <$> gen) as Hall.
  { unfold to. clear to. induction Hr as [e remote|k gen wire data e packets _ IH Hs|k gen wire io k' sent st _ IH Hf]; [done| |].
    - cbn. by rw !fmap_app app_assoc IH.
    - apply poll_flush_spec in Hf as (Hi & Hp & _). rw Hi. by rw -app_assoc -Hp. }
  split; [done|]. intros io k' sent Hf. apply poll_flush_spec in Hf as (_ & Hp & Hst).
  pose proof (proj1 Hst eq_refl) as Hnil. split; [|done]. unfold to in *. by rw -Hall Hp Hnil app_nil_r.
Qed.

Definition demo_sink : SinkSender AnyAckPolicy NoCongestionControl ConstantFecRate Z :=
  sink_new (λ a, a) (encoder_new demo_config AnyAck NoCc demo_fec) 7.

Lemma sink_is_fifo_witness :
  let r := ok_or (fs_encoder (sk_inner demo_sink), []) (submit_source Ssse3 (fs_encoder (sk_inner demo_sink)) (demo_src 0)) in
  let k1 := {| sk_inner := set_encoder (sk_inner demo_sink) r.1; sk_pending := [] ++ (raw_of <$> r.2) |} in
  length (sk_pending k1) = 2%nat ∧
  ∃ k2 sent, poll_flush k1 [SendOk; SendWouldBlock] = (k2, sent, FlushPending) ∧
    ([] ++ sent) ++ ((7,.) <$> sk_pending k2) = (7,.) <$> ([] ++ (raw_of <$> r.2)).
Proof.
  intros r k1. split; [vm_compute; reflexivity|].
  exists (poll_flush k1 [SendOk; SendWouldBlock]).1.1, (poll_flush k1 [SendOk; SendWouldBlock]).1.2.
  split; [vm_compute; reflexivity|].
  refine (proj1 (sink_is_fifo Ssse3 (λ a, a) (poll_flush k1 [SendOk; SendWouldBlock]).1.1 _ _ _)).
  apply (sink_flush _ _ k1 _ _ [SendOk; SendWouldBlock] _ _ FlushPending); [|vm_compute; reflexivity].
  apply (sink_send _ _ demo_sink [] [] (demo_src 0) r.1 r.2); [constructor|].
  rw -surjective_pairing. apply ok_or_eq. vm_compute. reflexivity.
Defined.

(** C33: the two ways to send agree: through an empty sink, a [start_send] and a
    flush that does not have to wait put on the wire, in the same order and to the
    same address, what [send_source] would, and leave the same encoder, also when
    the socket fails; only then they differ, as the sink keeps the rest of the
    packets. *)
Theorem sink_agrees_with_sender disp {W C F} `{WindowPolicy W} `{CongestionControl C} `{FecRateController F}
    {Addr} (k : SinkSender W C F Addr) data :
  sk_pending k = [] →
  match start_send disp k data with
  | Ok k1 => ∀ io k2 sent st, poll_flush k1 io = (k2, sent, st) → st ≠ FlushPending →
      send_source disp (sk_inner k) data (awaited_of <$> io)
      = (sent, match st with FlushReady => Ok (sk_inner k2) | _ => Err (sk_inner k2, TransportIo) end)
  | Err (k1, e) => k1 = k ∧ ∀ io, send_source disp (sk_inner k) data io = ([], Err (sk_inner k, e))
  | Panic => ∀ io, send_source disp (sk_inner k) data io = ([], Panic)
  end.
Proof.
  intros Hk. unfold start_send, send_source. destruct (submit_source _ _ _) as [[e packets]|e|]; cbn [codec_error]; [| |done].
  - intros io k2 sent st. unfold poll_flush. rw Hk. cbn [sk_inner sk_pending fs_remote set_encoder app].
    destruct (flush_loop _ _ _) as [[u s] st'] eqn:E. intros [= <- <- <-] Hst.
    rw (flush_as_sends _ _ _ _ _ _ E Hst). by destruct st'.
  - by destruct k.
Qed.

Lemma sink_agrees_with_sender_witness :
  sk_pending demo_sink = [] ∧
  match start_send Neon demo_sink (demo_src 0) with
  | Ok k1 => ∀ io k2 sent st, poll_flush k1 io = (k2, sent, st) → st ≠ FlushPending →
      send_source Neon (sk_inner demo_sink) (demo_src 0) (awaited_of <$> io)
      = (sent, match st with FlushReady => Ok (sk_inner k2) | _ => Err (sk_inner k2, TransportIo) end)
  | Err (k1, e) => k1 = demo_sink ∧ ∀ io, send_source Neon (sk_inner demo_sink) (demo_src 0) io = ([], Err (sk_inner demo_sink, e))
  | Panic => ∀ io, send_source Neon (sk_inner demo_sink) (demo_src 0) io = ([], Panic)
  end.
Proof. split; [reflexivity|]. apply (sink_agrees_with_sender Neon demo_sink (demo_src 0)). reflexivity. Defined.
