(* ===== verification/Session.v ===== *)
(** * transport/session.rs: a sender and a receiver over one socket

    Binding the socket is an oracle; both halves receive from it. *)

From S2P Require Import Prelude Error Config Simd Common Packets F64 Feedback Policy Window Encoder Buffer Matrix Decoder Transport Sender.
#[global] Open Scope Z_scope.

(** ** DelpSession *)
Section session.
Context {W C F P Addr : Type} `{WindowPolicy W} `{CongestionControl C} `{FecRateController F} `{FeedbackPolicy P}.
Context (addr_to_receiver_id : Addr → Z).

Record DelpSession := { ds_sender : FecSender W C F Addr; ds_receiver : FecReceiver P }.

Definition session_new (encoder : Encoder W C F) (decoder : Decoder P) (remote : Addr) : DelpSession :=
  {| ds_sender := sender_new addr_to_receiver_id encoder remote; ds_receiver := receiver_new decoder |}.
Definition split (s : DelpSession) : FecSender W C F Addr * FecReceiver P := (ds_sender s, ds_receiver s).
End session.
Arguments DelpSession : clear implicits.

(** ** SessionBuilder *)
Record SessionBuilder := {
  sb_symbol_size : Z;
  sb_window_capacity : Z;
  sb_fec_numer : Z;
  sb_fec_denom : Z;
  sb_field : Field;
  sb_strategy : MatrixStrategy;
  sb_backpressure : BackpressureMode;
  sb_feedback_every : Z;
}.

Definition session_builder_default : SessionBuilder :=
  {| sb_symbol_size := 1024; sb_window_capacity := 32; sb_fec_numer := 1; sb_fec_denom := 4;
     sb_field := Gf2_8; sb_strategy := Vandermonde; sb_backpressure := Reject;
     sb_feedback_every := 8 |}.

Module Setters.
Definition symbol_size (v : Z) (b : SessionBuilder) : SessionBuilder :=
  {| sb_symbol_size := v; sb_window_capacity := sb_window_capacity b; sb_fec_numer :=
     sb_fec_numer b; sb_fec_denom := sb_fec_denom b; sb_field := sb_field b;
     sb_strategy := sb_strategy b; sb_backpressure := sb_backpressure b;
     sb_feedback_every := sb_feedback_every b |}.
Definition window_capacity (v : Z) (b : SessionBuilder) : SessionBuilder :=
  {| sb_symbol_size := sb_symbol_size b; sb_window_capacity := v; sb_fec_numer :=
     sb_fec_numer b; sb_fec_denom := sb_fec_denom b; sb_field := sb_field b;
     sb_strategy := sb_strategy b; sb_backpressure := sb_backpressure b;
     sb_feedback_every := sb_feedback_every b |}.
Definition fec_rate (numer denom : Z) (b : SessionBuilder) : SessionBuilder :=
  {| sb_symbol_size := sb_symbol_size b; sb_window_capacity := sb_window_capacity b;
     sb_fec_numer := numer; sb_fec_denom := denom; sb_field := sb_field b; sb_strategy
     := sb_strategy b; sb_backpressure := sb_backpressure b; sb_feedback_every :=
     sb_feedback_every b |}.
Definition field (f : Field) (b : SessionBuilder) : SessionBuilder :=
  {| sb_symbol_size := sb_symbol_size b; sb_window_capacity := sb_window_capacity b;
     sb_fec_numer := sb_fec_numer b; sb_fec_denom := sb_fec_denom b; sb_field := f;
     sb_strategy := sb_strategy b; sb_backpressure := sb_backpressure b;
     sb_feedback_every := sb_feedback_every b |}.
Definition strategy (s : MatrixStrategy) (b : SessionBuilder) : SessionBuilder :=
  {| sb_symbol_size := sb_symbol_size b; sb_window_capacity := sb_window_capacity b;
     sb_fec_numer := sb_fec_numer b; sb_fec_denom := sb_fec_denom b; sb_field :=
     sb_field b; sb_strategy := s; sb_backpressure := sb_backpressure b;
     sb_feedback_every := sb_feedback_every b |}.
Definition feedback_every (n : Z) (b : SessionBuilder) : SessionBuilder :=
  {| sb_symbol_size := sb_symbol_size b; sb_window_capacity := sb_window_capacity b;
     sb_fec_numer := sb_fec_numer b; sb_fec_denom := sb_fec_denom b; sb_field :=
     sb_field b; sb_strategy := sb_strategy b; sb_backpressure := sb_backpressure b;
     sb_feedback_every := n |}.
End Setters.

Definition session_configs (b : SessionBuilder) : result (EncoderConfig * DecoderConfig) :=
  enc_cfg ← EncoderBuilder.build
    (EncoderBuilder.backpressure (sb_backpressure b)
    (EncoderBuilder.matrix_strategy (sb_strategy b)
    (EncoderBuilder.field (sb_field b)
    (EncoderBuilder.fec_rate (sb_fec_numer b) (sb_fec_denom b)
    (EncoderBuilder.window_capacity (sb_window_capacity b)
    (EncoderBuilder.new (sb_symbol_size b)))))));
  dec_cfg ← DecoderBuilder.build
    (DecoderBuilder.field (sb_field b) (DecoderBuilder.new (sb_symbol_size b)));
  Ok (enc_cfg, dec_cfg).

(** [build], whose socket may fail to bind. *)
Section build.
Context {Addr : Type} (addr_to_receiver_id : Addr → Z).

Definition DefaultSession : Type :=
  DelpSession AnyAckPolicy NoCongestionControl ConstantFecRate ConstantFeedbackPolicy Addr.

Definition of_codec {A} (m : result A) : outcome TransportError A :=
  match m with Ok a => Ok a | Err e => Err (TransportCodec e) | Panic => Panic end.

Definition session_build (b : SessionBuilder) (bind_ok : bool) (remote : Addr) : outcome TransportError DefaultSession :=
  '(enc_cfg, dec_cfg) ← of_codec (session_configs b);
  encoder ← of_codec (encoder_with_defaults enc_cfg);
  decoder ← of_codec (decoder_with_defaults dec_cfg);
  if bind_ok then Ok (session_new addr_to_receiver_id encoder decoder remote) else Err TransportIo.
End build.

(** Fields of type [usize] are not negative. *)
Definition session_usize (b : SessionBuilder) : Prop :=
  0 ≤ sb_symbol_size b ∧ 0 ≤ sb_window_capacity b ∧ 0 ≤ sb_fec_numer b ∧ 0 ≤ sb_fec_denom b.

Lemma of_codec_Ok {A} (m : result A) a : of_codec m = Ok a → m = Ok a.
Proof. by destruct m; intros [=]; subst. Qed.

(** A session the builder accepts has an encoder and a decoder for the same
    symbol size and field, both well-formed and empty; its feedback period is 16
    whatever [feedback_every] was asked for. *)
Theorem session_compatible {Addr} (rid : Addr → Z) b bind_ok remote s :
  session_usize b → session_build rid b bind_ok remote = Ok s →
  let enc := fs_encoder (ds_sender s) in let dec := fr_decoder (ds_receiver s) in
  encoder_config_ok (en_config enc) ∧
  ec_symbol_size (en_config enc) = sb_symbol_size b ∧
  dc_symbol_size (de_config dec) = sb_symbol_size b ∧
  ec_field (en_config enc) = sb_field b ∧ dc_field (de_config dec) = sb_field b ∧
  w_symbols (en_window enc) = [] ∧ fr_ready (ds_receiver s) = [] ∧
  fs_remote (ds_sender s) = remote ∧ fs_receiver_id (ds_sender s) = rid remote ∧
  cp_period (de_feedback_policy dec) = 16.
Proof.
  intros Hu. unfold session_build, session_configs.
  intros ([enc_cfg dec_cfg] & Hcfg%of_codec_Ok & (e & He%of_codec_Ok & (d & Hd%of_codec_Ok & Hs)%bind_Ok_inv)%bind_Ok_inv)%bind_Ok_inv.
  apply bind_Ok_inv in Hcfg as (ec & Hec & (dc & Hdc & [= <- <-])%bind_Ok_inv).
  destruct bind_ok; [injection Hs as <-|done].
  apply build_ok in Hec as (Hok & Hf & Hs); [|exact Hu].
  unfold encoder_with_defaults in He. apply bind_Ok_inv in He as (fec & _ & [= <-]).
  unfold decoder_with_defaults in Hd. apply bind_Ok_inv in Hd as (pol & Hpol & [= <-]).
  unfold DecoderBuilder.build in Hdc. case_match; [done|]. injection Hdc as <-.
  injection Hpol as <-. cbn. by split_and!.
Qed.

Lemma session_compatible_witness :
  ∃ s, session_build (λ a : Z, a) session_builder_default true 5 = Ok s ∧
    ec_symbol_size (en_config (fs_encoder (ds_sender s))) = 1024 ∧
    dc_symbol_size (de_config (fr_decoder (ds_receiver s))) = 1024 ∧
    cp_period (de_feedback_policy (fr_decoder (ds_receiver s))) = 16.
Proof.
  eexists. split; [reflexivity|].
  match goal with |- context [ds_sender ?s] =>
    destruct (session_compatible (λ a : Z, a) session_builder_default true 5 s)
      as (_ & H1 & H2 & _ & _ & _ & _ & _ & _ & H3) end.
  - unfold session_usize. cbn. lia.
  - reflexivity.
  - split; [exact H1|split; [exact H2|exact H3]].
Defined.

(** ** The shared socket

    Whichever half receives a datagram consumes it.  The sender parses whatever it
    receives as feedback, without looking at the packet type, so a source packet
    of the peer acknowledges what its payload says; the receiver drops feedback. *)
Definition peer_source : result bytes := Source.serialise 5 [0; 0; 0; 0; 0; 0; 0; 9; 0; 0; 0; 0] [] None.

Lemma source_packet_read_as_feedback :
  (raw ← peer_source; @fb_parse ReprC.cast raw)
  = Ok {| fb_tsi := None; fb_nb_missing_src := 5; fb_nb_not_used_coded := 0;
          fb_first_src_id := 9; fb_plr_raw := 0; fb_sack := [] |}.
Proof. vm_compute. reflexivity. Qed.

(** A session of 12-byte symbols has submitted symbol 0, nothing has been
    acknowledged, and the peer's source packet arrives: the sender half counts it
    as feedback and drops symbol 0 from its window, and the receiver never sees
    the packet. *)
Lemma sender_half_takes_source :
  (raw ← of_codec peer_source;
   s ← session_build (λ a : Z, a) (Setters.symbol_size 12 session_builder_default) true 1;
   match send_source Scalar (ds_sender s) (replicate 12 7) [] with
   | (_, Ok tx) =>
       match @recv_feedback _ _ _ _ _ _ ReprC.cast Z (λ a, a) tx [InDatagram 1 raw; InWouldBlock] with
       | Ok (tx', n) => Ok (id_slice (en_window (fs_encoder tx)), n, id_slice (en_window (fs_encoder tx')))
       | _ => Panic
       end
   | _ => Panic
   end) = Ok ([0], 1%nat, []).
Proof. vm_compute. reflexivity. Qed.

Lemma receiver_half_drops_feedback :
  let raw := fb_serialise {| fb_tsi := None; fb_nb_missing_src := 0; fb_nb_not_used_coded := 0;
    fb_first_src_id := 9; fb_plr_raw := 0; fb_sack := [] |} in
  (s ← session_build (λ a : Z, a) session_builder_default true 1;
   match @process_one Scalar _ _ ReprC.cast (ds_receiver s) raw with
   | Ok (rx, b, sent) => Ok (bool_decide (fr_ready rx = fr_ready (ds_receiver s)), b, sent)
   | _ => Panic
   end) = Ok (true, false, []).
Proof. vm_compute. reflexivity. Qed.
