(* ===== verification/EndToEnd.v ===== *)
(** * From one encoder to one consumer of its packets

    Everything an encoder session put on the wire, less what the network lost,
    fed in the order it was sent to anything that drives a decoder (a
    [Consumer]): the transport's receiver here, the command line's file receiver
    and benchmark in CliRecv.v and CliBench.v. *)

From S2P Require Import Prelude Error Config Gf CoefGen Simd IdStorage EncVec Common Packets F64 Feedback Packet Policy Window LinComb Encoder BTree Buffer Matrix Dense Elim Decoder Recovery Delivery Consumer Transport.
From stdpp Require Import sorting.
#[global] Open Scope Z_scope.

Lemma elem_of_rev {A} (x : A) l : x ∈ rev l ↔ x ∈ l.
Proof. by rw !list_elem_of_In -in_rev. Qed.

Section end_to_end.
Context (disp disp' : Dispatch) {W C F P : Type}.
Context `{WindowPolicyLaws W} `{CongestionLaws C} `{!FecRateController F} `{!FecLaws F}.
Context `{FeedbackPolicy P} `{HeaderCastLaw} {R E : Type} `{!Consumer P R E} `{!ConsumerLaws disp' P R E}.
Context (src : Z → bytes) (config : EncoderConfig).
Hypothesis Hsrc : ∀ id, symbol (sym_size config) (src id).

(** Source IDs and encoding vectors of a list of packets. *)
Definition sent_source_ids (out : list EncoderOutput) : list Z :=
  omap (λ o, match o with
             | OutSource pkt => match Source.parse pkt with
                                | Ok p => Some (Source.source_symbol_id p) | _ => None end
             | OutCoded _ => None end) out.
Definition sent_vectors (out : list EncoderOutput) : list EncodingVector :=
  omap (λ o, match o with
             | OutCoded pkt => match Coded.parse pkt with Ok p => Some (Coded.ev p) | _ => None end
             | OutSource _ => None end) out.

Definition session_ids (m : Z) : list Z := seqZ 0 m.

Lemma session_ids_range m : m ≤ 65536 → Forall id_range (session_ids m).
Proof.
  intros Hm. apply Forall_forall. intros x Hx%elem_of_seqZ. unfold id_range. lia.
Qed.

Lemma coded_honest_usable n m p : n ≤ m → coded_honest src config (seqZ 0 n) p →
  coded_packet_ok (ec_field config) (sym_size config) src (session_ids m) p.
Proof.
  intros Hnm [Hp Hids Hev Hsort _]. split; [done|]. destruct Hp as [Hf _], Hev.
  constructor; [by apply sorted_NoDup| |done|].
  - intros x Hx%Hids. unfold session_ids. rw elem_of_seqZ in Hx. apply elem_of_seqZ. lia.
  - rw Hf in eo_coefs_field. eapply Forall_impl; [exact eo_coefs_field|]. intros c. by destruct (ec_field config).
Qed.

(** The source packets of an emission carry consecutive IDs. *)
Lemma emission_source_ids n out m : emission src config n out m →
  n ≤ m ∧ sent_source_ids out = seqZ n (m - n).
Proof.
  induction 1 as [n|n pkt p out m Hp Hid Hpay _ [Hle IH]|n pkt p out m Hp Hh _ [Hle IH]].
  - by rw Z.sub_diag.
  - split; [lia|]. cbn. rw Hp Hid seqZ_cons; [|lia]. f_equal. fold (sent_source_ids out).
    rw IH. f_equal; lia.
  - split; [done|exact IH].
Qed.

Lemma sublist_source_ids out sent x : out `sublist_of` sent →
  x ∈ sent_source_ids out → x ∈ sent_source_ids sent.
Proof.
  intros Hsub (o & Ho & Hx)%list_elem_of_omap. apply list_elem_of_omap. exists o.
  split; [by eapply elem_of_sublist|done].
Qed.

Local Abbreviation session Q m := (dec_session disp' (ec_field config) (sym_size config) src (session_ids m) Q).

(** The receiver follows a decoder session, whatever was lost.  [Q] must hold
    in every state in which only IDs that were sent are covered, each received
    or in [lost]. *)
Definition reaches (Q : Decoder P → Prop) (m max : Z) (lost : list Z) : Prop :=
  ∀ d srcs vs evs, session Q m d srcs vs evs → dm_max_rows (de_matrix d) = max →
    (∀ x, covered x vs → x ∈ srcs ∨ x ∈ lost) → Q d.

Record tracks (max : Z) (lost : list Z) (n : Z) (r : R) (srcs : list Z)
    (vs : list EncodingVector) (evs : list DecoderEvent) : Prop := {
  tr_covered : ∀ x, covered x vs → 0 ≤ x < n;
  tr_sources : ∀ x, 0 ≤ x < n → x ∈ srcs ∨ x ∈ lost;
  tr_ready : cs_got r (delivered evs);
  tr_max : dm_max_rows (de_matrix (cs_decoder r)) = max;
}.

Lemma step_source Q m max lost n r srcs vs evs pkt p : m ≤ 65536 → 0 ≤ n < m →
  session Q m (cs_decoder r) srcs vs evs → tracks max lost n r srcs vs evs →
  Source.parse pkt = Ok p → Source.source_symbol_id p = n → Source.payload p = src n →
  ∃ r' new, cs_feed r pkt = Ok r' ∧ session Q m (cs_decoder r') (n :: srcs) vs (evs ++ new) ∧
    tracks max lost (n + 1) r' (n :: srcs) vs (evs ++ new).
Proof.
  intros Hm Hn Hs [Hcov Hsrcs Hready Hmax] Hp Hid Hpay.
  assert (source_packet_ok src (session_ids m) (cs_decoder r) vs p) as Hpkt.
  { split; [by rw Hid|]. rw Hid. split; [by apply elem_of_seqZ|]. left. intros Hc%Hcov. lia. }
  pose proof (session_ids_range m Hm) as Hr. pose proof (NoDup_seqZ 0 m) as Hnd.
  apply dec_session_inv in Hs as Hinv; [|done..].
  destruct Hinv as [Hd Hu _ _ _ _ _].
  pose proof (source_packet_zero (ec_field config) (sym_size config) src (session_ids m) _ _ _ Hd Hu Hpkt) as Hor.
  destruct (source_step disp' (ec_field config) (sym_size config) src (session_ids m) Hsrc Hnd Hr (cs_decoder r) p)
    as (d' & new & Hstep & Hst & _); [done|by rw Hid|rw Hid; by apply elem_of_seqZ|done|].
  destruct (cs_source r pkt p d' new _ Hready Hp Hstep) as (r' & Hr' & <- & Hgot).
  exists r', new. split; [done|]. split.
  - rw -{1}Hid. by eapply dec_source.
  - constructor.
    + intros x Hx. specialize (Hcov x Hx). lia.
    + intros x Hx. destruct (decide (x = n)) as [->|]; [left; by left|].
      destruct (Hsrcs x) as [|]; [lia|left; by right|by right].
    + by rw delivered_app.
    + by rw (sk_max _ _ _ _ _ _ _ Hst).
Qed.

Lemma step_coded Q m max lost n r srcs vs evs pkt p : m ≤ 65536 → 0 ≤ n ≤ m → Q (cs_decoder r) →
  session Q m (cs_decoder r) srcs vs evs → tracks max lost n r srcs vs evs →
  Coded.parse pkt = Ok p → coded_honest src config (seqZ 0 n) p →
  ∃ r' new, cs_feed r pkt = Ok r' ∧
    session Q m (cs_decoder r') srcs (Coded.ev p :: vs) (evs ++ new) ∧
    tracks max lost n r' srcs (Coded.ev p :: vs) (evs ++ new).
Proof.
  intros Hm Hn HQ Hs [Hcov Hsrcs Hready Hmax] Hp Hh.
  assert (coded_packet_ok (ec_field config) (sym_size config) src (session_ids m) p) as Hpkt
    by (eapply coded_honest_usable; [|done]; lia).
  pose proof (session_ids_range m Hm) as Hr. pose proof (NoDup_seqZ 0 m) as Hnd.
  apply dec_session_inv in Hs as Hinv; [|done..]. destruct Hinv as [Hd _ _ _ _ _ _].
  destruct (coded_step disp' (ec_field config) (sym_size config) src (session_ids m) Hsrc Hnd Hr (cs_decoder r) p)
    as (d' & new & Hstep & Hst & _); [done|apply Hpkt..|].
  destruct (cs_coded r pkt p d' new _ Hready Hp Hstep) as (r' & Hr' & <- & Hgot).
  exists r', new. split; [done|]. split; [by eapply dec_coded|].
  constructor; [|done|by rw delivered_app|by rw (sk_max _ _ _ _ _ _ _ Hst)].
  intros x (ev & [->|Hev]%elem_of_cons & Hx).
  - destruct Hh as [_ Hids _ _ _]. apply Hids, elem_of_seqZ in Hx. lia.
  - apply Hcov. by exists ev.
Qed.

Lemma emission_received Q m max lost n sent : m ≤ 65536 → 0 ≤ n → reaches Q m max lost →
  emission src config n sent m → ∀ out r srcs vs evs, out `sublist_of` sent →
  (∀ x, n ≤ x < m → x ∈ sent_source_ids out ∨ x ∈ lost) →
  session Q m (cs_decoder r) srcs vs evs → tracks max lost n r srcs vs evs →
  ∃ r' new, feed_all r (raw_of <$> out) = Ok r' ∧
    session Q m (cs_decoder r') (rev (sent_source_ids out) ++ srcs) (rev (sent_vectors out) ++ vs)
      (evs ++ new) ∧ cs_got r' (delivered (evs ++ new)).
Proof.
  intros Hm Hn HQ Hem. induction Hem as [n|n pkt p sent m Hp Hid Hpay Hem IH|n pkt p sent m Hp Hh Hem IH];
    intros out r srcs vs evs Hsub Hlost Hs Htr.
  - apply sublist_nil_r in Hsub as ->. exists r, []. rw !app_nil_r. split_and!; try done. apply Htr.
  - pose proof (emission_source_ids _ _ _ Hem) as [Hle Hids].
    apply sublist_cons_r in Hsub as [Hsub|(out' & -> & Hsub)].
    + apply IH; [done|lia|done|done| |done|].
      * intros x Hx. apply Hlost. lia.
      * destruct Htr as [Hcov Hsrcs Hready Hmax]. constructor; [| |done|done].
        -- intros x Hx. specialize (Hcov x Hx). lia.
        -- intros x Hx. destruct (decide (x = n)) as [->|]; [|apply Hsrcs; lia].
           destruct (Hlost n) as [Hin|]; [lia| |by right].
           apply (sublist_source_ids _ _ _ Hsub) in Hin. rw Hids in Hin. apply elem_of_seqZ in Hin. lia.
    + destruct (step_source Q m max lost n r srcs vs evs pkt p) as (r1 & new1 & Hr1 & Hs1 & Htr1); [done|lia|done..|].
      destruct (IH Hm ltac:(lia) HQ out' r1 (n :: srcs) vs (evs ++ new1)) as (r2 & new2 & Hr2 & Hs2 & Hready2);
        [done| |done..|].
      { intros x Hx. destruct (Hlost x) as [Hin|]; [lia| |by right]. left. cbn in Hin. rw Hp Hid in Hin.
        apply elem_of_cons in Hin as [->|]; [lia|done]. }
      exists r2, (new1 ++ new2). rw app_assoc. split_and!; [|  |done].
      * cbn [fmap list_fmap]. unfold feed_all. cbn [mfor raw_of]. by rw Hr1 bind_Ok.
      * cbn [sent_source_ids sent_vectors omap list_omap]. rw Hp Hid. cbn [rev].
        by rw -app_assoc.
  - pose proof (emission_source_ids _ _ _ Hem) as [Hle Hids].
    apply sublist_cons_r in Hsub as [Hsub|(out' & -> & Hsub)]; [by apply IH|].
    destruct (step_coded Q m max lost n r srcs vs evs pkt p) as (r1 & new1 & Hr1 & Hs1 & Htr1); try done.
    { apply (HQ _ srcs vs evs); [done|apply Htr|]. intros x Hx. apply Htr. by apply Htr in Hx. }
    destruct (IH Hm Hn HQ out' r1 srcs (Coded.ev p :: vs) (evs ++ new1)) as (r2 & new2 & Hr2 & Hs2 & Hready2);
      [done..|].
    exists r2, (new1 ++ new2). rw app_assoc. split_and!; [|  |done].
    * cbn [fmap list_fmap]. unfold feed_all. cbn [mfor raw_of]. by rw Hr1 bind_Ok.
    * cbn [sent_source_ids sent_vectors omap list_omap]. rw Hp. cbn [rev]. by rw -app_assoc.
Qed.

(** The matrix has a row for lost symbols only. *)
Lemma room_for_lost m max lost : m ≤ 65536 → Z.of_nat (length lost) < max →
  reaches has_room m max lost.
Proof.
  intros Hm Hmax d srcs vs evs Hs Hd Hcov.
  pose proof (session_ids_range m Hm) as Hr. pose proof (NoDup_seqZ 0 m) as Hnd.
  apply dec_session_inv in Hs as [Hok Hu Hsr _ _ _ _]; [|done..].
  pose proof (dk_rows _ _ _ _ _ Hok) as Hrows. unfold has_room. rw Hd.
  assert (row_count (de_matrix d) ≤ length lost)%nat; [|lia].
  unfold row_count. rw -length_bt_keys. apply submseteq_length, NoDup_submseteq; [apply bt_keys_NoDup|].
  intros k Hk%elem_of_bt_keys.
  assert (∀ x, zero_at (dm_rows (de_matrix d)) x → k ≠ x) as Hz.
  { intros x Hx ->. rw (zero_not_key _ _ _ _ _ _ Hrows Hx) in Hk. by destruct Hk. }
  destruct (Hcov k) as [Hin|]; [|exfalso|done].
  - destruct (decide (Exists (λ ev, k ∈ ev_source_ids ev) vs)) as [Hex|Hn].
    + apply Exists_exists in Hex as (ev & ? & ?). by exists ev.
    + exfalso. apply (Hz k); [|done]. apply Hu. intros (ev & ? & ?). apply Hn, Exists_exists. by exists ev.
  - apply (Hz k); [|done]. by apply (dk_zero _ _ _ _ _ Hok), Hsr.
Qed.

(** A fresh receiver for the session. *)
Definition matching (dconfig : DecoderConfig) : Prop :=
  dc_field dconfig = ec_field config ∧ dc_symbol_size dconfig = ec_symbol_size config.

Definition lost_ids (m : Z) (out : list EncoderOutput) : list Z :=
  filter (λ x, x ∉ sent_source_ids out) (seqZ 0 m).

Lemma session_received Q m dconfig (policy : P) r0 sent out :
  cs_decoder r0 = decoder_new dconfig policy → cs_got r0 [] →
  0 ≤ ec_symbol_size config → m ≤ 65536 → matching dconfig →
  reaches Q m (dc_max_matrix_rows dconfig) (lost_ids m out) →
  emission src config 0 sent m → out `sublist_of` sent →
  ∃ r new, feed_all r0 (raw_of <$> out) = Ok r ∧
    session Q m (cs_decoder r) (rev (sent_source_ids out)) (rev (sent_vectors out)) new ∧
    cs_got r (delivered new).
Proof.
  intros Hr0 Hg0 Hsz Hm [Hf Hs] HQ Hem Hsub.
  destruct (emission_received Q m (dc_max_matrix_rows dconfig) (lost_ids m out) 0 sent Hm ltac:(lia) HQ Hem out
    r0 [] [] []) as (r & new & Hr & Hses & Hready); [done| | | |].
  - intros x Hx. destruct (decide (x ∈ sent_source_ids out)) as [|Hn]; [by left|].
    right. apply list_elem_of_filter. split; [done|]. by apply elem_of_seqZ.
  - rw Hr0. apply dec_new; [done|]. rw Hs /sym_size. lia.
  - constructor; rw ?Hr0; try done; [|lia]. intros x (ev & Hev & _). by apply elem_of_nil in Hev.
  - exists r, new. by rw !app_nil_r in Hses.
Qed.

(** What any consumer ends up with: true symbols of the session, in order. *)
Lemma consumer_delivery m dconfig (policy : P) r0 sent out :
  cs_decoder r0 = decoder_new dconfig policy → cs_got r0 [] →
  0 ≤ ec_symbol_size config → m ≤ 65536 → matching dconfig →
  emission src config 0 sent m → out `sublist_of` sent →
  ∃ r l, feed_all r0 (raw_of <$> out) = Ok r ∧ cs_got r l ∧
    Forall (λ '(id, data), data = src id) l ∧ StronglySorted Z.lt l.*1 ∧ l.*1 ⊆ seqZ 0 m.
Proof.
  intros Hr0 Hg0 Hsz Hm Hmatch Hem Hsub.
  destruct (session_received (λ _, True) m dconfig policy r0 sent out) as (r & new & Hr & Hses & Hready);
    [done..|].
  exists r, (delivered new). split_and!; [done|done|..];
    apply dec_session_inv in Hses as [_ _ _ Hids _ Hh _];
    try done; try apply NoDup_seqZ; try by apply session_ids_range.
  - by eapply delivered_honest.
  - eapply StronglySorted_sublist; [apply delivered_sublist|]. rw Hids. apply seqZ_sorted.
  - by eapply delivered_honest.
Qed.

(** What must arrive to repair the losses: as many coded packets as source
    packets were lost, covering them, at distinct points of the coded-ID cycle;
    the lost symbols have distinct columns, and fit the decoder's matrix. *)
Record repairable (f : Field) (m max : Z) (out : list EncoderOutput) (good : list EncodingVector) : Prop := {
  rp_room : Z.of_nat (length (lost_ids m out)) < max;
  rp_good : good ⊆ sent_vectors out;
  rp_count : length good = length (lost_ids m out);
  rp_points : NoDup (ev_point f <$> good);
  rp_lost : NoDup (cx f <$> lost_ids m out);
  rp_cover : ∀ ev, ev ∈ good → lost_ids m out ⊆ ev_source_ids ev;
}.

(** What arrives determines every symbol: every symbol is known. *)
Lemma session_solved m dconfig (policy : P) r0 sent out :
  cs_decoder r0 = decoder_new dconfig policy → cs_got r0 [] →
  0 ≤ ec_symbol_size config → 0 ≤ m ≤ 65536 → matching dconfig →
  emission src config 0 sent m → out `sublist_of` sent →
  Z.of_nat (length (lost_ids m out)) < dc_max_matrix_rows dconfig →
  determined (ec_field config) (session_ids m) (sent_source_ids out) (sent_vectors out) →
  ∃ r new, feed_all r0 (raw_of <$> out) = Ok r ∧ cs_got r (delivered new) ∧
    session has_room m (cs_decoder r) (rev (sent_source_ids out)) (rev (sent_vectors out)) new ∧
    ∀ x, 0 ≤ x < m → de_known (cs_decoder r) !! x = Some (src x) ∧
      (x < next_delivery_id (cs_decoder r) ∨ buffer_get (de_buffer (cs_decoder r)) x = Some (src x)).
Proof.
  intros Hr0 Hg0 Hsz Hm Hmatch Hem Hsub Hmax Hdet.
  destruct (session_received has_room m dconfig policy r0 sent out)
    as (r & new & Hr & Hses & Hready); [done|done|done|lia|done|apply room_for_lost; [lia|done]|done..|].
  pose proof (session_ids_range m ltac:(lia)) as Hrange. pose proof (NoDup_seqZ 0 m) as Hnd.
  exists r, new. split_and!; [done..|]. intros x Hx.
  apply (recovers_all disp' (ec_field config) (sym_size config) src (session_ids m) Hsrc Hnd Hrange _ _ _ _ Hses);
    [|by apply elem_of_seqZ].
  intros v Hv HK Hevs. apply Hdet; [done| |].
  - intros y Hy. apply HK. by apply elem_of_rev.
  - intros ev Hev. apply Hevs. by apply elem_of_rev.
Qed.

(** If moreover the encoder's window has not moved, everything is delivered. *)
Lemma session_solved_complete m dconfig (policy : P) r0 sent out :
  cs_decoder r0 = decoder_new dconfig policy → cs_got r0 [] →
  0 ≤ ec_symbol_size config → 0 ≤ m ≤ 65536 → matching dconfig →
  emission src config 0 sent m → out `sublist_of` sent →
  Z.of_nat (length (lost_ids m out)) < dc_max_matrix_rows dconfig →
  determined (ec_field config) (session_ids m) (sent_source_ids out) (sent_vectors out) →
  covers_first (sent_vectors out) →
  ∃ r, feed_all r0 (raw_of <$> out) = Ok r ∧ cs_got r (symbols_upto src 0 m) ∧
    next_delivery_id (cs_decoder r) = m.
Proof.
  intros Hr0 Hg0 Hsz Hm Hmatch Hem Hsub Hmax Hdet Hfirst.
  destruct (session_solved m dconfig policy r0 sent out) as (r & new & Hr & Hgot & Hses & Hall); [done..|].
  pose proof (session_ids_range m ltac:(lia)) as Hrange. pose proof (NoDup_seqZ 0 m) as Hnd.
  assert (covers_first (rev (sent_vectors out))) as Hfirst'.
  { unfold covers_first in *. rw Forall_forall in Hfirst. apply Forall_forall. intros ev Hev. rw elem_of_rev in Hev. by apply Hfirst. }
  destruct (session_unmoved disp' (ec_field config) (sym_size config) src (session_ids m) Hsrc Hnd Hrange
    _ _ _ _ _ Hses Hfirst') as [_ Hgap].
  destruct (known_delivered disp' (ec_field config) (sym_size config) src m _ _ _ _ _ Hsrc Hm Hrange Hses Hgap)
    as [Hdel Hnext]; [|by exists r; rw -Hdel].
  intros x Hx. destruct (Hall x Hx) as [-> _]. by eexists.
Qed.

(** The coefficients that arrive are elements of the field, and in a Cauchy
    session the vectors are Cauchy vectors. *)
Lemma sent_vector_honest m sent out ev : emission src config 0 sent m → out `sublist_of` sent →
  ev ∈ sent_vectors out → ∃ p, Coded.ev p = ev ∧ coded_honest src config (seqZ 0 m) p.
Proof.
  intros Hem Hsub (o & Ho & Hev)%list_elem_of_omap. apply (elem_of_sublist _ _ _ Ho) in Hsub as Hin.
  destruct (emission_honest src config 0 sent m ltac:(lia) Hem) as [_ Hall].
  rw Forall_forall in Hall. specialize (Hall o Hin). destruct o as [pkt|pkt]; [done|].
  destruct Hall as (p & Hp & Hh). rw Hp in Hev. injection Hev as <-. by exists p.
Qed.

Lemma sent_vector_coefs m sent out ev y : emission src config 0 sent m → out `sublist_of` sent →
  ev ∈ sent_vectors out → coef_ok (ec_field config) (coef_at (ev_terms ev) y).
Proof.
  intros Hem Hsub Hev. destruct (sent_vector_honest m sent out ev Hem Hsub Hev) as (p & <- & Hh).
  destruct (coded_honest_usable m m p ltac:(lia) Hh) as [[Hf _] Hu].
  by apply coef_at_ok, (ev_terms_ok (ec_field config) (session_ids m)).
Qed.

Lemma repairable_determined m max sent out good : 0 ≤ m ≤ 65536 → ec_matrix_strategy config = Cauchy →
  emission src config 0 sent m → out `sublist_of` sent → repairable (ec_field config) m max out good →
  determined (ec_field config) (session_ids m) (sent_source_ids out) (sent_vectors out).
Proof.
  intros Hm Hcau Hem Hsub [Hmax Hgood Hlen Hpts Hcx Hcover].
  pose proof (session_ids_range m ltac:(lia)) as Hrange. pose proof (NoDup_seqZ 0 m) as Hnd.
  apply (enough_determined (ec_field config) (session_ids m) Hnd _ _ (lost_ids m out) good Hrange).
  - intros y [_ Hy]%list_elem_of_filter. done.
  - intros y Hy. destruct (decide (y ∈ sent_source_ids out)) as [Hin|Hn]; [by left|].
    right. by apply list_elem_of_filter.
  - done.
  - intros ev Hev y. by apply (sent_vector_coefs m sent out).
  - constructor; [done..|]. intros ev Hev. split; [|by apply Hcover].
    destruct (sent_vector_honest m sent out ev Hem Hsub (Hgood ev Hev)) as (p & <- & Hh). by apply Hh.
Qed.

Lemma session_recovered m dconfig (policy : P) r0 sent out good :
  cs_decoder r0 = decoder_new dconfig policy → cs_got r0 [] →
  0 ≤ ec_symbol_size config → 0 ≤ m ≤ 65536 → matching dconfig → ec_matrix_strategy config = Cauchy →
  emission src config 0 sent m → out `sublist_of` sent →
  repairable (ec_field config) m (dc_max_matrix_rows dconfig) out good →
  ∃ r new, feed_all r0 (raw_of <$> out) = Ok r ∧ cs_got r (delivered new) ∧
    session has_room m (cs_decoder r) (rev (sent_source_ids out)) (rev (sent_vectors out)) new ∧
    ∀ x, 0 ≤ x < m → de_known (cs_decoder r) !! x = Some (src x) ∧
      (x < next_delivery_id (cs_decoder r) ∨ buffer_get (de_buffer (cs_decoder r)) x = Some (src x)).
Proof.
  intros Hr0 Hg0 Hsz Hm Hmatch Hcau Hem Hsub Hrep. apply (session_solved m dconfig policy r0 sent out); try done.
  - apply Hrep.
  - by eapply repairable_determined.
Qed.

Lemma session_complete m dconfig (policy : P) r0 sent out good :
  cs_decoder r0 = decoder_new dconfig policy → cs_got r0 [] →
  0 ≤ ec_symbol_size config → 0 ≤ m ≤ 65536 → matching dconfig → ec_matrix_strategy config = Cauchy →
  emission src config 0 sent m → out `sublist_of` sent →
  repairable (ec_field config) m (dc_max_matrix_rows dconfig) out good → covers_first (sent_vectors out) →
  ∃ r, feed_all r0 (raw_of <$> out) = Ok r ∧ cs_got r (symbols_upto src 0 m) ∧
    next_delivery_id (cs_decoder r) = m.
Proof.
  intros Hr0 Hg0 Hsz Hm Hmatch Hcau Hem Hsub Hrep Hfirst.
  apply (session_solved_complete m dconfig policy r0 sent out); try done.
  - apply Hrep.
  - by eapply repairable_determined.
Qed.
End end_to_end.

(** C3: end to end, for any encoder session (any interleaving of submissions,
    window updates and extra coded packets, any policies and CPUs) and any loss:
    the receiver never fails, and what it hands to the application are the
    symbols that were submitted, under their IDs, in ascending order. *)
Theorem end_to_end_delivery disp disp' {W C F P} `{WindowPolicyLaws W} `{CongestionLaws C}
    `{!FecRateController F} `{!FecLaws F} `{FeedbackPolicy P} `{HeaderCastLaw}
    src (e : Encoder W C F) sent out dconfig (policy : P) :
  enc_session disp src e sent → matching (en_config e) dconfig → out `sublist_of` sent →
  ∃ r, receive_all disp' (receiver_new (decoder_new dconfig policy)) (raw_of <$> out) = Ok r ∧
    Forall (λ '(id, data), data = src id) (fr_ready r) ∧ StronglySorted Z.lt (fr_ready r).*1.
Proof.
  intros Hs Hmatch Hsub. destruct (enc_session_inv disp src e sent Hs) as [Hok _ Hsrc Hnext Hem].
  destruct (eok_config _ _ Hok) as [Hsz _].
  destruct (consumer_delivery (Consumer0 := receiver_consumer disp') disp' src (en_config e) Hsrc
    (w_next_id (en_window e)) dconfig policy (receiver_new (decoder_new dconfig policy)) sent out)
    as (r & l & Hr & <- & Hh & Hso & _); [done|done|lia|done..|]. by exists r.
Qed.

(** C1: end to end with Cauchy coefficients: if [k] source packets are lost, fewer
    than the decoder's matrix has rows and no two with the same column (for that
    no two IDs may be equal modulo 128, or modulo 7 in GF(2^4)), and [k] coded
    packets that cover them all arrive, at distinct points of the coded-ID cycle,
    the receiver never fails and knows every symbol that was submitted.  Packets
    may be lost but not reordered. *)
Theorem end_to_end_recovery disp disp' {W C F P} `{WindowPolicyLaws W} `{CongestionLaws C}
    `{!FecRateController F} `{!FecLaws F} `{FeedbackPolicy P} `{HeaderCastLaw}
    src (e : Encoder W C F) sent out dconfig (policy : P) good :
  enc_session disp src e sent → matching (en_config e) dconfig →
  ec_matrix_strategy (en_config e) = Cauchy → out `sublist_of` sent →
  let m := w_next_id (en_window e) in
  repairable (ec_field (en_config e)) m (dc_max_matrix_rows dconfig) out good →
  ∃ r, receive_all disp' (receiver_new (decoder_new dconfig policy)) (raw_of <$> out) = Ok r ∧
    ∀ x, 0 ≤ x < m → de_known (fr_decoder r) !! x = Some (src x) ∧
      (x < next_delivery_id (fr_decoder r) ∨ buffer_get (de_buffer (fr_decoder r)) x = Some (src x)).
Proof.
  intros Hs Hmatch Hcau Hsub m Hrep. destruct (enc_session_inv disp src e sent Hs) as [Hok _ Hsrc Hnext Hem].
  destruct (eok_config _ _ Hok) as [Hsz _]. pose proof (wo_next _ (eok_window _ _ Hok)) as Hu. unfold is_u32 in Hu.
  destruct (session_recovered (Consumer0 := receiver_consumer disp') disp' src (en_config e) Hsrc m dconfig policy
    (receiver_new (decoder_new dconfig policy)) sent out good) as (r & new & Hr & _ & _ & Hall);
    [done|done|lia|lia|done..|]. by exists r.
Qed.

(** C2: under the conditions of [end_to_end_recovery] (as many coded packets as lost
    source packets, at distinct points, all of them covering the lost symbols,
    which have distinct columns and fit the decoder's matrix), if moreover every
    coded packet that arrives covers the first symbol (the window has not moved,
    as in a transfer of at most a window of symbols), the application receives
    every symbol, in order. *)
Theorem end_to_end_complete disp disp' {W C F P} `{WindowPolicyLaws W} `{CongestionLaws C}
    `{!FecRateController F} `{!FecLaws F} `{FeedbackPolicy P} `{HeaderCastLaw}
    src (e : Encoder W C F) sent out dconfig (policy : P) good :
  enc_session disp src e sent → matching (en_config e) dconfig →
  ec_matrix_strategy (en_config e) = Cauchy → out `sublist_of` sent →
  let m := w_next_id (en_window e) in
  repairable (ec_field (en_config e)) m (dc_max_matrix_rows dconfig) out good → covers_first (sent_vectors out) →
  ∃ r, receive_all disp' (receiver_new (decoder_new dconfig policy)) (raw_of <$> out) = Ok r ∧
    fr_ready r = symbols_upto src 0 m ∧ next_delivery_id (fr_decoder r) = m.
Proof.
  intros Hs Hmatch Hcau Hsub m Hrep Hfirst.
  destruct (enc_session_inv disp src e sent Hs) as [Hok _ Hsrc Hnext Hem].
  destruct (eok_config _ _ Hok) as [Hsz _]. pose proof (wo_next _ (eok_window _ _ Hok)) as Hu. unfold is_u32 in Hu.
  destruct (session_complete (Consumer0 := receiver_consumer disp') disp' src (en_config e) Hsrc m dconfig policy
    (receiver_new (decoder_new dconfig policy)) sent out good) as (r & Hr & Hgot & Hn);
    [done|done|lia|lia|done..|]. by exists r.
Qed.

(** *** Two submissions, the first source packet lost *)
Definition wire_e0 : Encoder AnyAckPolicy NoCongestionControl ConstantFecRate :=
  encoder_new demo_config AnyAck NoCc demo_fec.
Definition wire_step1 := ok_or (wire_e0, []) (submit_source Ssse3 wire_e0 (demo_src 0)).
Definition wire_step2 := ok_or (wire_e0, []) (submit_source Ssse3 wire_step1.1 (demo_src 1)).
Definition wire_sent : list EncoderOutput := ([] ++ wire_step1.2) ++ wire_step2.2.
Definition wire_out : list EncoderOutput := drop 1 wire_sent.
Definition wire_receiver : FecReceiver ImmediateFeedbackPolicy :=
  receiver_new (decoder_new demo_decoder_config Immediate).

Lemma wire_session : enc_session Ssse3 demo_src wire_step2.1 wire_sent.
Proof.
  assert (enc_session Ssse3 demo_src wire_e0 []) as Hs0.
  { apply Encoder.session_new; [exact demo_config_ok|reflexivity|change (1 ≠ 0); lia|].
    by apply demo_src_symbol. }
  eapply (session_submit _ _ wire_step1.1); [eapply (session_submit _ _ wire_e0 []); [exact Hs0| | |]| | |].
  1, 2, 4, 5: reflexivity.
  all: rw -surjective_pairing; apply ok_or_eq; vm_compute; reflexivity.
Qed.

Lemma wire_matching : matching (en_config wire_step2.1) demo_decoder_config.
Proof. split; vm_compute; reflexivity. Qed.

Lemma wire_lossy : wire_out `sublist_of` wire_sent.
Proof. apply sublist_drop. Qed.

Lemma end_to_end_delivery_witness :
  ∃ r, @receive_all Avx2 ImmediateFeedbackPolicy _ ReprC.cast wire_receiver (raw_of <$> wire_out) = Ok r ∧
    Forall (λ '(id, data), data = demo_src id) (fr_ready r) ∧ StronglySorted Z.lt (fr_ready r).*1.
Proof.
  exact (@end_to_end_delivery Ssse3 Avx2 AnyAckPolicy NoCongestionControl ConstantFecRate
    ImmediateFeedbackPolicy _ _ _ _ _ _ _ ReprC.cast ReprC.cast_law demo_src _ _ _ demo_decoder_config
    Immediate wire_session wire_matching wire_lossy).
Defined.

(** The vector of the second coded packet. *)
Definition wire_good : list EncodingVector := drop 1 (@sent_vectors ReprC.cast wire_out).

Lemma wire_repairable :
  @repairable ReprC.cast (ec_field (en_config wire_step2.1)) (w_next_id (en_window wire_step2.1))
    (dc_max_matrix_rows demo_decoder_config) wire_out wire_good.
Proof.
  constructor.
  - vm_compute. reflexivity.
  - intros ev Hev. unfold wire_good in Hev. by apply (subseteq_drop 1).
  - vm_compute. reflexivity.
  - apply (bool_decide_unpack _). vm_compute. exact I.
  - apply (bool_decide_unpack _). vm_compute. exact I.
  - intros ev Hev x Hx.
    assert (bool_decide (Forall (λ ev, Forall (λ y, y ∈ ev_source_ids ev)
      (@lost_ids ReprC.cast (w_next_id (en_window wire_step2.1)) wire_out)) wire_good)) as Hall
      by (vm_compute; exact I).
    apply bool_decide_unpack in Hall. rw Forall_forall in Hall. specialize (Hall ev Hev).
    rw Forall_forall in Hall. by apply Hall.
Qed.

Lemma end_to_end_recovery_witness :
  @lost_ids ReprC.cast 2 wire_out = [0] ∧
  ∃ r, @receive_all Avx2 ImmediateFeedbackPolicy _ ReprC.cast wire_receiver (raw_of <$> wire_out) = Ok r ∧
    ∀ x, 0 ≤ x < w_next_id (en_window wire_step2.1) →
      de_known (fr_decoder r) !! x = Some (demo_src x) ∧
      (x < next_delivery_id (fr_decoder r)
       ∨ buffer_get (de_buffer (fr_decoder r)) x = Some (demo_src x)).
Proof.
  split; [vm_compute; reflexivity|].
  apply (@end_to_end_recovery Ssse3 Avx2 AnyAckPolicy NoCongestionControl ConstantFecRate
    ImmediateFeedbackPolicy _ _ _ _ _ _ _ ReprC.cast ReprC.cast_law demo_src wire_step2.1 wire_sent wire_out
    demo_decoder_config Immediate wire_good wire_session wire_matching).
  - vm_compute. reflexivity.
  - exact wire_lossy.
  - exact wire_repairable.
Defined.

Lemma end_to_end_complete_witness :
  @lost_ids ReprC.cast 2 wire_out = [0] ∧
  ∃ r, @receive_all Avx2 ImmediateFeedbackPolicy _ ReprC.cast wire_receiver (raw_of <$> wire_out) = Ok r ∧
    fr_ready r = symbols_upto demo_src 0 (w_next_id (en_window wire_step2.1)) ∧
    next_delivery_id (fr_decoder r) = w_next_id (en_window wire_step2.1).
Proof.
  split; [vm_compute; reflexivity|].
  apply (@end_to_end_complete Ssse3 Avx2 AnyAckPolicy NoCongestionControl ConstantFecRate
    ImmediateFeedbackPolicy _ _ _ _ _ _ _ ReprC.cast ReprC.cast_law demo_src wire_step2.1 wire_sent wire_out
    demo_decoder_config Immediate wire_good wire_session wire_matching).
  - vm_compute. reflexivity.
  - exact wire_lossy.
  - exact wire_repairable.
  - apply (bool_decide_unpack _). vm_compute. exact I.
Defined.

(** ** A cover with a duplicate

    [generate_coded_targeted] takes it as it is: the two terms cancel in the
    payload, the decoder has one coefficient for the ID and delivers zeros. *)
Lemma duplicate_cover_delivers_wrong_symbol :
  (let e0 : Encoder AnyAckPolicy NoCongestionControl ConstantFecRate :=
     encoder_new demo_config AnyAck NoCc demo_fec in
   '(e, _) ← submit_source Scalar e0 (demo_src 0);
   '(e, _) ← submit_source Scalar e (demo_src 1);
   '(_, out) ← generate_coded_targeted Scalar e [1; 1];
   raw ← Source.serialise 0 (demo_src 0) [] None;
   let r0 := receiver_new demo_decoder in
   match @receive_all Scalar _ _ ReprC.cast r0 [raw; from_option raw_of [] out] with
   | Ok r => Ok (fr_ready r)
   | _ => Panic
   end) = Ok [(0, demo_src 0); (1, [0; 0])] ∧ demo_src 1 = [1; 10].
Proof. split; vm_compute; reflexivity. Qed.
