(* ===== verification/ClosedLoop.v ===== *)
(** * The control loop between a sender and a receiver

    Sender, receiver and two unreliable channels as one transition system: coded
    and source packets one way, window updates back.  A datagram may be lost,
    duplicated, delayed and reordered, except that a source packet that is still
    unknown does not arrive behind a coded packet that covers it.  The sender
    refuses symbols when its window is full ([Reject]), so a symbol leaves the
    window only when it is acknowledged. *)

From S2P Require Import Prelude Error Config Gf CoefGen Vandermonde Simd IdStorage EncVec Common Packets F64 Feedback Packet Policy Window LinComb Encoder BTree Buffer Matrix Dense Elim Decoder Recovery Delivery Reports Consumer Transport Sender EndToEnd.
From stdpp Require Import sorting.
#[global] Open Scope Z_scope.

(** ** Policies that release acknowledged symbols only *)
Class ReleaseLaws (W : Type) `{WindowPolicy W} := {
  release_ok : W → Prop;
  release_acked w st ids w' removed : release_ok w → symbols_to_remove w st ids = Ok (w', removed) →
    release_ok w' ∧ ∀ id, id ∈ removed → ∃ rid, ack_is_acked st rid id = true;
}.

#[export] Program Instance any_ack_release : ReleaseLaws AnyAckPolicy := {| release_ok _ := True |}.
Next Obligation.
  intros w st ids w' removed _ [= <- <-]. split; [done|]. intros id [Hex _]%list_elem_of_filter.
  apply existsb_exists in Hex as (rid & _ & Hack). by exists rid.
Qed.

#[export] Program Instance all_ack_release : ReleaseLaws AllAckPolicy := {| release_ok _ := True |}.
Next Obligation.
  intros w st ids w' removed _. unfold symbols_to_remove, all_ack_policy.
  destruct (Nat.eqb_spec (num_receivers st) 0) as [_|Hne]; intros [= <- <-]; split; try done.
  { by intros id Hid%elem_of_nil. }
  intros id [Hall _]%list_elem_of_filter. rw forallb_forall in Hall.
  destruct (receiver_ids st) as [|rid rids] eqn:Hr.
  - apply (f_equal length) in Hr. unfold receiver_ids in Hr. rw length_fmap length_map_to_list in Hr. done.
  - exists rid. apply Hall. by left.
Qed.

#[export] Program Instance quorum_ack_release : ReleaseLaws QuorumAckPolicy :=
  {| release_ok w := 1 ≤ quorum w |}.
Next Obligation.
  intros w st ids w' removed Hq [= <- <-]. split; [done|]. intros id [Hn _]%list_elem_of_filter.
  unfold acked_count in Hn.
  assert (∃ rid, rid ∈ filter (λ rid, ack_is_acked st rid id = true) (receiver_ids st)) as [rid Hrid].
  { destruct (filter _ _) as [|rid rids]; [cbn in Hn, Hq; lia|]. exists rid. by left. }
  exists rid. by apply list_elem_of_filter in Hrid as [? _].
Qed.

(** A datagram that parses, at the receiver. *)
Lemma process_source disp {P} `{FeedbackPolicy P} `{HeaderCast} (r : FecReceiver P) raw p d new :
  Source.parse raw = Ok p → handle_source disp (fr_decoder r) p = Ok (d, new) →
  ∃ b, process_one disp r raw
    = Ok ({| fr_decoder := d; fr_ready := fr_ready r ++ delivered new |}, b, feedback_of new).
Proof.
  intros Hp Hd. destruct (source_parse_type _ _ Hp) as (h & Hh & Ht). unfold process_one.
  rw datagram_events_spec (packet_parse_dispatch raw h PtSource) // Hp /= Hd /=. rw take_events_spec. by eexists.
Qed.
Lemma process_coded disp {P} `{FeedbackPolicy P} `{HeaderCast} (r : FecReceiver P) raw p d new :
  Coded.parse raw = Ok p → handle_coded disp (fr_decoder r) p = Ok (d, new) →
  ∃ b, process_one disp r raw
    = Ok ({| fr_decoder := d; fr_ready := fr_ready r ++ delivered new |}, b, feedback_of new).
Proof.
  intros Hp Hd. destruct (coded_parse_type _ _ Hp) as (h & Hh & Ht). unfold process_one.
  rw datagram_events_spec (packet_parse_dispatch raw h PtCoded) // Hp /= Hd /=. rw take_events_spec. by eexists.
Qed.

(** ** The receiver's half of the invariant *)
Lemma dec_session_mono disp {P} `{FeedbackPolicy P} f sz src U U' Q d srcs evs out : U ⊆ U' →
  dec_session disp f sz src U Q d srcs evs out → dec_session (H := H) disp f sz src U' Q d srcs evs out.
Proof.
  intros HU. induction 1 as [config policy Hf Hs|d srcs evs out pkt d' new _ IH (Hp & Hid & Hor) Hstep
    |d srcs evs out pkt d' new _ IH HQ [Hh [Hnd Hsub Hids Hc]] Hstep].
  - by constructor.
  - eapply dec_source; [done| |done]. split_and!; [done|by apply HU|done].
  - eapply dec_coded; [done|done| |done]. split; [done|]. constructor; try done. by intros x Hx%Hsub%HU.
Qed.

Section receiver.
Context (disp : Dispatch) {P : Type} `{FeedbackPolicy P}.
Context (f : Field) (sz : nat) (src : Z → bytes) (max : Z).
Hypothesis Hsrc : ∀ id, symbol sz (src id).
Implicit Types d : Decoder P.

Record receiver_inv (m : Z) d (srcs : list Z) (vs : list EncodingVector) (evs : list DecoderEvent) : Prop := {
  ri_session : dec_session disp f sz src (session_ids m) has_room d srcs vs evs;
  ri_rows : dm_max_rows (de_matrix d) = max;
  ri_buffer : buffer_known d;
  ri_ready : ∀ id data, SourceReady id data ∈ evs → is_known d id;
  ri_gap : no_gap evs;
  ri_win : ∀ x, 0 ≤ x < de_encoder_win_min d → is_known d x;
}.

Lemma receiver_inv_mono m m' d srcs vs evs : m ≤ m' → receiver_inv m d srcs vs evs → receiver_inv m' d srcs vs evs.
Proof.
  intros Hm []. constructor; try done. eapply dec_session_mono; [|done].
  intros x. unfold session_ids. rw !elem_of_seqZ. lia.
Qed.

Lemma receiver_session_inv m d srcs vs evs : m ≤ 65536 → receiver_inv m d srcs vs evs →
  session_inv f sz src (session_ids m) d srcs vs evs.
Proof.
  intros Hm [Hs _ _ _ _ _].
  eapply dec_session_inv; [done|apply NoDup_seqZ|by apply session_ids_range|done].
Qed.

(** Everything below the delivery pointer is known. *)
Lemma below_known m d srcs vs evs x : m ≤ 65536 → receiver_inv m d srcs vs evs →
  0 ≤ x < next_delivery_id d → is_known d x.
Proof.
  intros Hm Hr Hx. destruct (receiver_session_inv _ _ _ _ _ Hm Hr) as [_ _ _ Hids _ _ _].
  destruct Hr as [_ _ _ Hready Hgap _]. assert (x ∈ events_ids evs) as Hin by (rw Hids; apply elem_of_seqZ; unfold next_delivery_id in Hx; lia).
  unfold events_ids in Hin. apply list_elem_of_In, in_concat in Hin as (l & Hl%list_elem_of_In & Hxl%list_elem_of_In).
  apply list_elem_of_fmap in Hl as (ev & -> & Hev). unfold no_gap in Hgap. rw Forall_forall in Hgap.
  specialize (Hgap ev Hev). destruct ev as [id data|raw|a n]; cbn in Hxl, Hgap; [|by apply elem_of_nil in Hxl|done].
  apply list_elem_of_singleton in Hxl as ->. by apply (Hready id data).
Qed.

Lemma receiver_pointer m d srcs vs evs : 0 ≤ m ≤ 65536 → receiver_inv m d srcs vs evs →
  0 ≤ next_delivery_id d ≤ m.
Proof.
  intros Hm Hr. pose proof (below_known m d srcs vs evs (next_delivery_id d - 1) ltac:(lia) Hr) as Hk.
  destruct (receiver_session_inv m d srcs vs evs ltac:(lia) Hr) as [Hd _ _ _ Hn _ _].
  unfold next_delivery_id in *. split; [done|].
  destruct (decide (sb_next_delivery_id (de_buffer d) = 0)) as [->|]; [lia|].
  destruct Hk as [data Hk]; [lia|]. apply (dk_known _ _ _ _ _ Hd) in Hk as [_ Hin].
  cbn in Hin. apply elem_of_seqZ in Hin. lia.
Qed.

Lemma known_submitted m d srcs vs evs x : m ≤ 65536 → receiver_inv m d srcs vs evs →
  is_known d x → 0 ≤ x < m ∧ de_known d !! x = Some (src x).
Proof.
  intros Hm Hr [data Hk]. destruct (receiver_session_inv _ _ _ _ _ Hm Hr) as [Hd _ _ _ _ _ _].
  destruct (dk_known _ _ _ _ _ Hd _ _ Hk) as [Hdata Hin]. cbn in Hdata, Hin. subst data.
  apply elem_of_seqZ in Hin. split; [lia|done].
Qed.

(** A packet arrives: what it changes. *)
Record arrival m d srcs vs evs d' (new : list DecoderEvent) : Prop := {
  av_inv : receiver_inv m d' srcs vs (evs ++ new);
  av_known : ∀ x, is_known d x → is_known d' x;
  av_report : ∀ raw, raw ∈ feedback_of new → ∃ pkt, raw = fb_serialise pkt ∧ ack_report d' pkt;
}.

Lemma arrival_inv m d srcs vs evs d' new srcs' vs' : receiver_inv m d srcs vs evs →
  dec_session disp f sz src (session_ids m) has_room d' srcs' vs' (evs ++ new) →
  step_ok f sz src (session_ids m) d d' new → reports d' new →
  (∀ x, 0 ≤ x < de_encoder_win_min d' → is_known d' x) → arrival m d srcs' vs' evs d' new.
Proof.
  intros [Hs Hrows Hb Hready Hgap Hwin] Hs' [Hok Hmax Hk _ _ _] [Rb Rr Rg Rf] Hw.
  constructor; [constructor; [done|by rw Hmax|done| | |done]|done|].
  - intros id data [Hin|Hin]%elem_of_app; [|by apply (Rr id data)]. by apply Hk, (Hready id data).
  - by apply Forall_app_2.
  - intros raw (ev & Hev & Heq)%list_elem_of_omap. destruct ev as [| |]; try done.
    injection Heq as ->. by apply Rf.
Qed.

Lemma source_arrives m d srcs vs evs p : 0 ≤ m ≤ 65536 → receiver_inv m d srcs vs evs →
  source_packet_ok src (session_ids m) d vs p →
  ∃ d' new, handle_source disp d p = Ok (d', new) ∧
    arrival m d (Source.source_symbol_id p :: srcs) vs evs d' new.
Proof.
  intros Hm Hr Hp. pose proof (session_ids_range m ltac:(lia)) as Hrange. pose proof (NoDup_seqZ 0 m) as Hnd.
  destruct (receiver_session_inv m d srcs vs evs ltac:(lia) Hr) as [Hd Hu _ _ Hn _ _].
  pose proof (source_packet_zero f sz src (session_ids m) d vs p Hd Hu Hp) as Hor.
  pose proof Hp as (Hpay & HidU & _).
  destruct (source_step disp f sz src (session_ids m) Hsrc Hnd Hrange d p) as (d' & new & Hstep & Hst & _); [done..|].
  exists d', new. split; [done|]. pose proof Hr as [Hs _ Hb _ _ Hwin].
  apply arrival_inv with srcs vs; [done|by eapply dec_source|done| |].
  - by eapply (source_reports disp f sz src (session_ids m) Hsrc Hnd Hrange).
  - apply source_finished in Hstep as [-> _ _]; [|done]. intros x Hx. by apply Hst, Hwin.
Qed.

Lemma coded_arrives m d srcs vs evs p : 0 ≤ m ≤ 65536 → receiver_inv m d srcs vs evs → has_room d →
  coded_packet_ok f sz src (session_ids m) p →
  (∀ x y, head (ev_source_ids (Coded.ev p)) = Some y → 0 ≤ x < y → is_known d x) →
  ∃ d' new, handle_coded disp d p = Ok (d', new) ∧ arrival m d srcs (Coded.ev p :: vs) evs d' new.
Proof.
  intros Hm Hr Hroom Hp Hhead. pose proof (session_ids_range m ltac:(lia)) as Hrange. pose proof (NoDup_seqZ 0 m) as Hnd.
  destruct (receiver_session_inv m d srcs vs evs ltac:(lia) Hr) as [Hd _ _ _ Hn _ _]. pose proof Hp as [Hh Hu].
  destruct (coded_step disp f sz src (session_ids m) Hsrc Hnd Hrange d p) as (d' & new & Hstep & Hst & _); [done..|].
  exists d', new. split; [done|]. pose proof Hr as [Hs _ Hb _ _ Hwin].
  assert (∀ x, 0 ≤ x < window_min (de_encoder_win_min d) (ev_source_ids (Coded.ev p)) → is_known d x) as Hw.
  { intros x Hx. unfold window_min in Hx. destruct (ev_source_ids (Coded.ev p)) as [|y l]; [by apply Hwin|].
    destruct (de_encoder_win_min d <? y); [by apply (Hhead x y)|by apply Hwin]. }
  apply arrival_inv with srcs vs; [done|by eapply dec_coded|done| |].
  - by eapply (coded_reports disp f sz src (session_ids m) Hsrc Hnd Hrange).
  - apply coded_finished in Hstep as (-> & _ & _); [|done]. intros x Hx. by apply Hst, Hw.
Qed.

(** What the encoder may conclude from a window update. *)
Definition report_ok `{HeaderCast} d (raw : bytes) : Prop :=
  ∃ pkt, fb_parse raw = Ok pkt ∧ is_u32 (fb_first_src_id pkt) ∧
    Forall (λ id, 0 ≤ id < 4294967295) (acked_ids pkt) ∧
    ∀ x, 0 ≤ x → x < fb_first_src_id pkt ∨ x ∈ acked_ids pkt → is_known d x.

Lemma report_ok_mono `{HeaderCast} d d' raw : (∀ x, is_known d x → is_known d' x) → report_ok d raw → report_ok d' raw.
Proof. intros Hk (pkt & ? & ? & ? & Hall). exists pkt. split_and!; auto. Qed.

Lemma arrival_report `{HeaderCastLaw} m d srcs vs evs d' new unknown raw : 0 ≤ m ≤ 65536 →
  arrival m d srcs vs evs d' new → raw ∈ feedback_of new →
  (∀ x, 0 ≤ x < m → ¬ is_known d' x → x ∈ unknown) → (length unknown ≤ 255)%nat → report_ok d' raw.
Proof.
  intros Hm [Hinv _ Hrep] Hraw Hunk Hlen. destruct (Hrep raw Hraw) as (pkt & -> & Har). exists pkt.
  destruct (receiver_session_inv m d' srcs vs (evs ++ new) ltac:(lia) Hinv) as [Hd _ _ _ _ _ _].
  eapply (report_read d' pkt m unknown); try done.
  - apply Hinv.
  - intros x Hx. by apply (below_known m d' srcs vs (evs ++ new) x ltac:(lia) Hinv).
  - intros x Hx. by apply (dk_kept _ _ _ _ _ Hd).
  - intros x [data Hx]. apply (dk_content _ _ _ _ _ Hd) in Hx as [_ Hin%elem_of_seqZ]. lia.
  - by eapply receiver_pointer.
  - lia.
Qed.
End receiver.

Section loop.
Context (disp disp' : Dispatch) {W C F P : Type}.
Context `{WindowPolicyLaws W} `{!ReleaseLaws W} `{CongestionLaws C} `{!FecRateController F} `{!FecLaws F}.
Context `{FeedbackPolicy P} `{HeaderCastLaw}.
Context {Addr : Type} (addr_to_receiver_id : Addr → Z).
Context (src : Z → bytes) (config : EncoderConfig) (dconfig : DecoderConfig).

(** ** The system *)
Record World := {
  wo_sender : Encoder W C F;
  wo_receiver : FecReceiver P;
  wo_wire : list EncoderOutput;   (** every packet the sender has emitted *)
  wo_arrived : list EncoderOutput;  (** what has arrived, in order *)
  wo_reports : list bytes;        (** every window update the receiver has sent *)
  wo_taken : list (Z * bytes);    (** what the application has taken *)
}.
Implicit Types (w : World) (e : Encoder W C F).

Local Abbreviation sender w := (wo_sender w).
Local Abbreviation decoder w := (fr_decoder (wo_receiver w)).
Definition submitted w : Z := w_next_id (en_window (sender w)).

(** The only ordering the channel keeps. *)
Definition in_front w (o : EncoderOutput) : Prop :=
  match o with
  | OutSource pkt => ∀ p, Source.parse pkt = Ok p →
      ¬ covered (Source.source_symbol_id p) (sent_vectors (wo_arrived w)) ∨
      is_known (decoder w) (Source.source_symbol_id p)
  | OutCoded _ => True
  end.

(** After a call of the sender; after a datagram arrived. *)
Definition with_sender w e (new : list EncoderOutput) : World :=
  {| wo_sender := e; wo_receiver := wo_receiver w; wo_wire := wo_wire w ++ new;
     wo_arrived := wo_arrived w; wo_reports := wo_reports w; wo_taken := wo_taken w |}.
Definition arrive w o (r : FecReceiver P) (sent : list bytes) : World :=
  {| wo_sender := sender w; wo_receiver := r; wo_wire := wo_wire w; wo_arrived := wo_arrived w ++ [o];
     wo_reports := wo_reports w ++ sent; wo_taken := wo_taken w |}.

Inductive step : World → World → Prop :=
| step_submit w e new :
    submitted w < 65536 → submit_source disp (sender w) (src (submitted w)) = Ok (e, new) →
    step w (with_sender w e new)
| step_coded w e pkt :
    generate_coded disp (sender w) = Ok (e, Some pkt) →
    step w (with_sender w e [pkt])
| step_arrive w o r b sent :
    o ∈ wo_wire w → in_front w o → process_one disp' (wo_receiver w) (raw_of o) = Ok (r, b, sent) →
    step w (arrive w o r sent)
| step_report w addr raw e :
    raw ∈ wo_reports w → absorb_feedback addr_to_receiver_id (sender w) (addr, raw) = Ok e →
    step w {| wo_sender := e; wo_receiver := wo_receiver w; wo_wire := wo_wire w;
              wo_arrived := wo_arrived w; wo_reports := wo_reports w; wo_taken := wo_taken w |}
| step_take w r sym :
    try_recv_source (wo_receiver w) = (r, Some sym) →
    step w {| wo_sender := sender w; wo_receiver := r; wo_wire := wo_wire w;
              wo_arrived := wo_arrived w; wo_reports := wo_reports w;
              wo_taken := wo_taken w ++ [sym] |}.

(** The steps as a program: what a schedule asks for, by position. *)
Inductive action : Type :=
| Submit | Code | Arrive (k : nat) | Report (addr : Addr) (k : nat) | Take.

Definition in_frontb w (o : EncoderOutput) : bool :=
  match o with
  | OutSource pkt =>
      match Source.parse pkt with
      | Ok p =>
          let id := Source.source_symbol_id p in
          negb (existsb (λ ev, bool_decide (id ∈ ev_source_ids ev)) (sent_vectors (wo_arrived w)))
          || bool_decide (is_Some (de_known (decoder w) !! id))
      | _ => true
      end
  | OutCoded _ => true
  end.

Definition act (a : action) w : option World :=
  match a with
  | Submit =>
      if submitted w <? 65536 then
        match submit_source disp (sender w) (src (submitted w)) with
        | Ok (e, new) => Some (with_sender w e new)
        | _ => None
        end
      else None
  | Code =>
      match generate_coded disp (sender w) with
      | Ok (e, Some o) => Some (with_sender w e [o])
      | _ => None
      end
  | Arrive k =>
      o ← wo_wire w !! k;
      if in_frontb w o then
        match process_one disp' (wo_receiver w) (raw_of o) with
        | Ok (r, _, sent) => Some (arrive w o r sent)
        | _ => None
        end
      else None
  | Report addr k =>
      raw ← wo_reports w !! k;
      match absorb_feedback addr_to_receiver_id (sender w) (addr, raw) with
      | Ok e => Some {| wo_sender := e; wo_receiver := wo_receiver w; wo_wire := wo_wire w;
                        wo_arrived := wo_arrived w; wo_reports := wo_reports w; wo_taken := wo_taken w |}
      | _ => None
      end
  | Take =>
      match try_recv_source (wo_receiver w) with
      | (r, Some sym) => Some {| wo_sender := sender w; wo_receiver := r; wo_wire := wo_wire w;
                                 wo_arrived := wo_arrived w; wo_reports := wo_reports w;
                                 wo_taken := wo_taken w ++ [sym] |}
      | _ => None
      end
  end.
Fixpoint run (l : list action) w : option World :=
  match l with [] => Some w | a :: l => w ← act a w; run l w end.

Lemma coveredb_spec x evs : existsb (λ ev, bool_decide (x ∈ ev_source_ids ev)) evs = true ↔ covered x evs.
Proof.
  rw existsb_exists. split; intros (ev & Hev & Hin); exists ev.
  - split; [by apply list_elem_of_In|by apply bool_decide_eq_true in Hin].
  - split; [by apply list_elem_of_In|by apply bool_decide_eq_true].
Qed.

Lemma in_frontb_spec w o : in_frontb w o = true ↔ in_front w o.
Proof.
  unfold in_frontb, in_front. destruct o as [pkt|]; [|done].
  destruct (Source.parse pkt) as [p| |] eqn:Hp; [|done..].
  rw orb_true_iff negb_true_iff -not_true_iff_false coveredb_spec bool_decide_eq_true.
  split; [by intros Hor _ [= <-]|by intros Hf; apply Hf].
Qed.

Lemma act_sound a w w' : act a w = Some w' → step w w'.
Proof.
  destruct a as [| |k|addr k|]; cbn [act].
  - destruct (Z.ltb_spec (submitted w) 65536); [|done].
    destruct (submit_source disp (sender w) _) as [[e new]| |] eqn:Hs; [|done..]. intros [= <-].
    by apply step_submit.
  - destruct (generate_coded disp (sender w)) as [[e [o|]]| |] eqn:Hg; try done. intros [= <-]. by apply step_coded.
  - intros (o & Ho & Ha)%bind_Some. destruct (in_frontb w o) eqn:Hf; [|done].
    destruct (process_one disp' _ _) as [[[r b] sent]| |] eqn:Hp; [|done..]. injection Ha as <-.
    apply (step_arrive w o r b sent); [by eapply list_elem_of_lookup_2|by apply in_frontb_spec|done].
  - intros (raw & Hr & Ha)%bind_Some. destruct (absorb_feedback _ _ _) as [e| |] eqn:Hw; [|done..].
    injection Ha as <-. apply (step_report w addr raw); [by eapply list_elem_of_lookup_2|done].
  - destruct (try_recv_source (wo_receiver w)) as [r [sym|]] eqn:Ht; [|done]. intros [= <-]. by apply step_take.
Qed.

Lemma act_complete w w' : step w w' → ∃ a, act a w = Some w'.
Proof.
  destruct 1 as [w e new Hn Hs|w e pkt Hg|w o r b sent Ho Hf Hp|w addr raw e Hr Hw|w r sym Ht].
  - exists Submit. cbn [act]. rw (proj2 (Z.ltb_lt _ _)) // Hs //.
  - exists Code. cbn [act]. by rw Hg.
  - apply list_elem_of_lookup in Ho as [k Hk]. exists (Arrive k). cbn [act]. rw Hk /= (proj2 (in_frontb_spec w o)) // Hp //.
  - apply list_elem_of_lookup in Hr as [k Hk]. exists (Report addr k). cbn [act]. rw Hk /= Hw //.
  - exists Take. cbn [act]. by rw Ht.
Qed.

Definition world_new (wp : W) (cc : C) (fec : F) (policy : P) : World :=
  {| wo_sender := encoder_new config wp cc fec;
     wo_receiver := receiver_new (decoder_new dconfig policy);
     wo_wire := []; wo_arrived := []; wo_reports := []; wo_taken := [] |}.

(** The two ends fit each other, and the matrix has a row for every symbol of
    the window. *)
Record loop_config : Prop := {
  lc_config : encoder_config_ok config;
  lc_window : ec_window_capacity config < 256;
  lc_reject : ec_backpressure config = Reject;
  lc_matching : matching config dconfig;
  lc_rows : ec_window_capacity config < dc_max_matrix_rows dconfig;
  lc_src : ∀ id, symbol (sym_size config) (src id);
}.

Inductive reachable : World → Prop :=
| reach_new wp cc fec policy : release_ok wp → fec_ok fec → reachable (world_new wp cc fec policy)
| reach_step w w' : reachable w → step w w' → reachable w'.

Lemma run_reachable l w w' : run l w = Some w' → reachable w → reachable w'.
Proof.
  revert w. induction l as [|a l IH]; intros w; cbn [run]; [by intros [= <-]|].
  intros (w1 & Ha & Hr)%bind_Some Hw. apply (IH w1 Hr), (reach_step w); [done|by eapply act_sound].
Qed.

(** ** The sender's half of the invariant

    [K]: what the receiver knows. *)
Definition head_known (K : Z → Prop) (o : EncoderOutput) : Prop :=
  match o with
  | OutSource _ => True
  | OutCoded pkt => ∀ p, Coded.parse pkt = Ok p →
      ∀ x y, head (ev_source_ids (Coded.ev p)) = Some y → 0 ≤ x < y → K x
  end.

Record sender_inv (K : Z → Prop) (e : Encoder W C F) (wire : list EncoderOutput) : Prop := {
  se_session : enc_session disp src e wire;
  se_config : en_config e = config;
  se_policy : release_ok (en_window_policy e);
  se_acks : ack_state_ok (en_ack_state e);
  se_acked : ∀ rid x, 0 ≤ x → ack_is_acked (en_ack_state e) rid x = true → K x;
  se_window : ∀ x, 0 ≤ x < w_next_id (en_window e) → x ∈ id_slice (en_window e) ∨ K x;
  se_wire : ∀ o, o ∈ wire → head_known K o;
}.

Lemma sender_inv_mono (K K' : Z → Prop) e wire : (∀ x, K x → K' x) → sender_inv K e wire → sender_inv K' e wire.
Proof.
  intros HK []. constructor; try done.
  - intros rid x Hx Ha. by eapply HK, se_acked0.
  - intros x Hx. destruct (se_window0 x Hx); auto.
  - intros [pkt|pkt] Ho; [done|]. intros p Hp x y Hy Hx. by apply HK, (se_wire0 _ Ho p Hp x y).
Qed.

Lemma full_window_known K e o : encoder_ok src e →
  (∀ x, 0 ≤ x < w_next_id (en_window e) → x ∈ id_slice (en_window e) ∨ K x) →
  full_cover (id_slice (en_window e)) o → head_known K o.
Proof.
  intros He Hw. destruct o as [|pkt]; [done|]. intros (p & Hp & Hids) p' Hp' x y Hy Hx.
  rw Hp in Hp'. injection Hp' as <-. rw Hids in Hy. destruct (eok_window _ _ He) as [_ Hs Hb _].
  destruct (id_slice (en_window e)) as [|z l]; [done|]. injection Hy as ->.
  apply Forall_cons in Hb as [Hb _]. destruct (Hw x) as [Hin|]; [lia| |done]. exfalso.
  apply StronglySorted_inv in Hs as [_ Hs]. rw Forall_forall in Hs.
  apply elem_of_cons in Hin as [->|Hin]; [lia|]. specialize (Hs x Hin). lia.
Qed.

Lemma wire_app (K : Z → Prop) wire new :
  (∀ o, o ∈ wire → head_known K o) → Forall (head_known K) new → ∀ o, o ∈ wire ++ new → head_known K o.
Proof. intros Hw Hn o [|Ho]%elem_of_app; [by apply Hw|]. rw Forall_forall in Hn. by apply Hn. Qed.

Lemma sender_submit K e wire e' new : ec_backpressure config = Reject → sender_inv K e wire →
  w_next_id (en_window e) < 65536 →
  submit_source disp e (src (w_next_id (en_window e))) = Ok (e', new) →
  sender_inv K e' (wire ++ new) ∧ w_next_id (en_window e') = w_next_id (en_window e) + 1.
Proof.
  intros Hrej [Hs Hc Hpol Hacks Hacked Hwin Hwire] Hn Hsub.
  pose proof (enc_session_inv disp src e wire Hs) as [He Hcap Hsrc Hnext _].
  destruct (make_room e) as [e1|err|] eqn:Hroom.
  2,3: exfalso; unfold submit_source in Hsub; case_match; [done|];
    change (if window_is_full (en_window e) then _ else _) with (make_room e) in Hsub; by rw Hroom in Hsub.
  assert (e1 = e) as ->.
  { unfold make_room in Hroom. rw Hc Hrej in Hroom. case_match; [done|]. by injection Hroom as <-. }
  destruct (submit_source_ok disp src e e) as (e2 & pkt & codeds & Hs2 & He2 & Hc2 & Hn2 & Hids & _ & Hh);
    [done..|lia|apply (session_narrow src); [done|lia]|].
  rw Hs2 in Hsub. injection Hsub as <- <-. destruct (submit_same disp _ _ _ _ Hs2) as [Ha Hp].
  assert (∀ x, 0 ≤ x < w_next_id (en_window e2) → x ∈ id_slice (en_window e2) ∨ K x) as Hw2.
  { intros x Hx. rw Hids elem_of_app list_elem_of_singleton.
    destruct (decide (x = w_next_id (en_window e))) as [|Hne]; [by left; right|].
    destruct (Hwin x) as [|]; [lia|by left; left|by right]. }
  split; [|done]. constructor; rw ?Hc2 ?Ha ?Hp; try done; [by eapply session_submit|].
  apply wire_app; [done|]. constructor; [done|]. eapply Forall_impl; [exact Hh|].
  intros o [Ho _]. by apply (full_window_known K e2).
Qed.

Lemma sender_coded K e wire e' o : sender_inv K e wire → generate_coded disp e = Ok (e', Some o) →
  sender_inv K e' (wire ++ [o]) ∧ en_window e' = en_window e ∧
  next_coded e (id_slice (en_window e)) o ∧ honest_output src config (id_slice (en_window e)) o.
Proof.
  intros [Hs Hc Hpol Hacks Hacked Hwin Hwire] Hg.
  pose proof (enc_session_inv disp src e wire Hs) as Hi. pose proof (session_fits _ _ _ Hi) as Hfit.
  destruct Hi as [He Hcap Hsrc Hnext _].
  assert (w_symbols (en_window e) ≠ []) as Hne.
  { apply window_is_empty_spec. unfold generate_coded in Hg. by destruct (window_is_empty _). }
  destruct (generate_coded_ok disp src e) as (e1 & o1 & Hg1 & He1 & Hw1 & Hc1 & Hco & Hh); [done..|].
  rw Hg1 in Hg. injection Hg as <- <-. destruct (generate_coded_state disp _ _ _ Hg1) as (_ & _ & [Ha Hp]).
  split; [|split_and!; [done|done|by rw -Hc]].
  constructor; rw ?Hc1 ?Ha ?Hp ?Hw1; try done; [by eapply session_coded|].
  apply wire_app; [done|]. constructor; [|done]. apply (full_window_known K e); [done|done|].
  by eapply next_coded_full.
Qed.

Lemma sender_report (d : Decoder P) e wire addr raw : sender_inv (is_known d) e wire → report_ok (P := P) d raw →
  ∃ e', absorb_feedback addr_to_receiver_id e (addr, raw) = Ok e' ∧ sender_inv (is_known d) e' wire ∧
    w_next_id (en_window e') = w_next_id (en_window e).
Proof.
  intros [Hs Hc Hpol Hacks Hacked Hwin Hwire] (pkt & Hp & Hf & Hids & Hk).
  pose proof (enc_session_inv disp src e wire Hs) as [He _ _ _ _]. set (rid := addr_to_receiver_id addr).
  destruct (handle_feedback_ok src e rid pkt He) as (e' & Hfb & He' & Hc' & Hn' & Ha' & removed & Hrm & Hw').
  exists e'. split; [unfold absorb_feedback; cbn [feedback_datagram fst snd]; by rw Hp Hfb|].
  destruct (ack_update_acks (en_ack_state e) rid pkt Hacks Hf Hids) as (Hok & _ & Hmine & Hothers).
  destruct (release_acked _ _ _ _ _ Hpol Hrm) as [Hpol' Hrem].
  assert (∀ r x, 0 ≤ x → ack_is_acked (ack_update (en_ack_state e) rid pkt) r x = true → is_known d x) as Hnew.
  { intros r x Hx Ha. destruct (decide (r = rid)) as [->|Hne].
    - apply Hmine in Ha as [Ha|Ha]; [by apply (Hacked rid)|by apply Hk|done].
    - rw Hothers // in Ha. by apply (Hacked r). }
  split; [|done]. constructor; rw ?Hc' ?Ha' ?Hn'; try done; [by eapply session_feedback|].
  intros x Hx. destruct (Hwin x Hx) as [Hin|]; [|by right].
  destruct (decide (x ∈ removed)) as [Hr|Hr].
  - right. apply Hrem in Hr as [r Hr]. apply (Hnew r); [lia|done].
  - left. apply list_elem_of_fmap in Hin as (s & -> & Hs'). apply list_elem_of_fmap.
    exists s. split; [done|]. rw Hw'. by apply list_elem_of_filter.
Qed.

(** ** The whole system *)
Local Abbreviation receiver_ok m d arrived evs :=
  (receiver_inv disp' (ec_field config) (sym_size config) src (dc_max_matrix_rows dconfig) m d
     (rev (sent_source_ids arrived)) (rev (sent_vectors arrived)) evs).

Record loop_inv w (evs : list DecoderEvent) : Prop := {
  li_sender : sender_inv (is_known (decoder w)) (sender w) (wo_wire w);
  li_receiver : receiver_ok (submitted w) (decoder w) (wo_arrived w) evs;
  li_arrived : wo_arrived w ⊆ wo_wire w;
  li_reports : ∀ raw, raw ∈ wo_reports w → report_ok (decoder w) raw;
  li_queue : wo_taken w ++ fr_ready (wo_receiver w) = delivered evs;
}.

Section invariant.
Hypothesis Hcfg : loop_config.

Lemma submitted_range w evs : loop_inv w evs → 0 ≤ submitted w ≤ 65536.
Proof.
  intros [[Hs _ _ _ _ _ _] _ _ _ _]. destruct (enc_session_inv disp src _ _ Hs) as [He _ _ Hn _].
  pose proof (wo_next _ (eok_window _ _ He)) as Hu. unfold is_u32 in Hu. unfold submitted. lia.
Qed.

Lemma window_small w evs : loop_inv w evs →
  (length (id_slice (en_window (sender w))) ≤ 255)%nat ∧
  Z.of_nat (length (id_slice (en_window (sender w)))) < dc_max_matrix_rows dconfig.
Proof.
  intros [[Hs Hc _ _ _ _ _] _ _ _ _]. destruct (enc_session_inv disp src _ _ Hs) as [He Hcap _ _ _].
  pose proof (eok_capacity _ _ He) as Hl. rw Hc in Hl Hcap. unfold id_slice, window_len in *. rw length_fmap.
  pose proof (lc_rows Hcfg). lia.
Qed.

Lemma unknown_in_window w evs x : loop_inv w evs → 0 ≤ x < submitted w → ¬ is_known (decoder w) x →
  x ∈ id_slice (en_window (sender w)).
Proof. intros [[_ _ _ _ _ Hw _] _ _ _ _] Hx Hn. by destruct (Hw x Hx). Qed.

Lemma loop_room w evs : loop_inv w evs → has_room (decoder w).
Proof.
  intros Hi. pose proof (submitted_range w evs Hi) as Hm. destruct (window_small w evs Hi) as [_ Hlen].
  pose proof (li_receiver _ _ Hi) as Hr. pose proof (lc_src Hcfg) as Hsrc.
  destruct (receiver_session_inv disp' (ec_field config) (sym_size config) src (dc_max_matrix_rows dconfig) Hsrc
    (submitted w) (decoder w) (rev (sent_source_ids (wo_arrived w))) (rev (sent_vectors (wo_arrived w))) evs
    ltac:(lia) Hr) as [Hd Hu _ _ _ _ Hus].
  pose proof (dk_rows _ _ _ _ _ Hd) as Hrows. unfold has_room. rw (ri_rows _ _ _ _ _ _ _ _ _ _ Hr).
  assert (row_count (de_matrix (decoder w)) ≤ length (id_slice (en_window (sender w))))%nat; [|lia].
  unfold row_count. rw -length_bt_keys. apply submseteq_length, NoDup_submseteq; [apply bt_keys_NoDup|].
  intros k Hk%elem_of_bt_keys.
  assert (∀ x, zero_at (dm_rows (de_matrix (decoder w))) x → k ≠ x) as Hz.
  { intros x Hx ->. rw (zero_not_key _ _ _ _ _ _ Hrows Hx) in Hk. by destruct Hk. }
  apply (unknown_in_window w evs); [done| |].
  - destruct (decide (Exists (λ ev, k ∈ ev_source_ids ev) (rev (sent_vectors (wo_arrived w))))) as [Hex|Hn].
    + apply Exists_exists in Hex as (ev & Hev & Hin). destruct (Hus ev Hev) as [[_ Hsub _ _] _].
      apply Hsub, elem_of_seqZ in Hin. lia.
    + exfalso. apply (Hz k); [|done]. apply Hu. intros (ev & ? & ?). apply Hn, Exists_exists. by exists ev.
  - intros Hkn. apply (Hz k); [|done]. by apply (dk_zero _ _ _ _ _ Hd).
Qed.

Lemma wire_honest w evs o : loop_inv w evs → o ∈ wo_wire w →
  honest_output src config (seqZ 0 (submitted w)) o.
Proof.
  intros [[Hs Hc _ _ _ _ _] _ _ _ _] Ho. destruct (enc_session_inv disp src _ _ Hs) as [_ _ _ _ Hem].
  destruct (emission_honest src _ 0 _ _ ltac:(lia) Hem) as [_ Hall]. rw Forall_forall in Hall.
  rw -Hc. by apply Hall.
Qed.

Lemma arrive_inv w evs o d' new : loop_inv w evs → o ∈ wo_wire w →
  arrival disp' (ec_field config) (sym_size config) src (dc_max_matrix_rows dconfig) (submitted w) (decoder w)
    (rev (sent_source_ids (wo_arrived w ++ [o]))) (rev (sent_vectors (wo_arrived w ++ [o]))) evs d' new →
  loop_inv (arrive w o {| fr_decoder := d'; fr_ready := fr_ready (wo_receiver w) ++ delivered new |}
    (feedback_of new)) (evs ++ new).
Proof.
  intros Hi Ho Hav. pose proof (submitted_range w evs Hi) as Hm. pose proof (lc_src Hcfg) as Hsrc.
  destruct (window_small w evs Hi) as [Hlen _]. pose proof Hi as [Hs Hr Ha Hrep Hq].
  pose proof (av_known _ _ _ _ _ _ _ _ _ _ _ _ Hav) as Hk.
  constructor; cbn [arrive wo_sender wo_receiver wo_wire wo_arrived wo_reports wo_taken fr_decoder fr_ready].
  - by eapply sender_inv_mono.
  - by apply Hav.
  - intros x [Hx|Hx%list_elem_of_singleton]%elem_of_app; [by apply Ha|by subst].
  - intros raw [Hx|Hx]%elem_of_app; [by eapply report_ok_mono, Hrep|].
    eapply (arrival_report disp' (ec_field config) (sym_size config) src (dc_max_matrix_rows dconfig) Hsrc);
      [exact Hm|exact Hav|done| |exact Hlen].
    intros x Hx' Hn. apply (unknown_in_window w evs); [done|done|]. intros Hkn. by apply Hn, Hk.
  - by rw app_assoc Hq delivered_app.
Qed.

Lemma arrive_ok w evs o : loop_inv w evs → o ∈ wo_wire w → in_front w o →
  ∃ r b sent new, process_one disp' (wo_receiver w) (raw_of o) = Ok (r, b, sent) ∧
    loop_inv (arrive w o r sent) (evs ++ new) ∧ ∀ x, is_known (decoder w) x → is_known (fr_decoder r) x.
Proof.
  intros Hi Ho Hfront. pose proof (submitted_range w evs Hi) as Hm. pose proof (lc_src Hcfg) as Hsrc.
  pose proof (wire_honest w evs o Hi Ho) as Hh. pose proof (li_receiver _ _ Hi) as Hr.
  assert (∀ d' new b, process_one disp' (wo_receiver w) (raw_of o)
      = Ok ({| fr_decoder := d'; fr_ready := fr_ready (wo_receiver w) ++ delivered new |}, b, feedback_of new) →
    arrival disp' (ec_field config) (sym_size config) src (dc_max_matrix_rows dconfig) (submitted w) (decoder w)
      (rev (sent_source_ids (wo_arrived w ++ [o]))) (rev (sent_vectors (wo_arrived w ++ [o]))) evs d' new →
    ∃ r b sent new, process_one disp' (wo_receiver w) (raw_of o) = Ok (r, b, sent) ∧
      loop_inv (arrive w o r sent) (evs ++ new) ∧ ∀ x, is_known (decoder w) x → is_known (fr_decoder r) x) as Hdone.
  { intros d' new b Hp Hav. eexists _, b, _, new. split; [exact Hp|]. split; [by apply arrive_inv|].
    apply (av_known _ _ _ _ _ _ _ _ _ _ _ _ Hav). }
  unfold sent_source_ids, sent_vectors in Hdone. rw !omap_app !rev_app_distr in Hdone.
  destruct o as [pkt|pkt]; destruct Hh as (p & Hp & Hh); cbn [omap list_omap rev app raw_of] in Hdone;
    rw Hp in Hdone; cbn [rev app] in Hdone.
  - destruct Hh as [Hid Hpay].
    assert (source_packet_ok src (session_ids (submitted w)) (decoder w) (rev (sent_vectors (wo_arrived w))) p) as Hok.
    { split_and!; [done|done|]. destruct (Hfront p Hp) as [Hn|]; [left|by right]. intros (ev & Hev & Hin).
      apply Hn. exists ev. by rw -elem_of_rev. }
    destruct (source_arrives disp' (ec_field config) (sym_size config) src (dc_max_matrix_rows dconfig) Hsrc
      (submitted w) _ _ _ _ p Hm Hr Hok) as (d' & new & Hstep & Hav).
    destruct (process_source disp' (wo_receiver w) pkt p d' new Hp Hstep) as [b Hb]. by apply (Hdone d' new b).
  - assert (coded_packet_ok (ec_field config) (sym_size config) src (session_ids (submitted w)) p) as Hok
      by (eapply coded_honest_usable; [|exact Hh]; lia).
    destruct (coded_arrives disp' (ec_field config) (sym_size config) src (dc_max_matrix_rows dconfig) Hsrc
      (submitted w) _ _ _ _ p Hm Hr (loop_room w evs Hi) Hok) as (d' & new & Hstep & Hav).
    { by apply (se_wire _ _ _ (li_sender _ _ Hi) _ Ho). }
    destruct (process_coded disp' (wo_receiver w) pkt p d' new Hp Hstep) as [b Hb]. by apply (Hdone d' new b).
Qed.

Lemma loop_new wp cc fec policy : release_ok wp → fec_ok fec → loop_inv (world_new wp cc fec policy) [].
Proof.
  intros Hwp Hfec. destruct Hcfg as [Hc Hw _ [Hf Hsz] _ Hsrc]. constructor; cbn; [| |done| |done].
  - constructor; cbn; try done; [by constructor|..].
    + intros x Hx. lia.
    + by intros o Ho%elem_of_nil.
  - constructor; try done.
    + apply dec_new; [done|]. rw Hsz /sym_size. destruct Hc. lia.
    + intros id. cbn. by rw lookup_empty; intros [].
    + by intros id data Hin%elem_of_nil.
    + by constructor.
    + cbn. lia.
  - by intros raw Hin%elem_of_nil.
Qed.

Lemma loop_step w w' evs : loop_inv w evs → step w w' → ∃ new, loop_inv w' (evs ++ new).
Proof.
  intros Hi Hstep. pose proof Hi as [Hs Hr Ha Hrep Hq]. pose proof (lc_src Hcfg) as Hsrc.
  destruct Hstep as [w e new Hn Hsub|w e pkt Hg|w o r b sent Ho Hf Hp|w addr raw e Hraw Hfb|w r sym Htake].
  - exists []. rw app_nil_r. destruct (sender_submit _ _ _ _ _ (lc_reject Hcfg) Hs Hn Hsub) as [Hs' Hn'].
    constructor; try done; cbn.
    + eapply receiver_inv_mono; [|exact Hr]. unfold submitted. cbn. lia.
    + intros x Hx. apply elem_of_app. left. by apply Ha.
  - exists []. rw app_nil_r. destruct (sender_coded _ _ _ _ _ Hs Hg) as (Hs' & Hw' & _).
    constructor; try done; cbn.
    + unfold submitted. cbn. by rw Hw'.
    + intros x Hx. apply elem_of_app. left. by apply Ha.
  - destruct (arrive_ok w evs o Hi Ho Hf) as (r' & b' & sent' & new & Hp' & Hi' & _).
    rw Hp' in Hp. injection Hp as <- <- <-. by exists new.
  - exists []. rw app_nil_r. destruct (sender_report _ _ _ addr raw Hs (Hrep raw Hraw)) as (e' & Hfb' & Hs' & Hn').
    rw Hfb' in Hfb. injection Hfb as <-. constructor; try done. cbn. unfold submitted. cbn. by rw Hn'.
  - exists []. rw app_nil_r. unfold try_recv_source, pop_ready in Htake.
    destruct (fr_ready (wo_receiver w)) as [|s ready] eqn:Eready; [done|]. injection Htake as <- <-.
    constructor; try done. cbn. rw -Hq -app_assoc. done.
Qed.

Lemma reachable_inv w : reachable w → ∃ evs, loop_inv w evs.
Proof.
  induction 1 as [wp cc fec policy Hwp Hfec|w w' _ [evs Hi] Hstep].
  - exists []. by apply loop_new.
  - destruct (loop_step w w' evs Hi Hstep) as [new Hi']. by exists (evs ++ new).
Qed.

(** ** Repairing losses *)

(** One more coded packet is made, and arrives. *)
Definition repair w : option World :=
  match generate_coded disp (sender w) with
  | Ok (e, Some o) =>
      match process_one disp' (wo_receiver w) (raw_of o) with
      | Ok (r, _, sent) => Some (arrive (with_sender w e [o]) o r sent)
      | _ => None
      end
  | _ => None
  end.
Fixpoint repairs (n : nat) w : option World :=
  match n with O => Some w | S n => w ← repair w; repairs n w end.

Lemma generated_in_front w e e' o w' : generate_coded disp e = Ok (e', Some o) → in_front w' o.
Proof.
  unfold generate_coded, generate_coded_inner. destruct (window_is_empty _); [done|].
  by intros ([coefs ev] & _ & ([e1 payload] & _ & (pkt & _ & [= _ <-])%bind_Ok_inv)%bind_Ok_inv)%bind_Ok_inv.
Qed.

Lemma repair_steps w w' : repair w = Some w' → ∃ w1, step w w1 ∧ step w1 w'.
Proof.
  unfold repair. destruct (generate_coded disp (sender w)) as [[e [o|]]| |] eqn:Hg; try done.
  destruct (process_one disp' (wo_receiver w) (raw_of o)) as [[[r b] sent]| |] eqn:Hp; [|done..].
  intros [= <-]. exists (with_sender w e [o]). split; [by eapply step_coded|].
  apply (step_arrive (with_sender w e [o]) o r b sent); [|by eapply generated_in_front|exact Hp].
  cbn. apply elem_of_app. right. by apply list_elem_of_singleton.
Qed.

Lemma repairs_reachable n w w' : repairs n w = Some w' → reachable w → reachable w'.
Proof.
  revert w. induction n as [|n IH]; intros w; cbn [repairs]; [by intros [= <-]|].
  intros (w1 & (w0 & Hs0 & Hs1)%repair_steps & Hr)%bind_Some Hw. apply (IH w1); [done|].
  by apply (reach_step w0), Hs1; apply (reach_step w).
Qed.

(** What the packet says of the sender that made it. *)
Record repair_vector (e : Encoder W C F) (ev : EncodingVector) : Prop := {
  rv_ids : ev_source_ids ev = id_slice (en_window e);
  rv_field : ev_field ev = ec_field config;
  rv_cauchy : ec_matrix_strategy config = Cauchy →
    cauchy_packet (ec_field config) ev ∧ ev_generation ev = en_generation e;
  rv_vandermonde : ec_matrix_strategy config = Vandermonde → vandermonde_packet (ec_field config) ev;
}.

(** [w'] is [w] after the packets [vs] arrived. *)
Record repaired w (vs : list EncodingVector) w' : Prop := {
  re_known : ∀ x, is_known (decoder w) x → is_known (decoder w') x;
  re_window : en_window (sender w') = en_window (sender w);
  re_vectors : sent_vectors (wo_arrived w') = sent_vectors (wo_arrived w) ++ vs;
  re_coded : ev_coded_id <$> vs = seqZ (en_next_coded_id (sender w)) (Z.of_nat (length vs));
  re_made : Forall (repair_vector (sender w)) vs;
}.

Lemma repair_ok w evs : loop_inv w evs → w_symbols (en_window (sender w)) ≠ [] →
  ∃ w' ev new, repair w = Some w' ∧ loop_inv w' (evs ++ new) ∧ repaired w [ev] w' ∧
    coded_state (sender w') = coded_state (advance_coded (sender w)).
Proof.
  intros Hi Hne. pose proof Hi as [Hs Hr Ha Hrep Hq]. pose proof (lc_src Hcfg) as Hsrc.
  destruct Hs as [Hses Hc Hpol Hacks Hacked Hwin Hwire].
  pose proof (enc_session_inv disp src _ _ Hses) as Hei. pose proof (session_fits _ _ _ Hei) as Hfit.
  destruct Hei as [He _ _ _ _].
  destruct (generate_coded_ok disp src (sender w)) as (e & o & Hg & _ & _ & _ & Hco & Ho);
    [by rw Hc|done..|].
  destruct (loop_step w (with_sender w e [o]) evs Hi (step_coded w e o Hg)) as [new0 Hi1].
  destruct (sender_coded _ _ _ _ _ (li_sender _ _ Hi) Hg) as (_ & Hw' & _).
  destruct (generate_coded_state disp _ _ _ Hg) as (Hstate & _ & _).
  destruct (arrive_ok (with_sender w e [o]) (evs ++ new0) o Hi1) as (r & b & sent & new & Hp & Hi2 & Hk);
    [cbn; apply elem_of_app; right; by apply list_elem_of_singleton|by eapply generated_in_front|].
  destruct o as [|pkt]; [done|]. destruct Hco as (p & Hparse & Hids & Hcid & Hgen).
  destruct Ho as (p' & Hparse' & Hh). rw Hparse in Hparse'. injection Hparse' as <-. rw Hc in Hh Hgen.
  exists (arrive (with_sender w e [OutCoded pkt]) (OutCoded pkt) r sent), (Coded.ev p), (new0 ++ new).
  unfold repair. rw Hg. cbn [with_sender wo_receiver] in Hp. rw Hp app_assoc.
  split_and!; [done|done| |done]. constructor; [done|done| | |].
  - cbn [arrive with_sender wo_arrived]. unfold sent_vectors. rw omap_app /= Hparse //.
  - by rw /= Hcid.
  - apply Forall_singleton. constructor; [done|by destruct Hh as [[]]| |by apply Hh].
    intros Hcau. split; [by apply Hh|by apply Hgen].
Qed.

(** Where the sender is in its cycle of coded IDs. *)
Lemma coded_id_offset id : coded_id_ok config id →
  0 ≤ id - first_coded_id config < coded_id_cycle config.
Proof.
  unfold coded_id_ok, first_coded_id, coded_id_cycle, cauchy_cycle.
  destruct (ec_matrix_strategy config), (ec_field config); lia.
Qed.

Lemma repairs_ok n w evs : loop_inv w evs → w_symbols (en_window (sender w)) ≠ [] →
  en_next_coded_id (sender w) + Z.of_nat n ≤ first_coded_id config + coded_id_cycle config →
  ∃ w' vs evs', repairs n w = Some w' ∧ loop_inv w' evs' ∧ length vs = n ∧ repaired w vs w'.
Proof.
  revert w evs. induction n as [|n IH]; intros w evs Hi Hne Hcyc.
  { exists w, [], evs. split_and!; [done..|]. constructor; try done. by rw app_nil_r. }
  destruct (repair_ok w evs Hi Hne) as (w1 & ev & new & Hrep & Hi1 & [Hk Hwin Hvs Hids Hmade] & Hst).
  pose proof (li_sender _ _ Hi) as [Hses Hc _ _ _ _ _].
  destruct (enc_session_inv disp src _ _ Hses) as [He _ _ _ _].
  pose proof (eok_coded _ _ He) as Hid. rw Hc in Hid. apply coded_id_offset in Hid.
  destruct (advance_coded_step (sender w) (en_next_coded_id (sender w) - first_coded_id config))
    as (_ & Hnext & Hgen); [by rw Hc|rw Hc; lia|by apply He|].
  injection Hst as Hn1 _ Hg1. rw Hc in Hnext Hgen. rw -Hn1 in Hnext. rw -Hg1 in Hgen.
  destruct (IH w1 _ Hi1) as (w' & vs & evs' & Hreps & Hi' & Hlen & [Hk' Hwin' Hvs' Hids' Hmade']).
  { by rw Hwin. } { rw Hnext. destruct (Z.eqb_spec (en_next_coded_id (sender w) - first_coded_id config + 1) (coded_id_cycle config)); lia. }
  exists w', (ev :: vs), evs'. cbn [repairs]. rw Hrep.
  split_and!; [done|done|by cbn; rw Hlen|].
  assert (n = 0%nat ∨ (en_next_coded_id (sender w1) = en_next_coded_id (sender w) + 1 ∧
    en_generation (sender w1) = en_generation (sender w))) as Hor.
  { destruct n; [by left|right]. rw Hnext Hgen.
    destruct (Z.eqb_spec (en_next_coded_id (sender w) - first_coded_id config + 1) (coded_id_cycle config));
      cbn [andb]; [exfalso; lia|split; [lia|done]]. }
  injection Hids as Hid0. constructor; [by auto|by rw Hwin'| | |].
  - by rw Hvs' Hvs -app_assoc.
  - cbn [length]. rw Nat2Z.inj_succ seqZ_cons; [|lia]. rw fmap_cons Hid0 Z.pred_succ. f_equal.
    destruct Hor as [Hz|[Hn _]]; [|rw -Z.add_1_r -Hn; exact Hids'].
    rw Hz in Hlen. by apply nil_length_inv in Hlen as ->.
  - apply Forall_cons in Hmade as [Hev _]. constructor; [exact Hev|].
    destruct Hor as [Hz|[_ Hg]]; [rw Hz in Hlen; by apply nil_length_inv in Hlen as ->|].
    eapply Forall_impl; [exact Hmade'|]. intros ev' [Hv1 Hv2 Hv3 Hv4].
    constructor; [by rw Hv1 Hwin|done| |done]. by rw -Hg.
Qed.
(** The submitted symbols the receiver does not know. *)
Definition missing w : list Z := filter (λ x, ¬ is_known (decoder w) x) (seqZ 0 (submitted w)).

(** The missing symbols can be told apart: by their columns, or because they are
    one burst. *)
Definition separable w : Prop :=
  match ec_matrix_strategy config with
  | Cauchy => NoDup (cx (ec_field config) <$> missing w)
  | Vandermonde => ∃ s, missing w = seqZ s (Z.of_nat (length (missing w)))
  end.

Lemma missing_spec w x : x ∈ missing w ↔ 0 ≤ x < submitted w ∧ ¬ is_known (decoder w) x.
Proof. unfold missing. rw list_elem_of_filter elem_of_seqZ. split; intros [? ?]; split; try done; lia. Qed.

Lemma missing_covered w evs ev : loop_inv w evs → repair_vector (sender w) ev → missing w ⊆ ev_source_ids ev.
Proof.
  intros Hi [Hids _ _ _] x [Hx Hn]%missing_spec. rw Hids. by apply (unknown_in_window w evs).
Qed.

(** One cycle's packets determine the separable symbols. *)
Lemma repaired_determined w evs w' evs' vs : loop_inv w evs → loop_inv w' evs' → repaired w vs w' →
  separable w → length vs = length (missing w) →
  (∀ ev, ev ∈ rev (sent_vectors (wo_arrived w')) → ∀ x, coef_ok (ec_field config) (coef_at (ev_terms ev) x)) →
  determined_by (ec_field config) (session_ids (submitted w)) (is_known (decoder w'))
    (rev (sent_vectors (wo_arrived w'))).
Proof.
  intros Hi Hi' [Hk _ Hvs Hids Hmade] Hsep Hlen Hco. pose proof (submitted_range w evs Hi) as Hm.
  pose proof (session_ids_range (submitted w) ltac:(lia)) as Hr. pose proof (NoDup_seqZ 0 (submitted w)) as Hnd.
  rw Forall_forall in Hmade.
  assert (vs ⊆ rev (sent_vectors (wo_arrived w'))) as Hsub.
  { intros ev Hev. apply elem_of_rev. rw Hvs. apply elem_of_app. by right. }
  assert (missing w ⊆ session_ids (submitted w)) as HmU
    by (intros x [Hx _]%missing_spec; apply elem_of_seqZ; lia).
  assert (∀ x, x ∈ session_ids (submitted w) → is_known (decoder w') x ∨ x ∈ missing w) as Hcov.
  { intros x Hx%elem_of_seqZ. destruct (decide (is_known (decoder w) x)) as [|Hn]; [left; by apply Hk|].
    right. apply missing_spec. split; [lia|done]. }
  unfold separable in Hsep. destruct (ec_matrix_strategy config) eqn:Es.
  - destruct Hsep as [s Hs].
    apply (burst_determined (ec_field config) (session_ids (submitted w)) Hnd _ _ s
      (Z.of_nat (length (missing w))) vs Hr); [by rw -Hs| |done|done|].
    { intros x Hx. destruct (Hcov x Hx) as [|Hin]; [by left|]. right. rw Hs in Hin. by apply elem_of_seqZ. }
    constructor; [by rw Hlen|rw Hids; apply NoDup_seqZ|]. intros ev Hev. split_and!; [by apply Hmade|by apply Hmade|].
    rw -Hs. by eapply missing_covered, Hmade.
  - apply (enough_determined (ec_field config) (session_ids (submitted w)) Hnd _ _ (missing w) vs Hr); try done.
    assert (∀ ev, ev ∈ vs → cauchy_packet (ec_field config) ev ∧ ev_generation ev = en_generation (sender w)) as Hc
      by (intros ev Hev; by apply (rv_cauchy _ _ (Hmade ev Hev))).
    constructor; [done|done| |intros ev Hev; split; [by apply Hc|by eapply missing_covered, Hmade]].
    apply cauchy_points_distinct with (en_generation (sender w)).
    + apply Forall_forall. intros ev Hev. by destruct (Hc ev Hev) as [[] ->].
    + rw Hids. apply NoDup_seqZ.
Qed.

Lemma repaired_all w evs w' evs' vs : loop_inv w evs → loop_inv w' evs' → repaired w vs w' →
  separable w → length vs = length (missing w) → ∀ x, 0 ≤ x < submitted w → is_known (decoder w') x.
Proof.
  intros Hi Hi' Hr Hsep Hlen x Hx. pose proof (submitted_range w evs Hi) as Hm. pose proof (lc_src Hcfg) as Hsrc.
  pose proof (session_ids_range (submitted w) ltac:(lia)) as Hrange. pose proof (NoDup_seqZ 0 (submitted w)) as Hnd.
  assert (submitted w' = submitted w) as Hsub by (unfold submitted; by rw (re_window _ _ _ Hr)).
  pose proof (ri_session _ _ _ _ _ _ _ _ _ _ (li_receiver _ _ Hi')) as Hses. rw Hsub in Hses.
  destruct (recovers_known disp' (ec_field config) (sym_size config) src _ Hsrc Hnd Hrange _ _ _ _ Hses)
    with (x := x) as [Hk _]; [|apply elem_of_seqZ; lia|by eexists].
  apply (repaired_determined w evs w' evs' vs); try done.
  intros ev Hev y. apply dec_session_inv in Hses as [_ _ _ _ _ _ Hus]; [|done..].
  destruct (Hus ev Hev) as [Hu Hf]. by apply coef_at_ok, (ev_terms_ok (ec_field config) (session_ids (submitted w))).
Qed.

Lemma all_known_delivered w evs : loop_inv w evs → (∀ x, 0 ≤ x < submitted w → is_known (decoder w) x) →
  wo_taken w ++ fr_ready (wo_receiver w) = symbols_upto src 0 (submitted w).
Proof.
  intros Hi Hall. pose proof (submitted_range w evs Hi) as Hm. rw (li_queue _ _ Hi).
  pose proof (session_ids_range (submitted w) ltac:(lia)) as Hr.
  destruct (li_receiver _ _ Hi) as [Hses _ _ _ Hgap _].
  eapply (known_delivered disp' (ec_field config) (sym_size config) src); [apply Hcfg|done..].
Qed.

(** ** What the loop guarantees *)
Lemma loop_delivered w evs : loop_inv w evs →
  wo_taken w ++ fr_ready (wo_receiver w) = symbols_upto src 0 (next_delivery_id (decoder w)).
Proof.
  intros Hi. pose proof (submitted_range w evs Hi) as Hm. rw (li_queue _ _ Hi).
  pose proof (session_ids_range (submitted w) ltac:(lia)) as Hr. pose proof (NoDup_seqZ 0 (submitted w)) as Hnd.
  destruct (li_receiver _ _ Hi) as [Hses _ _ _ Hgap _].
  by eapply (session_delivered disp' (ec_field config) (sym_size config) src _ (lc_src Hcfg) Hnd Hr).
Qed.

Lemma loop_submit w evs : loop_inv w evs → submitted w < 65536 →
  match submit_source disp (sender w) (src (submitted w)) with
  | Ok _ => window_is_full (en_window (sender w)) = false
  | Err e => window_is_full (en_window (sender w)) = true ∧ e = WindowFull (ec_window_capacity config)
  | Panic => False
  end.
Proof.
  intros [[Hs Hc _ _ _ _ _] _ _ _ _] Hn.
  destruct (enc_session_inv disp src _ _ Hs) as [He Hcap Hsrc Hnext _]. unfold submitted in *.
  destruct (window_is_full (en_window (sender w))) eqn:Hfull.
  - unfold submit_source. destruct (Hsrc (w_next_id (en_window (sender w)))) as [Hlen _].
    destruct (eok_config _ _ He) as (Hsz & _). unfold sym_size in Hlen.
    rw Hlen Z2Nat.id; [|lia]. rw Z.eqb_refl Hfull Hc (lc_reject Hcfg) //.
  - destruct (submit_source_ok disp src (sender w) (sender w)) as (e & pkt & new & -> & _);
      [done|done|by unfold make_room; rw Hfull|done|lia|apply (session_narrow src); [done|lia]|done].
Qed.

Lemma coded_available w evs : loop_inv w evs → w_symbols (en_window (sender w)) ≠ [] →
  ∃ e o, generate_coded disp (sender w) = Ok (e, Some o).
Proof.
  intros Hi Hne. pose proof (li_sender _ _ Hi) as [Hs Hc _ _ _ _ _].
  pose proof (enc_session_inv disp src _ _ Hs) as Hei. pose proof (session_fits _ _ _ Hei) as Hfit.
  destruct Hei as [He _ Hsrc _ _].
  destruct (generate_coded_ok disp src (sender w)) as (e & o & Hg & _); [done..|]. by exists e, o.
Qed.

(** What is emitted before a source packet does not cover it. *)
Lemma emission_before n l1 pkt l2 m p : 0 ≤ n → emission src config n (l1 ++ OutSource pkt :: l2) m →
  Source.parse pkt = Ok p → ¬ covered (Source.source_symbol_id p) (sent_vectors l1).
Proof.
  revert n. induction l1 as [|o l1 IH]; intros n Hn Hem Hp.
  { by intros (ev & Hev%elem_of_nil & _). }
  assert (∀ k, 0 ≤ k → emission src config k (l1 ++ OutSource pkt :: l2) m → k ≤ Source.source_symbol_id p) as Hle.
  { intros k Hk [_ Hids]%(emission_source_ids src).
    assert (Source.source_symbol_id p ∈ sent_source_ids (l1 ++ OutSource pkt :: l2)) as Hin.
    { apply list_elem_of_omap. exists (OutSource pkt). split; [|by rw Hp].
      apply elem_of_app. right. by left. }
    rw Hids in Hin. apply elem_of_seqZ in Hin. lia. }
  cbn [app] in Hem. inversion Hem as [|n' pk q out m' Hq Hid _ Hrest|n' pk q out m' Hq Hh Hrest]; subst.
  - intros (ev & Hev & Hin). apply (IH (Source.source_symbol_id q + 1)); [lia|done|done|]. by exists ev.
  - intros (ev & Hev & Hin). apply list_elem_of_omap in Hev as (o & Ho & Hev).
    apply elem_of_cons in Ho as [->|Ho].
    + rw Hq in Hev. injection Hev as <-. apply (ch_ids _ _ _ _ Hh), elem_of_seqZ in Hin.
      specialize (Hle n Hn Hrest). lia.
    + apply (IH n); [done..|]. exists ev. split; [|done]. apply list_elem_of_omap. by exists o.
Qed.

(** The ordering the loop asks for holds of every channel that loses packets but
    does not reorder them. *)
Lemma fifo_in_front w o : reachable w → wo_arrived w ++ [o] `sublist_of` wo_wire w → in_front w o.
Proof.
  intros [evs Hi]%reachable_inv Hsub. destruct o as [pkt|]; [|done]. intros p Hp. left.
  pose proof (li_sender _ _ Hi) as [Hs Hc _ _ _ _ _].
  destruct (enc_session_inv disp src _ _ Hs) as [_ _ _ _ Hem]. rw Hc in Hem.
  apply sublist_app_l in Hsub as (l1 & l2 & Hw & Hsub & Hpkt).
  apply sublist_cons_l in Hpkt as (l3 & l4 & -> & _). rw Hw app_assoc in Hem.
  intros (ev & Hev & Hin). apply (emission_before 0 (l1 ++ l3) pkt l4 _ p (Z.le_refl 0) Hem Hp).
  exists ev. split; [|done]. apply list_elem_of_omap in Hev as (o & Ho & Hev). apply list_elem_of_omap.
  exists o. split; [|done]. apply elem_of_app. left. by eapply elem_of_sublist.
Qed.

(** C4: reliable delivery: over a channel that loses, duplicates and delays in
    both directions, what the application has received is, at every moment, the
    submitted symbols in order, none missing and none twice, up to the delivery
    pointer; and a symbol the receiver still lacks has not left the sender's
    window.  One delay is excluded: a source packet whose symbol the receiver does
    not know does not arrive behind a coded packet that covers it. *)
Theorem closed_loop_reliable w : reachable w →
  let n := next_delivery_id (decoder w) in
  0 ≤ n ≤ submitted w ∧ wo_taken w ++ fr_ready (wo_receiver w) = symbols_upto src 0 n ∧
  ∀ x, 0 ≤ x < submitted w → ¬ is_known (decoder w) x → x ∈ id_slice (en_window (sender w)).
Proof.
  intros [evs Hi]%reachable_inv n. pose proof (submitted_range w evs Hi) as Hm.
  split_and!; [| |by apply (loop_delivered w evs)|by intros x; apply (unknown_in_window w evs)].
  all: eapply receiver_pointer; [apply Hcfg|exact Hm|apply Hi].
Qed.

(** C6: the loop never gets stuck: no packet the channel may deliver, no window
    update the receiver has sent and no call of the application makes either end
    fail or panic; the one error is [WindowFull], exactly when the window is
    full, and then a coded packet can be made. *)
Theorem closed_loop_never_fails w : reachable w →
  (∀ o, o ∈ wo_wire w → in_front w o →
    ∃ r b sent, process_one disp' (wo_receiver w) (raw_of o) = Ok (r, b, sent)) ∧
  (∀ addr raw, raw ∈ wo_reports w → ∃ e, absorb_feedback addr_to_receiver_id (sender w) (addr, raw) = Ok e) ∧
  (w_symbols (en_window (sender w)) ≠ [] → ∃ e o, generate_coded disp (sender w) = Ok (e, Some o)) ∧
  (submitted w < 65536 →
    match submit_source disp (sender w) (src (submitted w)) with
    | Ok _ => window_is_full (en_window (sender w)) = false
    | Err e => window_is_full (en_window (sender w)) = true ∧ e = WindowFull (ec_window_capacity config)
    | Panic => False
    end).
Proof.
  intros [evs Hi]%reachable_inv. split_and!.
  - intros o Ho Hf. destruct (arrive_ok w evs o Hi Ho Hf) as (r & b & sent & _ & ? & _). by exists r, b, sent.
  - intros addr raw Hraw. destruct (sender_report _ _ _ addr raw (li_sender _ _ Hi) (li_reports _ _ Hi raw Hraw))
      as (e & ? & _). by exists e.
  - by eapply coded_available.
  - by eapply loop_submit.
Qed.

(** C5: loss repair: from any moment of the loop, as many coded packets as
    symbols are missing at the receiver, made and delivered now, within one cycle
    of coded IDs, give it every submitted symbol, and the application has them
    all: for Cauchy coefficients if the missing symbols have different columns,
    for Vandermonde if they are one burst. *)
Theorem closed_loop_repairs w : reachable w →
  let k := length (missing w) in
  separable w → en_next_coded_id (sender w) + Z.of_nat k ≤ first_coded_id config + coded_id_cycle config →
  ∃ w', repairs k w = Some w' ∧ reachable w' ∧ missing w' = [] ∧
    wo_taken w' ++ fr_ready (wo_receiver w') = symbols_upto src 0 (submitted w).
Proof.
  intros Hw k Hsep Hcyc. destruct (reachable_inv w Hw) as [evs Hi].
  assert (∃ w' vs evs', repairs k w = Some w' ∧ loop_inv w' evs' ∧ length vs = k ∧ repaired w vs w')
    as (w' & vs & evs' & Hrep & Hi' & Hlen & Hr).
  { destruct (decide (w_symbols (en_window (sender w)) = [])) as [He|]; [|by apply (repairs_ok k w evs)].
    assert (missing w = []) as Hk.
    { apply elem_of_nil_inv. intros x [Hx Hn]%missing_spec.
      apply (unknown_in_window w evs x Hi Hx) in Hn. unfold id_slice in Hn. rw He in Hn. by apply elem_of_nil in Hn. }
    exists w, [], evs. unfold k. rw Hk. split_and!; [done..|]. constructor; try done. by rw app_nil_r. }
  exists w'. assert (submitted w' = submitted w) as Hsub by (unfold submitted; by rw (re_window _ _ _ Hr)).
  assert (∀ x, 0 ≤ x < submitted w → is_known (decoder w') x) as Hall by by apply (repaired_all w evs w' evs' vs).
  split_and!; [done|by apply (repairs_reachable k w)| |].
  - apply elem_of_nil_inv. intros x [Hx Hn]%missing_spec. rw Hsub in Hx. by apply Hn, Hall.
  - rw -Hsub. apply (all_known_delivered w' evs' Hi'). by rw Hsub.
Qed.
End invariant.
End loop.

(** *** Three symbols, two lost, Cauchy coefficients; a window of four *)
Definition loop_demo_config (window : Z) (s : MatrixStrategy) : EncoderConfig :=
  {| ec_symbol_size := 2; ec_window_capacity := window; ec_field := Gf2_8; ec_fec_numer := 0;
     ec_fec_denom := 1; ec_backpressure := Reject; ec_matrix_strategy := s |}.

Lemma loop_demo_ok n s : 1 ≤ n ≤ 128 → loop_config demo_src (loop_demo_config n s) demo_decoder_config.
Proof.
  intros Hn. constructor; [unfold encoder_config_ok; cbn; lia|cbn; lia|done|done|cbn; lia|].
  by apply demo_src_symbol.
Qed.

Local Abbreviation demo_world :=
  (@World AnyAckPolicy NoCongestionControl ConstantFecRate ImmediateFeedbackPolicy).
Local Abbreviation demo_reachable n s :=
  (@reachable Ssse3 Avx2 AnyAckPolicy NoCongestionControl ConstantFecRate ImmediateFeedbackPolicy
     _ _ _ _ _ _ ReprC.cast unit (λ _, 1) demo_src (loop_demo_config n s) demo_decoder_config).

Definition demo_loop (window : Z) (s : MatrixStrategy) (l : list (action (Addr := unit))) : option demo_world :=
  @run Ssse3 Avx2 AnyAckPolicy NoCongestionControl ConstantFecRate ImmediateFeedbackPolicy
    _ _ _ _ ReprC.cast unit (λ _, 1) demo_src l
    (world_new (loop_demo_config window s) demo_decoder_config AnyAck NoCc
      {| cf_numer := 0; cf_denom := 1; cf_acc := 0 |} Immediate).

(** Symbols 0, 1 and 2 are submitted; only 1 arrives, and so does its report. *)
Definition demo_schedule : list (action (Addr := unit)) := [Submit; Submit; Submit; Arrive 1; Report tt 0].
Definition lossy_world : demo_world :=
  default (world_new (loop_demo_config 4 Cauchy) demo_decoder_config AnyAck NoCc demo_fec Immediate)
    (demo_loop 4 Cauchy demo_schedule).

Lemma demo_loop_reachable n s l w : demo_loop n s l = Some w → demo_reachable n s w.
Proof. intros Hr. eapply run_reachable; [exact Hr|]. constructor; [done|]. change (1 ≠ 0). lia. Qed.
Lemma lossy_world_reachable : demo_reachable 4 Cauchy lossy_world.
Proof. apply (demo_loop_reachable 4 Cauchy demo_schedule). vm_compute. reflexivity. Qed.

(** The reported symbol has left the window, the two others have not. *)
Lemma closed_loop_reliable_witness :
  id_slice (en_window (wo_sender lossy_world)) = [0; 2] ∧
  let n := next_delivery_id (fr_decoder (wo_receiver lossy_world)) in
  0 ≤ n ≤ submitted lossy_world ∧
  wo_taken lossy_world ++ fr_ready (wo_receiver lossy_world) = symbols_upto demo_src 0 n ∧
  ∀ x, 0 ≤ x < submitted lossy_world → ¬ is_known (fr_decoder (wo_receiver lossy_world)) x →
    x ∈ id_slice (en_window (wo_sender lossy_world)).
Proof.
  pose proof ReprC.cast_law as Hlaw. split; [vm_compute; reflexivity|].
  exact (closed_loop_reliable _ _ _ _ _ _ (loop_demo_ok 4 Cauchy ltac:(lia)) _ lossy_world_reachable).
Defined.

Lemma closed_loop_never_fails_witness :
  (∃ e, @absorb_feedback AnyAckPolicy NoCongestionControl ConstantFecRate _ _ _ ReprC.cast unit (λ _, 1)
     (wo_sender lossy_world) (tt, default [] (head (wo_reports lossy_world))) = Ok e) ∧
  ∃ r b sent, @process_one Avx2 ImmediateFeedbackPolicy _ ReprC.cast (wo_receiver lossy_world)
    (raw_of (default (OutCoded []) (head (wo_wire lossy_world)))) = Ok (r, b, sent).
Proof.
  pose proof ReprC.cast_law as Hlaw.
  destruct (closed_loop_never_fails _ _ _ _ _ _ (loop_demo_ok 4 Cauchy ltac:(lia)) _ lossy_world_reachable)
    as (Harrive & Hreport & _ & _).
  split.
  - apply Hreport, list_elem_of_lookup. exists 0%nat. vm_compute. reflexivity.
  - apply Harrive; [apply list_elem_of_lookup; exists 0%nat; vm_compute; reflexivity|].
    apply in_frontb_spec. vm_compute. reflexivity.
Defined.

Lemma closed_loop_repairs_witness :
  missing lossy_world = [0; 2] ∧
  ∃ w', @repairs Ssse3 Avx2 AnyAckPolicy NoCongestionControl ConstantFecRate ImmediateFeedbackPolicy
      _ _ ReprC.cast (length (missing lossy_world)) lossy_world = Some w' ∧ demo_reachable 4 Cauchy w' ∧ missing w' = [] ∧
    wo_taken w' ++ fr_ready (wo_receiver w') = symbols_upto demo_src 0 (submitted lossy_world).
Proof.
  pose proof ReprC.cast_law as Hlaw. split; [vm_compute; reflexivity|].
  apply (closed_loop_repairs _ _ _ _ _ _ (loop_demo_ok 4 Cauchy ltac:(lia)) _ lossy_world_reachable).
  - apply (bool_decide_unpack _). vm_compute. exact I.
  - apply Z.leb_le. vm_compute. reflexivity.
Defined.

(** The columns of two symbols in one window can coincide, because a selective
    acknowledgement takes the symbols between them out of the window: with the
    largest window Cauchy coefficients allow, symbols 0 and 128 are lost, the
    others acknowledged, and the coded packets of a whole cycle of IDs all
    arrive without giving either back. *)
Lemma cauchy_window_collision :
  (w ← demo_loop 128 Cauchy (replicate 128 Submit ++ (Arrive <$> seq 1 127) ++ [Report tt 126; Submit]);
   w' ← @repairs Ssse3 Avx2 AnyAckPolicy NoCongestionControl ConstantFecRate ImmediateFeedbackPolicy
     _ _ ReprC.cast 128 w;
   Some (id_slice (en_window (wo_sender w)), missing w, missing w'))
  = Some ([0; 128], [0; 128], [0; 128]).
Proof. vm_compute. reflexivity. Qed.
