(* ===== verification/Lossless.v ===== *)
(** * When every source packet arrives

    If no source packet is lost, whatever happens to the coded packets, the
    application receives every submitted symbol as soon as its packet arrives:
    coded packets change nothing and the matrix stays empty. *)

From S2P Require Import Prelude Error Config Gf CoefGen Simd IdStorage EncVec Common Packets F64 Feedback Packet Policy Window LinComb Encoder BTree Buffer Matrix Dense Elim Decoder Recovery Delivery Consumer Transport EndToEnd.
From stdpp Require Import sorting.
#[global] Open Scope Z_scope.

Section lossless.
Context (disp disp' : Dispatch) {P : Type} `{FeedbackPolicy P} `{HeaderCastLaw}.
Context {R E : Type} `{!Consumer P R E} `{!ConsumerLaws disp' P R E}.
Context (src : Z → bytes) (config : EncoderConfig).
Hypothesis Hsrc : ∀ id, symbol (sym_size config) (src id).

(** The decoder knows, and has delivered, exactly the symbols below [n]. *)
Record synced (n : Z) (d : Decoder P) : Prop := {
  sy_field : dm_field (de_matrix d) = ec_field config;
  sy_rows : dm_rows (de_matrix d) = ∅;
  sy_size : dc_symbol_size (de_config d) = Z.of_nat (sym_size config);
  sy_next : next_delivery_id d = n;
  sy_buffer : sb_symbols (de_buffer d) = ∅;
  sy_known : ∀ x data, de_known d !! x = Some data → data = src x ∧ 0 ≤ x < n;
  sy_all : ∀ x, 0 ≤ x < n → is_Some (de_known d !! x);
  sy_win : 0 ≤ de_encoder_win_min d ≤ n;
}.

Lemma synced_new dconfig (policy : P) : 0 ≤ ec_symbol_size config → matching config dconfig →
  synced 0 (decoder_new dconfig policy).
Proof.
  intros Hsz [Hf Hs]. constructor; cbn; try done; rw ?Hs /sym_size; lia.
Qed.

Lemma synced_delivery n d : n ≤ 65536 → 0 ≤ n → synced n d → delivery_ok src [] d.
Proof.
  intros Hn Hn0 [_ _ _ Hnext Hb Hk _ Hw]. unfold next_delivery_id in Hnext. constructor.
  - constructor; [rw Hnext; word_bound|]. intros id. rw Hb lookup_empty. by intros [].
  - intros id data. by rw Hb lookup_empty.
  - intros id [data Hid]. left. rw Hnext. apply Hk in Hid. lia.
  - lia.
Qed.

Lemma finish_synced n d d1 evs : n ≤ 65536 → 0 ≤ n → drain_to_events d = (d1, evs) → synced n d1 →
  ∃ d' new, finish d [] = Ok (d', new) ∧ synced n d' ∧ delivered new = delivered evs.
Proof.
  intros Hn Hn0 Hd Hs. unfold finish. cbn [absorb_all fold_left]. rw Hd.
  destruct (feedback_moves src [] d1) as (d2 & fb & Hf & _);
    [by eapply synced_delivery|].
  destruct (feedback_only _ _ _ Hf) as ([policy ->] & Hfb & _).
  rw Hf. cbn [failing_at]. rw bind_Ok.
  assert (check_gap (set_policy d1 policy) = (set_policy d1 policy, [])) as ->.
  { unfold check_gap. cbn [set_policy de_buffer de_encoder_win_min].
    pose proof (sy_next _ _ Hs) as Hnx. unfold next_delivery_id in Hnx. rw Hnx.
    rw (proj2 (Z.ltb_ge _ _)); [done|apply Hs]. }
  eexists _, _. split; [done|]. split; [by destruct Hs; constructor|].
  by rw !delivered_app Hfb !app_nil_r.
Qed.

Lemma drain_one next data :
  drain_deliverable {| sb_symbols := {[next := data]}; sb_next_delivery_id := next |}
  = ({| sb_symbols := ∅; sb_next_delivery_id := u32 (next + 1) |}, [(next, data)]).
Proof.
  unfold drain_deliverable. cbn [sb_symbols]. rw map_size_singleton. cbn [drain_loop sb_symbols sb_next_delivery_id].
  rw lookup_singleton_eq. cbn [drain_loop sb_symbols sb_next_delivery_id app].
  by rw delete_singleton_eq lookup_empty.
Qed.

(** The next source packet is delivered at once. *)
Lemma source_synced n d p : 0 ≤ n < 65536 → synced n d →
  Source.source_symbol_id p = n → Source.payload p = src n →
  ∃ d' new, handle_source disp' d p = Ok (d', new) ∧ synced (n + 1) d' ∧ delivered new = [(n, src n)].
Proof.
  intros Hn Hs Hid Hpay. pose proof Hs as [Hf Hrows Hsz Hnext Hb Hk Hall Hw].
  unfold handle_source, size_mismatch. rw Hpay Hsz Hid. destruct (Hsrc n) as [-> _]. rw Z.eqb_refl /=.
  rw add_known_empty //. cbn [failing_at]. rw bind_Ok. set (d0 := set_matrix _ _).
  unfold next_delivery_id in Hnext.
  assert (de_buffer d0 = {| sb_symbols := {[n := src n]}; sb_next_delivery_id := n |}) as Hb0.
  { cbn. unfold buffer_insert, or_insert. by rw Hnext Z.leb_refl Hb lookup_empty. }
  assert (de_known d !! n = None) as Hkn.
  { destruct (de_known d !! n) as [data|] eqn:Hkd; [|done]. apply Hk in Hkd. lia. }
  assert (de_known d0 = <[n := src n]> (de_known d)) as Hk0 by by cbn; unfold or_insert; rw Hkn.
  destruct (finish_synced (n + 1) d0 (set_symbols d0 (de_known d0)
    {| sb_symbols := ∅; sb_next_delivery_id := u32 (n + 1) |}) [SourceReady n (src n)])
    as (d' & new & Hfin & Hs' & Hnew); [lia|lia| | |by exists d', new].
  - unfold drain_to_events. by rw Hb0 drain_one.
  - constructor; try done; cbn [set_symbols de_known de_encoder_win_min].
    + unfold next_delivery_id. cbn. unfold u32. apply Z.mod_small. lia.
    + intros x data. rw Hk0 lookup_insert_Some. intros [[<- <-]|[_ Hx%Hk]]; [split; [done|lia]|].
      destruct Hx. split; [done|lia].
    + intros x Hx. rw Hk0 lookup_insert_is_Some'. destruct (decide (n = x)) as [|Hne]; [by left|right].
      apply Hall. lia.
    + cbn. lia.
Qed.

(** A coded packet over delivered symbols is dropped. *)
Lemma coded_synced n m d p : 0 ≤ n ≤ m → m ≤ 65536 → synced n d → coded_honest src config (seqZ 0 n) p →
  ∃ d' new, handle_coded disp' d p = Ok (d', new) ∧ synced n d' ∧ delivered new = [].
Proof.
  intros Hn Hm Hs Hp. pose proof Hs as [Hf Hrows Hsz Hnext Hb Hk Hall Hw].
  destruct (coded_honest_usable src config n m p ltac:(lia) Hp) as [Hh He].
  pose proof (session_ids_range m Hm) as Hr. pose proof (NoDup_seqZ 0 m) as Hnd.
  assert (∀ x, x ∈ ev_source_ids (Coded.ev p) → 0 ≤ x < n) as Hids.
  { intros x Hx. destruct Hp as [_ Hsub _ _ _]. apply Hsub, elem_of_seqZ in Hx. lia. }
  assert (length (Coded.payload p) = sym_size config) as Hlen.
  { destruct Hh as [Hfe ->]. apply lincomb_symbol; [done|]. by eapply ev_terms_ok. }
  unfold handle_coded, size_mismatch. rw Hsz Hlen Z.eqb_refl /=.
  rw (add_coded_redundant disp' (ec_field config) (sym_size config) src (session_ids m)); try done.
  - cbn [failing_at]. rw bind_Ok. set (d0 := set_matrix _ _).
    destruct (finish_synced n d0 d0 []) as (d' & new & Hfin & Hs' & Hnew); [lia|lia| | |by exists d', new].
    + unfold drain_to_events, drain_deliverable. cbn [d0 set_matrix set_reception de_buffer].
      rw Hb map_size_empty. cbn [drain_loop]. rw Hb lookup_empty. by destruct d.
    + constructor; try done. cbn. unfold window_min. destruct (ev_source_ids (Coded.ev p)) as [|x l]; [done|].
      specialize (Hids x ltac:(by left)). case_match; lia.
  - intros x data Hx. apply Hk in Hx as [-> Hx]. split; [done|word_bound].
  - intros x Hx. by apply Hall, Hids.
Qed.

Lemma lossless_received n sent m : m ≤ 65536 → 0 ≤ n → emission src config n sent m →
  ∀ out r l, out `sublist_of` sent → (∀ x, n ≤ x < m → x ∈ sent_source_ids out) →
  synced n (cs_decoder r) → cs_got r l →
  ∃ r', feed_all r (raw_of <$> out) = Ok r' ∧ synced m (cs_decoder r') ∧
    cs_got r' (l ++ symbols_upto src n (m - n)).
Proof.
  intros Hm Hn Hem. induction Hem as [n|n pkt p sent m Hp Hid Hpay Hem IH|n pkt p sent m Hp Hh Hem IH];
    intros out r l Hsub Hall Hs Hgot.
  - apply sublist_nil_r in Hsub as ->. exists r. rw Z.sub_diag app_nil_r. done.
  - pose proof (emission_source_ids _ _ _ _ _ Hem) as [Hle Hids].
    apply sublist_cons_r in Hsub as [Hsub|(out' & -> & Hsub)].
    { specialize (Hall n ltac:(lia)). apply (sublist_source_ids _ _ _ Hsub) in Hall.
      rw Hids in Hall. apply elem_of_seqZ in Hall. lia. }
    destruct (source_synced n (cs_decoder r) p) as (d & new & Hd & Hs1 & Hnew); [lia|done..|].
    destruct (cs_source r pkt p d new l Hgot Hp Hd) as (r1 & Hr1 & <- & Hgot1).
    destruct (IH Hm ltac:(lia) out' r1 (l ++ delivered new)) as (r2 & Hr2 & Hs2 & Hgot2); [done| |done..|].
    { intros x Hx. specialize (Hall x ltac:(lia)). cbn in Hall. rw Hp Hid in Hall.
      apply elem_of_cons in Hall as [->|]; [lia|done]. }
    exists r2. split_and!; [|done|].
    + cbn [fmap list_fmap]. unfold feed_all. cbn [mfor raw_of]. by rw Hr1 bind_Ok.
    + unfold symbols_upto. rw seqZ_cons; [|lia]. cbn [fmap list_fmap].
      rw Hnew -app_assoc /= in Hgot2. unfold symbols_upto in Hgot2.
      replace (Z.pred (m - n)) with (m - (n + 1)) by lia. exact Hgot2.
  - pose proof (emission_source_ids _ _ _ _ _ Hem) as [Hle Hids].
    apply sublist_cons_r in Hsub as [Hsub|(out' & -> & Hsub)]; [by eapply IH|].
    destruct (coded_synced n m (cs_decoder r) p) as (d & new & Hd & Hs1 & Hnew); [lia|done..|].
    destruct (cs_coded r pkt p d new l Hgot Hp Hd) as (r1 & Hr1 & <- & Hgot1).
    destruct (IH Hm Hn out' r1 _ Hsub Hall Hs1 Hgot1) as (r2 & Hr2 & Hs2 & Hgot2).
    exists r2. split_and!; [|done|by rw Hnew app_nil_r in Hgot2].
    cbn [fmap list_fmap]. unfold feed_all. cbn [mfor raw_of]. by rw Hr1 bind_Ok.
Qed.

Lemma session_lossless m dconfig (policy : P) r0 sent out :
  cs_decoder r0 = decoder_new dconfig policy → cs_got r0 [] →
  0 ≤ ec_symbol_size config → 0 ≤ m ≤ 65536 → matching config dconfig →
  emission src config 0 sent m → out `sublist_of` sent → seqZ 0 m ⊆ sent_source_ids out →
  ∃ r, feed_all r0 (raw_of <$> out) = Ok r ∧ synced m (cs_decoder r) ∧ cs_got r (symbols_upto src 0 m).
Proof.
  intros Hr0 Hg Hsz Hm Hmatch Hem Hsub Hall.
  destruct (lossless_received 0 sent m ltac:(lia) ltac:(lia) Hem out r0 [] Hsub) as (r & Hr & Hs & Hgot);
    [|rw Hr0; by apply synced_new|done|].
  - intros x Hx. apply Hall, elem_of_seqZ. lia.
  - exists r. by rw Z.sub_0_r in Hgot.
Qed.
End lossless.

Definition no_source_lost `{HeaderCast} (m : Z) (out : list EncoderOutput) : Prop :=
  seqZ 0 m ⊆ sent_source_ids out.

(** C7: if every source packet arrives and packets are not reordered, then
    whichever coded packets are lost the receiver delivers every submitted symbol,
    in order, and ends with an empty matrix. *)
Theorem all_sources_delivered disp disp' {W C F P} `{WindowPolicyLaws W} `{CongestionLaws C}
    `{!FecRateController F} `{!FecLaws F} `{FeedbackPolicy P} `{HeaderCastLaw}
    src (e : Encoder W C F) sent out dconfig (policy : P) :
  enc_session disp src e sent → matching (en_config e) dconfig → out `sublist_of` sent →
  let m := w_next_id (en_window e) in
  no_source_lost m out →
  ∃ r, receive_all disp' (receiver_new (decoder_new dconfig policy)) (raw_of <$> out) = Ok r ∧
    fr_ready r = symbols_upto src 0 m ∧
    next_delivery_id (fr_decoder r) = m ∧ row_count (de_matrix (fr_decoder r)) = 0%nat.
Proof.
  intros Hs Hmatch Hsub m Hall. destruct (enc_session_inv disp src e sent Hs) as [Hok _ Hsrc Hnext Hem].
  destruct (eok_config _ _ Hok) as [Hsz _].
  pose proof (wo_next _ (eok_window _ _ Hok)) as Hu. unfold is_u32 in Hu.
  destruct (session_lossless (Consumer0 := receiver_consumer disp') disp' src (en_config e) Hsrc m
    dconfig policy (receiver_new (decoder_new dconfig policy)) sent out)
    as (r & Hr & Hsy & Hgot); [done|done|lia|lia|done..|].
  exists r. split; [exact Hr|]. split; [exact Hgot|]. split; [apply Hsy|].
  unfold row_count. cbn in Hsy. by rw (sy_rows _ _ _ _ Hsy) map_size_empty.
Qed.

Lemma all_sources_delivered_witness :
  ∃ r, @receive_all Avx2 ImmediateFeedbackPolicy _ ReprC.cast wire_receiver
      (raw_of <$> take 3 wire_sent) = Ok r ∧
    fr_ready r = [(0, demo_src 0); (1, demo_src 1)] ∧
    next_delivery_id (fr_decoder r) = 2 ∧ row_count (de_matrix (fr_decoder r)) = 0%nat.
Proof.
  apply (@all_sources_delivered Ssse3 Avx2 AnyAckPolicy NoCongestionControl ConstantFecRate
    ImmediateFeedbackPolicy _ _ _ _ _ _ _ ReprC.cast ReprC.cast_law demo_src wire_step2.1 wire_sent
    (take 3 wire_sent) demo_decoder_config Immediate wire_session wire_matching (sublist_take _ 3)).
  intros x Hx.
  assert (bool_decide (Forall (λ x, x ∈ @sent_source_ids ReprC.cast (take 3 wire_sent))
    (seqZ 0 (w_next_id (en_window wire_step2.1))))) as Hall by (vm_compute; exact I).
  apply bool_decide_unpack in Hall. rw Forall_forall in Hall. by apply Hall.
Defined.
