(* ===== verification/CliSend.v ===== *)
(** * delp-cli: main.rs and send.rs, the file sender

    The file's contents, the clock that seeds the loss simulation, the SHA-256
    function and the hash of the peer's address are parameters.  Reading the
    file and sending datagrams succeed: an I/O error ends the program. *)

From S2P Require Import Prelude Error Config Gf CoefGen Simd IdStorage EncVec Common Packets F64 Feedback Packet Policy Window LinComb Encoder Transport.
#[global] Open Scope Z_scope.

(** ** main.rs *)
Inductive Strategy : Type := SVandermonde | SCauchy.
Definition into_delp (s : Strategy) : MatrixStrategy :=
  match s with SVandermonde => Vandermonde | SCauchy => Cauchy end.
Inductive AltcMode : Type := AltcNone | AltcRecent | AltcPerReceiver.

(** A string is the list of its code points.  The standard library's
    [char::is_whitespace], [str::trim], [str::splitn] and [usize::from_str]. *)
Definition is_whitespace (c : Z) : bool :=
  ((9 <=? c) && (c <=? 13)) || (c =? 32) || (c =? 133) || (c =? 160) || (c =? 5760)
  || ((8192 <=? c) && (c <=? 8202)) || (c =? 8232) || (c =? 8233) || (c =? 8239)
  || (c =? 8287) || (c =? 12288).
Fixpoint trim_start (s : list Z) : list Z :=
  match s with
  | c :: s' => if is_whitespace c then trim_start s' else s
  | [] => []
  end.
Definition trim (s : list Z) : list Z := rev (trim_start (rev (trim_start s))).
Fixpoint split_once (sep : Z) (s : list Z) : list Z * option (list Z) :=
  match s with
  | [] => ([], None)
  | c :: s =>
      if c =? sep then ([], Some s)
      else let '(first, rest) := split_once sep s in (c :: first, rest)
  end.
Fixpoint parse_digits (s : list Z) (acc : Z) : option Z :=
  match s with
  | [] => Some acc
  | c :: s =>
      if (48 <=? c) && (c <=? 57) then
        let acc := acc * 10 + (c - 48) in
        if acc <=? 18446744073709551615 then parse_digits s acc else None
      else None
  end.
Definition usize_from_str (s : list Z) : option Z :=
  let digits := match s with 43 :: rest => rest | _ => s end in
  match digits with [] => None | _ => parse_digits digits 0 end.

Inductive FecRatioError : Type := FecParse | FecMissingDenom | FecZeroDenom.

Definition parse_fec_ratio (s : list Z) : outcome FecRatioError (Z * Z) :=
  let '(first, rest) := split_once 58 s in
  n ← match usize_from_str (trim first) with Some n => Ok n | None => Err FecParse end;
  second ← match rest with Some second => Ok second | None => Err FecMissingDenom end;
  d ← match usize_from_str (trim second) with Some d => Ok d | None => Err FecParse end;
  if d =? 0 then Err FecZeroDenom else Ok (n, d).

(** What it accepts is a rate the encoder accepts. *)
Lemma parse_digits_range s acc n : 0 ≤ acc ≤ 18446744073709551615 → parse_digits s acc = Some n → is_u64 n.
Proof.
  revert acc. induction s as [|c s IH]; intros acc Hacc; cbn [parse_digits]; [intros [= <-]; word_bound|].
  destruct ((48 <=? c) && (c <=? 57)) eqn:Ec; [|done].
  apply andb_true_iff in Ec as [?%Z.leb_le ?%Z.leb_le].
  destruct (Z.leb_spec (acc * 10 + (c - 48)) 18446744073709551615); [|done]. apply IH. lia.
Qed.
Lemma usize_from_str_range s n : usize_from_str s = Some n → is_u64 n.
Proof.
  unfold usize_from_str. set (digits := match s with 43 :: rest => rest | _ => s end). clearbody digits.
  destruct digits; [done|]. by apply parse_digits_range.
Qed.
Lemma parse_fec_ratio_valid s n d : parse_fec_ratio s = Ok (n, d) → is_u64 n ∧ is_u64 d ∧ 1 ≤ d.
Proof.
  unfold parse_fec_ratio. destruct (split_once 58 s) as [first rest].
  destruct (usize_from_str (trim first)) as [n'|] eqn:En; [|done]. cbn.
  destruct rest as [second|]; [|done]. cbn.
  destruct (usize_from_str (trim second)) as [d'|] eqn:Ed; [|done]. cbn.
  destruct (Z.eqb_spec d' 0); [done|]. intros [= -> ->].
  apply usize_from_str_range in En, Ed. split_and!; [done..|word_bound].
Qed.

Example parse_fec_ratio_default : parse_fec_ratio [49; 58; 32; 50; 10] = Ok (1, 2).
Proof. reflexivity. Qed.
Example parse_fec_ratio_errors :
  parse_fec_ratio [49] = Err FecMissingDenom ∧ parse_fec_ratio [49; 58; 48] = Err FecZeroDenom ∧
  parse_fec_ratio [45; 49; 58; 50] = Err FecParse ∧ parse_fec_ratio [] = Err FecParse.
Proof. by split_and!. Qed.

(** ** Control frames *)
Definition CTRL_START : Z := 255.
Definition CTRL_END : Z := 254.
Definition MAGIC : bytes := [68; 69; 76; 80].
Definition PROTO_VERSION : Z := 1.

Definition u64_to_be_bytes (v : Z) : bytes :=
  u32_to_be_bytes (u32 (Z.shiftr v 32)) ++ u32_to_be_bytes (u32 v).

Definition build_start_frame (symbol_size n_symbols file_size : Z) (sha256 : bytes) : bytes :=
  let buf := MAGIC ++ [PROTO_VERSION] ++ [0] ++ be16 symbol_size in
  let buf := <[3%nat := CTRL_START]> buf in
  buf ++ u32_to_be_bytes n_symbols ++ u64_to_be_bytes file_size ++ sha256.

Definition build_end_frame : bytes :=
  let buf := MAGIC in
  <[3%nat := CTRL_END]> buf.

(** ** The simulated loss *)
Definition xorshift (rng : Z) : Z :=
  let rng := Z.lxor rng (Z.shiftr rng 12) in
  let rng := Z.lxor rng (u64 (Z.shiftl rng 25)) in
  Z.lxor rng (Z.shiftr rng 27).
Definition seed_rng (nanos : Z) : Z := if nanos =? 0 then 11400714819323198485 else nanos.
Definition should_drop (loss_pct rng : Z) : Z * bool :=
  let rng := xorshift rng in
  (rng, u32 (Z.shiftr (u64 (rng * 2685821657736338717)) 56) mod 100 <? loss_pct).

(** ** The transfer *)
Section send.
Context (disp : Dispatch) (sha256 : bytes → bytes).
Context {Addr : Type} (receiver_id_from_addr : Addr → Z).

Record SendConfig := {
  sc_dest : Addr;
  sc_symbol_size : Z;
  sc_window : Z;
  sc_fec_n : Z;
  sc_fec_d : Z;
  sc_strategy : Strategy;
  sc_altc : AltcMode;
  sc_altc_recent : Z;
  sc_loss_rate : f64;
}.

Definition loss_pct (cfg : SendConfig) : result Z :=
  rate ← f_clamp (sc_loss_rate cfg) (f_of_Z 0) (f_of_Z 1);
  Ok (f_to_uint 4294967295 (f_mul rate (f_of_Z 100))).

Local Abbreviation SendEncoder := (Encoder AnyAckPolicy NoCongestionControl ConstantFecRate).

(** The variables of [run] that its loops change; [sd_wire] is what went out. *)
Record Sender := {
  sd_encoder : SendEncoder;
  sd_rng : Z;
  sd_wire : list bytes;
  sd_sent_src : Z;
  sd_sent_cod : Z;
  sd_dropped : Z;
}.

Definition with_encoder (s : Sender) (e : SendEncoder) : Sender :=
  {| sd_encoder := e; sd_rng := sd_rng s; sd_wire := sd_wire s; sd_sent_src := sd_sent_src s;
     sd_sent_cod := sd_sent_cod s; sd_dropped := sd_dropped s |}.

(** One packet through the loss simulation. *)
Definition emit (pct : Z) (s : Sender) (pkt : EncoderOutput) : Sender :=
  let '(rng, drop) := should_drop pct (sd_rng s) in
  if drop then
    {| sd_encoder := sd_encoder s; sd_rng := rng; sd_wire := sd_wire s;
       sd_sent_src := sd_sent_src s; sd_sent_cod := sd_sent_cod s;
       sd_dropped := u64 (sd_dropped s + 1) |}
  else
    {| sd_encoder := sd_encoder s; sd_rng := rng; sd_wire := sd_wire s ++ [raw_of pkt];
       sd_sent_src := match pkt with OutSource _ => u64 (sd_sent_src s + 1) | OutCoded _ => sd_sent_src s end;
       sd_sent_cod := match pkt with OutSource _ => sd_sent_cod s | OutCoded _ => u64 (sd_sent_cod s + 1) end;
       sd_dropped := sd_dropped s |}.

(** [if let Some(EncoderOutput::Coded(raw)) = ..] *)
Definition emit_coded (pct : Z) (s : Sender) (res : result (SendEncoder * option EncoderOutput))
  : result (Sender * bool) :=
  '(e, out) ← res;
  let s := with_encoder s e in
  match out with
  | Some (OutCoded raw) => Ok (emit pct s (OutCoded raw), true)
  | _ => Ok (s, false)
  end.

(** One extra targeted packet per symbol. *)
Definition altc_step (cfg : SendConfig) (pct : Z) (s : Sender) : result Sender :=
  match sc_altc cfg with
  | AltcNone => Ok s
  | AltcRecent =>
      '(s, _) ← emit_coded pct s
        (generate_coded_recent disp (sd_encoder s) (Z.to_nat (sc_altc_recent cfg)));
      Ok s
  | AltcPerReceiver =>
      let rid := receiver_id_from_addr (sc_dest cfg) in
      '(s, _) ← emit_coded pct s (generate_coded_for_receiver disp (sd_encoder s) rid);
      Ok s
  end.

(** The body of the loop over the symbols. *)
Definition send_symbol (cfg : SendConfig) (pct : Z) (padded : bytes) (s : Sender) (i : Z)
  : result Sender :=
  let off := Z.to_nat (i * sc_symbol_size cfg) in
  chunk ← slice (E := DelpError) padded off (off + Z.to_nat (sc_symbol_size cfg));
  '(e, outputs) ← submit_source disp (sd_encoder s) chunk;
  let s := fold_left (emit pct) outputs (with_encoder s e) in
  altc_step cfg pct s.

(** The tail flush. *)
Fixpoint flush_tail (n : nat) (pct : Z) (s : Sender) : result Sender :=
  match n with
  | O => Ok s
  | S n =>
      '(s, more) ← emit_coded pct s (generate_coded disp (sd_encoder s));
      if (more : bool) then flush_tail n pct s else Ok s
  end.

(** [run] on the contents of the file: the datagrams in the order they leave. *)
Definition send_run (cfg : SendConfig) (raw : bytes) (nanos : Z) : result (Sender * list bytes) :=
  let file_size := u64 (Z.of_nat (length raw)) in
  let digest := sha256 raw in
  _ ← rassert (negb (sc_symbol_size cfg =? 0));
  let n_symbols := (file_size + sc_symbol_size cfg - 1) / sc_symbol_size cfg in
  let padded_len := u64 (n_symbols * sc_symbol_size cfg) in
  _ ← rassert (padded_len <=? 9223372036854775807);
  let padded := resize (Z.to_nat padded_len) 0 raw in
  enc_cfg ← EncoderBuilder.build
    (EncoderBuilder.backpressure EvictOldest
    (EncoderBuilder.matrix_strategy (into_delp (sc_strategy cfg))
    (EncoderBuilder.fec_rate (sc_fec_n cfg) (sc_fec_d cfg)
    (EncoderBuilder.window_capacity (sc_window cfg)
    (EncoderBuilder.new (sc_symbol_size cfg))))));
  fec ← ConstantFecRate_new (sc_fec_n cfg) (sc_fec_d cfg);
  pct ← loss_pct cfg;
  let start_frame := build_start_frame (u16 (sc_symbol_size cfg)) (u32 n_symbols) file_size digest in
  let s := {| sd_encoder := encoder_new enc_cfg AnyAck NoCc fec; sd_rng := seed_rng nanos;
              sd_wire := [start_frame]; sd_sent_src := 0; sd_sent_cod := 0; sd_dropped := 0 |} in
  s ← mfor (send_symbol cfg pct padded) s (seqZ 0 n_symbols);
  let flush_count := u64 (sc_window cfg * 2) in
  s ← flush_tail (Z.to_nat flush_count) pct s;
  Ok (s, sd_wire s ++ [build_end_frame]).
End send.

(** ** What [run] puts on the wire *)

(** Symbol [i] of a file: its bytes, padded with zeros. *)
Definition file_chunk (ss : nat) (raw : bytes) (i : Z) : bytes :=
  resize ss 0 (drop (Z.to_nat i * ss) raw).

Lemma bytes_ok_resize n v : bytes_ok v → bytes_ok (resize n 0 v).
Proof. intros Hv. apply Forall_resize; [word_bound|done]. Qed.

Lemma file_chunk_symbol ss raw i : bytes_ok raw → symbol ss (file_chunk ss raw i).
Proof.
  intros Hraw. split; [apply length_resize|]. by apply bytes_ok_resize, Forall_drop.
Qed.

(** A window of a padded file is the padded window. *)
Lemma take_drop_resize (raw : bytes) k ss len : (k + ss ≤ len)%nat →
  take ss (drop k (resize len 0 raw)) = resize ss 0 (drop k raw).
Proof.
  intros Hl. rw drop_resize_le; [|lia]. rw take_resize_le; [done|lia].
Qed.

Lemma mjoin_chunks ss raw n :
  mjoin (file_chunk ss raw <$> seqZ 0 (Z.of_nat n)) = resize (n * ss) 0 raw.
Proof.
  induction n as [|n IH]; [by rw resize_0|].
  replace (Z.of_nat (S n)) with (Z.of_nat n + 1) by lia.
  rw seqZ_app; [|lia..]. rw fmap_app join_app IH Z.add_0_l.
  assert (seqZ (Z.of_nat n) 1 = [Z.of_nat n]) as -> by done.
  replace (S n * ss)%nat with (n * ss + ss)%nat by lia. rw resize_add. f_equal.
  cbn [fmap list_fmap mjoin list_join]. unfold file_chunk. by rw Nat2Z.id app_nil_r.
Qed.

Section send_laws.
Context (disp : Dispatch) (sha256 : bytes → bytes).
Context {Addr : Type} (receiver_id_from_addr : Addr → Z) `{HeaderCastLaw}.
Context (src : Z → bytes) (start : bytes) (pct : Z).

(** The datagrams after START are what the simulation let through of the
    packets in [sent]. *)
Definition let_through (s : Sender) (sent : list EncoderOutput) : Prop :=
  ∃ out, out `sublist_of` sent ∧ sd_wire s = start :: (raw_of <$> out) ∧ (pct ≤ 0 → out = sent).

Definition on_wire (s : Sender) (sent : list EncoderOutput) : Prop :=
  enc_session disp src (sd_encoder s) sent ∧ let_through s sent.

Lemma emit_let_through s sent pkt : let_through s sent →
  let_through (emit pct s pkt) (sent ++ [pkt]) ∧ sd_encoder (emit pct s pkt) = sd_encoder s.
Proof.
  intros (out & Hsub & Hw & Hall). unfold emit, should_drop.
  destruct (Z.ltb_spec (u32 (Z.shiftr (u64 (xorshift (sd_rng s) * 2685821657736338717)) 56) mod 100) pct)
    as [Hlt|Hge]; split; try done.
  - exists out. split_and!; [by apply sublist_inserts_r|done|]. intros Hp.
    pose proof (Z.mod_pos_bound (u32 (Z.shiftr (u64 (xorshift (sd_rng s) * 2685821657736338717)) 56)) 100). lia.
  - exists (out ++ [pkt]). split_and!; [by apply sublist_app| |intros Hp; by rw Hall].
    cbn. by rw Hw fmap_app.
Qed.

Lemma emit_all_let_through pkts s sent : let_through s sent →
  let s' := fold_left (emit pct) pkts s in
  let_through s' (sent ++ pkts) ∧ sd_encoder s' = sd_encoder s.
Proof.
  revert s sent. induction pkts as [|pkt pkts IH]; intros s sent Hp; [by rw app_nil_r|].
  apply (emit_let_through _ _ pkt) in Hp as [Hp He]. apply IH in Hp as [Hp He'].
  cbn [fold_left]. by rw -app_assoc He in Hp He' |- *.
Qed.

(** One more coded packet, or none. *)
Lemma emit_coded_ok s sent res : on_wire s sent → extra_result disp src (sd_encoder s) sent res →
  ∃ s' b sent', emit_coded pct s res = Ok (s', b) ∧ on_wire s' sent' ∧
    en_config (sd_encoder s') = en_config (sd_encoder s) ∧
    en_window (sd_encoder s') = en_window (sd_encoder s).
Proof.
  intros [Hs Hw] (e & o & -> & Hc & Hwin & Ho). unfold emit_coded. rw bind_Ok.
  destruct o as [[pkt|raw]|]; [by destruct Ho| |].
  - destruct Ho as [_ Hses]. eexists _, _, (sent ++ [OutCoded raw]). split; [done|].
    destruct (emit_let_through (with_encoder s e) sent (OutCoded raw) Hw) as [Hp He].
    split; [|by rw He]. split; [by rw He|done].
  - subst e. eexists _, _, sent. split; [done|]. by split.
Qed.

Lemma altc_step_ok cfg s sent : on_wire s sent →
  ∃ s' sent', altc_step disp receiver_id_from_addr cfg pct s = Ok s' ∧ on_wire s' sent' ∧
    en_config (sd_encoder s') = en_config (sd_encoder s) ∧
    en_window (sd_encoder s') = en_window (sd_encoder s).
Proof.
  intros Hs. unfold altc_step. destruct (sc_altc cfg); [by exists s, sent|..].
  all: match goal with |- context [emit_coded _ _ ?res] =>
    destruct (emit_coded_ok s sent res Hs) as (s' & b & sent' & -> & Hs' & Hc & Hw) end;
    [|by exists s', sent'].
  - apply (recent_total disp src), Hs.
  - apply (receiver_total disp src), Hs.
Qed.

Lemma flush_tail_ok n s sent : on_wire s sent →
  ∃ s' sent', flush_tail disp n pct s = Ok s' ∧ on_wire s' sent' ∧
    en_config (sd_encoder s') = en_config (sd_encoder s) ∧
    en_window (sd_encoder s') = en_window (sd_encoder s).
Proof.
  revert s sent. induction n as [|n IH]; intros s sent Hs; [by exists s, sent|]. cbn [flush_tail].
  destruct (emit_coded_ok s sent (generate_coded disp (sd_encoder s)) Hs) as (s' & b & sent' & -> & Hs' & Hc & Hw);
    [apply (coded_total disp src), Hs|].
  rw bind_Ok. destruct b; [|by exists s', sent'].
  destruct (IH s' sent' Hs') as (s2 & sent2 & Hf & Hs2 & Hc2 & Hw2).
  exists s2, sent2. split_and!; [done|done|by rw Hc2|by rw Hw2].
Qed.

(** Symbol [i] goes in, and the session goes on. *)
Lemma send_symbol_ok cfg padded s sent i : on_wire s sent →
  ec_backpressure (en_config (sd_encoder s)) = EvictOldest →
  w_next_id (en_window (sd_encoder s)) = i → i < 65536 →
  (let off := Z.to_nat (i * sc_symbol_size cfg) in
   slice (E := DelpError) padded off (off + Z.to_nat (sc_symbol_size cfg)) = Ok (src i)) →
  ∃ s' sent', send_symbol disp receiver_id_from_addr cfg pct padded s i = Ok s' ∧ on_wire s' sent' ∧
    en_config (sd_encoder s') = en_config (sd_encoder s) ∧
    w_next_id (en_window (sd_encoder s')) = i + 1.
Proof.
  intros [Hs Hw] Hb <- Hi Hchunk. unfold send_symbol. rw Hchunk bind_Ok.
  destruct (submit_total disp src _ _ Hs Hi (or_intror Hb)) as (e & pkt & new & -> & Hses & Hc & Hn & _).
  rw bind_Ok. destruct (emit_all_let_through (OutSource pkt :: new) (with_encoder s e) sent Hw) as [Hl He].
  destruct (altc_step_ok cfg (fold_left (emit pct) (OutSource pkt :: new) (with_encoder s e))
    (sent ++ OutSource pkt :: new)) as (s' & sent' & -> & Hs' & Hc' & Hw'); [by split; rw ?He|].
  exists s', sent'. split_and!; [done|done|by rw Hc' He|by rw Hw' He Hn].
Qed.

Lemma send_loop_ok cfg padded k : ∀ i s sent, on_wire s sent →
  ec_backpressure (en_config (sd_encoder s)) = EvictOldest →
  w_next_id (en_window (sd_encoder s)) = i → i + Z.of_nat k ≤ 65536 →
  (∀ j, i ≤ j < i + Z.of_nat k → let off := Z.to_nat (j * sc_symbol_size cfg) in
   slice (E := DelpError) padded off (off + Z.to_nat (sc_symbol_size cfg)) = Ok (src j)) →
  ∃ s' sent', mfor (send_symbol disp receiver_id_from_addr cfg pct padded) s (seqZ i (Z.of_nat k)) = Ok s' ∧
    on_wire s' sent' ∧ en_config (sd_encoder s') = en_config (sd_encoder s) ∧
    w_next_id (en_window (sd_encoder s')) = i + Z.of_nat k.
Proof.
  induction k as [|k IH]; intros i s sent Hs Hb Hi Hk Hch.
  { exists s, sent. split_and!; [done..|lia]. }
  rw seqZ_cons; [|lia]. cbn [mfor].
  destruct (send_symbol_ok cfg padded s sent i) as (s1 & sent1 & -> & Hs1 & Hc1 & Hn1);
    [done..|lia|apply Hch; lia|]. rw bind_Ok.
  replace (Z.pred (Z.of_nat (S k))) with (Z.of_nat k) by lia.
  destruct (IH (i + 1) s1 sent1) as (s2 & sent2 & Hr & Hs2 & Hc2 & Hn2);
    [done|by rw Hc1|done|lia|intros j Hj; apply Hch; lia|].
  exists s2, sent2. split_and!; [exact Hr|done|by rw Hc2|lia].
Qed.
End send_laws.

(** Arguments the encoder accepts, for a file that fits in the 2^16 IDs a
    stream can use. *)
Record args_ok {Addr} (cfg : SendConfig (Addr := Addr)) (raw : bytes) : Prop := {
  ar_symbol : 1 ≤ sc_symbol_size cfg ≤ 65535;
  ar_window : 1 ≤ sc_window cfg < 256;
  ar_numer : 0 ≤ sc_fec_n cfg;
  ar_denom : 1 ≤ sc_fec_d cfg;
  ar_cauchy : sc_strategy cfg = SCauchy → sc_window cfg ≤ EncoderBuilder.cauchy_max Gf2_8;
  ar_raw : bytes_ok raw;
  ar_length : Z.of_nat (length raw) ≤ 65536 * sc_symbol_size cfg;
}.

Definition send_symbols {Addr} (cfg : SendConfig (Addr := Addr)) (raw : bytes) : Z :=
  (Z.of_nat (length raw) + sc_symbol_size cfg - 1) / sc_symbol_size cfg.
Definition send_src {Addr} (cfg : SendConfig (Addr := Addr)) (raw : bytes) : Z → bytes :=
  file_chunk (Z.to_nat (sc_symbol_size cfg)) raw.
Definition send_start {Addr} (sha256 : bytes → bytes) (cfg : SendConfig (Addr := Addr)) (raw : bytes) : bytes :=
  build_start_frame (sc_symbol_size cfg) (send_symbols cfg raw) (Z.of_nat (length raw)) (sha256 raw).

Lemma loss_pct_total {Addr} (cfg : SendConfig (Addr := Addr)) :
  ∃ pct, loss_pct cfg = Ok pct ∧ 0 ≤ pct ≤ 4294967295.
Proof. unfold loss_pct. eexists. split; [reflexivity|]. by apply f_to_uint_range. Qed.

(** The builder's calls, as the commands make them. *)
Lemma cli_build_ok ss window fec_n fec_d strategy :
  1 ≤ ss ≤ 65535 → 1 ≤ window → 0 ≤ fec_n → 1 ≤ fec_d →
  (strategy = SCauchy → window ≤ EncoderBuilder.cauchy_max Gf2_8) →
  ∃ c, EncoderBuilder.build (EncoderBuilder.backpressure EvictOldest
    (EncoderBuilder.matrix_strategy (into_delp strategy)
    (EncoderBuilder.fec_rate fec_n fec_d
    (EncoderBuilder.window_capacity window (EncoderBuilder.new ss))))) = Ok c ∧
    encoder_config_ok c ∧ ec_symbol_size c = ss ∧ ec_field c = Gf2_8 ∧
    ec_window_capacity c = window ∧ ec_backpressure c = EvictOldest ∧
    ec_fec_numer c = fec_n ∧ ec_fec_denom c = fec_d ∧ ec_matrix_strategy c = into_delp strategy.
Proof.
  intros ? ? ? ? Hca. eexists. rw build_valid; [split_and!; try done|..]; unfold builder_usize, encoder_config_ok; cbn.
  1, 3: split_and!; try lia; intros Hc; apply Hca; by destruct strategy.
  lia.
Qed.

Lemma slice_chunk {E} ss raw len i : (Z.to_nat i * ss + ss ≤ len)%nat →
  slice (E := E) (resize len 0 raw) (Z.to_nat i * ss) (Z.to_nat i * ss + ss) = Ok (file_chunk ss raw i).
Proof.
  intros Hl. rw slice_ok; [|rw length_resize; lia]. unfold file_chunk. f_equal.
  replace (_ + ss - _)%nat with ss by lia. by rw take_drop_resize.
Qed.

(** The number of symbols: as many as hold the file, no more than 2^16. *)
Lemma send_symbols_range {Addr} (cfg : SendConfig (Addr := Addr)) raw : args_ok cfg raw →
  let n := send_symbols cfg raw in
  0 ≤ n ≤ 65536 ∧ Z.of_nat (length raw) ≤ n * sc_symbol_size cfg < Z.of_nat (length raw) + sc_symbol_size cfg.
Proof. intros []. unfold send_symbols. Z.to_euclidean_division_equations. nia. Qed.

(** The chunks are the file, and zeros. *)
Lemma send_src_file {Addr} (cfg : SendConfig (Addr := Addr)) raw : args_ok cfg raw →
  take (length raw) (mjoin (send_src cfg raw <$> seqZ 0 (send_symbols cfg raw))) = raw.
Proof.
  intros Ha. destruct (send_symbols_range cfg raw Ha) as [Hn Hlen]. unfold send_src.
  rw -(Z2Nat.id (send_symbols cfg raw)); [|lia]. rw mjoin_chunks take_resize_le; [by rw resize_all|].
  rw -Z2Nat.inj_mul; [|lia|by destruct Ha; lia]. lia.
Qed.

Lemma send_run_ok disp sha256 {Addr} (rid : Addr → Z) `{HeaderCastLaw} cfg raw nanos : args_ok cfg raw →
  ∃ s sent out,
    send_run disp sha256 rid cfg raw nanos
    = Ok (s, send_start sha256 cfg raw :: (raw_of <$> out) ++ [build_end_frame]) ∧
    enc_session disp (send_src cfg raw) (sd_encoder s) sent ∧ out `sublist_of` sent ∧
    (loss_pct cfg = Ok 0 → out = sent) ∧
    w_next_id (en_window (sd_encoder s)) = send_symbols cfg raw ∧
    ec_symbol_size (en_config (sd_encoder s)) = sc_symbol_size cfg ∧
    ec_field (en_config (sd_encoder s)) = Gf2_8 ∧
    ec_matrix_strategy (en_config (sd_encoder s)) = into_delp (sc_strategy cfg).
Proof.
  intros Ha. pose proof (send_symbols_range cfg raw Ha) as [Hn Hlen].
  destruct (loss_pct_total cfg) as (pct & Hpct & Hp). pose proof Ha as [].
  destruct (cli_build_ok (sc_symbol_size cfg) (sc_window cfg) (sc_fec_n cfg) (sc_fec_d cfg) (sc_strategy cfg))
    as (c & Hbuild & Hc & Hsz & Hf & Hcap & Hbp & _ & _ & Hst); [done|lia|done..|].
  unfold send_run. rw (u64_small (Z.of_nat (length raw))); [|word_bound].
  rw (proj2 (Z.eqb_neq _ 0)); [|lia]. cbn [negb rassert]. rw bind_Ok.
  fold (send_symbols cfg raw). set (n := send_symbols cfg raw) in *.
  rw (u64_small (n * _)); [|word_bound]. rw (proj2 (Z.leb_le _ _)); [|nia]. cbn [rassert]. rw bind_Ok.
  rw Hbuild bind_Ok. unfold ConstantFecRate_new. rw (proj2 (Z.ltb_lt 0 _)); [|lia].
  cbn [rassert]. rw bind_Ok bind_Ok Hpct bind_Ok.
  rw (u16_small (sc_symbol_size cfg)); [|word_bound]. rw (u32_small n); [|word_bound].
  fold n. change (build_start_frame _ _ _ _) with (send_start sha256 cfg raw).
  set (s0 := {| sd_encoder := _ |}).
  assert (on_wire disp (send_src cfg raw) (send_start sha256 cfg raw) pct s0 []) as Hs0.
  { split; [|by exists []]. apply Encoder.session_new; [done|lia|cbn; lia|].
    intros id. unfold sym_size. rw Hsz. by apply file_chunk_symbol. }
  destruct (send_loop_ok disp rid (send_src cfg raw) (send_start sha256 cfg raw) pct cfg
    (resize (Z.to_nat (n * sc_symbol_size cfg)) 0 raw) (Z.to_nat n) 0 s0 [])
    as (s1 & sent1 & Hr1 & Hs1 & Hc1 & Hn1); [done..|lia| |].
  { intros j Hj. cbn zeta. rw (Z2Nat.inj_mul j); [|lia..]. apply slice_chunk.
    rw Z2Nat.inj_mul; [|lia..]. assert (Z.to_nat j + 1 ≤ Z.to_nat n)%nat by lia. nia. }
  rw Z2Nat.id in Hr1; [|lia]. rw Hr1 bind_Ok.
  destruct (flush_tail_ok disp (send_src cfg raw) (send_start sha256 cfg raw) pct
    (Z.to_nat (u64 (sc_window cfg * 2))) s1 sent1 Hs1) as (s2 & sent2 & Hr2 & Hs2 & Hc2 & Hw2).
  rw Hr2 bind_Ok. destruct Hs2 as [Hses (out & Hsub & Hwire & Hall)].
  exists s2, sent2, out. rw Hwire. split_and!; [done..| |by rw Hw2 Hn1; lia|by rw Hc2 Hc1|by rw Hc2 Hc1|by rw Hc2 Hc1].
  intros [= ->]. by apply Hall.
Qed.

(** C28: for any file of at most 2^16 symbols and arguments the encoder accepts
    with a window below 256, the sender never fails: it sends START, then the packets of one encoder session over the file's
    chunks that the simulated loss let through, in order (all of them when the
    loss rate is 0), then END; every chunk of the file is submitted. *)
Theorem send_emits_session disp sha256 {Addr} (rid : Addr → Z) `{HeaderCastLaw} cfg raw nanos :
  args_ok cfg raw →
  ∃ s sent out,
    send_run disp sha256 rid cfg raw nanos
    = Ok (s, send_start sha256 cfg raw :: (raw_of <$> out) ++ [build_end_frame]) ∧
    enc_session disp (send_src cfg raw) (sd_encoder s) sent ∧ out `sublist_of` sent ∧
    (loss_pct cfg = Ok 0 → out = sent) ∧
    w_next_id (en_window (sd_encoder s)) = send_symbols cfg raw ∧
    take (length raw) (mjoin (send_src cfg raw <$> seqZ 0 (send_symbols cfg raw))) = raw.
Proof.
  intros Ha. destruct (send_run_ok disp sha256 rid cfg raw nanos Ha)
    as (s & sent & out & Hr & Hs & Hsub & Hall & Hn & _).
  exists s, sent, out. split_and!; [done..|]. by apply send_src_file.
Qed.

(** *** A five-byte file *)
Definition demo_file : bytes := [10; 20; 30; 40; 50].
Definition demo_args : SendConfig (Addr := unit) :=
  {| sc_dest := tt; sc_symbol_size := 2; sc_window := 4; sc_fec_n := 1; sc_fec_d := 1;
     sc_strategy := SCauchy; sc_altc := AltcRecent; sc_altc_recent := 2; sc_loss_rate := f_of_Z 0 |}.

Lemma demo_args_ok : args_ok demo_args demo_file.
Proof. constructor; cbn; try lia; repeat constructor; word_bound. Qed.

Lemma send_emits_session_witness :
  ∃ s sent out,
    @send_run Avx2 (λ _, replicate 32 7) unit (λ _, 5) demo_args demo_file 12345
    = Ok (s, send_start (λ _, replicate 32 7) demo_args demo_file :: (raw_of <$> out) ++ [build_end_frame]) ∧
    @enc_session Avx2 AnyAckPolicy NoCongestionControl ConstantFecRate _ _ _ _
      (send_src demo_args demo_file) (sd_encoder s) sent ∧ out = sent ∧
    w_next_id (en_window (sd_encoder s)) = 3.
Proof.
  destruct (@send_emits_session Avx2 (λ _, replicate 32 7) unit (λ _, 5) ReprC.cast ReprC.cast_law
    demo_args demo_file 12345 demo_args_ok) as (s & sent & out & Hr & Hs & _ & Hall & Hn & _).
  exists s, sent, out. split; [exact Hr|]. split; [exact Hs|].
  split; [apply Hall; vm_compute; reflexivity|]. rw Hn. vm_compute. reflexivity.
Defined.

(** A symbol size of 0 divides by zero before the builder can refuse it. *)
Lemma zero_symbol_size_panics disp sha256 {Addr} (rid : Addr → Z) cfg raw nanos :
  sc_symbol_size cfg = 0 → send_run disp sha256 rid cfg raw nanos = Panic.
Proof. intros Hz. unfold send_run. by rw Hz. Qed.
