(* ===== verification/CliRecv.v ===== *)
(** * delp-cli: recv.rs, the file receiver

    Datagrams are a list in order of arrival, each with the time the program waits
    for it and the time it spends on it.  The inactivity timer fires when a
    datagram takes longer to come than [inactivity] nanoseconds, or when none comes
    any more, at the end of the list.  The SHA-256 function is a parameter; socket and file errors end the program and are not
    modelled. *)

From S2P Require Import Prelude Error Config Gf CoefGen Simd IdStorage EncVec Common Packets F64 Feedback Packet Policy Window LinComb Encoder BTree Buffer Matrix Dense Elim Decoder Recovery Delivery Consumer Transport EndToEnd Lossless CliSend.
From stdpp Require Import sorting.
#[global] Open Scope Z_scope.

Record Session := {
  se_symbol_size : Z;
  se_n_symbols : Z;
  se_file_size : Z;
  se_sha256 : bytes;
}.

Inductive RecvError : Type :=
| StartTooShort (len : nat)
| MissingMagic
| MalformedStart
| UnsupportedStart (version : Z)
| StartTimeout
| CodecError (e : DelpError)
| InactivityTimeout (got total : Z)
| MissingSymbol (id : Z)
| ShaMismatch (written : bytes).

(** [?] on a result of the codec. *)
Definition codec {A} (m : result A) : outcome RecvError A :=
  match m with Ok a => Ok a | Err e => Err (CodecError e) | Panic => Panic end.

Definition u16_from_be_bytes (b : bytes) : Z := tget b 0 * 256 + tget b 1.
Definition u64_from_be_bytes (b : bytes) : Z :=
  u32_from_be_bytes (take 4 b) * 4294967296 + u32_from_be_bytes (drop 4 b).

Definition parse_start (buf : bytes) : outcome RecvError Session :=
  if (length buf <? 4 + 4 + 4 + 8 + 32)%nat then Err (StartTooShort (length buf)) else
  first ← slice buf 0 2;
  if negb (bool_decide (first = take 2 MAGIC)) then Err MissingMagic else
  b0 ← index buf 0; b1 ← index buf 1; b2 ← index buf 2; b3 ← index buf 3;
  if negb (b0 =? 68) || negb (b1 =? 69) || negb (b2 =? 76) || negb (b3 =? CTRL_START)
  then Err MalformedStart else
  version ← index buf 4;
  if negb (version =? 1) then Err (UnsupportedStart version) else
  b6 ← index buf 6; b7 ← index buf 7;
  n ← slice buf 8 12;
  size ← slice buf 12 20;
  sha ← slice buf 20 52;
  Ok {| se_symbol_size := u16_from_be_bytes [b6; b7]; se_n_symbols := u32_from_be_bytes n;
        se_file_size := u64_from_be_bytes size; se_sha256 := sha |}.

(** The nanoseconds for which [recv_from] waits for a datagram, and those that
    pass between its arrival and the end of the turn that handles it. *)
Record Pace := { silence : Z; handling : Z }.
Definition arrival : Type := bytes * Pace.

Section recv.
Context (disp : Dispatch) (inactivity : Z) (sha256 : bytes → bytes) `{HeaderCast}.

(** [timeout(inactivity, socket.recv_from(..))] *)
Definition times_out (pace : Pace) : bool := inactivity <? silence pace.
(** [last_progress.elapsed() > Duration::from_millis(150)] *)
Definition slow (pace : Pace) : bool := 150000000 <? handling pace.

(** Datagrams that are not START are dropped while waiting for it. *)
Fixpoint wait_start (arrivals : list arrival) : outcome RecvError (Session * list arrival) :=
  match arrivals with
  | [] => Err StartTimeout
  | (buf, pace) :: rest =>
      if times_out pace then Err StartTimeout
      else if (4 <=? length buf)%nat && bool_decide (buf !! 3%nat = Some CTRL_START)
      then session ← parse_start buf; Ok (session, rest)
      else wait_start rest
  end.

Record Receiving := {
  rv_decoder : Decoder ConstantFeedbackPolicy;
  rv_symbols : gmap Z bytes;
  rv_pkts_in : Z;
}.

(** [symbols.insert(id, data)] for the symbols among the events. *)
Definition insert_ready (symbols : gmap Z bytes) (evs : list DecoderEvent) : gmap Z bytes :=
  fold_left (λ m e, match e with SourceReady id data => <[id := data]> m | _ => m end) evs symbols.

(** What is done with the result of a handler; its error is ignored. *)
Definition take_handled (rv : Receiving) (res : handler (P := ConstantFeedbackPolicy))
  : outcome RecvError Receiving :=
  match res with
  | Ok (d, evs) => Ok {| rv_decoder := d; rv_symbols := insert_ready (rv_symbols rv) evs;
                         rv_pkts_in := rv_pkts_in rv |}
  | Err (d, _) => Ok {| rv_decoder := d; rv_symbols := rv_symbols rv; rv_pkts_in := rv_pkts_in rv |}
  | Panic => Panic
  end.

(** One datagram of at least four bytes, and whether it is END. *)
Definition recv_datagram (rv : Receiving) (buf : bytes) : outcome RecvError (Receiving * bool) :=
  let rv := {| rv_decoder := rv_decoder rv; rv_symbols := rv_symbols rv;
               rv_pkts_in := u64 (rv_pkts_in rv + 1) |} in
  ty ← index buf 3;
  if ty =? CTRL_END then Ok (rv, true)
  else if ty =? 0 then
    match Source.parse buf with
    | Ok sp => rv ← take_handled rv (handle_source disp (rv_decoder rv) sp); Ok (rv, false)
    | Err _ => Ok (rv, false)
    | Panic => Panic
    end
  else if ty =? 1 then
    match Coded.parse buf with
    | Ok cp => rv ← take_handled rv (handle_coded disp (rv_decoder rv) cp); Ok (rv, false)
    | Err _ => Ok (rv, false)
    | Panic => Panic
    end
  else Ok (rv, false).

Definition got_all (session : Session) (rv : Receiving) : bool :=
  se_n_symbols session <=? u32 (Z.of_nat (size (rv_symbols rv))).

(** Nothing came in time: an error, unless every symbol is there. *)
Definition silent (session : Session) (rv : Receiving) : outcome RecvError Receiving :=
  if got_all session rv then Ok rv
  else Err (InactivityTimeout (Z.of_nat (size (rv_symbols rv))) (se_n_symbols session)).

Fixpoint recv_loop (session : Session) (rv : Receiving) (arrivals : list arrival)
  : outcome RecvError Receiving :=
  match arrivals with
  | [] => silent session rv
  | (buf, pace) :: rest =>
      if times_out pace then silent session rv
      else if (length buf <? 4)%nat then recv_loop session rv rest else
      '(rv, got_end) ← recv_datagram rv buf;
      if got_all session rv && slow pace then Ok rv
      else if (got_end : bool) then Ok rv
      else recv_loop session rv rest
  end.

(** [Vec::with_capacity] refuses more than [isize::MAX] bytes. *)
Definition stitch (session : Session) (symbols : gmap Z bytes) : outcome RecvError bytes :=
  _ ← rassert (se_file_size session <=? 9223372036854775807);
  out ← mfor (λ out id,
    match symbols !! id with
    | Some data => Ok (out ++ data)
    | None => Err (MissingSymbol id)
    end) [] (seqZ 0 (se_n_symbols session));
  Ok (take (Z.to_nat (se_file_size session)) out).

Definition receiving_new (dec_cfg : DecoderConfig) (policy : ConstantFeedbackPolicy) : Receiving :=
  {| rv_decoder := decoder_new dec_cfg policy; rv_symbols := ∅; rv_pkts_in := 0 |}.

(** [run]: the file that was written and verified. *)
Definition recv_run (arrivals : list arrival) : outcome RecvError bytes :=
  '(session, rest) ← wait_start arrivals;
  dec_cfg ← codec (DecoderBuilder.build (DecoderBuilder.new (se_symbol_size session)));
  policy ← codec (ConstantFeedbackPolicy_new 8);
  rv ← recv_loop session (receiving_new dec_cfg policy) rest;
  out ← stitch session (rv_symbols rv);
  if bool_decide (sha256 out = se_sha256 session) then Ok out else Err (ShaMismatch out).
End recv.

(** ** The inactivity timer *)

(** What is heard before the first silence that is too long; the rest is never
    read. *)
Fixpoint heard (inactivity : Z) (arrivals : list arrival) : list arrival :=
  match arrivals with
  | [] => []
  | a :: rest => if times_out inactivity a.2 then [] else a :: heard inactivity rest
  end.
Definition in_time (inactivity : Z) (arrivals : list arrival) : Prop :=
  Forall (λ a, silence a.2 ≤ inactivity) arrivals.

Lemma in_time_soon inactivity pace : silence pace ≤ inactivity → times_out inactivity pace = false.
Proof. apply Z.ltb_ge. Qed.

Lemma heard_in_time inactivity arrivals : in_time inactivity (heard inactivity arrivals).
Proof.
  induction arrivals as [|a arrivals IH]; [constructor|]. cbn [heard].
  destruct (times_out inactivity a.2) eqn:Et; constructor; [|done]. by apply Z.ltb_ge in Et.
Qed.
Lemma heard_all inactivity arrivals : in_time inactivity arrivals → heard inactivity arrivals = arrivals.
Proof. induction 1 as [|a arrivals Ha _ IH]; [done|]. cbn [heard]. by rw in_time_soon // IH. Qed.
Lemma heard_paced inactivity pace raws : silence pace ≤ inactivity →
  heard inactivity ((λ raw, (raw, pace)) <$> raws) = (λ raw, (raw, pace)) <$> raws.
Proof. intros Hp. apply heard_all, Forall_fmap, Forall_true. done. Qed.
Lemma heard_sublist inactivity arrivals : (heard inactivity arrivals).*1 `sublist_of` arrivals.*1.
Proof.
  induction arrivals as [|a arrivals IH]; [done|]. cbn [heard].
  destruct (times_out inactivity a.2); [apply sublist_nil_l|by apply sublist_skip].
Qed.

Lemma wait_start_heard inactivity arrivals :
  wait_start inactivity (heard inactivity arrivals)
  = ('(session, rest) ← wait_start inactivity arrivals; Ok (session, heard inactivity rest)).
Proof.
  induction arrivals as [|[buf pace] arrivals IH]; [done|]. cbn [heard wait_start snd].
  destruct (times_out inactivity pace) eqn:Et; [done|]. cbn [wait_start]. rw Et.
  destruct (_ && _); [|done]. by destruct (parse_start buf).
Qed.

Section timer.
Context (disp : Dispatch) (inactivity : Z) `{HeaderCast}.

Lemma recv_loop_heard session arrivals : ∀ rv,
  recv_loop disp inactivity session rv (heard inactivity arrivals) = recv_loop disp inactivity session rv arrivals.
Proof.
  induction arrivals as [|[buf pace] arrivals IH]; intros rv; [done|]. cbn [heard recv_loop snd].
  destruct (times_out inactivity pace) eqn:Et; [done|]. cbn [recv_loop]. rw Et.
  destruct (length buf <? 4)%nat; [done|].
  destruct (recv_datagram disp rv buf) as [[rv' fin]| |]; [rw !bind_Ok|done..].
  destruct (_ && _); [done|]. by destruct fin.
Qed.

(** Only what is heard matters. *)
Lemma recv_run_heard sha256 arrivals :
  recv_run disp inactivity sha256 arrivals = recv_run disp inactivity sha256 (heard inactivity arrivals).
Proof.
  unfold recv_run. rw wait_start_heard.
  destruct (wait_start inactivity arrivals) as [[session rest]| |]; [rw !bind_Ok|done..].
  destruct (codec (DecoderBuilder.build _)); [rw !bind_Ok|done..].
  by rw recv_loop_heard.
Qed.
End timer.

(** ** START *)
Lemma u64_be_roundtrip v : is_u64 v → u64_from_be_bytes (u64_to_be_bytes v) = v.
Proof.
  intros Hv. unfold u64_from_be_bytes, u64_to_be_bytes.
  rw take_app_length' // drop_app_length' // !u32_be_roundtrip; [|apply u32_is..].
  rw Z.shiftr_div_pow2; [|lia]. unfold u32. change (2 ^ 32) with 4294967296. unfold is_u64 in Hv.
  Z.to_euclidean_division_equations. lia.
Qed.

Lemma start_frame_layout ss n size sha :
  build_start_frame ss n size sha
  = [68; 69; 76; 255; 1; 0] ++ be16 ss ++ u32_to_be_bytes n ++ u64_to_be_bytes size ++ sha.
Proof. unfold build_start_frame. by rw -!app_assoc. Qed.

Lemma parse_build_start ss n size sha : is_u16 ss → is_u32 n → is_u64 size → length sha = 32%nat →
  parse_start (build_start_frame ss n size sha)
  = Ok {| se_symbol_size := ss; se_n_symbols := n; se_file_size := size; se_sha256 := sha |}.
Proof.
  intros Hss Hn Hsz Hsha. rw start_frame_layout. unfold parse_start.
  assert (length ([68; 69; 76; 255; 1; 0] ++ be16 ss ++ u32_to_be_bytes n ++ u64_to_be_bytes size ++ sha)
    = 52%nat) as Hlen by (rw /= Hsha; done).
  rw Hlen. cbn [Nat.ltb Nat.leb Nat.add].
  set (buf := [68; 69; 76; 255; 1; 0] ++ _).
  assert (slice (E := RecvError) buf 20 52 = Ok sha) as Hs.
  { replace buf with (([68; 69; 76; 255; 1; 0] ++ be16 ss ++ u32_to_be_bytes n ++ u64_to_be_bytes size)
      ++ sha ++ []) by by rw app_nil_r -!app_assoc.
    by apply slice_app; rw ?Hsha. }
  change (slice buf 0 2) with (Ok (E := RecvError) [68; 69]).
  change (slice buf 8 12) with (Ok (E := RecvError) (u32_to_be_bytes n)).
  change (slice buf 12 20) with (Ok (E := RecvError) (u64_to_be_bytes size)).
  rw Hs. cbn -[u32_from_be_bytes u64_from_be_bytes u32_to_be_bytes u64_to_be_bytes].
  rw u32_be_roundtrip // u64_be_roundtrip //. do 2 f_equal.
  unfold u16_from_be_bytes, tget. cbn. by apply be16_value.
Qed.

(** ** The receiver as a consumer of packets *)
Definition insert_all (m : gmap Z bytes) (l : list (Z * bytes)) : gmap Z bytes :=
  fold_left (λ m p, <[p.1 := p.2]> m) l m.

Lemma insert_ready_delivered m evs : insert_ready m evs = insert_all m (delivered evs).
Proof.
  unfold insert_ready, insert_all. revert m.
  induction evs as [|[id data|raw|a n] evs IH]; intros m; [done|apply IH..].
Qed.
Lemma insert_all_app m l1 l2 : insert_all m (l1 ++ l2) = insert_all (insert_all m l1) l2.
Proof. apply fold_left_app. Qed.

Lemma insert_all_lookup m l id data : insert_all m l !! id = Some data →
  m !! id = Some data ∨ (id, data) ∈ l.
Proof.
  revert m. induction l as [|[i x] l IH]; intros m; [by left|]. intros [Hm|Hin]%IH; [|right; by right].
  apply lookup_insert_Some in Hm as [[<- <-]|[_ Hm]]; [right; by left|by left].
Qed.
Lemma insert_all_dom m l : dom (insert_all m l) = dom m ∪ list_to_set l.*1.
Proof.
  revert m. induction l as [|[i x] l IH]; intros m; [cbn; set_solver|].
  change (insert_all m ((i, x) :: l)) with (insert_all (<[i := x]> m) l).
  rw IH dom_insert_L. cbn. set_solver.
Qed.

(** The deliveries of a session: true symbols below [m]. *)
Definition true_below (src : Z → bytes) (m : Z) (l : list (Z * bytes)) : Prop :=
  Forall (λ '(id, data), data = src id) l ∧ l.*1 ⊆ seqZ 0 m.

Lemma true_lookup src m l id data : true_below src m l → insert_all ∅ l !! id = Some data → data = src id.
Proof.
  intros [Hl _] [Hid|Hid]%insert_all_lookup; [by rw lookup_empty in Hid|].
  rw Forall_forall in Hl. by apply (Hl (id, data)).
Qed.

Lemma true_dom src m l : true_below src m l → dom (insert_all ∅ l) ⊆ list_to_set (seqZ 0 m).
Proof.
  intros [_ Hl] id. rw insert_all_dom dom_empty_L left_id_L !elem_of_list_to_set. apply Hl.
Qed.

Lemma size_seqZ m : 0 ≤ m → Z.of_nat (size (list_to_set (C := gset Z) (seqZ 0 m))) = m.
Proof. intros Hm. rw size_list_to_set; [|apply NoDup_seqZ]. rw length_seqZ. lia. Qed.

Lemma true_size src m l : 0 ≤ m → true_below src m l → Z.of_nat (size (insert_all ∅ l)) ≤ m.
Proof.
  intros Hm Hl%true_dom%subseteq_size. pose proof (size_seqZ m Hm). rw size_dom in Hl. lia.
Qed.

(** As many symbols as the session has are all of them. *)
Lemma true_full src m l : 0 ≤ m → true_below src m l → m ≤ Z.of_nat (size (insert_all ∅ l)) →
  ∀ id, 0 ≤ id < m → insert_all ∅ l !! id = Some (src id).
Proof.
  intros Hm Hl Hsize id Hid. pose proof (true_dom _ _ _ Hl) as Hd.
  assert (dom (insert_all ∅ l) = list_to_set (seqZ 0 m)) as Heq.
  { apply set_subseteq_size_eq; [done|]. rw size_dom. pose proof (size_seqZ m Hm). lia. }
  assert (id ∈ dom (insert_all ∅ l)) as [data Hdata]%elem_of_dom
    by (rw Heq elem_of_list_to_set; by apply elem_of_seqZ).
  rw Hdata. f_equal. by eapply true_lookup.
Qed.

Section consumer.
Context (disp : Dispatch) `{HeaderCastLaw}.

Definition recv_feed (rv : Receiving) (raw : bytes) : outcome RecvError Receiving :=
  '(rv, _) ← recv_datagram disp rv raw; Ok rv.

#[export] Instance recv_consumer : Consumer ConstantFeedbackPolicy Receiving RecvError :=
  {| cs_decoder := rv_decoder; cs_feed := recv_feed;
     cs_got rv l := rv_symbols rv = insert_all ∅ l |}.

Lemma source_byte raw p : Source.parse raw = Ok p → raw !! 3%nat = Some 0 ∧ (4 ≤ length raw)%nat.
Proof. intros (h & Hh & Ht)%source_parse_type. exact (header_parse_type _ _ _ Hh Ht). Qed.
Lemma coded_byte raw p : Coded.parse raw = Ok p → raw !! 3%nat = Some 1 ∧ (4 ≤ length raw)%nat.
Proof. intros (h & Hh & Ht)%coded_parse_type. exact (header_parse_type _ _ _ Hh Ht). Qed.

#[export] Instance recv_consumer_laws : ConsumerLaws disp ConstantFeedbackPolicy Receiving RecvError.
Proof.
  constructor; cbn; intros rv raw p d new l Hgot Hp Hd.
  - destruct (source_byte _ _ Hp) as [Hty _]. unfold recv_feed, recv_datagram, index. rw Hty bind_Ok.
    cbn [CTRL_END Z.eqb rv_decoder]. rw Hp Hd. eexists. split; [done|]. split; [done|]. cbn.
    by rw insert_ready_delivered Hgot -insert_all_app.
  - destruct (coded_byte _ _ Hp) as [Hty _]. unfold recv_feed, recv_datagram, index. rw Hty bind_Ok.
    cbn [CTRL_END Z.eqb Pos.eqb rv_decoder]. rw Hp Hd. eexists. split; [done|]. split; [done|]. cbn.
    by rw insert_ready_delivered Hgot -insert_all_app.
Qed.
End consumer.

(** ** The loop over a session's packets *)
Section loop.
Context (disp : Dispatch) (inactivity : Z) `{HeaderCastLaw}.

Definition is_packet (raw : bytes) : Prop :=
  (4 ≤ length raw)%nat ∧ ∃ ty, raw !! 3%nat = Some ty ∧ (ty = 0 ∨ ty = 1).

(** What may end the packets: END, or silence. *)
Definition is_tail (tail : list arrival) : Prop :=
  tail = [] ∨ ∃ pace, tail = [(build_end_frame, pace)].

Lemma recv_datagram_feed rv rv' raw : is_packet raw → recv_feed disp rv raw = Ok rv' →
  recv_datagram disp rv raw = Ok (rv', false).
Proof.
  intros (_ & ty & Hty & H01). unfold recv_feed, recv_datagram, index. rw Hty bind_Ok.
  assert (ty =? CTRL_END = false) as -> by by destruct H01; subst.
  intros ([rv1 b] & Hb & [= ->])%bind_Ok_inv. rw Hb. do 2 f_equal. revert Hb.
  destruct (ty =? 0); [|destruct (ty =? 1)]; [..|by intros [= _ <-]]; case_match; try done;
    try (by intros [= _ <-]); by intros (? & _ & [= _ <-])%bind_Ok_inv.
Qed.

(** The loop feeds the packets one by one; it stops before the last one only
    when it has as many symbols as the session. *)
Lemma recv_loop_spec session tail arr : in_time inactivity (arr ++ tail) → is_tail tail → Forall is_packet arr.*1 →
  ∀ rv rvf, mfor (recv_feed disp) rv arr.*1 = Ok rvf →
  ∃ k rv', mfor (recv_feed disp) rv (take k arr.*1) = Ok rv' ∧
    (take k arr.*1 = arr.*1 ∨ got_all session rv' = true) ∧
    ((∃ rv2, recv_loop disp inactivity session rv (arr ++ tail) = Ok rv2 ∧ rv_symbols rv2 = rv_symbols rv') ∨
     (got_all session rv' = false ∧
      ∃ a b, recv_loop disp inactivity session rv (arr ++ tail) = Err (InactivityTimeout a b))).
Proof.
  intros Htime Htail Hpk. induction arr as [|[raw pace] arr IH]; intros rv rvf Hfeed.
  - exists 0%nat, rv. split_and!; [done|by left|]. destruct Htail as [->|[pace ->]]; cbn [app recv_loop].
    + unfold silent. destruct (got_all session rv) eqn:Ea; [left; by exists rv|right].
      split; [done|]. by eexists _, _.
    + left. apply Forall_inv in Htime. rw in_time_soon //. cbn -[got_all slow].
      destruct (_ && slow pace); eexists; by split.
  - apply Forall_cons in Hpk as [Hraw Hpk]. apply Forall_cons in Htime as [Ht Htime]. cbn [fmap list_fmap mfor] in Hfeed.
    apply bind_Ok_inv in Hfeed as (rv1 & Hf1 & Hrest). cbn [app recv_loop]. rw in_time_soon //.
    rw (proj2 (Nat.ltb_ge _ _)); [|apply Hraw].
    rw (recv_datagram_feed rv rv1 raw Hraw Hf1) bind_Ok.
    destruct (got_all session rv1 && slow pace) eqn:Ea.
    + apply andb_true_iff in Ea as [Ea _]. exists 1%nat, rv1. split_and!; [|by right|left; by exists rv1].
      cbn [fmap list_fmap take mfor]. by rw Hf1 bind_Ok.
    + destruct (IH Htime Hpk rv1 rvf Hrest) as (k & rv' & Hk & Hall & Hres).
      exists (S k), rv'. split_and!; [|..|exact Hres].
      * cbn [fmap list_fmap take mfor]. by rw Hf1 bind_Ok.
      * cbn [fmap list_fmap take]. destruct Hall as [->|]; [by left|by right].
Qed.

(** Waiting skips everything but START. *)
Lemma wait_start_skips arr tail : Forall is_packet arr.*1 → is_tail tail →
  wait_start inactivity (arr ++ tail) = Err StartTimeout.
Proof.
  intros Hpk Htail. induction arr as [|[raw pace] arr IH].
  - destruct Htail as [->|[pace ->]]; [done|]. cbn -[times_out]. by destruct (times_out _ _).
  - apply Forall_cons in Hpk as [(_ & ty & Hty & H01) Hpk]. cbn [app wait_start].
    destruct (times_out inactivity pace); [done|].
    rw bool_decide_eq_false_2; [|rw Hty; destruct H01; by subst]. rw andb_false_r. by apply IH.
Qed.

(** *** Stitching *)
Lemma stitch_full session symbols src : se_file_size session ≤ 9223372036854775807 →
  (∀ id, 0 ≤ id < se_n_symbols session → symbols !! id = Some (src id)) →
  stitch session symbols
  = Ok (take (Z.to_nat (se_file_size session)) (mjoin (src <$> seqZ 0 (se_n_symbols session)))).
Proof.
  intros Hsize Hall. unfold stitch. rw (proj2 (Z.leb_le _ _)) //. cbn [rassert]. rw bind_Ok.
  assert (∀ ids acc, (∀ id, id ∈ ids → symbols !! id = Some (src id)) →
    mfor (λ out id, match symbols !! id with
      | Some data => Ok (out ++ data) | None => Err (MissingSymbol id) end) acc ids
    = Ok (acc ++ mjoin (src <$> ids))) as Hloop.
  { induction ids as [|id ids IH]; intros acc Hids; [by rw app_nil_r|]. cbn [mfor].
    rw Hids; [|by left]. rw bind_Ok IH; [by rw -app_assoc|]. intros id' Hid'. apply Hids. by right. }
  rw Hloop; [by rw bind_Ok|]. intros id [? ?]%elem_of_seqZ. apply Hall. lia.
Qed.

(** A missing symbol is an error. *)
Lemma stitch_missing session symbols : se_file_size session ≤ 9223372036854775807 →
  (∀ id, 0 ≤ id < se_n_symbols session → is_Some (symbols !! id)) ∨
  ∃ id, stitch session symbols = Err (MissingSymbol id).
Proof.
  intros Hsize. unfold stitch. rw (proj2 (Z.leb_le _ _)) //. cbn [rassert]. rw bind_Ok.
  assert (∀ ids acc, (∀ id, id ∈ ids → is_Some (symbols !! id)) ∨
    ∃ id, mfor (λ out id, match symbols !! id with
      | Some data => Ok (out ++ data) | None => Err (MissingSymbol id) end) acc ids
    = Err (MissingSymbol id)) as Hloop.
  { induction ids as [|id ids IH]; intros acc; [left; by intros id Hid%elem_of_nil|]. cbn [mfor].
    destruct (symbols !! id) as [data|] eqn:E; [|right; by exists id]. rw bind_Ok.
    destruct (IH (acc ++ data)) as [Hall|He]; [left|by right].
    intros id' [->|Hid']%elem_of_cons; [by rw E|by apply Hall]. }
  destruct (Hloop (seqZ 0 (se_n_symbols session)) []) as [Hall|[id ->]]; [left|right; by exists id].
  intros id Hid. apply Hall, elem_of_seqZ. lia.
Qed.
End loop.

(** ** From a sender to a receiver *)
Section transfer.
Context (disp disp' : Dispatch) (inactivity : Z) (sha256 : bytes → bytes) `{HeaderCastLaw}.
Context {Addr : Type} (cfg : SendConfig (Addr := Addr)) (raw : bytes).
Hypothesis Hargs : args_ok cfg raw.
Context (e : Encoder AnyAckPolicy NoCongestionControl ConstantFecRate) (sent : list EncoderOutput).
Hypothesis Hsession : enc_session disp (send_src cfg raw) e sent.
Hypothesis Hnext : w_next_id (en_window e) = send_symbols cfg raw.
Hypothesis Hsize : ec_symbol_size (en_config e) = sc_symbol_size cfg.
Hypothesis Hfield : ec_field (en_config e) = Gf2_8.

Definition transfer_session : Session :=
  {| se_symbol_size := sc_symbol_size cfg; se_n_symbols := send_symbols cfg raw;
     se_file_size := Z.of_nat (length raw); se_sha256 := sha256 raw |}.
Definition transfer_decoder : DecoderConfig :=
  {| dc_symbol_size := sc_symbol_size cfg; dc_field := Gf2_8; dc_max_matrix_rows := 512;
     dc_feedback_every := 16 |}.
Definition transfer_start : Receiving := receiving_new transfer_decoder {| cp_period := 8; cp_counter := 0 |}.

Local Abbreviation m := (send_symbols cfg raw).

(** The packets that arrived can be fed, and give true symbols. *)
Lemma transfer_fed out : out `sublist_of` sent →
  ∃ rv l, mfor (recv_feed disp') transfer_start (raw_of <$> out) = Ok rv ∧
    rv_symbols rv = insert_all ∅ l ∧ true_below (send_src cfg raw) m l.
Proof.
  intros Hsub. destruct (send_symbols_range cfg raw Hargs) as [Hm _].
  destruct (enc_session_inv disp _ e sent Hsession) as [_ _ Hsrc _ Hem]. rw Hnext in Hem.
  destruct (consumer_delivery (Consumer0 := recv_consumer disp') disp' (send_src cfg raw) (en_config e) Hsrc
    m transfer_decoder {| cp_period := 8; cp_counter := 0 |} transfer_start sent out)
    as (rv & l & Hrv & Hgot & Hl & _ & Hr); [done|done|rw Hsize; destruct Hargs; lia|lia|by split|done..|].
  by exists rv, l.
Qed.

(** The packets that arrived, fed one by one, give every symbol. *)
Definition transfer_fills (out : list EncoderOutput) : Prop :=
  ∃ rv, mfor (recv_feed disp') transfer_start (raw_of <$> out) = Ok rv ∧
    got_all transfer_session rv = true.

Lemma upto_got_all rv : rv_symbols rv = insert_all ∅ (symbols_upto (send_src cfg raw) 0 m) →
  got_all transfer_session rv = true.
Proof.
  destruct (send_symbols_range cfg raw Hargs) as [Hm _]. intros Hgot.
  unfold got_all. rw Hgot -size_dom insert_all_dom dom_empty_L left_id_L.
  assert ((symbols_upto (send_src cfg raw) 0 m).*1 = seqZ 0 m) as ->.
  { unfold symbols_upto. rw -list_fmap_compose. apply list_fmap_id. }
  rw size_seqZ; [|lia]. rw u32_small; [|word_bound]. apply Z.leb_refl.
Qed.

(** With every source packet, all symbols are there. *)
Lemma transfer_lossless out : out `sublist_of` sent → seqZ 0 m ⊆ sent_source_ids out → transfer_fills out.
Proof.
  intros Hsub Hall. destruct (send_symbols_range cfg raw Hargs) as [Hm _].
  destruct (enc_session_inv disp _ e sent Hsession) as [_ _ Hsrc _ Hem]. rw Hnext in Hem.
  destruct (session_lossless (Consumer0 := recv_consumer disp') disp' (send_src cfg raw) (en_config e) Hsrc
    m transfer_decoder {| cp_period := 8; cp_counter := 0 |} transfer_start sent out)
    as (rv & Hrv & _ & Hgot); [done|done|rw Hsize; destruct Hargs; lia|lia|by split|done..|].
  exists rv. split; [done|]. by apply upto_got_all.
Qed.

(** With enough coded packets for the lost ones, too. *)
Lemma transfer_repaired out good : ec_matrix_strategy (en_config e) = Cauchy →
  out `sublist_of` sent → repairable Gf2_8 m 512 out good → covers_first (sent_vectors out) →
  transfer_fills out.
Proof.
  intros Hcau Hsub Hrep Hfirst. destruct (send_symbols_range cfg raw Hargs) as [Hm _].
  destruct (enc_session_inv disp _ e sent Hsession) as [_ _ Hsrc _ Hem]. rw Hnext in Hem.
  destruct (session_complete (Consumer0 := recv_consumer disp') disp' (send_src cfg raw) (en_config e) Hsrc
    m transfer_decoder {| cp_period := 8; cp_counter := 0 |} transfer_start sent out good)
    as (rv & Hrv & Hgot & _); [done|done|rw Hsize; destruct Hargs; lia|lia|by split|done|done|done|by rw Hfield|done|].
  exists rv. split; [done|]. by apply upto_got_all.
Qed.

Lemma transfer_packets out : out `sublist_of` sent → Forall is_packet (raw_of <$> out).
Proof.
  intros Hsub. destruct (enc_session_inv disp _ e sent Hsession) as [Hok _ _ _ Hem].
  destruct (emission_honest _ _ _ _ _ ltac:(done) Hem) as [_ Hall].
  apply Forall_fmap, Forall_forall. intros o Ho.
  rw Forall_forall in Hall. specialize (Hall o ltac:(by eapply elem_of_sublist)). unfold is_packet.
  destruct o as [pkt|pkt]; destruct Hall as (p & Hp & _); cbn.
  - destruct (source_byte _ _ Hp) as [Hty Hl]. split; [done|]. exists 0. split; [done|by left].
  - destruct (coded_byte _ _ Hp) as [Hty Hl]. split; [done|]. exists 1. split; [done|by right].
Qed.

(** The part of [run] after START. *)
Definition transfer_rest (rest : list arrival) : outcome RecvError bytes :=
  rv ← recv_loop disp' inactivity transfer_session transfer_start rest;
  out ← stitch transfer_session (rv_symbols rv);
  if bool_decide (sha256 out = se_sha256 transfer_session) then Ok out else Err (ShaMismatch out).

Lemma transfer_stitch l : true_below (send_src cfg raw) m l →
  (∀ id, 0 ≤ id < m → is_Some (insert_all ∅ l !! id)) →
  stitch transfer_session (insert_all ∅ l) = Ok raw.
Proof.
  intros Hl Hall. destruct (send_symbols_range cfg raw Hargs) as [Hm Hb].
  rw (stitch_full _ _ (send_src cfg raw)); cbn.
  - rw Nat2Z.id. f_equal. by apply send_src_file.
  - destruct Hargs. lia.
  - intros id Hid. destruct (Hall id Hid) as [data Hd]. rw Hd. f_equal. by eapply true_lookup.
Qed.

(** Any loss: the file, or an error that says what is missing; the file when
    the packets give every symbol. *)
Lemma transfer_outcome arr tail out : in_time inactivity (arr ++ tail) → arr.*1 = raw_of <$> out → out `sublist_of` sent → is_tail tail →
  let res := transfer_rest (arr ++ tail) in
  (res = Ok raw ∨ (∃ id, res = Err (MissingSymbol id)) ∨ ∃ a b, res = Err (InactivityTimeout a b)) ∧
  (transfer_fills out → res = Ok raw).
Proof.
  intros Htime Harr Hsub Htail res. destruct (send_symbols_range cfg raw Hargs) as [Hm Hb].
  destruct (transfer_fed out Hsub) as (rvf & lf & Hfeed & _).
  destruct (recv_loop_spec disp' inactivity transfer_session tail arr Htime Htail) with transfer_start rvf
    as (k & rv & Hk & Hend & Hloop); [rw Harr; by apply transfer_packets|by rw Harr|].
  rw Harr -fmap_take in Hk Hend.
  destruct (transfer_fed (take k out)) as (rv' & l & Hk' & Hl & Htrue);
    [etransitivity; [apply sublist_take|done]|].
  rw Hk in Hk'. injection Hk' as <-.
  assert (got_all transfer_session rv = true → res = Ok raw) as Hgot.
  { intros Hg. unfold res, transfer_rest. destruct Hloop as [(rv2 & -> & Hs)|[Hng _]]; [|by rw Hng in Hg].
    rw bind_Ok Hs Hl transfer_stitch //; [by rw bind_Ok bool_decide_eq_true_2|].
    unfold got_all in Hg. apply Z.leb_le in Hg. rw Hl /u32 in Hg. cbn in Hg.
    pose proof (Z.mod_le (Z.of_nat (size (insert_all ∅ l))) 4294967296 ltac:(lia) ltac:(lia)).
    intros id Hid. eexists. eapply true_full; [| done| lia|done]. lia. }
  split.
  - unfold res, transfer_rest. destruct Hloop as [(rv2 & -> & Hs)|(_ & a & b & ->)]; [|right; right; by exists a, b].
    rw bind_Ok Hs Hl. destruct (stitch_missing transfer_session (insert_all ∅ l)) as [Hall|[id ->]].
    + cbn. destruct Hargs. lia.
    + left. rw transfer_stitch // bind_Ok bool_decide_eq_true_2 //.
    + right. left. by exists id.
  - intros (rv2 & Hrv2 & Hg). apply Hgot. destruct Hend as [Hend|]; [|done].
    rw -Hend Hk in Hrv2. by injection Hrv2 as <-.
Qed.
End transfer.

Lemma sublist_fmap_inv {A B} (f : A → B) l k : l `sublist_of` f <$> k → ∃ k', l = f <$> k' ∧ k' `sublist_of` k.
Proof.
  revert l. induction k as [|x k IH]; intros l; cbn [fmap list_fmap].
  - intros ->%sublist_nil_r. by exists [].
  - intros [Hl|(l' & -> & Hl)]%sublist_cons_r; apply IH in Hl as (k' & -> & Hk').
    + exists k'. split; [done|by apply sublist_cons].
    + exists (x :: k'). split; [done|by apply sublist_skip].
Qed.

(** What can arrive of a transfer. *)
Lemma arrivals_split (start : bytes) out (arrivals : list arrival) :
  arrivals.*1 `sublist_of` start :: (raw_of <$> out) ++ [build_end_frame] →
  ∃ first arr tail out', arrivals = first ++ arr ++ tail ∧ (first = [] ∨ ∃ pace, first = [(start, pace)]) ∧
    arr.*1 = raw_of <$> out' ∧ out' `sublist_of` out ∧ is_tail tail.
Proof.
  assert (∀ arrivals, arrivals.*1 `sublist_of` (raw_of <$> out) ++ [build_end_frame] →
    ∃ (arr tail : list arrival) out', arrivals = arr ++ tail ∧ arr.*1 = raw_of <$> out' ∧
      out' `sublist_of` out ∧ is_tail tail) as Hrest.
  { intros l (l1 & l2 & Hl & H1 & H2)%sublist_app_r. apply fmap_app_inv in Hl as (arr & tail & -> & -> & ->).
    apply sublist_fmap_inv in H1 as (out' & Hout & Hsub). exists arr, tail, out'. split_and!; [done..|].
    apply sublist_cons_r in H2 as [H2|(l' & Hl' & H2)]; apply sublist_nil_r in H2.
    - left. by destruct tail.
    - right. subst l'. destruct tail as [|[x pace] [|]]; try done. cbn in Hl'. injection Hl' as ->. by exists pace. }
  intros [Hs|(l' & Hl & Hs)]%sublist_cons_r.
  - destruct (Hrest arrivals Hs) as (arr & tail & out' & -> & ? & ? & ?).
    exists [], arr, tail, out'. split_and!; [done|by left|done..].
  - destruct arrivals as [|[x pace] arrivals]; [done|]. cbn in Hl. injection Hl as -> <-.
    destruct (Hrest arrivals Hs) as (arr & tail & out' & -> & ? & ? & ?).
    exists [(start, pace)], arr, tail, out'. split_and!; [done|right; by exists pace|done..].
Qed.

Lemma recv_run_started disp' inactivity sha256 `{HeaderCastLaw} {Addr} (cfg : SendConfig (Addr := Addr)) raw pace rest :
  args_ok cfg raw → length (sha256 raw) = 32%nat → silence pace ≤ inactivity →
  recv_run disp' inactivity sha256 ((send_start sha256 cfg raw, pace) :: rest)
  = transfer_rest disp' inactivity sha256 cfg raw rest.
Proof.
  intros Ha Hsha Htime. destruct (send_symbols_range cfg raw Ha) as [Hm Hb]. pose proof Ha as [].
  unfold recv_run. cbn [wait_start]. rw in_time_soon // (bool_decide_eq_true_2 (send_start _ _ _ !! _ = _)) // andb_true_r.
  change (4 <=? length (send_start sha256 cfg raw))%nat with true. cbv iota.
  unfold send_start. rw parse_build_start //; [|word_bound..].
  rw bind_Ok bind_Ok. cbn [se_symbol_size]. unfold DecoderBuilder.build. cbn [DecoderBuilder.new db_symbol_size].
  rw (proj2 (Z.eqb_neq _ _)); [|lia]. rw (proj2 (Z.ltb_ge _ _)); [|lia]. done.
Qed.

Lemma start_byte sha256 {Addr} (cfg : SendConfig (Addr := Addr)) raw :
  send_start sha256 cfg raw !! 3%nat = Some CTRL_START.
Proof. done. Qed.

Lemma start_not_packet (pkts : list bytes) (tail : list arrival) start :
  Forall is_packet pkts → is_tail tail → start !! 3%nat = Some CTRL_START → start ∉ pkts ++ tail.*1.
Proof.
  intros Hpk Htail Hs [Hin|Hin]%elem_of_app.
  - rw Forall_forall in Hpk. destruct (Hpk _ Hin) as (_ & ty & Hty & H01).
    rw Hs in Hty. injection Hty as <-. by destruct H01.
  - destruct Htail as [->|[pace ->]]; [by apply elem_of_nil in Hin|].
    apply list_elem_of_singleton in Hin as ->. done.
Qed.

(** If every datagram with the source type arrives, every source packet does. *)
Lemma sources_arrive disp `{HeaderCastLaw} src (e : Encoder AnyAckPolicy NoCongestionControl ConstantFecRate)
    sent out m (tail : list arrival) :
  enc_session disp src e sent → w_next_id (en_window e) = m → out `sublist_of` sent → is_tail tail →
  (∀ pkt, pkt ∈ raw_of <$> sent → pkt !! 3%nat = Some 0 → pkt ∈ (raw_of <$> out) ++ tail.*1) →
  seqZ 0 m ⊆ sent_source_ids out.
Proof.
  intros Hses <- Hsub Htail Hall x Hx. destruct (enc_session_inv disp _ e sent Hses) as [_ _ _ _ Hem].
  destruct (emission_source_ids _ _ _ _ _ Hem) as [_ Hids]. rw Z.sub_0_r in Hids. rw -Hids in Hx.
  apply list_elem_of_omap in Hx as (o & Ho & Hx). destruct o as [pkt|pkt]; [|done].
  destruct (Source.parse pkt) as [p| |] eqn:Hp; try done. injection Hx as <-.
  destruct (source_byte _ _ Hp) as [Hb _].
  assert (pkt ∈ (raw_of <$> out) ++ tail.*1) as [Hin|Hin]%elem_of_app
    by (apply Hall; [by apply (list_elem_of_fmap_2 raw_of _ _ Ho)|done]).
  - apply list_elem_of_fmap in Hin as (o & Heq & Hin). apply list_elem_of_omap. exists o. split; [done|].
    destruct o as [q|q]; cbn in Heq; subst q; [by rw Hp|].
    destruct (emission_honest _ _ _ _ _ ltac:(done) Hem) as [_ Hhon]. rw Forall_forall in Hhon.
    destruct (Hhon _ (elem_of_sublist _ _ _ Hin Hsub)) as (c & Hc & _).
    destruct (coded_byte _ _ Hc) as [H1 _]. by rw H1 in Hb.
  - destruct Htail as [->|[pace ->]]; [by apply elem_of_nil in Hin|].
    apply list_elem_of_singleton in Hin as ->. done.
Qed.

(** The data packets among some datagrams, by their type byte. *)
Definition data_packets (raws : list bytes) : list EncoderOutput :=
  omap (λ raw, match raw !! 3%nat with
               | Some 0 => Some (OutSource raw) | Some 1 => Some (OutCoded raw) | _ => None end) raws.

Lemma data_packets_arrived disp `{HeaderCastLaw} src
    (e : Encoder AnyAckPolicy NoCongestionControl ConstantFecRate) sent sha256 {Addr}
    (cfg : SendConfig (Addr := Addr)) raw pace out (arr tail : list arrival) :
  enc_session disp src e sent → out `sublist_of` sent → is_tail tail → arr.*1 = raw_of <$> out →
  data_packets ([(send_start sha256 cfg raw, pace)] ++ arr ++ tail).*1 = out.
Proof.
  intros Hses Hsub Htail Harr. rw !fmap_app Harr. destruct (enc_session_inv disp _ e sent Hses) as [_ _ _ _ Hem].
  destruct (emission_honest _ _ _ _ _ ltac:(done) Hem) as [_ Hhon].
  assert (data_packets tail.*1 = []) as Ht by by destruct Htail as [->|[pace' ->]].
  unfold data_packets in *. rw !omap_app Ht app_nil_r. cbn [fmap list_fmap fst omap list_omap app].
  rw start_byte. cbn [CTRL_START]. rw app_nil_l. clear Harr. induction out as [|o out IH]; [done|].
  assert (o ∈ sent) as Ho by (eapply elem_of_sublist; [|done]; by left).
  rw Forall_forall in Hhon. specialize (Hhon o Ho).
  assert (out `sublist_of` sent) as Hsub' by (etransitivity; [by apply sublist_cons|done]).
  cbn [fmap list_fmap omap list_omap]. destruct o as [pkt|pkt]; destruct Hhon as (p & Hp & _); cbn [raw_of].
  - destruct (source_byte _ _ Hp) as [-> _]. cbn iota. by rw (IH Hsub').
  - destruct (coded_byte _ _ Hp) as [-> _]. cbn iota. by rw (IH Hsub').
Qed.

(** Every source packet arrives, and START. *)
Lemma transfer_completes disp disp' inactivity sha256 {Addr} (rid : Addr → Z) `{HeaderCastLaw} cfg raw nanos
    s wire (arrivals : list arrival) :
  args_ok cfg raw → length (sha256 raw) = 32%nat → loss_pct cfg = Ok 0 →
  send_run disp sha256 rid cfg raw nanos = Ok (s, wire) → in_time inactivity arrivals → arrivals.*1 `sublist_of` wire →
  (∀ pkt, pkt ∈ wire → pkt !! 3%nat = Some CTRL_START ∨ pkt !! 3%nat = Some 0 → pkt ∈ arrivals.*1) →
  recv_run disp' inactivity sha256 arrivals = Ok raw.
Proof.
  intros Ha Hsha Hpct Hsend Htime Hsub Hall. destruct (send_run_ok disp sha256 rid cfg raw nanos Ha)
    as (s' & sent & out & Hrun & Hses & Hos & Hlossless & Hn & Hsz & Hf & Hst).
  rw Hrun in Hsend. injection Hsend as <- <-. specialize (Hlossless Hpct) as ->.
  pose proof (transfer_packets disp cfg raw _ sent Hses) as Hpk.
  apply arrivals_split in Hsub as (first & arr & tail & out' & -> & Hfirst & Harr & Hout & Htail).
  destruct Hfirst as [->|[pace ->]].
  - exfalso. apply (start_not_packet _ tail (send_start sha256 cfg raw) (Hpk out' Hout) Htail); [done|].
    rw -Harr -fmap_app. apply Hall; [by left|by left].
  - apply Forall_cons in Htime as [Ht Htime]. cbn [app]. rw recv_run_started //.
    apply (transfer_outcome disp disp' inactivity sha256 cfg raw Ha (sd_encoder s') sent Hses Hn Hsz Hf
      arr tail out' Htime Harr Hout Htail).
    apply (transfer_lossless disp disp' sha256 cfg raw Ha (sd_encoder s') sent Hses Hn Hsz Hf); [done|].
    apply (sources_arrive disp (send_src cfg raw) (sd_encoder s') sent out' (send_symbols cfg raw) tail Hses Hn Hout Htail).
    intros pkt Hpkt Hb. rw -Harr -fmap_app.
    assert (pkt ∈ ([(send_start sha256 cfg raw, pace)] ++ arr ++ tail).*1) as Hin.
    { apply Hall; [|by right]. right. apply elem_of_app. by left. }
    cbn [app fmap list_fmap] in Hin. apply elem_of_cons in Hin as [->|]; [|done].
    by rw start_byte in Hb.
Qed.

(** ** Properties *)

(** C14: a file transfer from sender to receiver, whatever datagrams the
    simulated loss and the network drop and however long the others take: the
    receiver writes the file that was
    sent, or reports what it waited for in vain; it never writes another file
    and never panics. *)
Theorem file_transfer_safe disp disp' inactivity sha256 {Addr} (rid : Addr → Z) `{HeaderCastLaw} cfg raw nanos
    s wire (arrivals : list arrival) :
  args_ok cfg raw → length (sha256 raw) = 32%nat →
  send_run disp sha256 rid cfg raw nanos = Ok (s, wire) → arrivals.*1 `sublist_of` wire →
  let res := recv_run disp' inactivity sha256 arrivals in
  res = Ok raw ∨ res = Err StartTimeout ∨ (∃ id, res = Err (MissingSymbol id)) ∨
  ∃ got total, res = Err (InactivityTimeout got total).
Proof.
  intros Ha Hsha Hsend Hsub' res. assert ((heard inactivity arrivals).*1 `sublist_of` wire) as Hsub
    by (etransitivity; [apply heard_sublist|exact Hsub']). clear Hsub'.
  unfold res. rw recv_run_heard. pose proof (heard_in_time inactivity arrivals) as Htime.
  revert Hsub Htime. clear res. generalize (heard inactivity arrivals). clear arrivals. intros arrivals Hsub Htime.
  destruct (send_run_ok disp sha256 rid cfg raw nanos Ha)
    as (s' & sent & out & Hrun & Hses & Hos & _ & Hn & Hsz & Hf & Hst).
  rw Hrun in Hsend. injection Hsend as <- <-.
  apply arrivals_split in Hsub as (first & arr & tail & out' & -> & Hfirst & Harr & Hout & Htail).
  assert (out' `sublist_of` sent) as Hos' by by etransitivity.
  destruct Hfirst as [->|[pace ->]].
  - right. left. unfold recv_run. rw app_nil_l wait_start_skips //. rw Harr.
    by eapply (transfer_packets disp cfg raw).
  - apply Forall_cons in Htime as [Ht Htime]. cbn [app]. rw recv_run_started //.
    destruct (transfer_outcome disp disp' inactivity sha256 cfg raw Ha (sd_encoder s') sent Hses Hn Hsz Hf
      arr tail out' Htime Harr Hos' Htail) as [[Hr|[Hr|Hr]] _]; auto.
Qed.

(** Without simulated loss, if START and every source packet are heard, the
    receiver writes the file that was sent, whatever happens to coded packets
    and END, and however slow it is. *)
Theorem file_transfer_complete disp disp' inactivity sha256 {Addr} (rid : Addr → Z) `{HeaderCastLaw} cfg raw nanos
    s wire (arrivals : list arrival) :
  args_ok cfg raw → length (sha256 raw) = 32%nat → loss_pct cfg = Ok 0 →
  send_run disp sha256 rid cfg raw nanos = Ok (s, wire) → arrivals.*1 `sublist_of` wire →
  (∀ pkt, pkt ∈ wire → pkt !! 3%nat = Some CTRL_START ∨ pkt !! 3%nat = Some 0 → pkt ∈ (heard inactivity arrivals).*1) →
  recv_run disp' inactivity sha256 arrivals = Ok raw.
Proof.
  intros Ha Hsha Hpct Hsend Hsub Hall. rw recv_run_heard. eapply transfer_completes; [done..|apply heard_in_time| |done].
  etransitivity; [apply heard_sublist|done].
Qed.

(** C15: a transfer with losses: if START is heard before the inactivity timer
    fires and, for a Cauchy sender whose window has not moved, as many coded
    packets as source packets were not heard, covering them at distinct points of
    the cycle, the receiver writes the file that was sent, whatever was lost in
    the simulation and on the network. *)
Theorem file_transfer_recovers disp disp' inactivity sha256 {Addr} (rid : Addr → Z) `{HeaderCastLaw} cfg raw nanos
    s wire (arrivals : list arrival) good :
  args_ok cfg raw → length (sha256 raw) = 32%nat → sc_strategy cfg = SCauchy →
  send_run disp sha256 rid cfg raw nanos = Ok (s, wire) → arrivals.*1 `sublist_of` wire →
  let got := (heard inactivity arrivals).*1 in
  send_start sha256 cfg raw ∈ got →
  let out := data_packets got in
  repairable Gf2_8 (send_symbols cfg raw) 512 out good →
  covers_first (sent_vectors out) →
  recv_run disp' inactivity sha256 arrivals = Ok raw.
Proof.
  intros Ha Hsha Hcau Hsend Hsub'. assert ((heard inactivity arrivals).*1 `sublist_of` wire) as Hsub
    by (etransitivity; [apply heard_sublist|exact Hsub']). clear Hsub'.
  rw recv_run_heard. pose proof (heard_in_time inactivity arrivals) as Htime.
  revert Hsub Htime. generalize (heard inactivity arrivals). clear arrivals. intros arrivals Hsub Htime got Hstart.
  subst got. destruct (send_run_ok disp sha256 rid cfg raw nanos Ha)
    as (s' & sent & out & Hrun & Hses & Hos & _ & Hn & Hsz & Hf & Hst).
  rw Hrun in Hsend. injection Hsend as <- <-. rw Hcau in Hst.
  apply arrivals_split in Hsub as (first & arr & tail & out' & -> & Hfirst & Harr & Hout & Htail).
  assert (out' `sublist_of` sent) as Hos' by by etransitivity.
  destruct Hfirst as [->|[pace ->]].
  - exfalso. apply (start_not_packet (raw_of <$> out') tail (send_start sha256 cfg raw)); [|done|done|].
    + by apply (transfer_packets disp cfg raw _ sent Hses).
    + by rw -Harr -fmap_app.
  - apply Forall_cons in Htime as [Ht Htime]. cbv zeta. rw (data_packets_arrived disp (send_src cfg raw) (sd_encoder s') sent _ _ _ _ out') //.
    intros Hrep Hcov. cbn [app]. rw recv_run_started //.
    apply (transfer_outcome disp disp' inactivity sha256 cfg raw Ha (sd_encoder s') sent Hses Hn Hsz Hf
      arr tail out' Htime Harr Hos' Htail).
    by eapply (transfer_repaired disp disp' sha256 cfg raw Ha (sd_encoder s') sent Hses Hn Hsz Hf).
Qed.

(** *** A five-byte file *)
Definition prompt : Pace := {| silence := 1000000; handling := 50000 |}.
Definition sluggish : Pace := {| silence := 30000000000; handling := 200000000 |}.
Definition half_minute : Z := 30000000000.
Definition demo_sha (_ : bytes) : bytes := replicate 32 7.
Definition demo_send :=
  @send_run Avx2 demo_sha unit (λ _, 5) demo_args demo_file 12345.
Definition demo_wire : list bytes :=
  match demo_send with Ok (_, wire) => wire | _ => [] end.

(** Everything but the first source packet and END. *)
Definition demo_lossy : list arrival :=
  (λ pkt, (pkt, prompt)) <$> take 17 (filter (λ pkt, pkt ≠ [16; 0; 2; 0; 0; 0; 0; 0; 10; 20]) demo_wire).
(** START and the source packets. *)
Definition demo_sources : list arrival :=
  (λ pkt, (pkt, sluggish)) <$> filter (λ pkt, pkt !! 3%nat = Some CTRL_START ∨ pkt !! 3%nat = Some 0) demo_wire.

Lemma demo_sources_heard : (heard half_minute demo_sources).*1
  = filter (λ pkt, pkt !! 3%nat = Some CTRL_START ∨ pkt !! 3%nat = Some 0) demo_wire.
Proof.
  unfold demo_sources. rw heard_paced; [|unfold half_minute; cbn; lia]. rw -list_fmap_compose. apply list_fmap_id.
Qed.

Lemma demo_sent : ∃ s, @send_run Avx2 demo_sha unit (λ _, 5) demo_args demo_file 12345 = Ok (s, demo_wire).
Proof.
  destruct (send_run_ok Avx2 demo_sha (λ _ : unit, 5) (H := ReprC.cast) (H0 := ReprC.cast_law)
    demo_args demo_file 12345 demo_args_ok) as (s & sent & out & Hr & _).
  exists s. unfold demo_wire, demo_send. by rw Hr.
Qed.

Lemma demo_lossy_arrives : demo_lossy.*1 `sublist_of` demo_wire.
Proof.
  unfold demo_lossy. rw -list_fmap_compose list_fmap_id.
  etransitivity; [apply sublist_take|apply sublist_filter].
Qed.

Lemma file_transfer_safe_witness :
  let res := @recv_run Ssse3 half_minute demo_sha ReprC.cast demo_lossy in
  res = Ok demo_file ∨ res = Err StartTimeout ∨ (∃ id, res = Err (MissingSymbol id)) ∨
  ∃ got total, res = Err (InactivityTimeout got total).
Proof.
  destruct demo_sent as [s Hs].
  exact (@file_transfer_safe Avx2 Ssse3 half_minute demo_sha unit (λ _, 5) ReprC.cast ReprC.cast_law demo_args
    demo_file 12345 s demo_wire demo_lossy demo_args_ok eq_refl Hs demo_lossy_arrives).
Defined.

Lemma file_transfer_complete_witness :
  length demo_sources = 4%nat ∧ @recv_run Ssse3 half_minute demo_sha ReprC.cast demo_sources = Ok demo_file.
Proof.
  split; [vm_compute; reflexivity|]. destruct demo_sent as [s Hs].
  apply (@file_transfer_complete Avx2 Ssse3 half_minute demo_sha unit (λ _, 5) ReprC.cast ReprC.cast_law demo_args
    demo_file 12345 s demo_wire demo_sources demo_args_ok eq_refl).
  - vm_compute. reflexivity.
  - exact Hs.
  - unfold demo_sources. rw -list_fmap_compose list_fmap_id. apply sublist_filter.
  - intros pkt Hpkt Hty. rw demo_sources_heard.
    apply list_elem_of_filter. split; [exact Hty|exact Hpkt].
Defined.

(** A START frame can announce a file no buffer can hold; the receiver panics. *)
Lemma huge_start_panics :
  @recv_run Ssse3 half_minute demo_sha ReprC.cast
    [(build_start_frame 1024 0 9223372036854775808 (replicate 32 7), prompt)] = Panic.
Proof. vm_compute. reflexivity. Qed.

(** The first source packet, the packets that would repair it at once and a
    targeted packet are lost; the tail flush repairs it. *)
Definition demo_repaired : list arrival :=
  (λ pkt, (pkt, prompt)) <$>
    filter (λ pkt, pkt ∉ omap (λ i, demo_wire !! i) [1; 2; 3; 5; 6; 8; 9]%nat) demo_wire.

Lemma demo_heard : heard half_minute demo_repaired = demo_repaired.
Proof. apply heard_paced. unfold half_minute. cbn. lia. Qed.

(** When those after START and the first packet come a minute later, they come
    too late. *)
Lemma silence_gives_up :
  let late := {| silence := 60000000000; handling := 50000 |} in
  let arrivals := take 2 demo_repaired ++ ((λ a, (a.1, late)) <$> drop 2 demo_repaired) in
  arrivals.*1 = demo_repaired.*1 ∧
  (@recv_run Ssse3 half_minute demo_sha ReprC.cast demo_repaired = Ok demo_file) ∧
  @recv_run Ssse3 half_minute demo_sha ReprC.cast arrivals = Err (InactivityTimeout 0 3).
Proof. split_and!; vm_compute; reflexivity. Qed.

Definition demo_repair : list EncodingVector :=
  take 1 (@sent_vectors ReprC.cast (data_packets demo_repaired.*1)).

Lemma demo_repairable :
  @repairable ReprC.cast Gf2_8 (send_symbols demo_args demo_file) 512 (data_packets demo_repaired.*1) demo_repair.
Proof.
  constructor.
  - vm_compute. reflexivity.
  - apply subseteq_take.
  - vm_compute. reflexivity.
  - apply (bool_decide_unpack _). vm_compute. exact I.
  - apply (bool_decide_unpack _). vm_compute. exact I.
  - intros ev Hev x Hx.
    assert (bool_decide (Forall (λ ev, Forall (λ y, y ∈ ev_source_ids ev)
      (@lost_ids ReprC.cast (send_symbols demo_args demo_file) (data_packets demo_repaired.*1))) demo_repair)) as Hall
      by (vm_compute; exact I).
    apply bool_decide_unpack in Hall. rw Forall_forall in Hall. specialize (Hall ev Hev).
    rw Forall_forall in Hall. by apply Hall.
Qed.

Lemma file_transfer_recovers_witness :
  @lost_ids ReprC.cast 3 (data_packets demo_repaired.*1) = [0] ∧
  @recv_run Ssse3 half_minute demo_sha ReprC.cast demo_repaired = Ok demo_file.
Proof.
  split; [vm_compute; reflexivity|]. destruct demo_sent as [s Hs].
  apply (@file_transfer_recovers Avx2 Ssse3 half_minute demo_sha unit (λ _, 5) ReprC.cast ReprC.cast_law demo_args
    demo_file 12345 s demo_wire demo_repaired
    demo_repair demo_args_ok eq_refl eq_refl Hs).
  - unfold demo_repaired. rw -list_fmap_compose list_fmap_id. apply sublist_filter.
  - rw demo_heard. apply (bool_decide_unpack _). vm_compute. exact I.
  - rw demo_heard. exact demo_repairable.
  - rw demo_heard. apply (bool_decide_unpack _). vm_compute. exact I.
Defined.

(** A targeted packet does not start at the window's first symbol, but the decoder
    takes its first ID for the oldest the encoder has: one more packet, the
    targeted one over symbols 1 and 2, and symbol 0 is given up, although the
    packets that repaired it above arrive as before. *)
Lemma targeted_packet_gives_up :
  let arrivals := (λ pkt, (pkt, prompt)) <$>
    filter (λ pkt, pkt ∉ omap (λ i, demo_wire !! i) [1; 2; 3; 5; 6; 8]%nat) demo_wire in
  demo_repaired.*1 = filter (λ pkt, Some pkt ≠ demo_wire !! 9%nat) arrivals.*1 ∧
  @recv_run Ssse3 half_minute demo_sha ReprC.cast arrivals = Err (MissingSymbol 0).
Proof. split; vm_compute; reflexivity. Qed.
