(* ===== verification/CliBench.v ===== *)
(** * delp-cli: bench.rs, the throughput benchmark

    The measured times are not modelled; the run itself is. *)

From S2P Require Import Prelude Error Config Gf CoefGen Simd IdStorage EncVec Common Packets F64 Feedback Packet Policy Window LinComb Encoder BTree Buffer Matrix Dense Elim Decoder Recovery Delivery Consumer Transport EndToEnd Lossless CliSend.
#[global] Open Scope Z_scope.

Inductive BenchError : Type :=
| BenchCodec (e : DelpError)
| BenchUnsound (delivered n_symbols : Z).

Definition bench_codec {A} (m : result A) : outcome BenchError A :=
  match m with Ok a => Ok a | Err e => Err (BenchCodec e) | Panic => Panic end.
(** [?] on a handler's result. *)
Definition bench_handled {P A} (m : outcome (Decoder P * DelpError) A) : outcome BenchError A :=
  match m with Ok a => Ok a | Err (_, e) => Err (BenchCodec e) | Panic => Panic end.

(** The pseudo-random payload. *)
Fixpoint bench_bytes (n : nat) (x : Z) : bytes :=
  match n with
  | O => []
  | S n =>
      let x := xorshift x in
      u8 (Z.shiftr (u64 (x * 2685821657736338717)) 56) :: bench_bytes n x
  end.
Definition bench_payload (symbol_size : Z) : bytes :=
  bench_bytes (Z.to_nat symbol_size) 11400714819323198485.

Section bench.
Context (disp : Dispatch) `{HeaderCast}.

Local Abbreviation BenchEncoder := (Encoder AnyAckPolicy NoCongestionControl ConstantFecRate).

(** The encode pass: one submission. *)
Definition bench_submit (payload : bytes) (s : BenchEncoder * list bytes) (_ : Z)
  : outcome BenchError (BenchEncoder * list bytes) :=
  let '(encoder, wire) := s in
  '(encoder, outputs) ← bench_codec (submit_source disp encoder payload);
  Ok (encoder, wire ++ (raw_of <$> outputs)).

Record BenchDecode := {
  bd_decoder : Decoder ConstantFeedbackPolicy;
  bd_delivered : Z;
}.

Definition is_ready (e : DecoderEvent) : bool :=
  match e with SourceReady _ _ => true | _ => false end.
Definition count_ready (delivered : Z) (evs : list DecoderEvent) : Z :=
  fold_left (λ n e, if is_ready e then u64 (n + 1) else n) evs delivered.

(** The decode pass: one packet. *)
Definition bench_decode (s : BenchDecode) (raw : bytes) : outcome BenchError BenchDecode :=
  ty ← index raw 3;
  '(d, evs) ←
    (if (ty : Z) =? 0 then
       sp ← bench_codec (Source.parse raw);
       bench_handled (handle_source disp (bd_decoder s) sp)
     else
       cp ← bench_codec (Coded.parse raw);
       bench_handled (handle_coded disp (bd_decoder s) cp));
  Ok {| bd_decoder := d; bd_delivered := count_ready (bd_delivered s) evs |}.

Definition bench_run (symbol_size window n_symbols : Z) (strategy : Strategy)
  : outcome BenchError BenchDecode :=
  enc_cfg ← bench_codec (EncoderBuilder.build
    (EncoderBuilder.backpressure EvictOldest
    (EncoderBuilder.matrix_strategy (into_delp strategy)
    (EncoderBuilder.fec_rate 1 1
    (EncoderBuilder.window_capacity window (EncoderBuilder.new symbol_size))))));
  encoder ← bench_codec (encoder_with_defaults enc_cfg);
  dec_cfg ← bench_codec (DecoderBuilder.build
    (DecoderBuilder.feedback_every 4294967295 (DecoderBuilder.new symbol_size)));
  decoder ← bench_codec (decoder_with_defaults dec_cfg);
  let payload := bench_payload symbol_size in
  _ ← rassert (u64 (n_symbols * 2) * 24 <=? 9223372036854775807);
  '(_, wire) ← mfor (bench_submit payload) (encoder, []) (seqZ 0 n_symbols);
  s ← mfor bench_decode {| bd_decoder := decoder; bd_delivered := 0 |} wire;
  if negb (bd_delivered s =? n_symbols) then Err (BenchUnsound (bd_delivered s) n_symbols) else Ok s.
End bench.

(** ** The benchmark as a consumer *)
Lemma count_ready_delivered evs k :
  count_ready (u64 k) evs = u64 (k + Z.of_nat (length (delivered evs))).
Proof.
  revert k. induction evs as [|[id data|raw|a n] evs IH]; intros k; cbn; [f_equal; lia| |apply IH..].
  unfold count_ready in IH. replace (u64 (u64 k + 1)) with (u64 (k + 1)).
  - rw IH. f_equal. unfold delivered. lia.
  - unfold u64. by rw Z.add_mod_idemp_l.
Qed.

Section consumer.
Context (disp : Dispatch) `{HeaderCastLaw}.

#[export] Instance bench_consumer : Consumer ConstantFeedbackPolicy BenchDecode BenchError :=
  {| cs_decoder := bd_decoder; cs_feed := bench_decode disp;
     cs_got s l := bd_delivered s = u64 (Z.of_nat (length l)) |}.

#[export] Instance bench_consumer_laws : ConsumerLaws disp ConstantFeedbackPolicy BenchDecode BenchError.
Proof.
  constructor; cbn; intros s raw p d new l Hgot Hp Hd.
  - destruct (source_parse_type _ _ Hp) as (h & Hh & Ht).
    destruct (header_parse_type _ _ _ Hh Ht) as [Hty _]. unfold bench_decode, index. rw Hty bind_Ok.
    cbn [packet_type_u8 Z.eqb]. rw Hp; cbn [bench_codec]; rw bind_Ok Hd. eexists. split; [done|]. split; [done|]. cbn.
    by rw Hgot count_ready_delivered length_app Nat2Z.inj_add.
  - destruct (coded_parse_type _ _ Hp) as (h & Hh & Ht).
    destruct (header_parse_type _ _ _ Hh Ht) as [Hty _]. unfold bench_decode, index. rw Hty bind_Ok.
    cbn [packet_type_u8 Z.eqb]. rw Hp; cbn [bench_codec]; rw bind_Ok Hd. eexists. split; [done|]. split; [done|]. cbn.
    by rw Hgot count_ready_delivered length_app Nat2Z.inj_add.
Qed.
End consumer.

Lemma bench_bytes_symbol n x : symbol n (bench_bytes n x).
Proof.
  revert x. induction n as [|n IH]; intros x; [by split|]. cbn. destruct (IH (xorshift x)) as [Hl Hb].
  split; [by rw /= Hl|]. constructor; [apply u8_is|done].
Qed.

(** The encode pass is a session that submits the payload over and over. *)
Lemma bench_encode_ok disp `{HeaderCastLaw} payload k : ∀ i e sent wire,
  enc_session disp (λ _, payload) e sent → ec_backpressure (en_config e) = EvictOldest →
  w_next_id (en_window e) + Z.of_nat k ≤ 65536 → wire = raw_of <$> sent →
  ∃ e' sent', mfor (bench_submit disp payload) (e, wire) (seqZ i (Z.of_nat k)) = Ok (e', raw_of <$> sent') ∧
    enc_session disp (λ _, payload) e' sent' ∧ en_config e' = en_config e ∧
    w_next_id (en_window e') = w_next_id (en_window e) + Z.of_nat k.
Proof.
  induction k as [|k IH]; intros i e sent wire Hs Hb Hk ->.
  { exists e, sent. split_and!; [done..|lia]. }
  destruct (submit_total disp _ _ _ Hs ltac:(lia) (or_intror Hb)) as (e1 & pkt & new & Hsub & Hs1 & Hc1 & Hn1 & _).
  rw seqZ_cons; [|lia]. cbn [mfor].
  assert (bench_submit disp payload (e, raw_of <$> sent) i
    = Ok (e1, (raw_of <$> sent) ++ (raw_of <$> OutSource pkt :: new))) as -> by (cbn; by rw Hsub).
  rw bind_Ok. replace (Z.pred (Z.of_nat (S k))) with (Z.of_nat k) by lia.
  destruct (IH (Z.succ i) e1 (sent ++ OutSource pkt :: new) ((raw_of <$> sent) ++ (raw_of <$> OutSource pkt :: new)))
    as (e2 & sent2 & Hr & Hs2 & Hc2 & Hn2); [done|by rw Hc1|lia|by rw fmap_app|].
  exists e2, sent2. split_and!; [exact Hr|done|by rw Hc2|lia].
Qed.

Lemma bench_sound disp `{HeaderCastLaw} symbol_size window n_symbols strategy :
  1 ≤ symbol_size ≤ 65535 → 1 ≤ window < 256 →
  (strategy = SCauchy → window ≤ EncoderBuilder.cauchy_max Gf2_8) → 0 ≤ n_symbols ≤ 65536 →
  ∃ s, bench_run disp symbol_size window n_symbols strategy = Ok s ∧ bd_delivered s = n_symbols ∧
    next_delivery_id (bd_decoder s) = n_symbols.
Proof.
  intros Hss Hw Hca Hn. unfold bench_run.
  destruct (cli_build_ok symbol_size window 1 1 strategy) as (c & -> & Hc & Hsz & Hf & Hcap & Hbp & Hn1 & Hd1 & _);
    [done|lia|lia|lia|done|].
  cbn [bench_codec]. rw bind_Ok. unfold encoder_with_defaults, ConstantFecRate_new, DecoderBuilder.build. rw Hn1 Hd1 /=.
  rw (proj2 (Z.eqb_neq _ _)); [|lia]. rw (proj2 (Z.ltb_ge _ _)); [|lia]. cbn [orb bench_codec].
  rw bind_Ok /=. rw (proj2 (Z.leb_le _ _)); [|rw u64_small; [lia|word_bound]]. cbn [rassert]. rw bind_Ok.
  set (e0 := encoder_new c _ _ _). set (d0 := decoder_new _ _). set (payload := bench_payload symbol_size).
  assert (enc_session disp (λ _, payload) e0 []) as Hs0.
  { apply Encoder.session_new; [done|lia|cbn; lia|]. intros _. unfold sym_size. rw Hsz. apply bench_bytes_symbol. }
  destruct (bench_encode_ok disp payload (Z.to_nat n_symbols) 0 e0 [] [] Hs0)
    as (e & sent & Hr & Hs & Hc1 & Hnext); [done|cbn; lia|done|].
  rw Z2Nat.id in Hr; [|lia]. rw Hr bind_Ok. cbn in Hnext. rw Z2Nat.id in Hnext; [|lia].
  destruct (enc_session_inv disp _ e sent Hs) as [_ _ Hsrc _ Hem]. rw Hnext in Hem.
  destruct (emission_source_ids _ _ _ _ _ Hem) as [_ Hids].
  destruct (session_lossless (Consumer0 := bench_consumer disp) disp (λ _, payload) (en_config e) Hsrc
    n_symbols (de_config d0) (de_feedback_policy d0) {| bd_decoder := d0; bd_delivered := 0 |} sent sent)
    as (s & Hfeed & Hsy & Hgot); [done|done|rw Hc1; cbn; lia|done|rw Hc1; by split|done|done|..].
  { by rw Hids Z.sub_0_r. }
  change (mfor (bench_decode disp) _ _) with
    (feed_all (Consumer0 := bench_consumer disp) {| bd_decoder := d0; bd_delivered := 0 |} (raw_of <$> sent)).
  rw Hfeed bind_Ok. cbn in Hgot.
  assert (bd_delivered s = n_symbols) as Hdel.
  { rw Hgot /symbols_upto length_fmap length_seqZ Z2Nat.id; [|lia]. apply u64_small. word_bound. }
  rw Hdel Z.eqb_refl. exists s. split_and!; [done..|]. apply Hsy.
Qed.

(** For all arguments the encoder accepts and up to 2^16 symbols, the
    benchmark ends with every symbol delivered: it is never unsound. *)
Theorem bench_is_sound disp `{HeaderCastLaw} symbol_size window n_symbols strategy :
  1 ≤ symbol_size ≤ 65535 → 1 ≤ window < 256 →
  (strategy = SCauchy → window ≤ EncoderBuilder.cauchy_max Gf2_8) → 0 ≤ n_symbols ≤ 65536 →
  ∃ s, bench_run disp symbol_size window n_symbols strategy = Ok s ∧ bd_delivered s = n_symbols ∧
    next_delivery_id (bd_decoder s) = n_symbols.
Proof. intros. by apply bench_sound. Qed.

Lemma bench_is_sound_witness :
  ∃ s, @bench_run Avx2 ReprC.cast 16 8 40 SCauchy = Ok s ∧ bd_delivered s = 40 ∧
    next_delivery_id (bd_decoder s) = 40.
Proof. apply (@bench_is_sound Avx2 ReprC.cast ReprC.cast_law); [lia|lia|cbn; lia|lia]. Defined.
