(* ===== verification/CliDemo.v ===== *)
(** * delp-cli: demo.rs

    The two live demonstrations: sizes of full-window and targeted coded packets,
    and a Cauchy session past its 128 coded IDs.  What they print is their
    result here, except times and percentages. *)

From S2P Require Import Prelude Error Config Gf CoefGen Simd IdStorage EncVec Common Packets F64 Feedback Packet Policy Window LinComb Encoder BTree Buffer Matrix Dense Elim Decoder Recovery Delivery Consumer Transport EndToEnd Lossless CliSend CliBench.
#[global] Open Scope Z_scope.

Inductive DemoError : Type :=
| DemoCodec (e : DelpError)
| WindowEmpty (i : Z).

Definition demo_codec {A} (m : result A) : outcome DemoError A :=
  match m with Ok a => Ok a | Err e => Err (DemoCodec e) | Panic => Panic end.
Definition demo_handled {P A} (m : outcome (Decoder P * DelpError) A) : outcome DemoError A :=
  match m with Ok a => Ok a | Err (_, e) => Err (DemoCodec e) | Panic => Panic end.

(** [Option::unwrap] of an output that must be a coded packet. *)
Definition unwrap_coded (o : option EncoderOutput) : outcome DemoError bytes :=
  match o with Some (OutCoded b) => Ok b | _ => Panic end.

Section demo.
Context (disp : Dispatch) `{HeaderCast}.

Local Abbreviation DemoEncoder := (Encoder AnyAckPolicy NoCongestionControl ConstantFecRate).

(** ** demo altc *)

(** IDs covered and bytes on the wire of the two packets. *)
Record AltcReport := {
  al_full_ids : nat;
  al_full_len : nat;
  al_recent_ids : nat;
  al_recent_len : nat;
}.

Definition altc_strategy (window symbol_size cover : Z) (strategy : MatrixStrategy)
  : outcome DemoError AltcReport :=
  let cap := match strategy with Cauchy => Z.min window 128 | Vandermonde => window end in
  let n := cap in
  let cover := Z.min cover n in
  cfg ← demo_codec (EncoderBuilder.build
    (EncoderBuilder.matrix_strategy strategy
    (EncoderBuilder.fec_rate 0 1
    (EncoderBuilder.window_capacity n (EncoderBuilder.new symbol_size)))));
  enc ← demo_codec (encoder_with_defaults cfg);
  let payload := replicate (Z.to_nat symbol_size) 171 in
  enc ← mfor (λ (enc : DemoEncoder) _,
    '(enc, _) ← demo_codec (submit_source disp enc payload); Ok enc) enc (seqZ 0 n);
  '(enc, full) ← demo_codec (generate_coded disp enc);
  full ← unwrap_coded full;
  '(enc, recent) ← demo_codec (generate_coded_recent disp enc (Z.to_nat cover));
  recent ← unwrap_coded recent;
  cp_full ← demo_codec (Coded.parse full);
  cp_recent ← demo_codec (Coded.parse recent);
  Ok {| al_full_ids := length (ev_source_ids (Coded.ev cp_full)); al_full_len := length full;
        al_recent_ids := length (ev_source_ids (Coded.ev cp_recent)); al_recent_len := length recent |}.

Definition altc (window symbol_size cover : Z) : outcome DemoError (list AltcReport) :=
  mmap (altc_strategy window symbol_size cover) [Vandermonde; Cauchy].

(** ** demo generation *)
Definition SYM : Z := 64.
Definition demo_payload (i : Z) : bytes :=
  (λ j, Z.land (u64 (u64 (i * 31) + u64 (j * 7))) 255) <$> seqZ 0 SYM.

Record Demo := {
  de_encoder : DemoEncoder;
  de_decoder : Decoder ConstantFeedbackPolicy;
  de_max_gen : Z;
  de_delivered_post : Z;
}.

Definition demo_source (s : DemoEncoder * Decoder ConstantFeedbackPolicy) (i : Z)
  : outcome DemoError (DemoEncoder * Decoder ConstantFeedbackPolicy) :=
  let '(encoder, decoder) := s in
  '(encoder, outputs) ← demo_codec (submit_source disp encoder (demo_payload i));
  decoder ← mfor (λ decoder out,
    match out with
    | OutSource raw =>
        sp ← demo_codec (Source.parse raw);
        '(decoder, _) ← demo_handled (handle_source disp decoder sp);
        Ok decoder
    | OutCoded _ => Ok decoder
    end) decoder outputs;
  Ok (encoder, decoder).

Definition demo_coded (s : Demo) (i : Z) : outcome DemoError Demo :=
  '(encoder, pkt) ← demo_codec (generate_coded disp (de_encoder s));
  pkt ← match pkt with Some pkt => Ok pkt | None => Err (WindowEmpty i) end;
  raw ← unwrap_coded (Some pkt);
  cp ← demo_codec (Coded.parse raw);
  '(decoder, evs) ← demo_handled (handle_coded disp (de_decoder s) cp);
  Ok {| de_encoder := encoder; de_decoder := decoder;
        de_max_gen := Z.max (de_max_gen s) (ev_generation (Coded.ev cp));
        de_delivered_post := count_ready (de_delivered_post s) evs |}.

Definition generation (n_symbols n_coded : Z) : outcome DemoError Demo :=
  cfg ← demo_codec (EncoderBuilder.build
    (EncoderBuilder.fec_rate 0 1
    (EncoderBuilder.window_capacity (Z.max n_symbols 1)
    (EncoderBuilder.matrix_strategy Cauchy (EncoderBuilder.new SYM)))));
  encoder ← demo_codec (encoder_with_defaults cfg);
  dec_cfg ← demo_codec (DecoderBuilder.build
    (DecoderBuilder.feedback_every 4294967295 (DecoderBuilder.new SYM)));
  decoder ← demo_codec (decoder_with_defaults dec_cfg);
  '(encoder, decoder) ← mfor demo_source (encoder, decoder) (seqZ 0 n_symbols);
  mfor demo_coded {| de_encoder := encoder; de_decoder := decoder; de_max_gen := 0; de_delivered_post := 0 |}
    (seqZ 0 n_coded).
End demo.

(** Without a symbol to cover there is no targeted packet to unwrap. *)
Lemma altc_zero_cover_panics : @altc Ssse3 ReprC.cast 4 16 0 = Panic.
Proof. vm_compute. reflexivity. Qed.

(** ** What the generation demo shows *)

Lemma advance_coded_state {W C F} (e e' : Encoder W C F) :
  en_config e = en_config e' → coded_state e = coded_state e' →
  coded_state (advance_coded e) = coded_state (advance_coded e').
Proof.
  unfold coded_state, advance_coded. intros -> [= -> -> ->].
  by destruct (ec_matrix_strategy (en_config e')); [|case_match].
Qed.

Lemma advance_coded_config {W C F} (e : Encoder W C F) : en_config (advance_coded e) = en_config e.
Proof. unfold advance_coded. by destruct (ec_matrix_strategy (en_config e)); [|case_match]. Qed.

Lemma advance_n_succ {W C F} n (e : Encoder W C F) : advance_n (S n) e = advance_coded (advance_n n e).
Proof. revert e. induction n as [|n IH]; intros e; [done|]. cbn [advance_n]. apply IH. Qed.

Lemma advance_n_state {W C F} n (e e' : Encoder W C F) :
  en_config e = en_config e' → coded_state e = coded_state e' →
  coded_state (advance_n n e) = coded_state (advance_n n e').
Proof.
  revert e e'. induction n as [|n IH]; intros e e' Hc Hs; [done|]. cbn [advance_n].
  apply IH; [by rw !advance_coded_config|by apply advance_coded_state].
Qed.

Lemma advance_n_config {W C F} n (e : Encoder W C F) : en_config (advance_n n e) = en_config e.
Proof. induction n as [|n IH]; [done|]. by rw advance_n_succ advance_coded_config. Qed.

Lemma advance_n_used {W C F} n (e : Encoder W C F) :
  en_coded_ids_used (advance_n n e) = if (n =? 0)%nat then en_coded_ids_used e
    else u64 (en_coded_ids_used e + Z.of_nat n).
Proof.
  assert (∀ e : Encoder W C F, en_coded_ids_used (advance_coded e) = u64 (en_coded_ids_used e + 1)) as Hadv.
  { intros e0. unfold advance_coded. by destruct (ec_matrix_strategy (en_config e0)); [|case_match]. }
  induction n as [|n IH]; [done|]. rw advance_n_succ Hadv IH. cbn [Nat.eqb].
  destruct (Nat.eqb_spec n 0) as [->|]; [done|]. unfold u64. rw Zplus_mod_idemp_l. f_equal. lia.
Qed.

Section generation.
Context (disp : Dispatch) `{HeaderCastLaw}.
Local Abbreviation DemoEncoder := (Encoder AnyAckPolicy NoCongestionControl ConstantFecRate).
Implicit Types e : DemoEncoder.

(** At rate 0 a submission makes no coded packet. *)
Definition no_fec : ConstantFecRate := {| cf_numer := 0; cf_denom := 1; cf_acc := 0 |}.

Lemma submit_no_fec e data e' outs : en_fec e = no_fec → submit_source disp e data = Ok (e', outs) →
  length outs = 1%nat ∧ coded_state e' = coded_state e ∧ en_fec e' = no_fec.
Proof.
  intros Hf. unfold submit_source. case_match; [done|].
  intros (e1 & Hroom & Hs)%bind_Ok_inv.
  assert (en_fec e1 = no_fec ∧ coded_state e1 = coded_state e) as [Hf1 Hc1].
  { revert Hroom. repeat case_match; by intros [= <-]. }
  destruct (push (en_window e1) data) as [w id]. apply bind_Ok_inv in Hs as (pkt & _ & Hs).
  apply bind_Ok_inv in Hs as ([fec n] & Hfec & Hs). cbn [set_cc set_window en_fec] in Hfec. rw Hf1 in Hfec.
  injection Hfec as <- <-. cbn [coded_loop] in Hs. by injection Hs as <- <-.
Qed.

Lemma demo_payload_symbol i : symbol 64 (demo_payload i).
Proof.
  unfold demo_payload. split; [by rw length_fmap length_seqZ|].
  apply Forall_fmap, Forall_true. intros j. cbn. change 255 with (Z.ones 8). rw Z.land_ones; [|lia].
  apply Z.mod_pos_bound. lia.
Qed.

(** Where the demo is after [n] symbols. *)
Record demo_at config n e (d : Decoder ConstantFeedbackPolicy) sent : Prop := {
  da_session : enc_session disp demo_payload e sent;
  da_config : en_config e = config;
  da_fec : en_fec e = no_fec;
  da_next : w_next_id (en_window e) = n;
  da_window : id_slice (en_window e) = seqZ 0 n;
  da_synced : synced demo_payload config n d;
}.

(** A source packet reaches the decoder, and is delivered. *)
Lemma demo_source_ok config n e d sent : sym_size config = 64%nat →
  0 ≤ n < ec_window_capacity config → ec_window_capacity config ≤ 128 →
  demo_at config n e d sent →
  ∃ e' d' sent', demo_source disp (e, d) n = Ok (e', d') ∧
    demo_at config (n + 1) e' d' sent' ∧ coded_state e' = coded_state e.
Proof.
  intros Hsz Hn Hcap [Hs Hc Hf Hnext Hids Hsy]. pose proof (enc_session_inv disp _ e sent Hs) as [He _ _ _ _].
  assert (window_is_full (en_window e) = false) as Hfull.
  { unfold window_is_full. rw (eok_winconf _ _ He) Hc. apply Z.leb_gt. unfold window_len.
    apply (f_equal length) in Hids. unfold id_slice in Hids. rw length_fmap length_seqZ in Hids. lia. }
  destruct (submit_total disp _ e sent Hs ltac:(lia) (or_introl Hfull))
    as (e' & pkt & new & Hsub & Hs' & Hc' & Hn' & Hids' & p & Hp & Hid & Hpay). rw Hnext in Hsub Hid Hpay.
  destruct (submit_no_fec _ _ _ _ Hf Hsub) as (Hlen & Hst & Hf'). destruct new; [|done].
  assert (∀ id, symbol (sym_size config) (demo_payload id)) as Hsym by (intros id; rw Hsz; apply demo_payload_symbol).
  destruct (source_synced (P := ConstantFeedbackPolicy) disp demo_payload config Hsym n d p)
    as (d' & evs & Hd & Hsy' & _); [lia|done..|].
  exists e', d', (sent ++ [OutSource pkt]). split_and!; [|constructor; try done|done].
  - unfold demo_source. rw Hsub. cbn. rw Hp /=. by rw Hd.
  - by rw Hc'.
  - by rw Hn' Hnext.
  - rw Hids' // Hids Hnext seqZ_app; [done|lia|lia].
Qed.

Lemma demo_sources_ok config k : ∀ n e d sent, sym_size config = 64%nat →
  0 ≤ n → n + Z.of_nat k ≤ ec_window_capacity config → ec_window_capacity config ≤ 128 →
  demo_at config n e d sent →
  ∃ e' d' sent', mfor (demo_source disp) (e, d) (seqZ n (Z.of_nat k)) = Ok (e', d') ∧
    demo_at config (n + Z.of_nat k) e' d' sent' ∧ coded_state e' = coded_state e.
Proof.
  induction k as [|k IH]; intros n e d sent Hsz Hn Hk Hcap Hat.
  { exists e, d, sent. by rw Z.add_0_r. }
  destruct (demo_source_ok config n e d sent) as (e1 & d1 & sent1 & H1 & Hat1 & Hst1); [done|lia|done..|].
  destruct (IH (n + 1) e1 d1 sent1) as (e2 & d2 & sent2 & H2 & Hat2 & Hst2); [done|lia|lia|done..|].
  exists e2, d2, sent2. rw seqZ_cons; [|lia]. cbn [mfor]. rw H1 bind_Ok.
  replace (Z.pred (Z.of_nat (S k))) with (Z.of_nat k) by lia.
  replace (n + Z.of_nat (S k)) with (n + 1 + Z.of_nat k) by lia. by rw Hst2 Hst1.
Qed.

(** A coded packet changes nothing but the counters. *)
Lemma demo_coded_ok config n s sent i : sym_size config = 64%nat → 1 ≤ n ≤ 128 →
  demo_at config n (de_encoder s) (de_decoder s) sent →
  ∃ s' sent', demo_coded disp s i = Ok s' ∧ demo_at config n (de_encoder s') (de_decoder s') sent' ∧
    coded_state (de_encoder s') = coded_state (advance_coded (de_encoder s)) ∧
    de_delivered_post s' = de_delivered_post s.
Proof.
  intros Hsz Hn [Hs Hc Hf Hnext Hids Hsy].
  pose proof (enc_session_inv disp _ _ sent Hs) as Hi. pose proof (session_fits _ _ _ Hi) as Hfit.
  destruct Hi as [He _ Hsrc _ _].
  destruct (generate_coded_ok disp demo_payload (de_encoder s)) as (e' & o & Hg & He' & Hw' & Hc' & Hco & Ho);
    [done..| |].
  { intros Hnil. unfold id_slice in Hids. rw Hnil seqZ_cons in Hids; [done|lia]. }
  destruct o as [|pkt]; [done|]. destruct Ho as (p & Hp & Hh). rw Hids Hc in Hh.
  assert (∀ id, symbol (sym_size config) (demo_payload id)) as Hsym by (intros id; rw Hsz; apply demo_payload_symbol).
  destruct (coded_synced (P := ConstantFeedbackPolicy) disp demo_payload config Hsym n n (de_decoder s) p)
    as (d' & evs & Hd & Hsy' & Hdel); [lia|lia|done..|].
  eexists _, (sent ++ [OutCoded pkt]). split_and!.
  - unfold demo_coded. rw Hg. cbn. rw Hp /=. by rw Hd.
  - constructor; cbn; try done.
    + by apply (Encoder.session_coded _ _ (de_encoder s)).
    + by rw Hc'.
    + by apply generate_coded_state in Hg as (_ & -> & _).
    + by rw Hw'.
    + by rw Hw'.
  - by apply generate_coded_state in Hg as (Hst & _ & _).
  - cbn. unfold count_ready. revert Hdel. generalize (de_delivered_post s). clear.
    induction evs as [|[id data|raw|a m] evs IH]; intros z Hdel; [done|done|by apply IH..].
Qed.

Lemma demo_codeds_ok config n k : ∀ i s sent, sym_size config = 64%nat → 1 ≤ n ≤ 128 →
  demo_at config n (de_encoder s) (de_decoder s) sent →
  ∃ s' sent', mfor (demo_coded disp) s (seqZ i (Z.of_nat k)) = Ok s' ∧
    demo_at config n (de_encoder s') (de_decoder s') sent' ∧
    coded_state (de_encoder s') = coded_state (advance_n k (de_encoder s)) ∧
    de_delivered_post s' = de_delivered_post s.
Proof.
  induction k as [|k IH]; intros i s sent Hsz Hn Hat; [by exists s, sent|].
  destruct (demo_coded_ok config n s sent i) as (s1 & sent1 & H1 & Hat1 & Hst1 & Hdel1); [done..|].
  destruct (IH (Z.succ i) s1 sent1) as (s2 & sent2 & H2 & Hat2 & Hst2 & Hdel2); [done..|].
  exists s2, sent2. rw seqZ_cons; [|lia]. cbn [mfor]. rw H1 bind_Ok.
  replace (Z.pred (Z.of_nat (S k))) with (Z.of_nat k) by lia. split_and!; [done|done| |by rw Hdel2].
  rw Hst2. cbn [advance_n]. apply advance_n_state; [|done].
  by rw advance_coded_config (da_config _ _ _ _ _ Hat) (da_config _ _ _ _ _ Hat1).
Qed.
End generation.

Lemma generation_runs disp `{HeaderCastLaw} n_symbols n_coded :
  1 ≤ n_symbols ≤ 128 → 0 ≤ n_coded < 4294967296 →
  ∃ r, generation disp n_symbols n_coded = Ok r ∧
    en_generation (de_encoder r) = u8 (n_coded / 128) ∧
    en_coded_ids_used (de_encoder r) = n_coded ∧
    de_delivered_post r = 0 ∧ next_delivery_id (de_decoder r) = n_symbols.
Proof.
  intros Hn Hk. unfold generation. rw (Z.max_l n_symbols 1); [|lia]. rw build_valid.
  2: { unfold builder_usize, SYM. cbn. lia. }
  2: { unfold encoder_config_ok, SYM. cbn. split_and!; lia. }
  set (b := EncoderBuilder.fec_rate _ _ _). set (config := config_of b).
  cbn [demo_codec]. rw bind_Ok bind_Ok bind_Ok bind_Ok. set (d0 := decoder_new _ _).
  set (e0 := encoder_new config AnyAck NoCc {| cf_numer := _ |}).
  assert (demo_at disp config 0 e0 d0 []) as Hat0.
  { constructor; try done; [|by apply synced_new].
    apply Encoder.session_new; [|cbn; lia|cbn; lia|intros id; apply demo_payload_symbol].
    unfold encoder_config_ok, config, b, SYM. cbn. lia. }
  destruct (demo_sources_ok disp config (Z.to_nat n_symbols) 0 e0 d0 [])
    as (e1 & d1 & sent1 & H1 & Hat1 & Hst1); [done|lia|cbn; lia|cbn; lia|done|].
  rw Z2Nat.id in H1 Hat1; [|lia..]. rw H1 bind_Ok.
  destruct (demo_codeds_ok disp config n_symbols (Z.to_nat n_coded) 0
    {| de_encoder := e1; de_decoder := d1; de_max_gen := 0; de_delivered_post := 0 |} sent1)
    as (r & sent2 & H2 & Hat2 & Hst2 & Hdel); [done|lia|done|].
  rw Z2Nat.id in H2; [|lia]. exists r. split; [exact H2|]. cbn [de_encoder] in Hst2.
  rw (advance_n_state _ e1 e0) in Hst2; [|by rw (da_config _ _ _ _ _ _ Hat1)|done].
  injection Hst2 as _ Hused Hgen.
  destruct (advance_n_spec (Z.to_nat n_coded) e0 0) as [_ Hg]; [cbn; lia|done|done|].
  rw Hgen Hused Hg advance_n_used. cbn -[Z.of_nat Z.to_nat u64 u8 Z.div]. rw Z2Nat.id; [|lia].
  split_and!; [done| |done|apply (sy_next _ _ _ _ (da_synced _ _ _ _ _ _ Hat2))].
  destruct (Nat.eqb_spec (Z.to_nat n_coded) 0); [lia|]. apply u64_small. word_bound.
Qed.

(** C29: the generation demo: with up to 128 symbols a Cauchy encoder makes any
    number of coded packets, far past the 128 IDs of a cycle, without an error;
    its generation counts the cycles modulo 256, and the decoder, which has
    delivered every symbol before, delivers nothing twice. *)
Theorem generation_never_exhausted disp `{HeaderCastLaw} n_symbols n_coded :
  1 ≤ n_symbols ≤ 128 → 0 ≤ n_coded < 4294967296 →
  ∃ r, generation disp n_symbols n_coded = Ok r ∧
    en_generation (de_encoder r) = u8 (n_coded / 128) ∧
    en_coded_ids_used (de_encoder r) = n_coded ∧
    de_delivered_post r = 0 ∧ next_delivery_id (de_decoder r) = n_symbols.
Proof. intros. by apply generation_runs. Qed.

Lemma generation_never_exhausted_witness :
  ∃ r, @generation Neon ReprC.cast 12 1200 = Ok r ∧ en_generation (de_encoder r) = 9 ∧
    en_coded_ids_used (de_encoder r) = 1200 ∧ de_delivered_post r = 0 ∧
    next_delivery_id (de_decoder r) = 12.
Proof. apply (@generation_never_exhausted Neon ReprC.cast ReprC.cast_law 12 1200); lia. Defined.
