(* ===== verification/CliMain.v ===== *)
(** * delp-cli: main.rs

    The commands with their options and default values, and the dispatch.  The
    parser that clap generates is not modelled: a [Command] is what it returns. *)

From S2P Require Import Prelude Error Config Gf CoefGen Simd IdStorage EncVec Common Packets F64 Feedback Packet Policy Window LinComb Encoder BTree Buffer Matrix Dense Elim Decoder Recovery Delivery Consumer Transport EndToEnd Lossless CliSend CliRecv CliBench CliDemo.
#[global] Open Scope Z_scope.

Inductive DemoCmd : Type :=
| Altc (window symbol_size cover : Z)
| Generation (symbols coded : Z).

Section command.
Context {PathBuf SocketAddr : Type}.

Inductive Command : Type :=
| Send (file : PathBuf) (dest : SocketAddr) (symbol_size window : Z) (fec : list Z) (strategy : Strategy)
    (altc : AltcMode) (altc_recent : Z) (loss_rate : f64)
| Recv (bind : SocketAddr) (output : PathBuf) (timeout_secs : Z)
| Bench (symbol_size window symbols : Z) (strategy : Strategy)
| Demo (what : DemoCmd).

(** A command line with the required options only. *)
Definition send_default (file : PathBuf) (dest : SocketAddr) : Command :=
  Send file dest 1024 32 [49; 58; 50] SVandermonde AltcNone 8 (f_of_Z 0).
Definition recv_default (bind : SocketAddr) (output : PathBuf) : Command := Recv bind output 30.
Definition bench_default : Command := Bench 1024 64 10000 SVandermonde.
Definition altc_default : Command := Demo (Altc 32 1024 8).
Definition generation_default : Command := Demo (Generation 12 1200).

(** ** main *)
Inductive MainError : Type :=
| FecError (e : FecRatioError)
| FileError
| SendError (e : DelpError)
| RecvFailed (e : RecvError)
| BenchFailed (e : BenchError)
| DemoFailed (e : DemoError).

(** What a command leaves behind. *)
Inductive Answer : Type :=
| Sent (wire : list bytes)
| Written (output : PathBuf) (file : bytes)
| Benched (delivered : Z)
| Compared (reports : list AltcReport)
| Generated (demo : CliDemo.Demo).

(** The files, the clock, and the datagrams that arrive at an address, each with
    its times. *)
Record Environment := {
  en_file : PathBuf → option bytes;
  en_nanos : Z;
  en_arrivals : SocketAddr → list arrival;
}.

Definition lift_error {E A} (f : E → MainError) (m : outcome E A) : outcome MainError A :=
  match m with Ok a => Ok a | Err e => Err (f e) | Panic => Panic end.

Context (disp : Dispatch) (sha256 : bytes → bytes) (receiver_id_from_addr : SocketAddr → Z) `{HeaderCast}.

Definition main (env : Environment) (cmd : Command) : outcome MainError Answer :=
  match cmd with
  | Send file dest symbol_size window fec strategy altc altc_recent loss_rate =>
      '(fec_n, fec_d) ← lift_error FecError (parse_fec_ratio fec);
      match en_file env file with
      | None => Err FileError
      | Some raw =>
          '(_, wire) ← lift_error SendError (send_run disp sha256 receiver_id_from_addr
            {| sc_dest := dest; sc_symbol_size := symbol_size; sc_window := window; sc_fec_n := fec_n;
               sc_fec_d := fec_d; sc_strategy := strategy; sc_altc := altc; sc_altc_recent := altc_recent;
               sc_loss_rate := loss_rate |} raw (en_nanos env));
          Ok (Sent wire)
      end
  | Recv bind output timeout_secs =>
      file ← lift_error RecvFailed (recv_run disp (timeout_secs * 1000000000) sha256 (en_arrivals env bind));
      Ok (Written output file)
  | Bench symbol_size window symbols strategy =>
      s ← lift_error BenchFailed (bench_run disp symbol_size window symbols strategy);
      Ok (Benched (bd_delivered s))
  | Demo (Altc window symbol_size cover) =>
      reports ← lift_error DemoFailed (altc disp window symbol_size cover);
      Ok (Compared reports)
  | Demo (Generation symbols coded) =>
      demo ← lift_error DemoFailed (generation disp symbols coded);
      Ok (Generated demo)
  end.
End command.
Arguments Command : clear implicits.
Arguments Answer : clear implicits.
Arguments Environment : clear implicits.

(** ** The defaults work together *)
Definition default_send_args {Addr} (dest : Addr) : SendConfig (Addr := Addr) :=
  {| sc_dest := dest; sc_symbol_size := 1024; sc_window := 32; sc_fec_n := 1; sc_fec_d := 2;
     sc_strategy := SVandermonde; sc_altc := AltcNone; sc_altc_recent := 8; sc_loss_rate := f_of_Z 0 |}.

Lemma default_args_ok {Addr} (dest : Addr) raw : bytes_ok raw → Z.of_nat (length raw) ≤ 67108864 →
  args_ok (default_send_args dest) raw.
Proof. intros Hraw Hlen. constructor; cbn; try lia; done. Qed.

Lemma default_no_loss {Addr} (dest : Addr) : loss_pct (default_send_args dest) = Ok 0.
Proof. vm_compute. reflexivity. Qed.

(** C18: the tool with its default options: of any file of up to 64 MiB, [delp send]
    makes a stream of datagrams, without an error, from which [delp recv], if all
    of them arrive in order and none comes more than 30 seconds after the one
    before it was handled, writes the same file, however long it takes to handle
    them. *)
Theorem default_transfer disp disp' sha256 {PathBuf SocketAddr} (rid : SocketAddr → Z) `{HeaderCastLaw}
    (env : Environment PathBuf SocketAddr) file dest raw :
  en_file env file = Some raw → bytes_ok raw → Z.of_nat (length raw) ≤ 67108864 → length (sha256 raw) = 32%nat →
  ∃ wire, main disp sha256 rid env (send_default file dest) = Ok (Sent wire) ∧
    ∀ (env' : Environment PathBuf SocketAddr) bind output,
      (en_arrivals env' bind).*1 = wire → in_time 30000000000 (en_arrivals env' bind) →
      main disp' sha256 rid env' (recv_default bind output) = Ok (Written output raw).
Proof.
  intros Hfile Hraw Hlen Hsha. pose proof (default_args_ok dest raw Hraw Hlen) as Ha.
  destruct (send_run_ok disp sha256 rid (default_send_args dest) raw (en_nanos env) Ha)
    as (s & sent & out & Hrun & _).
  eexists. split.
  - unfold main, send_default. change (parse_fec_ratio [49; 58; 50]) with (Ok (E := FecRatioError) (1, 2)).
    cbn [lift_error]. rw bind_Ok Hfile. fold (default_send_args dest). rw Hrun. cbn [lift_error]. by rw bind_Ok.
  - intros env' bind output Harr Htime. unfold main, recv_default.
    assert (recv_run disp' (30 * 1000000000) sha256 (en_arrivals env' bind) = Ok raw) as ->; [|done].
    apply (transfer_completes disp disp' _ sha256 rid (default_send_args dest) raw (en_nanos env) s
      (send_start sha256 (default_send_args dest) raw :: (raw_of <$> out) ++ [build_end_frame]));
      [exact Ha|exact Hsha|apply default_no_loss|exact Hrun|exact Htime|by rw Harr|].
    intros pkt Hpkt _. by rw Harr.
Qed.

Definition demo_env (file : option bytes) (arrivals : list arrival) : Environment unit unit :=
  {| en_file _ := file; en_nanos := 7; en_arrivals _ := arrivals |}.

Lemma default_transfer_witness :
  ∃ wire, @main unit unit Avx2 demo_sha (λ _, 5) ReprC.cast (demo_env (Some demo_file) []) (send_default tt tt)
    = Ok (Sent wire) ∧
    @main unit unit Ssse3 demo_sha (λ _, 5) ReprC.cast (demo_env None ((λ pkt, (pkt, sluggish)) <$> wire))
      (recv_default tt tt) = Ok (Written tt demo_file).
Proof.
  destruct (@default_transfer Avx2 Ssse3 demo_sha unit unit (λ _, 5) ReprC.cast ReprC.cast_law
    (demo_env (Some demo_file) []) tt tt demo_file) as (wire & Hsend & Hrecv);
    [done|repeat constructor; word_bound|cbn; lia|done|].
  exists wire. split; [exact Hsend|]. apply Hrecv; cbn.
  - rw -list_fmap_compose. by rw list_fmap_id.
  - apply Forall_fmap, Forall_true. intros pkt. cbn. lia.
Defined.

(** The benchmark and the demonstrations succeed with their defaults; a targeted
    Vandermonde packet is as long as a full one, a Cauchy one is shorter. *)
Lemma default_bench disp sha256 {PathBuf SocketAddr} (rid : SocketAddr → Z) `{HeaderCastLaw}
    (env : Environment PathBuf SocketAddr) :
  main disp sha256 rid env bench_default = Ok (Benched 10000).
Proof.
  unfold main, bench_default.
  destruct (bench_sound disp 1024 64 10000 SVandermonde) as (s & -> & Hd & _); [lia|lia|done|lia|].
  cbn [lift_error]. by rw bind_Ok Hd.
Qed.
Lemma default_generation disp sha256 {PathBuf SocketAddr} (rid : SocketAddr → Z) `{HeaderCastLaw}
    (env : Environment PathBuf SocketAddr) :
  ∃ demo, main disp sha256 rid env generation_default = Ok (Generated demo) ∧ en_generation (de_encoder demo) = 9.
Proof.
  unfold main, generation_default.
  destruct (generation_runs disp 12 1200) as (r & -> & Hg & _); [lia|lia|].
  exists r. cbn [lift_error]. by rw bind_Ok Hg.
Qed.
Lemma default_altc :
  @main unit unit Ssse3 demo_sha (λ _, 5) ReprC.cast (demo_env None []) altc_default
  = Ok (Compared [{| al_full_ids := 32; al_full_len := 1040; al_recent_ids := 8; al_recent_len := 1040 |};
                  {| al_full_ids := 32; al_full_len := 1072; al_recent_ids := 8; al_recent_len := 1048 |}]).
Proof. vm_compute. reflexivity. Qed.
