(* ===== verification/Examples.v ===== *)
(** * The two examples: what they share

    examples/file_transfer.rs and examples/udp_fec.rs run a sender task, a
    receiver task and a proxy task over loopback sockets.  A [Path] is the two
    library objects with the datagrams in each socket; a socket keeps its
    datagrams in order and may lose some.  Each operation of a task is one or more
    steps of the control loop of ClosedLoop.v. *)

From S2P Require Import Prelude Error Config Gf CoefGen Vandermonde Simd IdStorage EncVec Common Packets F64 Feedback Packet Policy Window LinComb Encoder BTree Buffer Matrix Dense Elim Decoder Recovery Delivery Reports Consumer Transport Sender EndToEnd ClosedLoop.
#[global] Open Scope Z_scope.

(** The generator both proxies draw from. *)
Definition xorshift64 (state : Z) : Z :=
  let state := Z.lxor state (Z.shiftr state 12) in
  let state := Z.lxor state (u64 (Z.shiftl state 25)) in
  Z.lxor state (Z.shiftr state 27).
Definition random_u8 (state : Z) : Z := u8 (Z.shiftr (u64 (state * 2685821657736338717)) 56).

(** What the proxy does with a datagram. *)
Inductive verdict : Type := ToSender | ToReceiver | Dropped.

Section path.
Context (disp disp' : Dispatch) `{HeaderCast}.
Context {Addr : Type} (addr_to_receiver_id : Addr → Z) (receiver_addr : Addr).

Record Path := {
  pa_sender : FecSender AnyAckPolicy NoCongestionControl ConstantFecRate Addr;
  pa_receiver : FecReceiver ConstantFeedbackPolicy;
  pa_to_proxy : list bytes;      (** in the proxy's socket *)
  pa_to_receiver : list bytes;   (** in the receiver's socket *)
  pa_feedback : list bytes;      (** in the sender's socket *)
  pa_taken : list (Z * bytes);   (** what [recv_source] has returned *)
}.

(** [sender.recv_feedback()]: the sender's socket is empty, would
    block or fails after [k] datagrams, which come from the receiver. *)
Definition path_feedback (k : nat) (fails : bool) (p : Path) : outcome (Path * TransportError) Path :=
  let input := (InDatagram receiver_addr <$> take k (pa_feedback p)) ++ [if fails then InError else InWouldBlock] in
  let after s :=
    {| pa_sender := s; pa_receiver := pa_receiver p; pa_to_proxy := pa_to_proxy p;
       pa_to_receiver := pa_to_receiver p; pa_feedback := drop k (pa_feedback p); pa_taken := pa_taken p |} in
  match recv_feedback addr_to_receiver_id (pa_sender p) input with
  | Ok (s, _) => Ok (after s)
  | Err (s, e) => Err (after s, e)
  | Panic => Panic
  end.

(** [sender.send_source(data)]: everything it sends reaches the proxy's socket. *)
Definition path_send (data : bytes) (io : list awaited) (p : Path) : outcome TransportError Path :=
  match send_source disp (pa_sender p) data io with
  | (sent, Ok s) =>
      Ok {| pa_sender := s; pa_receiver := pa_receiver p; pa_to_proxy := pa_to_proxy p ++ sent.*2;
            pa_to_receiver := pa_to_receiver p; pa_feedback := pa_feedback p; pa_taken := pa_taken p |}
  | (_, Err (_, e)) => Err e
  | (_, Panic) => Panic
  end.

(** The proxy has decided about the first datagram of its socket. *)
Definition path_forward (v : verdict) (raw : bytes) (p : Path) : Path :=
  {| pa_sender := pa_sender p; pa_receiver := pa_receiver p; pa_to_proxy := drop 1 (pa_to_proxy p);
     pa_to_receiver := match v with ToReceiver => pa_to_receiver p ++ [raw] | _ => pa_to_receiver p end;
     pa_feedback := match v with ToSender => pa_feedback p ++ [raw] | _ => pa_feedback p end;
     pa_taken := pa_taken p |}.

(** [receiver.recv_source()] as far as one datagram, and when a symbol is
    ready. *)
Definition path_receive (raw : bytes) (p : Path) : outcome (FecReceiver ConstantFeedbackPolicy * DelpError) Path :=
  '(r, _, sent) ← process_one disp' (pa_receiver p) raw;
  Ok {| pa_sender := pa_sender p; pa_receiver := r; pa_to_proxy := pa_to_proxy p;
        pa_to_receiver := drop 1 (pa_to_receiver p); pa_feedback := pa_feedback p ++ sent; pa_taken := pa_taken p |}.
Definition path_take (p : Path) : option (Path * (Z * bytes)) :=
  match pop_ready (pa_receiver p) with
  | (r, Some sym) =>
      Some ({| pa_sender := pa_sender p; pa_receiver := r; pa_to_proxy := pa_to_proxy p;
               pa_to_receiver := pa_to_receiver p; pa_feedback := pa_feedback p; pa_taken := pa_taken p ++ [sym] |}, sym)
  | (_, None) => None
  end.

(** The network loses datagrams. *)
Record loses (p p' : Path) : Prop := {
  ls_sender : pa_sender p' = pa_sender p;
  ls_receiver : pa_receiver p' = pa_receiver p;
  ls_taken : pa_taken p' = pa_taken p;
  ls_to_proxy : pa_to_proxy p' `sublist_of` pa_to_proxy p;
  ls_to_receiver : pa_to_receiver p' `sublist_of` pa_to_receiver p;
  ls_feedback : pa_feedback p' `sublist_of` pa_feedback p;
}.

(** The sender sends to the proxy. *)
Definition path_new (e : Encoder AnyAckPolicy NoCongestionControl ConstantFecRate)
    (d : Decoder ConstantFeedbackPolicy) (proxy_addr : Addr) : Path :=
  {| pa_sender := sender_new addr_to_receiver_id e proxy_addr; pa_receiver := receiver_new d; pa_to_proxy := []; pa_to_receiver := [];
     pa_feedback := []; pa_taken := [] |}.
End path.

Arguments Path : clear implicits.

(** ** A path is a run of the control loop *)
Section simulation.
Context (disp disp' : Dispatch) `{HeaderCastLaw}.
Context {Addr : Type} (addr_to_receiver_id : Addr → Z) (receiver_addr : Addr).
Context (src : Z → bytes) (config : EncoderConfig) (dconfig : DecoderConfig).
Hypothesis Hcfg : loop_config src config dconfig.

Local Abbreviation loop_reachable w :=
  (reachable (W := AnyAckPolicy) (C := NoCongestionControl) (F := ConstantFecRate) (P := ConstantFeedbackPolicy)
     disp disp' addr_to_receiver_id src config dconfig w).
Local Abbreviation loop_world := (@World AnyAckPolicy NoCongestionControl ConstantFecRate ConstantFeedbackPolicy).
Implicit Types w : loop_world.

(** Datagrams are in flight in the order they were emitted. *)
Record path_ok (p : Path Addr) w : Prop := {
  po_reach : loop_reachable w;
  po_sender : fs_encoder (pa_sender p) = wo_sender w;
  po_receiver : pa_receiver p = wo_receiver w;
  po_taken : pa_taken p = wo_taken w;
  po_feedback : pa_feedback p ⊆ wo_reports w;
  po_queues : ∃ q1 q2, pa_to_receiver p = raw_of <$> q1 ∧ pa_to_proxy p = raw_of <$> q2 ∧
    wo_arrived w ++ q1 ++ q2 `sublist_of` wo_wire w;
}.

Lemma path_new_ok wp cc fec (policy : ConstantFeedbackPolicy) proxy_addr : fec_ok fec →
  path_ok (path_new addr_to_receiver_id (encoder_new config wp cc fec) (decoder_new dconfig policy) proxy_addr)
    (world_new config dconfig wp cc fec policy).
Proof.
  intros Hf. constructor; [by apply reach_new|done..|]. exists [], []. split_and!; [done..|]. cbn. constructor.
Qed.

Lemma sublist_fmap_inv_l {A B} (g : A → B) l k : l `sublist_of` g <$> k →
  ∃ k', l = g <$> k' ∧ k' `sublist_of` k.
Proof.
  revert l. induction k as [|x k IH]; intros l; cbn.
  - intros ->%sublist_nil_r. by exists [].
  - intros [Hs|(l' & -> & Hs)]%sublist_cons_r.
    + destruct (IH l Hs) as (k' & -> & ?). exists k'. split; [done|by apply sublist_cons].
    + destruct (IH l' Hs) as (k' & -> & ?). exists (x :: k'). split; [done|by apply sublist_skip].
Qed.

Lemma loses_ok p p' w : path_ok p w → loses p p' → path_ok p' w.
Proof.
  intros [Hr He Hrec Ht Hf (q1 & q2 & H1 & H2 & Hs)] [Le Lr Lt L1 L2 Lf].
  constructor; [done|by rw Le|by rw Lr|by rw Lt| |].
  - intros raw Hraw. apply Hf. exact (elem_of_sublist _ _ _ Hraw Lf).
  - rw H2 in L1. rw H1 in L2. apply sublist_fmap_inv_l in L1 as (q2' & -> & Hq2).
    apply sublist_fmap_inv_l in L2 as (q1' & -> & Hq1). exists q1', q2'. split_and!; [done..|].
    etrans; [|exact Hs]. apply sublist_app; [done|by apply sublist_app].
Qed.

Lemma feedback_step w raw n : loop_reachable w → raw ∈ wo_reports w →
  ∃ e n', feedback_datagram addr_to_receiver_id (wo_sender w, n) (receiver_addr, raw) = Ok (e, n') ∧
    submitted (with_sender w e []) = submitted w ∧ loop_reachable (with_sender w e []).
Proof.
  intros Hw Hraw. destruct (reachable_inv _ _ _ _ _ _ Hcfg w Hw) as [evs Hi].
  destruct (sender_report (P := ConstantFeedbackPolicy) disp addr_to_receiver_id src config _ _ _ receiver_addr raw
    (li_sender _ _ _ _ _ _ _ Hi) (li_reports _ _ _ _ _ _ _ Hi raw Hraw)) as (e & Hf & _ & Hn).
  pose proof Hf as Hd. unfold absorb_feedback, feedback_datagram in Hd. unfold feedback_datagram.
  assert (with_sender w e [] = {| wo_sender := e; wo_receiver := wo_receiver w; wo_wire := wo_wire w;
    wo_arrived := wo_arrived w; wo_reports := wo_reports w; wo_taken := wo_taken w |}) as Hw'
    by (unfold with_sender; by rw app_nil_r).
  cbn [snd fst] in *. destruct (fb_parse raw) as [pkt| |]; [|injection Hd as ->|done].
  - destruct (handle_feedback _ _ _) as [e'| |]; [|done..]. injection Hd as ->.
    exists e, (S n). split_and!; [done|exact Hn|]. rw Hw'. by apply (reach_step _ _ _ _ _ _ w), step_report with receiver_addr raw.
  - exists e, n. rw Hw'. split_and!; [done|done|].
    by apply (reach_step _ _ _ _ _ _ w), step_report with receiver_addr raw.
Qed.

(** Draining the socket: the encoder takes every report, and the call ends as the
    socket does. *)
Lemma feedback_loop_ok w (s : FecSender AnyAckPolicy NoCongestionControl ConstantFecRate Addr) n raws (fails : bool) :
  loop_reachable w → raws ⊆ wo_reports w → fs_encoder s = wo_sender w →
  ∃ s' n', feedback_loop addr_to_receiver_id s n ((InDatagram receiver_addr <$> raws) ++ [if fails then InError else InWouldBlock])
      = (if fails then Err (s', TransportIo) else Ok (s', n')) ∧
    submitted (with_sender w (fs_encoder s') []) = submitted w ∧ loop_reachable (with_sender w (fs_encoder s') []).
Proof.
  revert w s n. induction raws as [|raw raws IH]; intros w s n Hw Hsub Hs.
  - exists s, n. split; [by destruct fails|]. rw Hs. unfold with_sender. rw app_nil_r. by destruct w.
  - destruct (feedback_step w raw n Hw) as (e & n' & Hd & Hn & Hw'); [apply Hsub; by left|].
    destruct (IH (with_sender w e []) (set_encoder s e) n' Hw') as (s' & n'' & Hds & Hn' & Hw''); [|done|].
    { intros x Hx. apply Hsub. by right. }
    exists s', n''. cbn [fmap list_fmap app feedback_loop]. rw Hs Hd. cbn [codec_error]. rw bind_Ok.
    split_and!; [exact Hds|exact (eq_trans Hn' Hn)|]. revert Hw''. unfold with_sender. cbn. by rw !app_nil_r.
Qed.

Lemma path_feedback_ok k fails p w : path_ok p w →
  ∃ p' w', path_feedback addr_to_receiver_id receiver_addr k fails p
      = (if fails then Err (p', TransportIo) else Ok p') ∧ path_ok p' w' ∧
    submitted w' = submitted w ∧ wo_taken w' = wo_taken w.
Proof.
  intros [Hr He Hrec Ht Hf (q1 & q2 & H1 & H2 & Hs)]. unfold path_feedback, recv_feedback.
  destruct (feedback_loop_ok w (pa_sender p) 0 (take k (pa_feedback p)) fails Hr) as (s & n' & -> & Hn & Hw'); [|done|].
  { intros x Hx. apply Hf. exact (elem_of_sublist _ _ _ Hx (sublist_take _ _)). }
  eexists _, (with_sender w (fs_encoder s) []). split; [by destruct fails|]. split_and!; [|done|done]. constructor; try done.
  - intros x Hx. apply Hf. exact (elem_of_sublist _ _ _ Hx (sublist_drop _ _)).
  - exists q1, q2. split_and!; [done..|]. cbn. by rw app_nil_r.
Qed.

Lemma closed_loop_spec w : loop_reachable w →
  0 ≤ next_delivery_id (fr_decoder (wo_receiver w)) ≤ submitted w ∧
  wo_taken w ++ fr_ready (wo_receiver w) = symbols_upto src 0 (next_delivery_id (fr_decoder (wo_receiver w))).
Proof.
  intros Hr. destruct (reachable_inv _ _ _ _ _ _ Hcfg w Hr) as [evs Hi].
  split; [|by apply (loop_delivered disp disp' src config dconfig Hcfg w evs)].
  eapply receiver_pointer; [apply Hcfg|by apply (submitted_range disp disp' src config dconfig w evs)|apply Hi].
Qed.

(** Sending the next symbol: it is submitted, or the window is full, or a send
    failed. *)
Lemma path_send_ok io p w : path_ok p w → submitted w < 65536 →
  match path_send disp (src (submitted w)) io p with
  | Ok p' => ∃ w', path_ok p' w' ∧ submitted w' = submitted w + 1 ∧ wo_taken w' = wo_taken w
  | Err (TransportCodec e) => window_is_full (en_window (fs_encoder (pa_sender p))) = true ∧
      e = WindowFull (ec_window_capacity config)
  | Err TransportIo => True
  | Panic => False
  end.
Proof.
  intros [Hr He Hrec Ht Hf (q1 & q2 & H1 & H2 & Hs)] Hlt. unfold path_send, send_source. rw He.
  destruct (reachable_inv _ _ _ _ _ _ Hcfg w Hr) as [evs Hi].
  pose proof (loop_submit _ _ _ _ _ Hcfg w evs Hi Hlt) as Htot.
  destruct (submit_source disp (wo_sender w) (src (submitted w))) as [[e new]|err|] eqn:Hsub; cbn [codec_error]; [|done..].
  destruct (send_all _ (raw_of <$> new) io) as [sent []] eqn:Hsend; [|done].
  apply send_all_spec in Hsend as [_ Hall]. rw (proj1 Hall eq_refl).
  destruct (sender_submit _ _ _ _ _ _ _ _ (lc_reject _ _ _ Hcfg) (li_sender _ _ _ _ _ _ _ Hi) Hlt Hsub) as [_ Hn].
  exists (with_sender w e new). split_and!; [|exact Hn|done].
  constructor; try done; [by apply (reach_step _ _ _ _ _ _ w), step_submit|].
  exists q1, (q2 ++ new). split_and!; [done|cbn|]. { rw H2 fmap_app. f_equal. rw -list_fmap_compose. by apply list_fmap_id. }
  cbn. rw (app_assoc q1) (app_assoc (wo_arrived w)). by apply sublist_app.
Qed.

(** Only source and coded packets wait at the proxy. *)
Lemma path_packet raw rest p w : path_ok p w → pa_to_proxy p = raw :: rest →
  (4 ≤ length raw)%nat ∧ raw !! 3%nat ≠ Some 2.
Proof.
  intros [Hr _ _ _ _ (q1 & q2 & _ & H2 & Hs)] Hq.
  destruct q2 as [|o q2]; [by rw Hq in H2|]. rw Hq in H2. injection H2 as -> _.
  destruct (reachable_inv _ _ _ _ _ _ Hcfg w Hr) as [evs Hi].
  assert (o ∈ wo_wire w) as Ho.
  { eapply elem_of_sublist; [|exact Hs]. rw !elem_of_app elem_of_cons. by right; right; left. }
  apply (wire_honest _ _ _ _ _ w evs o Hi) in Ho.
  destruct o as [pkt|pkt]; destruct Ho as (q & Hpk & _); cbn.
  - destruct (source_parse_type _ _ Hpk) as (h & Hh & Hth).
    destruct (header_parse_type _ _ _ Hh Hth) as [Hb Hl]. split; [done|by rw Hb].
  - destruct (coded_parse_type _ _ Hpk) as (h & Hh & Hth).
    destruct (header_parse_type _ _ _ Hh Hth) as [Hb Hl]. split; [done|by rw Hb].
Qed.

Lemma path_forward_ok v raw rest p w : path_ok p w → pa_to_proxy p = raw :: rest →
  (v = ToSender → raw !! 3%nat = Some 2) → path_ok (path_forward v raw p) w.
Proof.
  intros Hp Hq Hv. destruct (path_packet raw rest p w Hp Hq) as [_ Hb].
  assert (v ≠ ToSender) as Hnv by (intros Hty%Hv; by rw Hty in Hb).
  destruct Hp as [Hr He Hrec Ht Hf (q1 & q2 & H1 & H2 & Hs)].
  destruct q2 as [|o q2]; [by rw Hq in H2|]. rw Hq in H2. injection H2 as -> Hrest.
  constructor; try done; [by destruct v|]. cbn. rw Hq. destruct v; [done|..].
  - exists (q1 ++ [o]), q2. split_and!; [by rw H1 fmap_app|done|]. by rw -app_assoc.
  - exists q1, q2. split_and!; [done..|]. etrans; [|exact Hs]. do 2 (apply sublist_app; [done|]). by apply sublist_cons.
Qed.

Lemma path_receive_ok raw rest p w : path_ok p w → pa_to_receiver p = raw :: rest →
  ∃ p' w', path_receive disp' raw p = Ok p' ∧ path_ok p' w' ∧ submitted w' = submitted w ∧ wo_taken w' = wo_taken w.
Proof.
  intros [Hr He Hrec Ht Hf (q1 & q2 & H1 & H2 & Hs)] Hq.
  destruct q1 as [|o q1]; [by rw Hq in H1|]. rw Hq in H1. injection H1 as -> Hrest.
  destruct (reachable_inv _ _ _ _ _ _ Hcfg w Hr) as [evs Hi].
  assert (o ∈ wo_wire w) as Ho.
  { eapply elem_of_sublist; [|exact Hs]. rw !elem_of_app elem_of_cons. by right; left; left. }
  assert (in_front w o) as Hfront.
  { apply (fifo_in_front disp disp' addr_to_receiver_id src config dconfig Hcfg w o Hr). etrans; [|exact Hs]. apply sublist_app; [done|]. cbn.
    apply sublist_skip, sublist_nil_l. }
  destruct (arrive_ok _ _ _ _ _ Hcfg w evs o Hi Ho Hfront) as (r & b & sent & new & Hp & _ & _).
  unfold path_receive. rw Hrec Hp. cbn [mbind outcome_bind].
  eexists _, (arrive w o r sent). split_and!; [done| |done|done].
  constructor; try done; [by apply (reach_step _ _ _ _ _ _ w), (step_arrive _ _ _ _ w o r b sent)| |].
  - cbn. intros x [Hx|Hx]%elem_of_app; apply elem_of_app; [left; by apply Hf|by right].
  - exists q1, q2. cbn. rw Hq. split_and!; [done..|]. by rw -app_assoc.
Qed.

Lemma path_take_ok p w p' sym : path_ok p w → path_take p = Some (p', sym) →
  ∃ w', path_ok p' w' ∧ submitted w' = submitted w ∧ wo_taken w' = wo_taken w ++ [sym].
Proof.
  intros [Hr He Hrec Ht Hf Hq]. unfold path_take. rw Hrec.
  destruct (pop_ready (wo_receiver w)) as [r [s|]] eqn:Hpop; [|done]. intros [= <- <-].
  exists {| wo_sender := wo_sender w; wo_receiver := r; wo_wire := wo_wire w; wo_arrived := wo_arrived w;
    wo_reports := wo_reports w; wo_taken := wo_taken w ++ [s] |}.
  split_and!; [|done|done]. constructor; [|done|done|by cbn; rw Ht|done|done].
  apply (reach_step _ _ _ _ _ _ w); [done|by apply step_take].
Qed.

Lemma upto_prefix (l r : list (Z * bytes)) n : 0 ≤ n → l ++ r = symbols_upto src 0 n →
  Z.of_nat (length l) ≤ n ∧ l = symbols_upto src 0 (Z.of_nat (length l)) ∧
  r = symbols_upto src (Z.of_nat (length l)) (n - Z.of_nat (length l)).
Proof.
  intros Hn Heq. pose proof (f_equal length Heq) as Hlen.
  unfold symbols_upto in *. rw length_app length_fmap length_seqZ in Hlen.
  replace n with (Z.of_nat (length l) + (n - Z.of_nat (length l))) in Heq by lia.
  rw seqZ_app in Heq; [|lia..]. rw fmap_app Z.add_0_l in Heq.
  apply app_inj_1 in Heq as [Hl Hr]; [|rw length_fmap length_seqZ; lia]. split_and!; [lia|done|done].
Qed.

(** What has been taken is the submitted symbols in order, and so is the next. *)
Lemma path_taken p w : path_ok p w → let n := Z.of_nat (length (wo_taken w)) in
  n ≤ submitted w ∧ wo_taken w = symbols_upto src 0 n ∧
  ∀ p' sym, path_take p = Some (p', sym) → sym = (n, src n) ∧ n < submitted w.
Proof.
  intros Hp n. destruct (closed_loop_spec w (po_reach _ _ Hp)) as [Hd Hq].
  destruct (upto_prefix _ _ _ (proj1 Hd) Hq) as (Hle & Ht & Hr). fold n in Hle, Ht, Hr.
  split_and!; [lia|done|]. intros p' sym. unfold path_take. rw (po_receiver _ _ Hp).
  unfold pop_ready. rw Hr. destruct (decide (next_delivery_id (fr_decoder (wo_receiver w)) - n ≤ 0)) as [Hz|Hz].
  - unfold symbols_upto. rw (seqZ_nil n); [|lia]. done.
  - unfold symbols_upto. rw seqZ_cons; [|lia]. cbn. intros [= _ <-]. split; [done|lia].
Qed.
(** The window holds no more symbols than were submitted. *)
Lemma path_window p w : path_ok p w →
  Z.of_nat (window_len (en_window (fs_encoder (pa_sender p)))) ≤ submitted w ∧
  w_capacity (en_window (fs_encoder (pa_sender p))) = ec_window_capacity config.
Proof.
  intros [Hr He _ _ _ _]. rw He. destruct (reachable_inv _ _ _ _ _ _ Hcfg w Hr) as [evs Hi].
  pose proof (submitted_range disp disp' src config dconfig w evs Hi) as Hm.
  pose proof (li_sender _ _ _ _ _ _ _ Hi) as [Hs Hc _ _ _ _ _].
  destruct (enc_session_inv disp src _ _ Hs) as [Hok _ _ _ _]. split; [|by rw (eok_winconf _ _ Hok) Hc].
  assert (length (id_slice (en_window (wo_sender w))) ≤ length (seqZ 0 (submitted w)))%nat as Hle.
  { apply submseteq_length, NoDup_submseteq; [|exact (window_ids_sent src _ Hok)].
    by apply sorted_NoDup, (eok_window _ _ Hok). }
  unfold id_slice in Hle. rw length_fmap length_seqZ in Hle. unfold window_len. lia.
Qed.
End simulation.
