(* ===== verification/FileTransfer.v ===== *)
(** * examples/file_transfer.rs

    128 symbols of 1024 bytes through a proxy that drops a quarter of the source
    packets, Vandermonde coefficients, a window of 32.  The three tasks run
    interleaved, one operation at a time; what is left out is the time they take
    (the receiver's timeout of ten seconds, the pauses of the sender). *)

From S2P Require Import Prelude Error Config Gf CoefGen Vandermonde Simd IdStorage EncVec Common Packets F64 Feedback Packet Policy Window LinComb Encoder BTree Buffer Matrix Dense Elim Decoder Recovery Delivery Reports Consumer Transport Sender EndToEnd ClosedLoop CliSend Examples.
#[global] Open Scope Z_scope.

Definition SYMBOL_SIZE : Z := 1024.
Definition BLOB_BYTES : Z := 128 * 1024.
Definition WINDOW : Z := 32.
Definition LOSS_PCT : Z := 25.
Definition n_symbols : Z := BLOB_BYTES / SYMBOL_SIZE.

(** The pseudo-random blob. *)
Fixpoint random_bytes (n : nat) (state : Z) : bytes :=
  match n with
  | O => []
  | S n => let state := xorshift64 state in random_u8 state :: random_bytes n state
  end.
Definition blob : bytes := random_bytes (Z.to_nat BLOB_BYTES) 12379813812177893520.

Definition enc_cfg : result EncoderConfig :=
  EncoderBuilder.build
    (EncoderBuilder.matrix_strategy Vandermonde
    (EncoderBuilder.fec_rate 1 1
    (EncoderBuilder.window_capacity WINDOW (EncoderBuilder.new SYMBOL_SIZE)))).
Definition dec_cfg : result DecoderConfig :=
  DecoderBuilder.build (DecoderBuilder.feedback_every 8 (DecoderBuilder.new SYMBOL_SIZE)).

(** ** The proxy task *)
Record Proxy := { px_state : Z; px_dropped : Z; px_forwarded : Z }.

(** What it does with one datagram. *)
Definition proxy_step (px : Proxy) (raw : bytes) : result (Proxy * verdict) :=
  let is_feedback := (4 <=? length raw)%nat && bool_decide (raw !! 3%nat = Some 2) in
  if is_feedback then Ok (px, ToSender)
  else
    let state := xorshift64 (px_state px) in
    let r := random_u8 state mod 100 in
    ty ← index raw 3;
    let is_source := ty =? 0 in
    if is_source && (r <? LOSS_PCT)
    then Ok ({| px_state := state; px_dropped := u32 (px_dropped px + 1); px_forwarded := px_forwarded px |}, Dropped)
    else Ok ({| px_state := state; px_dropped := px_dropped px; px_forwarded := u32 (px_forwarded px + 1) |}, ToReceiver).

Section transfer.
Context (disp disp' : Dispatch) `{HeaderCast}.
Context {Addr : Type} (addr_to_receiver_id : Addr → Z) (receiver_addr proxy_addr : Addr).

(** ** The sender task *)

(** [let _ = sender.recv_feedback().await] *)
Definition feedback_ignored {E} (k : nat) (fails : bool) (p : Path Addr) : outcome E (Path Addr) :=
  match path_feedback addr_to_receiver_id receiver_addr k fails p with
  | Ok p | Err (p, _) => Ok p
  | Panic => Panic
  end.

(** One turn of the inner loop for symbol [i]: the feedback of [k] datagrams is
    read, then the symbol is sent, unless the window is full; any other error is
    the task's own panic. *)
Definition send_turn (i : Z) (k : nat) (fails : bool) (io : list awaited) (p : Path Addr)
  : outcome TransportError (Path Addr * bool) :=
  let off := Z.to_nat (i * SYMBOL_SIZE) in
  chunk ← slice blob off (off + Z.to_nat SYMBOL_SIZE);
  p ← feedback_ignored k fails p;
  match path_send disp chunk io p with
  | Ok p => Ok (p, true)
  | Err (TransportCodec (WindowFull _)) => Ok (p, false)
  | Err e => Err e
  | Panic => Panic
  end.

(** ** The receiver task *)

(** [reconstructed[off..off + SYMBOL_SIZE].copy_from_slice(&data)] *)
Definition write_symbol (reconstructed : bytes) (sym : Z * bytes) : result bytes :=
  let off := Z.to_nat (u64 (sym.1 * SYMBOL_SIZE)) in
  let len := Z.to_nat SYMBOL_SIZE in
  _ ← slice reconstructed off (off + len);
  if (length sym.2 =? len)%nat
  then Ok (take off reconstructed ++ sym.2 ++ drop (off + len) reconstructed)
  else Panic.

(** ** The run *)
Record Transfer := {
  ft_path : Path Addr;
  ft_proxy : Proxy;
  ft_i : Z;
  ft_reconstructed : bytes;
  ft_received : Z;
}.

Definition transfer_new : result Transfer :=
  enc_cfg ← enc_cfg;
  dec_cfg ← dec_cfg;
  encoder ← encoder_with_defaults enc_cfg;
  decoder ← decoder_with_defaults dec_cfg;
  Ok {| ft_path := path_new addr_to_receiver_id encoder decoder proxy_addr;
        ft_proxy := {| px_state := 12648430; px_dropped := 0; px_forwarded := 0 |};
        ft_i := 0; ft_reconstructed := replicate (Z.to_nat BLOB_BYTES) 0; ft_received := 0 |}.

Inductive transfer_step : Transfer → Transfer → Prop :=
| ft_send t k fails io p sent :
    ft_i t < n_symbols → send_turn (ft_i t) k fails io (ft_path t) = Ok (p, sent) →
    transfer_step t {| ft_path := p; ft_proxy := ft_proxy t; ft_i := (if sent : bool then ft_i t + 1 else ft_i t);
                       ft_reconstructed := ft_reconstructed t; ft_received := ft_received t |}
| ft_flush t k fails p :
    ft_i t = n_symbols → feedback_ignored (E := DelpError) k fails (ft_path t) = Ok p →
    transfer_step t {| ft_path := p; ft_proxy := ft_proxy t; ft_i := ft_i t;
                       ft_reconstructed := ft_reconstructed t; ft_received := ft_received t |}
| ft_forward t raw rest px v :
    pa_to_proxy (ft_path t) = raw :: rest → proxy_step (ft_proxy t) raw = Ok (px, v) →
    transfer_step t {| ft_path := path_forward v raw (ft_path t); ft_proxy := px; ft_i := ft_i t;
                       ft_reconstructed := ft_reconstructed t; ft_received := ft_received t |}
| ft_receive t raw rest p :
    ft_received t < n_symbols → path_take (ft_path t) = None →
    pa_to_receiver (ft_path t) = raw :: rest → path_receive disp' raw (ft_path t) = Ok p →
    transfer_step t {| ft_path := p; ft_proxy := ft_proxy t; ft_i := ft_i t;
                       ft_reconstructed := ft_reconstructed t; ft_received := ft_received t |}
| ft_take t p sym rec :
    ft_received t < n_symbols → path_take (ft_path t) = Some (p, sym) →
    write_symbol (ft_reconstructed t) sym = Ok rec →
    transfer_step t {| ft_path := p; ft_proxy := ft_proxy t; ft_i := ft_i t;
                       ft_reconstructed := rec; ft_received := ft_received t + 1 |}
| ft_lose t p :
    loses (ft_path t) p →
    transfer_step t {| ft_path := p; ft_proxy := ft_proxy t; ft_i := ft_i t;
                       ft_reconstructed := ft_reconstructed t; ft_received := ft_received t |}.

Inductive transfer_reachable : Transfer → Prop :=
| transfer_starts t : transfer_new = Ok t → transfer_reachable t
| transfer_continues t t' : transfer_reachable t → transfer_step t t' → transfer_reachable t'.

(** The final comparison: the first offset at which the blobs differ. *)
Definition verify (reconstructed : bytes) : outcome (option nat) unit :=
  if bool_decide (reconstructed = blob) then Ok tt
  else Err (fst <$> list_find (λ ab, ab.1 ≠ ab.2) (zip blob reconstructed)).
End transfer.

Arguments Transfer : clear implicits.

(** ** The configuration and the blob *)
Definition transfer_config : EncoderConfig :=
  {| ec_symbol_size := SYMBOL_SIZE; ec_window_capacity := WINDOW; ec_field := Gf2_8; ec_fec_numer := 1;
     ec_fec_denom := 1; ec_backpressure := Reject; ec_matrix_strategy := Vandermonde |}.
Definition transfer_dconfig : DecoderConfig :=
  {| dc_symbol_size := SYMBOL_SIZE; dc_field := Gf2_8; dc_max_matrix_rows := 512; dc_feedback_every := 8 |}.
Definition blob_src : Z → bytes := file_chunk (Z.to_nat SYMBOL_SIZE) blob.

Lemma enc_cfg_ok : enc_cfg = Ok transfer_config.
Proof. vm_compute. reflexivity. Qed.
Lemma dec_cfg_ok : dec_cfg = Ok transfer_dconfig.
Proof. vm_compute. reflexivity. Qed.

Lemma random_bytes_ok n state : length (random_bytes n state) = n ∧ bytes_ok (random_bytes n state).
Proof.
  revert state. induction n as [|n IH]; intros state; cbn; [by split|].
  destruct (IH (xorshift64 state)) as [Hl Hb]. split; [by rw Hl|]. constructor; [apply u8_is|done].
Qed.
Lemma blob_length : length blob = (Z.to_nat n_symbols * Z.to_nat SYMBOL_SIZE)%nat.
Proof.
  unfold blob. rw (proj1 (random_bytes_ok _ _)). unfold n_symbols, BLOB_BYTES, SYMBOL_SIZE.
  rw -Z2Nat.inj_mul; [done|apply Z.div_pos; lia|lia].
Qed.
Lemma blob_ok : bytes_ok blob.
Proof. apply random_bytes_ok. Qed.
#[local] Opaque blob.

Lemma transfer_loop_config : loop_config blob_src transfer_config transfer_dconfig.
Proof.
  constructor; [unfold encoder_config_ok; cbn; unfold SYMBOL_SIZE, WINDOW; lia|cbn; unfold WINDOW; lia|done|done
    |cbn; unfold WINDOW; lia|].
  intros id. apply file_chunk_symbol, blob_ok.
Qed.

(** The blob, received as far as [k] symbols. *)
Definition written (k : nat) : bytes :=
  take (k * Z.to_nat SYMBOL_SIZE) blob ++ replicate (length blob - k * Z.to_nat SYMBOL_SIZE) 0.

Lemma symbol_nat : Z.to_nat SYMBOL_SIZE = 1024%nat.
Proof. done. Qed.
Lemma n_symbols_nat : Z.to_nat n_symbols = 128%nat.
Proof. done. Qed.

Lemma blob_chunk {E} i : 0 ≤ i < n_symbols →
  slice (E := E) blob (Z.to_nat (i * SYMBOL_SIZE)) (Z.to_nat (i * SYMBOL_SIZE) + Z.to_nat SYMBOL_SIZE) = Ok (blob_src i).
Proof.
  intros Hi. rw Z2Nat.inj_mul; [|lia|done]. rw -{1}(resize_all blob 0). apply slice_chunk.
  rw blob_length. assert (Z.to_nat i < Z.to_nat n_symbols)%nat by lia. nia.
Qed.

Lemma written_0 : written 0 = replicate (Z.to_nat BLOB_BYTES) 0.
Proof. unfold written. cbn [Nat.mul]. rw take_0 Nat.sub_0_r. Transparent blob. unfold blob. by rw (proj1 (random_bytes_ok _ _)). Qed.
#[local] Opaque blob.

Lemma written_full : written (Z.to_nat n_symbols) = blob.
Proof. unfold written. rw -blob_length firstn_all Nat.sub_diag. apply app_nil_r. Qed.

Lemma symbol_offset k : (k < 128)%nat → Z.to_nat (u64 (Z.of_nat k * SYMBOL_SIZE)) = (k * 1024)%nat.
Proof.
  intros Hk. rw -(Nat2Z.id (k * 1024)) Nat2Z.inj_mul. change (Z.of_nat 1024) with SYMBOL_SIZE. f_equal.
  unfold u64. apply Z.mod_small. change SYMBOL_SIZE with 1024. lia.
Qed.

(** Writing the next chunk behind a prefix of a list. *)
Lemma write_prefix (l : bytes) k ss : (k * ss + ss ≤ length l)%nat →
  let w j := take (j * ss) l ++ replicate (length l - j * ss) 0 in
  take (k * ss) (w k) ++ resize ss 0 (drop (k * ss) l) ++ drop (k * ss + ss) (w k) = w (S k) ∧
  length (w k) = length l.
Proof.
  intros Hk w. unfold w. set (n := (k * ss)%nat) in *.
  assert (length (take n l) = n) as Ht by (rw length_take; lia).
  split; [|rw length_app Ht length_replicate; lia].
  rw take_app_length' // drop_app_ge ?Ht; [|lia]. rw drop_replicate resize_le; [|rw length_drop; lia].
  rw app_assoc take_take_drop. cbn [Nat.mul]. fold n. rw (Nat.add_comm ss n). do 2 f_equal. lia.
Qed.

Lemma write_next k : (k < Z.to_nat n_symbols)%nat →
  write_symbol (written k) (Z.of_nat k, blob_src (Z.of_nat k)) = Ok (written (S k)).
Proof.
  intros Hk. rw n_symbols_nat in Hk. unfold write_symbol. cbn [fst snd].
  rw symbol_offset // -symbol_nat. set (ss := Z.to_nat SYMBOL_SIZE).
  assert (k * ss + ss ≤ length blob)%nat as Hlen by (rw blob_length n_symbols_nat; fold ss; nia).
  destruct (write_prefix blob k ss Hlen) as [Hw Hl]. unfold blob_src, file_chunk. fold ss.
  rw Nat2Z.id slice_ok; [|by rw /written Hl; lia].
  rw bind_Ok length_resize Nat.eqb_refl. f_equal. exact Hw.
Qed.

(** ** What every interleaving keeps *)
Lemma proxy_step_ok px raw : (4 ≤ length raw)%nat → raw !! 3%nat ≠ Some 2 →
  ∃ px' v, proxy_step px raw = Ok (px', v) ∧ v ≠ ToSender.
Proof.
  intros Hl Hn. unfold proxy_step. rw bool_decide_false // andb_false_r.
  destruct (lookup_lt_is_Some_2 raw 3 ltac:(lia)) as [ty Hty]. unfold index. rw Hty bind_Ok.
  destruct (_ && _); by eexists _, _.
Qed.

(** The state the example starts in. *)
Definition transfer_start {Addr} (addr_to_receiver_id : Addr → Z) (proxy_addr : Addr) : Transfer Addr :=
  {| ft_path := path_new addr_to_receiver_id (encoder_new transfer_config AnyAck NoCc {| cf_numer := 1; cf_denom := 1; cf_acc := 0 |})
       (decoder_new transfer_dconfig {| cp_period := 16; cp_counter := 0 |}) proxy_addr;
     ft_proxy := {| px_state := 12648430; px_dropped := 0; px_forwarded := 0 |};
     ft_i := 0; ft_reconstructed := replicate (Z.to_nat BLOB_BYTES) 0; ft_received := 0 |}.
Lemma transfer_new_spec {Addr} (addr_to_receiver_id : Addr → Z) (proxy_addr : Addr) :
  transfer_new addr_to_receiver_id proxy_addr = Ok (transfer_start addr_to_receiver_id proxy_addr).
Proof. unfold transfer_new. by rw enc_cfg_ok bind_Ok dec_cfg_ok bind_Ok. Qed.

Section correctness.
Context (disp disp' : Dispatch) `{HeaderCastLaw}.
Context {Addr : Type} (addr_to_receiver_id : Addr → Z) (receiver_addr proxy_addr : Addr).

Local Abbreviation send_turn := (send_turn disp addr_to_receiver_id receiver_addr).
Local Abbreviation path_ok :=
  (Examples.path_ok disp disp' addr_to_receiver_id blob_src transfer_config transfer_dconfig).

Record transfer_ok (t : Transfer Addr) (w : World) : Prop := {
  to_path : path_ok (ft_path t) w;
  to_i : ft_i t = submitted w;
  to_range : 0 ≤ ft_i t ≤ n_symbols;
  to_received : ft_received t = Z.of_nat (length (wo_taken w));
  to_reconstructed : ft_reconstructed t = written (length (wo_taken w));
}.

Lemma transfer_new_ok t : transfer_new addr_to_receiver_id proxy_addr = Ok t → ∃ w, transfer_ok t w.
Proof.
  rw transfer_new_spec. intros <-%Ok_inj.
  exists (world_new transfer_config transfer_dconfig AnyAck NoCc {| cf_numer := 1; cf_denom := 1; cf_acc := 0 |}
    {| cp_period := 16; cp_counter := 0 |}).
  constructor; [|done|cbn; done|done|by rw written_0]. apply path_new_ok. change (1 ≠ 0). lia.
Qed.

Lemma feedback_ignored_ok {E} k fails p w : path_ok p w →
  ∃ p' w', feedback_ignored addr_to_receiver_id receiver_addr (E := E) k fails p = Ok p' ∧ path_ok p' w' ∧
    submitted w' = submitted w ∧ wo_taken w' = wo_taken w.
Proof.
  intros Hp. destruct (path_feedback_ok disp disp' addr_to_receiver_id receiver_addr _ _ _ transfer_loop_config k fails _ w Hp)
    as (p' & w' & Hf & Hp'). exists p', w'. split; [|done]. unfold feedback_ignored. rw Hf. by destruct fails.
Qed.

(** A turn of the sender fails with the socket only. *)
Lemma send_turn_ok t w k fails io : transfer_ok t w → ft_i t < n_symbols →
  match send_turn (ft_i t) k fails io (ft_path t) with
  | Ok (p, sent) => ∃ w', path_ok p w' ∧
      submitted w' = (if sent : bool then ft_i t + 1 else ft_i t) ∧ wo_taken w' = wo_taken w
  | Err (TransportCodec _) | Panic => False
  | Err TransportIo => True
  end.
Proof.
  intros [Hp Hi Hr _ _] Hlt. unfold FileTransfer.send_turn. rw blob_chunk; [|lia]. rw bind_Ok.
  destruct (feedback_ignored_ok (E := TransportError) k fails _ w Hp) as (p & w1 & -> & Hp1 & Hn1 & Ht1). rw bind_Ok.
  assert (ft_i t = submitted w1) as Hi1 by congruence. rw Hi1.
  pose proof (path_send_ok disp disp' addr_to_receiver_id _ _ _ transfer_loop_config io p w1 Hp1) as Hs.
  change n_symbols with 128 in Hlt. specialize (Hs ltac:(lia)).
  destruct (path_send disp (blob_src (submitted w1)) io p) as [p'|[|e]|]; [|done| |done].
  - destruct Hs as (w' & ? & ? & Ht). exists w'. split_and!; [done|done|by rw Ht].
  - destruct Hs as [_ ->]. by exists w1.
Qed.
Lemma take_ok t w p sym : transfer_ok t w → path_take (ft_path t) = Some (p, sym) →
  ∃ w', path_ok p w' ∧ submitted w' = submitted w ∧ length (wo_taken w') = S (length (wo_taken w)) ∧
    write_symbol (ft_reconstructed t) sym = Ok (written (S (length (wo_taken w)))).
Proof.
  intros [Hp Hi Hr Hrc Hrec] Ht.
  destruct (path_taken disp disp' addr_to_receiver_id _ _ _ transfer_loop_config _ _ Hp) as (Hle & _ & Hnext).
  destruct (Hnext p sym Ht) as [-> Hlt]. change n_symbols with 128 in Hr.
  destruct (path_take_ok _ _ _ _ _ _ _ _ _ _ Hp Ht) as (w' & Hp' & Hn' & Htk).
  exists w'. split_and!; [done|done|rw Htk length_app /=; lia|]. rw Hrec. apply write_next. rw n_symbols_nat. lia.
Qed.

Lemma transfer_step_ok t t' w : transfer_ok t w →
  transfer_step disp disp' addr_to_receiver_id receiver_addr t t' → ∃ w', transfer_ok t' w'.
Proof.
  intros Hok Hstep. pose proof Hok as [Hp Hi Hr Hrc Hrec].
  destruct Hstep as [t k fails io p sent Hlt Hs|t k fails p Heq Hf|t raw rest px v Hq Hs|t raw rest p Hlt _ Hq Hs|t p sym rec Hlt Ht Hw|t p Hl].
  - pose proof (send_turn_ok t w k fails io Hok Hlt) as Hturn. rw Hs in Hturn. destruct Hturn as (w' & Hp' & Hn & Htk).
    exists w'. constructor; cbn; [done|done| |by rw Htk|by rw Htk]. destruct sent; lia.
  - destruct (feedback_ignored_ok (E := DelpError) k fails _ w Hp) as (p' & w' & Hf' & Hp' & Hn & Htk).
    rw Hf' in Hf. injection Hf as <-. exists w'. constructor; cbn; [done|by rw Hn|done|by rw Htk|by rw Htk].
  - destruct (path_packet disp disp' addr_to_receiver_id _ _ _ transfer_loop_config raw rest _ w Hp Hq) as [Hl Hb].
    destruct (proxy_step_ok (ft_proxy t) raw Hl Hb) as (px' & v' & Hs' & Hv). rw Hs' in Hs. injection Hs as <- <-.
    exists w. constructor; cbn; try done. by apply (path_forward_ok _ _ _ _ _ _ transfer_loop_config v' raw rest).
  - destruct (path_receive_ok disp disp' addr_to_receiver_id _ _ _ transfer_loop_config raw rest _ w Hp Hq)
      as (p' & w' & Hs' & Hp' & Hn & Htk).
    rw Hs' in Hs. injection Hs as <-. exists w'. constructor; cbn; [done|by rw Hn|done|by rw Htk|by rw Htk].
  - destruct (take_ok t w p sym Hok Ht) as (w' & Hp' & Hn & Htk & Hw'). rw Hw' in Hw. apply Ok_inj in Hw as <-.
    exists w'. constructor; cbn; [done|by rw Hn|done|rw Hrc Htk; lia|by rw Htk].
  - exists w. constructor; cbn; try done. eapply loses_ok; [exact Hp|exact Hl].
Qed.

Lemma transfer_reachable_ok t : transfer_reachable disp disp' addr_to_receiver_id receiver_addr proxy_addr t →
  ∃ w, transfer_ok t w.
Proof.
  induction 1 as [t Ht|t t' _ [w IH] Hstep]; [exact (transfer_new_ok t Ht)|exact (transfer_step_ok t t' w IH Hstep)].
Qed.

(** C16: the file-transfer example, in every interleaving of its tasks and
    whatever the proxy and the sockets lose: no task panics in the library, in
    the proxy's index or in the copy into the buffer, the sender panics only if a
    socket refuses to send, the buffer holds the blob as far as it was received,
    and when the receiver has all symbols the comparison succeeds. *)
Theorem blob_transfer_exact t : transfer_reachable disp disp' addr_to_receiver_id receiver_addr proxy_addr t →
  (∀ k fails io, ft_i t < n_symbols →
    match send_turn (ft_i t) k fails io (ft_path t) with
    | Err (TransportCodec _) | Panic => False
    | Ok _ | Err TransportIo => True
    end) ∧
  (∀ raw rest, pa_to_proxy (ft_path t) = raw :: rest → ∃ px v, proxy_step (ft_proxy t) raw = Ok (px, v)) ∧
  (∀ raw rest, pa_to_receiver (ft_path t) = raw :: rest → ∃ p, path_receive disp' raw (ft_path t) = Ok p) ∧
  (∀ p sym, path_take (ft_path t) = Some (p, sym) → ∃ rec, write_symbol (ft_reconstructed t) sym = Ok rec) ∧
  ft_reconstructed t = written (Z.to_nat (ft_received t)) ∧
  (ft_received t = n_symbols → verify (ft_reconstructed t) = Ok tt).
Proof.
  intros [w Hok]%transfer_reachable_ok. pose proof Hok as [Hp Hi Hr Hrc Hrec].
  assert (ft_reconstructed t = written (Z.to_nat (ft_received t))) as Hw by by rw Hrec Hrc Nat2Z.id.
  split_and!; [..|done|].
  - intros k fails io Hlt. pose proof (send_turn_ok t w k fails io Hok Hlt) as Hs. by repeat case_match.
  - intros raw rest Hq.
    destruct (path_packet disp disp' addr_to_receiver_id _ _ _ transfer_loop_config raw rest _ w Hp Hq) as [Hl Hb].
    destruct (proxy_step_ok (ft_proxy t) raw Hl Hb) as (px & v & ? & _). by exists px, v.
  - intros raw rest Hq.
    destruct (path_receive_ok disp disp' addr_to_receiver_id _ _ _ transfer_loop_config raw rest _ w Hp Hq)
      as (p & _ & ? & _). by exists p.
  - intros p sym Ht. destruct (take_ok t w p sym Hok Ht) as (_ & _ & _ & _ & Hs). eexists. exact Hs.
  - intros Hn. rw Hw Hn written_full. unfold verify. by rw bool_decide_true.
Qed.
End correctness.

(** *** The example starts: the first turn of the sender does not panic *)
Lemma blob_transfer_exact_witness :
  let t := transfer_start (λ _ : unit, 1) tt in
  ft_i t < n_symbols ∧
  match @send_turn Ssse3 ReprC.cast unit (λ _, 1) tt 0 0 true [SentOk; SentOk] (ft_path t) with
  | Err (TransportCodec _) | Panic => False
  | Ok _ | Err TransportIo => True
  end ∧
  ft_reconstructed t = written 0.
Proof.
  intros t.
  destruct (@blob_transfer_exact Ssse3 Avx2 ReprC.cast ReprC.cast_law unit (λ _, 1) tt tt t) as (Hsend & _ & _ & _ & Hrec & _).
  - by apply transfer_starts, transfer_new_spec.
  - split_and!; [done|by apply (Hsend 0%nat true [SentOk; SentOk])|exact Hrec].
Defined.
