(* ===== verification/UdpFec.v ===== *)
(** * examples/udp_fec.rs

    12 symbols of 1024 bytes through a proxy that drops 30 % of the source packets,
    Vandermonde coefficients, a window of 16.  As in FileTransfer.v the tasks are
    interleaved and time is left out.  The proxy's random state is thread-local
    and its task may resume on any thread of the runtime, so the state is one cell
    per thread. *)

From S2P Require Import Prelude Error Config Gf CoefGen Vandermonde Simd IdStorage EncVec Common Packets F64 Feedback Packet Policy Window LinComb Encoder BTree Buffer Matrix Dense Elim Decoder Recovery Delivery Reports Consumer Transport Sender EndToEnd ClosedLoop Examples.
#[global] Open Scope Z_scope.

Definition SYMBOL_SIZE : Z := 1024.
Definition WINDOW : Z := 16.
Definition N_SYMBOLS : Z := 12.
Definition LOSS_PCT : Z := 30.

Definition enc_cfg : result EncoderConfig :=
  EncoderBuilder.build
    (EncoderBuilder.matrix_strategy Vandermonde
    (EncoderBuilder.fec_rate 1 1
    (EncoderBuilder.window_capacity WINDOW (EncoderBuilder.new SYMBOL_SIZE)))).
Definition dec_cfg : result DecoderConfig := DecoderBuilder.build (DecoderBuilder.new SYMBOL_SIZE).

(** [format!("symbol-{i:04}")], repeated to the symbol size; [i] is below 10000. *)
Definition digit (i d : Z) : Z := 48 + i / d mod 10.
Definition symbol_text (i : Z) : bytes :=
  [115; 121; 109; 98; 111; 108; 45; digit i 1000; digit i 100; digit i 10; digit i 1].
Definition symbol_data (i : Z) : bytes :=
  (λ j, nth (j mod length (symbol_text i)) (symbol_text i) 0) <$> seq 0 (Z.to_nat SYMBOL_SIZE).

(** [rand_u8], with the cell of its thread and the system clock. *)
Definition FALLBACK_SEED : Z := 9600629759793949339.
Definition rand_u8 (cell : Z) (now : option Z) : Z * Z :=
  let x :=
    if cell =? 0 then
      let x := match now with Some nanos => u64 nanos | None => FALLBACK_SEED end in
      if x =? 0 then FALLBACK_SEED else x
    else cell in
  let x := xorshift64 x in
  (x, random_u8 x).

(** ** The proxy task *)
Record Proxy := { px_total : Z; px_cells : gmap Z Z }.

Definition proxy_step (thread : Z) (now : option Z) (px : Proxy) (raw : bytes) : result (Proxy * verdict) :=
  let total := u32 (px_total px + 1) in
  let is_feedback := (4 <=? length raw)%nat && bool_decide (raw !! 3%nat = Some 2) in
  if is_feedback then Ok ({| px_total := total; px_cells := px_cells px |}, ToSender)
  else
    ty ← index raw 3;
    if ty =? 0 then
      let '(x, r) := rand_u8 (default 0 (px_cells px !! thread)) now in
      let px := {| px_total := total; px_cells := <[thread := x]> (px_cells px) |} in
      if r mod 100 <? LOSS_PCT then Ok (px, Dropped) else Ok (px, ToReceiver)
    else Ok ({| px_total := total; px_cells := px_cells px |}, ToReceiver).

(** ** The receiver task *)

(** The preview of the data and [assert_eq!(id as usize, expected_id)]. *)
Definition check_symbol (expected_id : Z) (sym : Z * bytes) : result unit :=
  _ ← slice sym.2 0 (Nat.min 12 (length sym.2));
  if sym.1 =? expected_id then Ok tt else Panic.

Section run.
Context (disp disp' : Dispatch) `{HeaderCast}.
Context {Addr : Type} (addr_to_receiver_id : Addr → Z) (receiver_addr proxy_addr : Addr).

(** ** The run *)
Record Run := {
  uf_path : Path Addr;
  uf_proxy : Proxy;
  uf_i : Z;            (** symbols sent *)
  uf_expected : Z;     (** symbols received and checked *)
}.

Definition run_new : result Run :=
  enc_cfg ← enc_cfg;
  dec_cfg ← dec_cfg;
  encoder ← encoder_with_defaults enc_cfg;
  decoder ← decoder_with_defaults dec_cfg;
  Ok {| uf_path := path_new addr_to_receiver_id encoder decoder proxy_addr; uf_proxy := {| px_total := 0; px_cells := ∅ |};
        uf_i := 0; uf_expected := 0 |}.

Inductive run_step : Run → Run → Prop :=
| uf_send s io p :
    uf_i s < N_SYMBOLS → path_send disp (symbol_data (uf_i s)) io (uf_path s) = Ok p →
    run_step s {| uf_path := p; uf_proxy := uf_proxy s; uf_i := uf_i s + 1; uf_expected := uf_expected s |}
| uf_feedback s k p :
    uf_i s = N_SYMBOLS → path_feedback addr_to_receiver_id receiver_addr k false (uf_path s) = Ok p →
    run_step s {| uf_path := p; uf_proxy := uf_proxy s; uf_i := uf_i s; uf_expected := uf_expected s |}
| uf_forward s thread now raw rest px v :
    pa_to_proxy (uf_path s) = raw :: rest → proxy_step thread now (uf_proxy s) raw = Ok (px, v) →
    run_step s {| uf_path := path_forward v raw (uf_path s); uf_proxy := px; uf_i := uf_i s; uf_expected := uf_expected s |}
| uf_receive s raw rest p :
    uf_expected s < N_SYMBOLS → path_take (uf_path s) = None →
    pa_to_receiver (uf_path s) = raw :: rest → path_receive disp' raw (uf_path s) = Ok p →
    run_step s {| uf_path := p; uf_proxy := uf_proxy s; uf_i := uf_i s; uf_expected := uf_expected s |}
| uf_take s p sym :
    uf_expected s < N_SYMBOLS → path_take (uf_path s) = Some (p, sym) →
    check_symbol (uf_expected s) sym = Ok tt →
    run_step s {| uf_path := p; uf_proxy := uf_proxy s; uf_i := uf_i s; uf_expected := uf_expected s + 1 |}
| uf_lose s p :
    loses (uf_path s) p →
    run_step s {| uf_path := p; uf_proxy := uf_proxy s; uf_i := uf_i s; uf_expected := uf_expected s |}.

Inductive run_reachable : Run → Prop :=
| run_starts s : run_new = Ok s → run_reachable s
| run_continues s s' : run_reachable s → run_step s s' → run_reachable s'.
End run.

Arguments Run : clear implicits.

(** ** What every interleaving keeps *)
Definition run_config : EncoderConfig :=
  {| ec_symbol_size := SYMBOL_SIZE; ec_window_capacity := WINDOW; ec_field := Gf2_8; ec_fec_numer := 1;
     ec_fec_denom := 1; ec_backpressure := Reject; ec_matrix_strategy := Vandermonde |}.
Definition run_dconfig : DecoderConfig :=
  {| dc_symbol_size := SYMBOL_SIZE; dc_field := Gf2_8; dc_max_matrix_rows := 512; dc_feedback_every := 16 |}.
Definition run_fec : ConstantFecRate := {| cf_numer := 1; cf_denom := 1; cf_acc := 0 |}.
Definition run_policy : ConstantFeedbackPolicy := {| cp_period := 16; cp_counter := 0 |}.

Definition run_start {Addr} (addr_to_receiver_id : Addr → Z) (proxy_addr : Addr) : Run Addr :=
  {| uf_path := path_new addr_to_receiver_id (encoder_new run_config AnyAck NoCc run_fec)
       (decoder_new run_dconfig run_policy) proxy_addr;
     uf_proxy := {| px_total := 0; px_cells := ∅ |}; uf_i := 0; uf_expected := 0 |}.
Lemma run_new_spec {Addr} (addr_to_receiver_id : Addr → Z) (proxy_addr : Addr) :
  run_new addr_to_receiver_id proxy_addr = Ok (run_start addr_to_receiver_id proxy_addr).
Proof.
  unfold run_new. assert (enc_cfg = Ok run_config) as -> by (vm_compute; reflexivity).
  assert (dec_cfg = Ok run_dconfig) as -> by (vm_compute; reflexivity). by rw !bind_Ok.
Qed.

Lemma symbol_data_symbol i : symbol (Z.to_nat SYMBOL_SIZE) (symbol_data i).
Proof.
  split; [unfold symbol_data; by rw length_fmap length_seq|]. apply Forall_fmap, Forall_true. intros j. cbn.
  assert (bytes_ok (symbol_text i)) as Hb.
  { repeat constructor; try (cbn; word_bound); unfold digit;
      match goal with |- context [?a mod 10] => pose proof (Z.mod_pos_bound a 10 ltac:(lia)) end; word_bound. }
  assert (∀ k, is_u8 (nth k (symbol_text i) 0)) as Hk; [|by apply Hk].
  intros k. destruct (nth_in_or_default k (symbol_text i) 0) as [Hin| ->]; [|word_bound].
  rw Forall_forall in Hb. by apply Hb, list_elem_of_In.
Qed.

Lemma run_loop_config : loop_config symbol_data run_config run_dconfig.
Proof.
  constructor; [unfold encoder_config_ok; cbn; unfold SYMBOL_SIZE, WINDOW; lia|cbn; unfold WINDOW; lia|done|done
    |cbn; unfold WINDOW; lia|exact symbol_data_symbol].
Qed.

Lemma udp_proxy_ok thread now px raw : (4 ≤ length raw)%nat → raw !! 3%nat ≠ Some 2 →
  ∃ px' v, proxy_step thread now px raw = Ok (px', v) ∧ v ≠ ToSender.
Proof.
  intros Hl Hn. unfold proxy_step. rw bool_decide_false // andb_false_r.
  destruct (lookup_lt_is_Some_2 raw 3 ltac:(lia)) as [ty Hty]. unfold index. rw Hty bind_Ok.
  destruct (ty =? 0); [|by eexists _, _]. destruct (rand_u8 _ _) as [x r].
  destruct (_ <? _); by eexists _, _.
Qed.

Section correctness.
Context (disp disp' : Dispatch) `{HeaderCastLaw}.
Context {Addr : Type} (addr_to_receiver_id : Addr → Z) (receiver_addr proxy_addr : Addr).

Local Abbreviation path_ok :=
  (Examples.path_ok disp disp' addr_to_receiver_id symbol_data run_config run_dconfig).

Record run_ok (s : Run Addr) (w : World) : Prop := {
  ro_path : path_ok (uf_path s) w;
  ro_i : uf_i s = submitted w;
  ro_range : 0 ≤ uf_i s ≤ N_SYMBOLS;
  ro_expected : uf_expected s = Z.of_nat (length (wo_taken w));
}.

Lemma run_new_ok s : run_new addr_to_receiver_id proxy_addr = Ok s → ∃ w, run_ok s w.
Proof.
  rw run_new_spec. intros <-%Ok_inj. exists (world_new run_config run_dconfig AnyAck NoCc run_fec run_policy).
  constructor; [|done|cbn; done|done]. apply path_new_ok. change (1 ≠ 0). lia.
Qed.

(** The window of 16 never fills: only the socket makes a send fail. *)
Lemma udp_send_ok s w io : run_ok s w → uf_i s < N_SYMBOLS →
  match path_send disp (symbol_data (uf_i s)) io (uf_path s) with
  | Ok p => ∃ w', path_ok p w' ∧ submitted w' = uf_i s + 1 ∧ wo_taken w' = wo_taken w
  | Err (TransportCodec _) | Panic => False
  | Err TransportIo => True
  end.
Proof.
  intros [Hp Hi Hr _] Hlt. unfold N_SYMBOLS in *. rw Hi.
  pose proof (path_send_ok disp disp' addr_to_receiver_id _ _ _ run_loop_config io _ w Hp ltac:(lia)) as Hs.
  destruct (path_send disp _ io _) as [p|[|e]|]; [done|done| |done].
  destruct Hs as [Hfull _]. unfold window_is_full in Hfull. apply Z.leb_le in Hfull.
  destruct (path_window disp disp' addr_to_receiver_id _ _ _ run_loop_config _ w Hp) as [Hw Hc].
  rw Hc in Hfull. change (ec_window_capacity run_config) with 16 in Hfull. lia.
Qed.

Lemma udp_take_ok s w p sym : run_ok s w → path_take (uf_path s) = Some (p, sym) →
  sym = (uf_expected s, symbol_data (uf_expected s)) ∧ uf_expected s < uf_i s ∧
  check_symbol (uf_expected s) sym = Ok tt ∧
  ∃ w', path_ok p w' ∧ submitted w' = submitted w ∧ length (wo_taken w') = S (length (wo_taken w)).
Proof.
  intros [Hp Hi Hr He] Ht.
  destruct (path_taken disp disp' addr_to_receiver_id _ _ _ run_loop_config _ _ Hp) as (_ & _ & Hnext).
  destruct (Hnext p sym Ht) as [-> Hlt]. rw -He -Hi in Hlt. rw -He.
  destruct (path_take_ok _ _ _ _ _ _ _ _ _ _ Hp Ht) as (w' & Hp' & Hn' & Htk).
  split_and!; [done|done| |exists w'; split_and!; [done|done|rw Htk length_app /=; lia]].
  unfold check_symbol. cbn [fst snd]. rw slice_ok; [|lia]. by rw bind_Ok Z.eqb_refl.
Qed.

Lemma run_step_ok s s' w : run_ok s w → run_step disp disp' addr_to_receiver_id receiver_addr s s' → ∃ w', run_ok s' w'.
Proof.
  intros Hok Hstep. pose proof Hok as [Hp Hi Hr He].
  destruct Hstep as [s io p Hlt Hs|s k p Heq Hf|s thread now raw rest px v Hq Hs|s raw rest p Hlt _ Hq Hs|s p sym Hlt Ht Hw|s p Hl].
  - pose proof (udp_send_ok s w io Hok Hlt) as Hsend. rw Hs in Hsend. destruct Hsend as (w' & Hp' & Hn & Htk).
    exists w'. constructor; cbn; [done|done|lia|by rw Htk].
  - destruct (path_feedback_ok disp disp' addr_to_receiver_id receiver_addr _ _ _ run_loop_config k false _ w Hp)
      as (p' & w' & Hf' & Hp' & Hn & Htk).
    rw Hf' in Hf. injection Hf as <-. exists w'. constructor; cbn; [done|by rw Hn|done|by rw Htk].
  - destruct (path_packet disp disp' addr_to_receiver_id _ _ _ run_loop_config raw rest _ w Hp Hq) as [Hl Hb].
    destruct (udp_proxy_ok thread now (uf_proxy s) raw Hl Hb) as (px' & v' & Hs' & Hv). rw Hs' in Hs. injection Hs as <- <-.
    exists w. constructor; cbn; try done. by apply (path_forward_ok _ _ _ _ _ _ run_loop_config v' raw rest).
  - destruct (path_receive_ok disp disp' addr_to_receiver_id _ _ _ run_loop_config raw rest _ w Hp Hq)
      as (p' & w' & Hs' & Hp' & Hn & Htk).
    rw Hs' in Hs. injection Hs as <-. exists w'. constructor; cbn; [done|by rw Hn|done|by rw Htk].
  - destruct (udp_take_ok s w p sym Hok Ht) as (_ & _ & _ & w' & Hp' & Hn & Htk).
    exists w'. constructor; cbn; [done|by rw Hn|done|rw He Htk; lia].
  - exists w. constructor; cbn; try done. eapply loses_ok; [exact Hp|exact Hl].
Qed.

Lemma run_reachable_ok s : run_reachable disp disp' addr_to_receiver_id receiver_addr proxy_addr s → ∃ w, run_ok s w.
Proof.
  induction 1 as [s Hs|s s' _ [w IH] Hstep]; [exact (run_new_ok s Hs)|exact (run_step_ok s s' w IH Hstep)].
Qed.

(** C17: the UDP example, in every interleaving and under every loss: the calls it
    unwraps, [send_source], [recv_feedback] and [recv_source], fail with the socket
    only (the window never fills); every symbol comes with the expected ID and the
    data that was sent, so the assertion of in-order delivery never fails; and no
    task panics in the library or the proxy.  That a symbol comes within the five
    seconds the receiver waits is not part of it: too many losses can prevent it. *)
Theorem udp_fec_in_order s : run_reachable disp disp' addr_to_receiver_id receiver_addr proxy_addr s →
  (∀ io, uf_i s < N_SYMBOLS →
    match path_send disp (symbol_data (uf_i s)) io (uf_path s) with
    | Err (TransportCodec _) | Panic => False
    | Ok _ | Err TransportIo => True
    end) ∧
  (∀ k fails,
    match path_feedback addr_to_receiver_id receiver_addr k fails (uf_path s) with
    | Ok _ => fails = false
    | Err (_, TransportIo) => fails = true
    | Err (_, TransportCodec _) | Panic => False
    end) ∧
  (∀ thread now raw rest, pa_to_proxy (uf_path s) = raw :: rest →
    ∃ px v, proxy_step thread now (uf_proxy s) raw = Ok (px, v)) ∧
  (∀ raw rest, pa_to_receiver (uf_path s) = raw :: rest → ∃ p, path_receive disp' raw (uf_path s) = Ok p) ∧
  (∀ p sym, path_take (uf_path s) = Some (p, sym) →
    sym = (uf_expected s, symbol_data (uf_expected s)) ∧ check_symbol (uf_expected s) sym = Ok tt) ∧
  uf_expected s ≤ uf_i s.
Proof.
  intros [w Hok]%run_reachable_ok. pose proof Hok as [Hp Hi Hr He]. split_and!.
  - intros io Hlt. pose proof (udp_send_ok s w io Hok Hlt) as Hs. by repeat case_match.
  - intros k fails.
    destruct (path_feedback_ok disp disp' addr_to_receiver_id receiver_addr _ _ _ run_loop_config k fails _ w Hp)
      as (p' & w' & -> & _). by destruct fails.
  - intros thread now raw rest Hq.
    destruct (path_packet disp disp' addr_to_receiver_id _ _ _ run_loop_config raw rest _ w Hp Hq) as [Hl Hb].
    destruct (udp_proxy_ok thread now (uf_proxy s) raw Hl Hb) as (px & v & ? & _). by exists px, v.
  - intros raw rest Hq.
    destruct (path_receive_ok disp disp' addr_to_receiver_id _ _ _ run_loop_config raw rest _ w Hp Hq)
      as (p & _ & ? & _). by exists p.
  - intros p sym Ht. by destruct (udp_take_ok s w p sym Hok Ht) as (? & _ & ? & _).
  - destruct (path_taken disp disp' addr_to_receiver_id _ _ _ run_loop_config _ _ Hp) as (Hle & _). rw He Hi. exact Hle.
Qed.
End correctness.

(** *** The first source packet is dropped, its coded packet arrives. *)
Section demo.
#[local] Existing Instance ReprC.cast.
#[local] Existing Instance ReprC.cast_law.
Local Abbreviation demo_step := (run_step Ssse3 Avx2 (λ _ : unit, 1) tt).

Definition do_send (s : Run unit) : option (Run unit) :=
  if uf_i s <? N_SYMBOLS then
    match path_send Ssse3 (symbol_data (uf_i s)) [SentOk; SentOk] (uf_path s) with
    | Ok p => Some {| uf_path := p; uf_proxy := uf_proxy s; uf_i := uf_i s + 1; uf_expected := uf_expected s |}
    | _ => None
    end
  else None.
Definition do_forward (nanos : Z) (s : Run unit) : option (Run unit) :=
  raw ← head (pa_to_proxy (uf_path s));
  match proxy_step 0 (Some nanos) (uf_proxy s) raw with
  | Ok (px, v) => Some {| uf_path := path_forward v raw (uf_path s); uf_proxy := px; uf_i := uf_i s; uf_expected := uf_expected s |}
  | _ => None
  end.
Definition do_receive (s : Run unit) : option (Run unit) :=
  raw ← head (pa_to_receiver (uf_path s));
  match path_take (uf_path s), path_receive Avx2 raw (uf_path s) with
  | None, Ok p =>
      if uf_expected s <? N_SYMBOLS
      then Some {| uf_path := p; uf_proxy := uf_proxy s; uf_i := uf_i s; uf_expected := uf_expected s |} else None
  | _, _ => None
  end.

Lemma do_send_step s s' : do_send s = Some s' → demo_step s s'.
Proof.
  unfold do_send. destruct (Z.ltb_spec (uf_i s) N_SYMBOLS) as [Hlt|]; [|done].
  destruct (path_send _ _ _ _) as [p| |] eqn:Hs; [|done..]. intros [= <-]. by apply (uf_send _ _ _ _ s [SentOk; SentOk]).
Qed.
Lemma do_forward_step nanos s s' : do_forward nanos s = Some s' → demo_step s s'.
Proof.
  unfold do_forward. intros (raw & Hq & Hs)%bind_Some.
  destruct (pa_to_proxy (uf_path s)) as [|x rest] eqn:Hpa; [done|]. injection Hq as ->.
  destruct (proxy_step _ _ _ _) as [[px v]| |] eqn:Hp; [|done..]. injection Hs as <-.
  by apply (uf_forward _ _ _ _ s 0 (Some nanos) raw rest).
Qed.
Lemma do_receive_step s s' : do_receive s = Some s' → demo_step s s'.
Proof.
  unfold do_receive. intros (raw & Hq & Hs)%bind_Some.
  destruct (pa_to_receiver (uf_path s)) as [|x rest] eqn:Hpa; [done|]. injection Hq as ->.
  destruct (path_take _) as [|] eqn:Ht; [done|]. destruct (path_receive _ _ _) as [p| |] eqn:Hp; [|done..].
  destruct (Z.ltb_spec (uf_expected s) N_SYMBOLS) as [Hlt|]; [|done]. injection Hs as <-.
  by apply (uf_receive _ _ _ _ s raw rest).
Qed.

Definition one_recovery (s : Run unit) : option (Run unit) :=
  s1 ← do_send s; s2 ← do_forward 12340 s1; s3 ← do_forward 0 s2; do_receive s3.
Definition recovered_run : option (Run unit) := one_recovery (run_start (λ _, 1) tt).

Lemma one_recovery_reachable s s' : run_reachable Ssse3 Avx2 (λ _ : unit, 1) tt tt s → one_recovery s = Some s' →
  run_reachable Ssse3 Avx2 (λ _ : unit, 1) tt tt s'.
Proof.
  unfold one_recovery. intros Hs (s1 & H1%do_send_step & (s2 & H2%do_forward_step
    & (s3 & H3%do_forward_step & H4%do_receive_step)%bind_Some)%bind_Some)%bind_Some.
  apply (run_continues _ _ _ _ _ s3); [|done]. apply (run_continues _ _ _ _ _ s2); [|done].
  apply (run_continues _ _ _ _ _ s1); [|done]. by apply (run_continues _ _ _ _ _ s).
Qed.

Lemma recovered_reachable s : recovered_run = Some s → run_reachable Ssse3 Avx2 (λ _ : unit, 1) tt tt s.
Proof. apply one_recovery_reachable, run_starts, run_new_spec. Qed.

Lemma udp_fec_in_order_witness :
  match recovered_run with
  | Some s => ∃ p, path_take (uf_path s) = Some (p, (0, symbol_data 0)) ∧ check_symbol 0 (0, symbol_data 0) = Ok tt
  | None => False
  end.
Proof.
  assert (match recovered_run with
          | Some s => bool_decide (is_Some (path_take (uf_path s))) && (uf_expected s =? 0) | None => false end = true)
    as Hrun by (vm_compute; reflexivity).
  destruct recovered_run as [s|] eqn:Hs; [|done]. apply andb_true_iff in Hrun as [Ht He].
  apply bool_decide_eq_true in Ht as [[p sym] Ht]. apply Z.eqb_eq in He.
  destruct (udp_fec_in_order Ssse3 Avx2 (λ _ : unit, 1) tt tt s (recovered_reachable s Hs)) as (_ & _ & _ & _ & Htake & _).
  destruct (Htake p sym Ht) as [-> Hc]. rw He in Hc. rw He in Ht. exists p. by split.
Defined.
End demo.
