(* ===== verification/Testing.v ===== *)
(** * The repository's own tests: how they are run on the model

    A test is a call that must not panic; [assert!], [assert_eq!] and [unwrap] are
    those of the tests, a loop is [for_each].  TestsGf.v, TestsWire.v and
    TestsCodec.v hold the test modules of the source files, one Module per file;
    Pipeline.v, KernelProps.v and TestsSession.v the tests of src/tests/. *)

From S2P Require Import Prelude Error.
#[global] Open Scope Z_scope.

Definition test : Type := result unit.
Definition passes (t : test) : Prop := t = Ok tt.

Definition assert_eq {A} `{EqDecision A} (a b : A) : test := rassert (bool_decide (a = b)).
Definition assert_ne {A} `{EqDecision A} (a b : A) : test := rassert (negb (bool_decide (a = b))).

(** [unwrap] of a [Result] with any error, and of an [Option]. *)
Definition unwrap {E A} (m : outcome E A) : result A := match m with Ok a => Ok a | _ => Panic end.
Definition unwrap_some {A} (o : option A) : result A := match o with Some a => Ok a | None => Panic end.

Definition for_each {A} (l : list A) (f : A → test) : test := mfor (λ _, f) tt l.
(** [a..b], [enumerate] *)
Definition range (a b : Z) : list Z := seqZ a (b - a).
Definition enumerate {A} (l : list A) : list (Z * A) := zip (range 0 (Z.of_nat (length l))) l.

Lemma for_each_passes {A} (l : list A) (f : A → test) : Forall (λ a, passes (f a)) l → passes (for_each l f).
Proof. unfold passes, for_each. induction 1 as [|a l Ha _ IH]; [done|]. cbn. by rw Ha. Qed.

Lemma assert_eq_refl {A} `{EqDecision A} (a b : A) : a = b → passes (assert_eq a b).
Proof. intros ->. unfold passes, assert_eq. by rw bool_decide_true. Qed.
