(* ===== verification/TestsGf.v ===== *)
(** * The tests of gf/ and of wire/ev/coef_gen.rs *)

From S2P Require Import Prelude Error Config Tables Gf Simd CoefGen Testing.
#[global] Open Scope Z_scope.

(** ** gf/mod.rs *)
Module gf_mod.
Section field.
Context (F : GfField).

(** The bound of the loops is [F::ORDER as u8]. *)
Definition axioms : test :=
  let one := ONE in
  let zero := ZERO in
  let order := u8 ORDER in
  _ ← for_each (range 0 order) (λ raw,
    let a := from_u8 raw in
    _ ← assert_eq (gf_add a zero) a;
    assert_eq (gf_sub a a) zero);
  _ ← for_each (range 0 order) (λ raw,
    let a := from_u8 raw in
    assert_eq (gf_mul a one) a);
  _ ← for_each (range 1 order) (λ raw,
    let a := from_u8 raw in
    inv ← gf_inv a;
    assert_eq (gf_mul a inv) one);
  for_each (range 0 order) (λ a,
    for_each (range 0 order) (λ b,
      for_each (range 0 order) (λ c,
        let fa := from_u8 a in
        let fb := from_u8 b in
        let fc := from_u8 c in
        assert_eq (gf_mul fa (gf_add fb fc)) (gf_add (gf_mul fa fb) (gf_mul fa fc))))).

Definition vandermonde_check : test :=
  for_each (range 0 8) (λ src,
    let coef := vandermonde src 1 in
    assert_eq coef (alpha_pow (src mod (u32 ORDER - 1)))).
End field.

Definition gf2_4_axioms : test := axioms Gf2_4_field.
Definition gf2_8_axioms : test := axioms Gf2_8_field.
Definition vandermonde_gf2_4 : test := vandermonde_check Gf2_4_field.
Definition vandermonde_gf2_8 : test := vandermonde_check Gf2_8_field.

#[local] Existing Instance Gf2_8_field.

Definition gf2_8_inv_exhaustive : test :=
  for_each (range 1 256) (λ v,
    let a := from_u8 v in
    inv ← gf_inv a;
    _ ← assert_eq (gf_mul a inv) ONE;
    assert_eq (gf_mul inv a) ONE).

Definition gf2_8_mul_exhaustive : test :=
  for_each (range 0 256) (λ a,
    for_each (range 0 256) (λ b,
      let fa := from_u8 (u8 a) in
      let fb := from_u8 (u8 b) in
      let got := to_u8 (gf_mul fa fb) in
      let expected :=
        if (a =? 0) || (b =? 0) then 0
        else tget GF2_8_EXP (tget GF2_8_LOG a + tget GF2_8_LOG b) in
      _ ← assert_eq got expected;
      assert_eq (gf_mul fa fb) (gf_mul fb fa))).

Definition gf2_8_log_sentinel : test := assert_eq (tget GF2_8_LOG 0) 255.

Definition gf2_8_exp_log_inverse : test :=
  _ ← for_each (range 1 256) (λ x,
    let log_x := tget GF2_8_LOG x in
    assert_eq (tget GF2_8_EXP log_x) x);
  for_each (range 0 255) (λ i,
    let exp_i := tget GF2_8_EXP i in
    assert_eq (tget GF2_8_LOG exp_i) (u8 i)).

Definition gf2_4_inv_exhaustive : test :=
  for_each (range 1 16) (λ v,
    let a := from_u8 (GfField := Gf2_4_field) v in
    inv ← gf_inv (GfField := Gf2_4_field) a;
    assert_eq (gf_mul (GfField := Gf2_4_field) a inv) (ONE (GfField := Gf2_4_field))).

Definition gf2_4_exp_log_inverse : test :=
  for_each (range 1 16) (λ x,
    let log_x := tget GF2_4_LOG x in
    _ ← rassert (log_x <? 15);
    assert_eq (tget GF2_4_EXP log_x) x).

Definition vandermonde_mds_2_erasure_gf2_8 : test :=
  for_each (range 0 8) (λ s0,
    for_each (range (s0 + 1) 8) (λ s1,
      for_each (range 1 8) (λ c1,
        for_each (range (c1 + 1) 8) (λ c2,
          let a00 := vandermonde s0 c1 in
          let a01 := vandermonde s1 c1 in
          let a10 := vandermonde s0 c2 in
          let a11 := vandermonde s1 c2 in
          let det := gf_add (gf_mul a00 a11) (gf_mul a01 a10) in
          assert_ne det ZERO)))).

Definition tests : list test :=
  [gf2_4_axioms; gf2_8_axioms; vandermonde_gf2_4; vandermonde_gf2_8; gf2_8_inv_exhaustive;
   gf2_8_mul_exhaustive; gf2_8_log_sentinel; gf2_8_exp_log_inverse; gf2_4_inv_exhaustive;
   gf2_4_exp_log_inverse; vandermonde_mds_2_erasure_gf2_8].
End gf_mod.

(** For GF(2^8) the bound is [256 as u8], zero: the test loops over nothing. *)
Lemma gf2_8_axioms_tests_nothing : range 0 (u8 (ORDER (GfField := Gf2_8_field))) = [].
Proof. vm_compute. reflexivity. Qed.

(** ** gf/gf2_8.rs *)
Module gf2_8_rs.
#[local] Existing Instance Gf2_8_field.

Definition mul_spot : test :=
  let a := alpha_pow 3 in
  let b := alpha_pow 7 in
  assert_eq (gf_mul a b) (alpha_pow 10).
Definition inv_all_nonzero : test :=
  for_each (range 1 256) (λ v,
    inv ← gf_inv v;
    assert_eq (gf_mul v inv) ONE).
Definition add_is_xor : test :=
  for_each (range 0 256) (λ a,
    for_each (range 0 256) (λ b, assert_eq (gf_add a b) (Z.lxor a b))).

Definition tests : list test := [mul_spot; inv_all_nonzero; add_is_xor].
End gf2_8_rs.

(** ** gf/gf2_4.rs *)
Module gf2_4_rs.
#[local] Existing Instance Gf2_4_field.

Definition mul_table_spot_checks : test :=
  let a := alpha_pow 2 in
  let b := alpha_pow 3 in
  let c := alpha_pow 5 in
  assert_eq (gf_mul a b) c.
Definition packed_byte_roundtrip : test :=
  for_each (range 0 256) (λ byte, assert_eq (mul_packed_byte byte 17) byte).
Definition packed_by_zero_is_zero : test :=
  for_each (range 0 256) (λ byte, assert_eq (mul_packed_byte byte 0) 0).

Definition tests : list test := [mul_table_spot_checks; packed_byte_roundtrip; packed_by_zero_is_zero].
End gf2_4_rs.

(** ** wire/ev/coef_gen.rs *)
Module coef_gen.
Definition gf2_8_known_values : test :=
  _ ← assert_eq (vandermonde_coef Gf2_8 0 1) 1;
  assert_eq (vandermonde_coef Gf2_8 1 1) 2.

Definition cauchy_coef_never_zero : test :=
  for_each (range 0 9) (λ gen,
    for_each (range 0 128) (λ src,
      for_each (range 0 128) (λ coded,
        c ← cauchy_coef_gf2_8 src coded gen;
        assert_ne c 0))).
Definition cauchy_gf2_4_coef_never_zero_with_generation : test :=
  for_each (range 0 9) (λ gen,
    for_each (range 0 7) (λ src,
      for_each (range 0 7) (λ coded,
        c ← cauchy_coef_gf2_4 src coded gen;
        assert_ne c 0))).
Definition cauchy_generations_produce_distinct_rows : test :=
  for_each (range 0 128) (λ coded,
    row0 ← mmap (λ s, cauchy_coef_gf2_8 s coded 0) (range 0 128);
    row1 ← mmap (λ s, cauchy_coef_gf2_8 s coded 1) (range 0 128);
    assert_ne row0 row1).
Definition cauchy_2x2_nonsingular_exhaustive : test :=
  for_each (range 0 16) (λ s0,
    for_each (range (s0 + 1) 16) (λ s1,
      for_each (range 0 16) (λ c0,
        for_each (range (c0 + 1) 16) (λ c1,
          b ← verify_cauchy_2x2_nonsingular s0 s1 c0 c1;
          rassert b)))).

(** The comparison of a batch with its coefficients one by one. *)
Definition batch_is (batch : list Z) (ids : list Z) (coef : Z → result Z) : test :=
  for_each (zip (seq 0 (length ids)) ids) (λ '(i, sid),
    b ← index batch i;
    c ← coef sid;
    assert_eq b c).

Definition cauchy_batch_matches_scalar : test :=
  let ids := range 0 16 in
  for_each (range 0 8) (λ coded,
    for_each (range 0 5) (λ gen,
      batch ← cauchy_batch_gf2_8 ids coded gen;
      batch_is batch ids (λ sid, cauchy_coef_gf2_8 sid coded gen))).
Definition cauchy_coef_defined_on_diagonal : test :=
  for_each (range 0 128) (λ i,
    c ← cauchy_coef_gf2_8 i i 0;
    assert_ne c 0).
Definition cauchy_gf2_4_coef_never_zero : test :=
  for_each (range 0 7) (λ src,
    for_each (range 0 7) (λ coded,
      c ← cauchy_coef_gf2_4 src coded 0;
      assert_ne c 0)).
Definition cauchy_gf2_4_2x2_nonsingular_exhaustive : test :=
  for_each (range 0 7) (λ s0,
    for_each (range (s0 + 1) 7) (λ s1,
      for_each (range 0 7) (λ c0,
        for_each (range (c0 + 1) 7) (λ c1,
          b ← verify_cauchy_gf2_4_2x2_nonsingular s0 s1 c0 c1;
          rassert b)))).
Definition cauchy_gf2_4_batch_matches_scalar : test :=
  let ids := range 0 6 in
  for_each (range 0 6) (λ coded,
    for_each (range 0 5) (λ gen,
      batch ← cauchy_batch_gf2_4 ids coded gen;
      batch_is batch ids (λ sid, cauchy_coef_gf2_4 sid coded gen))).
Definition batch_matches_scalar : test :=
  let ids := range 0 16 in
  for_each (range 1 5) (λ coded_id,
    let batch := vandermonde_batch Gf2_8 ids coded_id in
    batch_is batch ids (λ sid, Ok (vandermonde_coef Gf2_8 sid coded_id))).
Definition gf2_4_batch_one_byte_per_source : test :=
  let ids := range 0 8 in
  let batch := vandermonde_batch Gf2_4 ids 1 in
  _ ← assert_eq (length batch) (length ids);
  for_each (zip (seq 0 (length ids)) ids) (λ '(i, sid),
    let expected := Z.land (vandermonde (H := Gf2_4_field) sid 1) 15 in
    b ← index batch i;
    _ ← assert_eq b expected;
    assert_eq (Z.land b 240) 0).

Definition tests : list test :=
  [gf2_8_known_values; cauchy_coef_never_zero; cauchy_gf2_4_coef_never_zero_with_generation;
   cauchy_generations_produce_distinct_rows; cauchy_2x2_nonsingular_exhaustive;
   cauchy_batch_matches_scalar; cauchy_coef_defined_on_diagonal; cauchy_gf2_4_coef_never_zero;
   cauchy_gf2_4_2x2_nonsingular_exhaustive; cauchy_gf2_4_batch_matches_scalar;
   batch_matches_scalar; gf2_4_batch_one_byte_per_source].

(** The bodies of the property-based tests, for the values [proptest!] draws. *)
Section proptest.
#[local] Existing Instance Gf2_8_field.
Context (cpu : Dispatch).

Definition prop_gf2_8_inv_correct (a : Z) : test :=
  let fa := from_u8 a in
  inv ← gf_inv fa;
  assert_eq (gf_mul fa inv) ONE.
Definition prop_gf2_8_mul_commutative (a b : Z) : test :=
  let fa := from_u8 a in
  let fb := from_u8 b in
  assert_eq (gf_mul fa fb) (gf_mul fb fa).
Definition prop_gf2_8_mul_associative (a b c : Z) : test :=
  let fa := from_u8 a in
  let fb := from_u8 b in
  let fc := from_u8 c in
  assert_eq (gf_mul (gf_mul fa fb) fc) (gf_mul fa (gf_mul fb fc)).
Definition prop_cauchy_gf2_8_2x2_nonsingular (s0 s1 c0 c1 : Z) : test :=
  if negb (s0 =? s1) && negb (c0 =? c1) then
    b ← verify_cauchy_2x2_nonsingular s0 s1 c0 c1;
    rassert b
  else Ok tt.
Definition prop_simd_mul_acc_matches_reference (coef : Z) (data : bytes) : test :=
  let simd_dst := replicate (length data) 0 in
  let ref_dst := replicate (length data) 0 in
  simd_dst ← mul_acc_gf2_8 cpu simd_dst data coef;
  let ref_dst := mul_acc_gf2_8_reference ref_dst data coef in
  assert_eq simd_dst ref_dst.
Definition prop_vandermonde_2x2_nonsingular (s0 s1 c0 c1 : Z) : test :=
  if negb (s0 =? s1) && negb (c0 =? c1) then
    let a00 := vandermonde s0 c0 in
    let a01 := vandermonde s1 c0 in
    let a10 := vandermonde s0 c1 in
    let a11 := vandermonde s1 c1 in
    let det := gf_add (gf_mul a00 a11) (gf_mul a01 a10) in
    assert_ne det ZERO
  else Ok tt.
End proptest.
End coef_gen.

(** ** gf/simd.rs *)
Module simd.
Section cpu.
Context (cpu : Dispatch).

Definition dispatch_picks_a_supported_path (host : Host) : test :=
  let '(_, d) := dispatch None host in
  match d with
  | Avx2 => rassert (ho_avx2 host)
  | Ssse3 => rassert (ho_ssse3 host)
  | Neon => rassert (ho_neon host)
  | Scalar => Ok tt
  end.

Definition payload (len : nat) : bytes := (λ i, Z.land (Z.of_nat i * 7 + 13) 255) <$> seq 0 len.

Definition gf2_8_acc_all_coefficients : test :=
  for_each (range 0 256) (λ coef,
    let src := payload 256 in
    let s := replicate 256 0 in
    let r := replicate 256 0 in
    s ← mul_acc_gf2_8 cpu s src coef;
    let r := mul_acc_gf2_8_reference r src coef in
    assert_eq s r).
Definition gf2_8_scale_all_coefficients : test :=
  for_each (range 0 256) (λ coef,
    let data := payload 256 in
    s ← mul_scale_gf2_8 cpu data coef;
    let r := mul_scale_gf2_8_reference data coef in
    assert_eq s r).
Definition gf2_4_acc_all_coefficients : test :=
  for_each (range 0 16) (λ coef,
    let src := payload 256 in
    let s := replicate 256 0 in
    let r := replicate 256 0 in
    s ← mul_acc_gf2_4 cpu s src coef;
    let r := mul_acc_gf2_4_reference r src coef in
    assert_eq s r).
Definition tail_bytes_all_lengths_1_to_63 : test :=
  let src := range 0 64 in
  for_each (range 1 64) (λ len,
    let len := Z.to_nat len in
    let a := replicate len 0 in
    let b := replicate len 0 in
    part ← slice src 0 len;
    a ← mul_acc_gf2_8 cpu a part 171;
    let b := mul_acc_gf2_8_reference b part 171 in
    assert_eq a b).
Definition avx2_chunks_and_tail : test :=
  let src := payload 33 in
  let a := replicate 33 0 in
  let b := replicate 33 0 in
  a ← mul_acc_gf2_8 cpu a src 127;
  let b := mul_acc_gf2_8_reference b src 127 in
  assert_eq a b.
Definition coef_zero_noop : test :=
  let src := payload 64 in
  let dst := replicate 64 171 in
  let orig := dst in
  dst ← mul_acc_gf2_8 cpu dst src 0;
  assert_eq dst orig.
Definition coef_zero_scale_zeros : test :=
  let buf := payload 64 in
  buf ← mul_scale_gf2_8 cpu buf 0;
  rassert (forallb (λ b, b =? 0) buf).

Definition tests (host : Host) : list test :=
  [dispatch_picks_a_supported_path host; gf2_8_acc_all_coefficients; gf2_8_scale_all_coefficients; gf2_4_acc_all_coefficients;
   tail_bytes_all_lengths_1_to_63; avx2_chunks_and_tail; coef_zero_noop; coef_zero_scale_zeros].
End cpu.
End simd.

(** ** They pass *)

(** A light test is run. *)
Ltac run_test := vm_compute; reflexivity.

Lemma elem_of_range a b x : x ∈ range a b ↔ a ≤ x < b.
Proof. unfold range. rw elem_of_seqZ. lia. Qed.

(** A loop over a range. *)
Lemma for_range_passes a b f : (∀ x, a ≤ x < b → passes (f x)) → passes (for_each (range a b) f).
Proof. intros H. apply for_each_passes, Forall_forall. intros x Hx%elem_of_range. by apply H. Qed.

Lemma assert_ne_passes {A} `{EqDecision A} (a b : A) : a ≠ b → passes (assert_ne a b).
Proof. intros Hn. unfold passes, assert_ne. by rw bool_decide_false. Qed.

Lemma gf8_elem x : 0 ≤ x < 256 → @elem Gf2_8_field x.
Proof. intros Hx. unfold elem. change (@ORDER Gf2_8_field) with 256. done. Qed.

Lemma mul_exhaustive_passes : passes gf_mod.gf2_8_mul_exhaustive.
Proof.
  apply for_range_passes. intros a Ha. apply for_range_passes. intros b Hb.
  rw !u8_small; [|word_bound..]. cbn [from_u8 to_u8 Gf2_8_field gf_mul].
  change (if (a =? 0) || (b =? 0) then 0 else tget GF2_8_EXP (tget GF2_8_LOG a + tget GF2_8_LOG b))
    with (gf2_8_mul_raw a b).
  unfold passes. rw (assert_eq_refl (gf2_8_mul_raw a b) _ eq_refl) bind_Ok. apply assert_eq_refl.
  apply (@gf_mul_comm Gf2_8_field _); by apply gf8_elem.
Qed.

Lemma cauchy_never_zero f src coded gen : is_u32 src → 0 ≤ coded < cauchy_cycle f → is_u8 gen →
  passes (c ← cauchy_coef f src coded gen; assert_ne c 0).
Proof.
  intros Hs Hc Hg. destruct (cauchy_coef_ok f src coded gen Hs Hc Hg) as (-> & _ & Hn).
  unfold passes. rw bind_Ok. by apply assert_ne_passes.
Qed.
Lemma cauchy_coef_never_zero_passes : passes coef_gen.cauchy_coef_never_zero.
Proof.
  apply for_range_passes. intros gen Hg. apply for_range_passes. intros src Hs.
  apply for_range_passes. intros coded Hc. apply (cauchy_never_zero Gf2_8); [word_bound|done|word_bound].
Qed.

(** *** 2 x 2 systems *)
Definition verify_2x2 (f : Field) (s0 s1 c0 c1 : Z) : result bool :=
  match f with
  | Gf2_8 => verify_cauchy_2x2_nonsingular s0 s1 c0 c1
  | Gf2_4 => verify_cauchy_gf2_4_2x2_nonsingular s0 s1 c0 c1
  end.

Lemma cauchy_2x2 f s0 s1 c0 c1 :
  0 ≤ s0 < cauchy_cycle f → 0 ≤ s1 < cauchy_cycle f → 0 ≤ c0 < cauchy_cycle f → 0 ≤ c1 < cauchy_cycle f →
  s0 ≠ s1 → c0 ≠ c1 → verify_2x2 f s0 s1 c0 c1 = Ok true.
Proof.
  intros Hs0 Hs1 Hc0 Hc1 Hs Hc. assert (is_u8 0) as H0 by word_bound.
  assert (∀ s, 0 ≤ s < cauchy_cycle f → is_u32 s) as Hu by (intros s H; destruct f; cbn in H; word_bound).
  destruct (cauchy_coef_ok f s0 c0 0) as (E00 & K00 & N00); auto.
  destruct (cauchy_coef_ok f s0 c1 0) as (E01 & K01 & N01); auto.
  destruct (cauchy_coef_ok f s1 c0 0) as (E10 & K10 & N10); auto.
  destruct (cauchy_coef_ok f s1 c1 0) as (E11 & K11 & N11); auto.
  set (a00 := ginv _ _) in E00, K00, N00. set (a01 := ginv _ _) in E01, K01, N01.
  set (a10 := ginv _ _) in E10, K10, N10. set (a11 := ginv _ _) in E11, K11, N11.
  assert (Z.lxor (@gf_mul (gf_field f) a00 a11) (@gf_mul (gf_field f) a01 a10) ≠ 0) as Hdet.
  { intros Hdet. apply N10.
    assert (Forall (λ a, a = 0) [a10; a00]) as Hz; [|by apply Forall_cons in Hz as [? _]].
    apply (cauchy_columns_independent f [s0; s1] [(c0, 0); (c1, 0)]); try done.
    - auto.
    - apply NoDup_cons. split; [|apply NoDup_singleton]. intros Hx%list_elem_of_singleton. apply Hs.
      destruct f; cbn [cx cauchy_cycle] in *; rw !Z.mod_small // in Hx.
    - auto.
    - apply NoDup_cons. split; [|apply NoDup_singleton]. intros Hy%list_elem_of_singleton. apply Hc.
      by apply (cy_inj f c0 c1 0).
    - auto.
    - intros r Hr.
      assert (∃ x y, cauchy_batch f [s0; s1] r.1 r.2 = Ok [x; y] ∧
        Z.lxor (@gf_mul (gf_field f) a10 x) (@gf_mul (gf_field f) a00 y) = 0) as (x & y & Hb & Hxy).
      { apply elem_of_cons in Hr as [->|Hr]; [|apply list_elem_of_singleton in Hr as ->]; cbn [fst snd].
        - exists a00, a10. split; [rw cauchy_batch_ok //; auto|].
          rw (gf_mul_comm _ a10 a00) // Z.lxor_nilpotent //.
        - exists a01, a11. split; [rw cauchy_batch_ok //; auto|].
          rw (gf_mul_comm _ a10 a01) // Z.lxor_comm //. }
      exists [x; y]. split; [done|]. cbn [dot]. by rw Z.lxor_0_r. }
  destruct f; cbn [verify_2x2 cauchy_coef gf_field] in *;
    [unfold verify_cauchy_2x2_nonsingular|unfold verify_cauchy_gf2_4_2x2_nonsingular];
    rw E00 E01 E10 E11 !bind_Ok; cbn [gf_add Gf2_8_field Gf2_4_field];
    (rw (proj2 (Z.eqb_neq _ _)); [done|exact Hdet]).
Qed.

Lemma cauchy_2x2_passes f s0 s1 c0 c1 :
  0 ≤ s0 < cauchy_cycle f → 0 ≤ s1 < cauchy_cycle f → 0 ≤ c0 < cauchy_cycle f → 0 ≤ c1 < cauchy_cycle f →
  s0 ≠ s1 → c0 ≠ c1 → passes (b ← verify_2x2 f s0 s1 c0 c1; rassert b).
Proof. intros. unfold passes. by rw cauchy_2x2. Qed.

Lemma cauchy_2x2_exhaustive_passes : passes coef_gen.cauchy_2x2_nonsingular_exhaustive.
Proof.
  apply for_range_passes. intros s0 Hs0. apply for_range_passes. intros s1 Hs1.
  apply for_range_passes. intros c0 Hc0. apply for_range_passes. intros c1 Hc1.
  apply (cauchy_2x2_passes Gf2_8); cbn [cauchy_cycle]; lia.
Qed.

Lemma cons_inv_head {A} (x y : A) l k : x :: l = y :: k → x = y.
Proof. by intros [= ->]. Qed.

(** Two generations differ on source 0. *)
Lemma distinct_rows_pass : passes coef_gen.cauchy_generations_produce_distinct_rows.
Proof.
  apply for_range_passes. intros coded Hc.
  assert (∀ gen, is_u8 gen → mmap (λ s, cauchy_coef_gf2_8 s coded gen) (range 0 128)
    = Ok ((λ s, ginv (gf_field Gf2_8) (Z.lxor (cx Gf2_8 s) (cy Gf2_8 coded gen))) <$> range 0 128)) as Hrow.
  { intros gen Hg. apply (cauchy_batch_ok Gf2_8); [|done|done].
    apply Forall_forall. intros s Hs%elem_of_range. word_bound. }
  rw (Hrow 0); [|word_bound]. rw (Hrow 1); [|word_bound]. unfold passes. rw !bind_Ok.
  apply assert_ne_passes.
  assert (range 0 128 = 0 :: range 1 128) as -> by (unfold range; by rw seqZ_cons).
  generalize (range 1 128). intros tail. rw 2!fmap_cons.
  intros Heq%cons_inv_head. clear Hrow.
  assert (forallb (λ c, negb (ginv (gf_field Gf2_8) (Z.lxor (cx Gf2_8 0) (cy Gf2_8 c 0)) =?
    ginv (gf_field Gf2_8) (Z.lxor (cx Gf2_8 0) (cy Gf2_8 c 1)))) (range 0 128) = true) as Hall by run_test.
  rw forallb_forall in Hall. specialize (Hall coded). rw Heq Z.eqb_refl in Hall.
  discriminate Hall. by apply list_elem_of_In, elem_of_range.
Qed.

Lemma gf_mod_tests_pass : Forall passes gf_mod.tests.
Proof. unfold gf_mod.tests. do 5 (constructor; [run_test|]). constructor; [exact mul_exhaustive_passes|]. repeat (constructor; [run_test|]). constructor. Qed.

Lemma coef_gen_tests_pass : Forall passes coef_gen.tests.
Proof.
  unfold coef_gen.tests. constructor; [run_test|]. constructor; [exact cauchy_coef_never_zero_passes|].
  constructor; [run_test|]. constructor; [exact distinct_rows_pass|].
  constructor; [exact cauchy_2x2_exhaustive_passes|]. repeat (constructor; [run_test|]). constructor.
Qed.

(** *** The kernels against the references *)
Lemma acc_matches cpu f dst src coef : length dst = length src → bytes_ok src → coef_ok f coef →
  passes (s ← mul_acc cpu f dst src coef; assert_eq s (mul_acc_reference f dst src coef)).
Proof.
  intros Hl Hs Hc. unfold passes. rw mul_acc_spec // bind_Ok mul_acc_reference_smul //. by apply assert_eq_refl.
Qed.

Lemma coef8_ok c : 0 ≤ c < 256 → coef_ok Gf2_8 c.
Proof. exact (gf8_elem c). Qed.
Lemma payload_ok n : bytes_ok (simd.payload n) ∧ length (simd.payload n) = n.
Proof.
  unfold simd.payload. rw length_fmap length_seq. split; [|done]. apply Forall_fmap, Forall_true. intros i. cbn.
  change 255 with (Z.ones 8). rw Z.land_ones; [|lia]. pose proof (Z.mod_pos_bound (Z.of_nat i * 7 + 13) (2 ^ 8)). word_bound.
Qed.

Lemma simd_tests_pass cpu host : Forall passes (simd.tests cpu host).
Proof.
  destruct (payload_ok 256) as [Hb Hl].
  unfold simd.tests. constructor.
  { unfold simd.dispatch_picks_a_supported_path. destruct host as [[] [] [] []]; reflexivity. }
  constructor.
  { unfold simd.gf2_8_acc_all_coefficients. apply for_range_passes. intros c Hc. apply (acc_matches cpu Gf2_8); [done|done|by apply coef8_ok]. }
  constructor.
  { unfold simd.gf2_8_scale_all_coefficients. apply for_range_passes. intros c Hc. unfold passes.
    assert (mul_scale_gf2_8 cpu (simd.payload 256) c = Ok (smul Gf2_8 c <$> simd.payload 256)) as ->
      by exact (mul_scale_spec cpu Gf2_8 _ c Hb (coef8_ok c Hc)).
    rw bind_Ok. by apply assert_eq_refl. }
  constructor.
  { unfold simd.gf2_4_acc_all_coefficients. apply for_range_passes. intros c Hc. apply (acc_matches cpu Gf2_4); [done|done|].
    unfold elem. change (@ORDER (gf_field Gf2_4)) with 16. done. }
  destruct cpu; repeat (constructor; [run_test|]); constructor.
Qed.

(** The tests of the field arithmetic, the coefficients and the kernels. *)
Definition gf_tests (cpu : Dispatch) (host : Host) : list test :=
  gf_mod.tests ++ gf2_8_rs.tests ++ gf2_4_rs.tests ++ coef_gen.tests ++ simd.tests cpu host.

Lemma gf_tests_run cpu host : Forall passes (gf_tests cpu host).
Proof.
  unfold gf_tests. repeat apply Forall_app_2;
    [exact gf_mod_tests_pass|repeat (constructor; [run_test|]); constructor
    |repeat (constructor; [run_test|]); constructor|exact coef_gen_tests_pass|apply simd_tests_pass].
Qed.

(** *** The property-based tests hold of every value they may draw *)
Lemma for_range_inv a b f : passes (for_each (range a b) f) → ∀ x, a ≤ x < b → passes (f x).
Proof.
  unfold passes, for_each. intros Hall x Hx%elem_of_range. revert Hall.
  induction (range a b) as [|y l IH]; [by apply elem_of_nil in Hx|]. cbn.
  destruct (f y) as [[]| |] eqn:Hy; [|done..]. cbn. intros Hl.
  apply elem_of_cons in Hx as [->|Hx]; [done|by apply IH].
Qed.

(** The property-based tests of the coefficients hold of every value they may
    draw, not only of the drawn ones: inverses, commutativity and associativity
    of GF(2^8), the non-singular 2x2 Cauchy and Vandermonde minors, and the
    accumulation kernel on every CPU. *)
Theorem proptests_pass (cpu : Dispatch) :
  (∀ a, 1 ≤ a ≤ 255 → passes (coef_gen.prop_gf2_8_inv_correct a)) ∧
  (∀ a b, 0 ≤ a ≤ 255 → 0 ≤ b ≤ 255 → passes (coef_gen.prop_gf2_8_mul_commutative a b)) ∧
  (∀ a b c, 0 ≤ a ≤ 255 → 0 ≤ b ≤ 255 → 0 ≤ c ≤ 255 → passes (coef_gen.prop_gf2_8_mul_associative a b c)) ∧
  (∀ s0 s1 c0 c1, 0 ≤ s0 < 127 → 0 ≤ s1 < 127 → 0 ≤ c0 < 127 → 0 ≤ c1 < 127 →
    passes (coef_gen.prop_cauchy_gf2_8_2x2_nonsingular s0 s1 c0 c1)) ∧
  (∀ coef data, 0 ≤ coef ≤ 255 → bytes_ok data → 1 ≤ Z.of_nat (length data) ≤ 128 →
    passes (coef_gen.prop_simd_mul_acc_matches_reference cpu coef data)) ∧
  (∀ s0 s1 c0 c1, 0 ≤ s0 < 7 → 0 ≤ s1 < 7 → 1 ≤ c0 < 7 → 1 ≤ c1 < 7 →
    passes (coef_gen.prop_vandermonde_2x2_nonsingular s0 s1 c0 c1)).
Proof.
  split_and!.
  - intros a Ha. apply (for_range_inv 1 256 coef_gen.prop_gf2_8_inv_correct); [run_test|lia].
  - intros a b Ha Hb. apply assert_eq_refl. cbn [from_u8 Gf2_8_field].
    apply (@gf_mul_comm Gf2_8_field _); apply gf8_elem; lia.
  - intros a b c Ha Hb Hc. apply assert_eq_refl. cbn [from_u8 Gf2_8_field].
    apply (@gf_mul_assoc Gf2_8_field _); apply gf8_elem; lia.
  - intros s0 s1 c0 c1 Hs0 Hs1 Hc0 Hc1. unfold coef_gen.prop_cauchy_gf2_8_2x2_nonsingular.
    destruct (Z.eqb_spec s0 s1) as [|Hs]; [done|]. destruct (Z.eqb_spec c0 c1) as [|Hc]; [done|]. cbn [negb andb].
    apply (cauchy_2x2_passes Gf2_8); cbn [cauchy_cycle]; lia.
  - intros coef data Hc Hd _. unfold coef_gen.prop_simd_mul_acc_matches_reference.
    apply (acc_matches cpu Gf2_8); [apply length_replicate|done|]. apply coef8_ok. lia.
  - intros s0 s1 c0 c1 Hs0 Hs1 Hc0 Hc1.
    apply (for_range_inv 1 7 (λ c1, coef_gen.prop_vandermonde_2x2_nonsingular s0 s1 c0 c1)); [|done].
    apply (for_range_inv 1 7 (λ c0, for_each (range 1 7) (coef_gen.prop_vandermonde_2x2_nonsingular s0 s1 c0))); [|done].
    apply (for_range_inv 0 7 (λ s1, for_each (range 1 7) (λ c0, for_each (range 1 7)
      (coef_gen.prop_vandermonde_2x2_nonsingular s0 s1 c0)))); [|done].
    apply (for_range_inv 0 7 (λ s0, for_each (range 0 7) (λ s1, for_each (range 1 7) (λ c0, for_each (range 1 7)
      (coef_gen.prop_vandermonde_2x2_nonsingular s0 s1 c0))))); [run_test|done].
Qed.

Lemma proptests_pass_witness :
  passes (coef_gen.prop_gf2_8_mul_associative 3 200 17) ∧ passes (coef_gen.prop_gf2_8_inv_correct 9).
Proof.
  split.
  - apply (proj1 (proj2 (proj2 (proptests_pass Scalar)))); lia.
  - apply (proj1 (proptests_pass Scalar)); lia.
Defined.
