(* ===== verification/TestsWire.v ===== *)
(** * The tests of wire/: header, packets, feedback, encoding vector, ID storage

    The zerocopy cast of the header is [ReprC.cast], the [repr(C)] instance. *)

From S2P Require Import Prelude Error Config IdStorage EncVec Common Packets F64 Feedback Testing.
#[global] Open Scope Z_scope.

#[local] Existing Instance ReprC.cast.
#[export] Instance IdStorageFormat_eq_dec : EqDecision IdStorageFormat.
Proof. solve_decision. Defined.

(** ** wire/common.rs *)
Module common.
Definition round_trip_source : test :=
  let hdr := header_new PtSource CciZero false 1 in
  let b := header_to_bytes hdr in
  parsed ← unwrap (header_parse b);
  _ ← assert_eq (version parsed) 1;
  ty ← unwrap (packet_type parsed);
  _ ← assert_eq ty PtSource;
  _ ← assert_eq (cci_words parsed) 0;
  _ ← rassert (negb (has_tsi parsed));
  assert_eq (h_hdr_len_words parsed) 1.
Definition round_trip_with_cci_and_tsi : test :=
  let hdr := header_new PtCoded CciTwo true 5 in
  let b := header_to_bytes hdr in
  let buf := b ++ replicate 20 0 in
  parsed ← unwrap (header_parse buf);
  _ ← assert_eq (cci_words parsed) 2;
  _ ← rassert (has_tsi parsed);
  assert_eq (body_offset parsed) 16%nat.
Definition rejects_wrong_version : test :=
  let b := header_to_bytes (header_new PtSource CciZero false 1) in
  let b := <[0%nat := 32]> b in
  rassert (match header_parse b with Err (UnsupportedVersion v) => v =? 2 | _ => false end).
Definition rejects_short_buf : test :=
  rassert (match header_parse [16; 0] with Err (BufferTooShort _ _) => true | _ => false end).
Definition zerocopy_ref_from_bytes : test :=
  let hdr := header_new PtFeedback CciOne false 2 in
  let raw := header_to_bytes hdr in
  hdr2 ← unwrap_some (ref_from_bytes raw);
  _ ← assert_eq (version hdr2) (version hdr);
  assert_eq (cci_words hdr2) (cci_words hdr).

Definition tests : list test :=
  [round_trip_source; round_trip_with_cci_and_tsi; rejects_wrong_version; rejects_short_buf;
   zerocopy_ref_from_bytes].
End common.

(** ** wire/source.rs *)
Module source.
Definition round_trip_no_cci_no_tsi : test :=
  (* b"hello delp world!" *)
  let payload := [104; 101; 108; 108; 111; 32; 100; 101; 108; 112; 32; 119; 111; 114; 108; 100; 33] in
  raw ← Source.serialise 42 payload [] None;
  pkt ← unwrap (Source.parse raw);
  _ ← assert_eq (Source.source_symbol_id pkt) 42;
  _ ← assert_eq (Source.payload pkt) payload;
  _ ← assert_eq (Source.tsi pkt) None;
  assert_eq (length (Source.cci pkt)) 0%nat.
Definition round_trip_with_tsi : test :=
  let payload := replicate 32 171 in
  raw ← Source.serialise 3735928559 payload [] (Some 99);
  pkt ← unwrap (Source.parse raw);
  _ ← assert_eq (Source.source_symbol_id pkt) 3735928559;
  _ ← assert_eq (Source.tsi pkt) (Some 99);
  assert_eq (Source.payload pkt) payload.
Definition round_trip_with_cci : test :=
  let cci := [1; 2; 3; 4; 5; 6; 7; 8] in
  let payload := [100; 97; 116; 97] in
  raw ← Source.serialise 7 payload cci None;
  pkt ← unwrap (Source.parse raw);
  _ ← assert_eq (Source.cci pkt) cci;
  assert_eq (Source.payload pkt) payload.

Definition tests : list test := [round_trip_no_cci_no_tsi; round_trip_with_tsi; round_trip_with_cci].
End source.

(** ** wire/coded.rs *)
Module coded.
Definition make_ev (source_ids : list Z) (coded_id : Z) : EncodingVector :=
  let ids := source_ids in
  ev_vandermonde Gf2_8 coded_id ids.

Definition round_trip_simple : test :=
  let ev := make_ev [0; 1; 2; 3] 1 in
  let payload := replicate 128 170 in
  raw ← Coded.serialise 1 ev payload [] None;
  pkt ← unwrap (Coded.parse raw);
  _ ← assert_eq (Coded.coded_symbol_id pkt) 1;
  _ ← assert_eq (Coded.payload pkt) payload;
  assert_eq (ev_source_ids (Coded.ev pkt)) [0; 1; 2; 3].
Definition round_trip_with_tsi_and_cci : test :=
  let ev := make_ev (range 10 18) 5 in
  let payload := replicate 64 187 in
  let cci := replicate 4 1 in
  raw ← Coded.serialise 5 ev payload cci (Some 42);
  pkt ← unwrap (Coded.parse raw);
  _ ← assert_eq (Coded.tsi pkt) (Some 42);
  _ ← assert_eq (Coded.cci pkt) cci;
  _ ← assert_eq (Coded.coded_symbol_id pkt) 5;
  assert_eq (length (Coded.payload pkt)) 64%nat.
Definition non_contiguous_source_ids : test :=
  let ids := [1; 3; 5; 7] in
  let ev := make_ev ids 2 in
  raw ← Coded.serialise 2 ev (replicate 32 0) [] None;
  pkt ← unwrap (Coded.parse raw);
  assert_eq (ev_source_ids (Coded.ev pkt)) ids.

Definition tests : list test := [round_trip_simple; round_trip_with_tsi_and_cci; non_contiguous_source_ids].
End coded.

(** ** wire/feedback.rs *)
Module feedback.
Definition sack_round_trip : test :=
  let acked := [10; 11; 13; 15] in
  pkt ← build 10 2 0 (f_lit 1 10) acked;
  _ ← rassert (fb_is_acked pkt 10);
  _ ← rassert (fb_is_acked pkt 11);
  _ ← rassert (negb (fb_is_acked pkt 12));
  _ ← rassert (fb_is_acked pkt 13);
  _ ← rassert (negb (fb_is_acked pkt 14));
  _ ← rassert (fb_is_acked pkt 15);
  let collected := acked_ids pkt in
  assert_eq collected [10; 11; 13; 15].
Definition serialise_parse_round_trip : test :=
  let acked := filter (λ i, i mod 3 ≠ 0) (range 0 24) in
  original ← build 0 5 2 (f_lit 1 20) acked;
  let b := fb_serialise original in
  parsed ← unwrap (fb_parse b);
  _ ← assert_eq (fb_first_src_id parsed) (fb_first_src_id original);
  _ ← assert_eq (fb_nb_missing_src parsed) (fb_nb_missing_src original);
  _ ← assert_eq (fb_nb_not_used_coded parsed) (fb_nb_not_used_coded original);
  _ ← assert_eq (fb_plr_raw parsed) (fb_plr_raw original);
  assert_eq (fb_sack parsed) (fb_sack original).
Definition plr_encoding : test :=
  zero ← encode_plr (f_of_Z 0);
  _ ← assert_eq zero 0;
  one ← encode_plr (f_of_Z 1);
  _ ← assert_eq one 255;
  v ← encode_plr (f_lit 1 10);
  let r := decode_plr v in
  rassert (f_lt (SFabs (f_sub r (f_lit 1 10))) (f_lit 1 100)).

Definition tests : list test := [sack_round_trip; serialise_parse_round_trip; plr_encoding].
End feedback.

(** ** wire/ev/mod.rs *)
Module ev_mod.
Definition contiguous_ids (start count : Z) : list Z := range start (start + count).

Definition vandermonde_round_trip_gf2_8 : test :=
  let ids := contiguous_ids 10 8 in
  let ev := ev_vandermonde Gf2_8 3 ids in
  b ← ev_serialise ev;
  '(parsed, consumed) ← unwrap (ev_parse b 3);
  _ ← assert_eq consumed (length b);
  _ ← assert_eq (ev_source_ids parsed) ids;
  _ ← rassert (negb (has_explicit_coefs parsed));
  rassert (match ev_field parsed with Gf2_8 => true | Gf2_4 => false end).
Definition explicit_coefs_round_trip_gf2_8 : test :=
  let ids := range 0 4 in
  let coefs := [1; 2; 4; 8] in
  ev ← ev_explicit Gf2_8 1 ids coefs;
  b ← ev_serialise ev;
  '(parsed, _) ← unwrap (ev_parse b 1);
  _ ← assert_eq (ev_source_ids parsed) ids;
  assert_eq (ev_coefficients parsed) coefs.
Definition nibble_pack_unpack_roundtrip : test :=
  let coefs := range 1 7 in
  let packed := pack_nibbles coefs in
  let unpacked := unpack_nibbles packed (length coefs) in
  assert_eq unpacked coefs.

Definition tests : list test :=
  [vandermonde_round_trip_gf2_8; explicit_coefs_round_trip_gf2_8; nibble_pack_unpack_roundtrip].
End ev_mod.

(** ** wire/ev/id_storage.rs *)
Module id_storage.
Definition round_trip (ids : list Z) (format : IdStorageFormat) : test :=
  encoded ← encode ids format;
  first ← index ids 0;
  '(decoded, _) ← unwrap (decode encoded (length ids) first format);
  assert_eq decoded ids.

Definition none_format : test := round_trip (range 5 15) FmtNone.
Definition compressed_list_non_contiguous : test := round_trip [1; 3; 7; 8; 15; 100] CompressedList.
Definition uncompressed_edges : test := round_trip [1; 2; 3; 10; 11; 20] UncompressedEdges.
Definition compressed_edges : test := round_trip [0; 1; 2; 5; 6; 7; 20] CompressedEdges.
Definition best_for_contiguous : test := assert_eq (best_for (range 10 20)) FmtNone.
Definition best_for_non_contiguous : test := assert_ne (best_for [1; 3; 5]) FmtNone.

Definition tests : list test :=
  [none_format; compressed_list_non_contiguous; uncompressed_edges; compressed_edges;
   best_for_contiguous; best_for_non_contiguous].
End id_storage.

Definition wire_tests : list test :=
  common.tests ++ source.tests ++ coded.tests ++ feedback.tests ++ ev_mod.tests ++ id_storage.tests.

Lemma wire_tests_run : Forall passes wire_tests.
Proof. repeat (constructor; [vm_compute; reflexivity|]). constructor. Qed.
