(* ===== verification/TestsCodec.v ===== *)
(** * The tests of codec/ and of policy/defaults.rs

    Decoding runs on a byte kernel [disp]; the encoder, the decoder and the
    matrix are those of the other files, not copies.  The zerocopy cast of the
    header is [ReprC.cast]. *)

From S2P Require Import Prelude Error Config Simd CoefGen EncVec Common Packets F64 Feedback Policy Window Encoder Buffer Matrix Decoder Testing TestsGf TestsWire.
From stdpp Require Import sorting.
#[global] Open Scope Z_scope.

#[local] Existing Instance ReprC.cast.

(** ** codec/decoder/buffer.rs *)
Module buffer.
Definition buf_bytes (v : Z) : bytes := replicate 4 v.

Definition in_order_delivery : test :=
  let buf := buffer_new 0 in
  let buf := buffer_insert buf 0 (buf_bytes 0) in
  let buf := buffer_insert buf 1 (buf_bytes 1) in
  let buf := buffer_insert buf 2 (buf_bytes 2) in
  let '(buf, delivered) := drain_deliverable buf in
  _ ← assert_eq (length delivered) 3%nat;
  d0 ← unwrap_some (delivered !! 0%nat);
  _ ← assert_eq d0.1 0;
  d2 ← unwrap_some (delivered !! 2%nat);
  _ ← assert_eq d2.1 2;
  assert_eq (sb_next_delivery_id buf) 3.
Definition out_of_order_held_until_gap_filled : test :=
  let buf := buffer_new 0 in
  let buf := buffer_insert buf 0 (buf_bytes 0) in
  let buf := buffer_insert buf 2 (buf_bytes 2) in
  let '(buf, d1) := drain_deliverable buf in
  _ ← assert_eq (length d1) 1%nat;
  let buf := buffer_insert buf 1 (buf_bytes 1) in
  let '(_, d2) := drain_deliverable buf in
  assert_eq (length d2) 2%nat.
Definition prune_below_advances_delivery_ptr : test :=
  let buf := buffer_new 0 in
  let buf := buffer_insert buf 5 (buf_bytes 5) in
  let buf := prune_below buf 5 in
  _ ← assert_eq (sb_next_delivery_id buf) 5;
  let '(_, d) := drain_deliverable buf in
  _ ← assert_eq (length d) 1%nat;
  d0 ← unwrap_some (d !! 0%nat);
  assert_eq d0.1 5.
Definition duplicate_insert_ignored : test :=
  let buf := buffer_new 0 in
  let buf := buffer_insert buf 0 (buf_bytes 170) in
  let buf := buffer_insert buf 0 (buf_bytes 187) in
  let '(_, d) := drain_deliverable buf in
  d0 ← unwrap_some (d !! 0%nat);
  byte ← index d0.2 0;
  assert_eq byte 170.

Definition tests : list test :=
  [in_order_delivery; out_of_order_held_until_gap_filled; prune_below_advances_delivery_ptr;
   duplicate_insert_ignored].
End buffer.

(** ** codec/encoder/window.rs *)
Module window.
Definition make_bytes (v : Z) : bytes := replicate 8 v.
Definition push_all (w : EncodingWindow) (l : list Z) : EncodingWindow :=
  foldl (λ w i, (push w (make_bytes i)).1) w l.

Definition push_and_get : test :=
  let w := window_new 8 in
  let '(w, id0) := push w (make_bytes 0) in
  let '(w, id1) := push w (make_bytes 1) in
  _ ← assert_eq id0 0;
  _ ← assert_eq id1 1;
  d0 ← unwrap_some (window_get w 0);
  b0 ← index d0 0;
  _ ← assert_eq b0 0;
  d1 ← unwrap_some (window_get w 1);
  b1 ← index d1 0;
  assert_eq b1 1.
Definition contiguous_flag_cleared_on_mid_removal : test :=
  let w := push_all (window_new 8) (range 0 6) in
  _ ← rassert (w_is_contiguous w);
  let w := remove_ids w [2; 4] in
  rassert (negb (w_is_contiguous w)).
Definition evict_oldest_maintains_contiguity : test :=
  let w := push_all (window_new 4) (range 0 4) in
  let w := evict_oldest w in
  _ ← rassert (w_is_contiguous w);
  assert_eq (first_id w) (Some 1).
Definition capacity_enforcement : test :=
  let w := push_all (window_new 3) (range 0 3) in
  rassert (window_is_full w).

Definition tests : list test :=
  [push_and_get; contiguous_flag_cleared_on_mid_removal; evict_oldest_maintains_contiguity; capacity_enforcement].
End window.

(** ** codec/decoder/matrix.rs *)
Module matrix.
Section kernel.
Context (disp : Dispatch).

Definition make_ev (field : Field) (source_ids : list Z) (coded_id : Z) : EncodingVector :=
  ev_vandermonde field coded_id source_ids.

(** One coded payload: [mul_acc] of every source in turn. *)
Definition accumulate (field : Field) (coded_id : Z) (payload : bytes) (src : Z * bytes) : result bytes :=
  let c := vandermonde_coef field src.1 coded_id in
  match field with
  | Gf2_8 => mul_acc_gf2_8 disp payload src.2 c
  | Gf2_4 => mul_acc_gf2_4 disp payload src.2 c
  end.
Definition compute_coded_payload (field : Field) (sources : list (Z * bytes)) (coded_id : Z) : result bytes :=
  first ← unwrap_some (head sources);
  let payload := replicate (length first.2) 0 in
  mfor (accumulate field coded_id) payload sources.
(** The coded packets of the round trips, whose sources are numbered from 0. *)
Definition coded_payloads (field : Field) (sym_size : nat) (sources : list bytes) (n_coded : Z)
  : result (list (Z * bytes)) :=
  mmap (λ coded_id,
    p ← mfor (accumulate field coded_id) (replicate sym_size 0) (enumerate sources);
    Ok (coded_id, p)) (range 1 (n_coded + 1)).

(** The loop over the coded packets: every recovered symbol becomes known. *)
Definition deliver_coded (field : Field) (n_src : Z) (st : DecodingMatrix * gmap Z bytes) (pkt : Z * bytes)
  : result (DecodingMatrix * gmap Z bytes) :=
  let '(matrix, known) := st in
  let ev := make_ev field (range 0 n_src) pkt.1 in
  '(matrix, rec) ← add_coded disp matrix ev pkt.2 known;
  Ok (matrix, foldl (λ k r, <[r.1 := r.2]> k) known rec).
Definition recovered_as (known : gmap Z bytes) (src : Z * bytes) : test :=
  got ← unwrap_some (known !! src.1);
  assert_eq got src.2.

Definition single_erasure_recovery_gf2_8 : test :=
  let field := Gf2_8 in
  let sym_size := 64%nat in
  let src0 := replicate sym_size 170 in
  let src1 := replicate sym_size 187 in
  let src2 := replicate sym_size 204 in
  let sources := [(0, src0); (1, src1); (2, src2)] in
  coded_payload ← compute_coded_payload field sources 1;
  let ev := make_ev field [0; 1; 2] 1 in
  let known : gmap Z bytes := <[2 := src2]> (<[0 := src0]> ∅) in
  let matrix := matrix_new field 64 256 in
  '(_, recovered) ← unwrap (add_coded disp matrix ev coded_payload known);
  _ ← assert_eq (length recovered) 1%nat;
  r ← unwrap_some (recovered !! 0%nat);
  _ ← assert_eq r.1 1;
  assert_eq r.2 src1.
Definition two_erasure_recovery_requires_two_coded : test :=
  let field := Gf2_8 in
  let src0 := range 0 32 in
  let src1 := (λ x, Z.lxor x 255) <$> range 0 32 in
  let src2 := replicate 32 85 in
  let sources := [(0, src0); (1, src1); (2, src2)] in
  c1 ← compute_coded_payload field sources 1;
  c2 ← compute_coded_payload field sources 2;
  let known : gmap Z bytes := <[2 := src2]> ∅ in
  let matrix := matrix_new field 32 256 in
  let ev1 := make_ev field [0; 1; 2] 1 in
  let ev2 := make_ev field [0; 1; 2] 2 in
  '(matrix, r1) ← unwrap (add_coded disp matrix ev1 c1 known);
  _ ← assert_eq (length r1) 0%nat;
  '(_, r2) ← unwrap (add_coded disp matrix ev2 c2 known);
  _ ← assert_eq (length r2) 2%nat;
  let recovered_map : gmap Z bytes := foldl (λ k r, <[r.1 := r.2]> k) ∅ r2 in
  _ ← recovered_as recovered_map (0, src0);
  recovered_as recovered_map (1, src1).

(** The generators of the lossy round trip: the bytes of a source and the drops. *)
Definition lcg_next (state : Z) : Z := u64 (u64 (state * 6364136223846793005) + 1442695040888963407).
Definition lcg_byte (state : Z) : Z := u8 (Z.shiftr state 33).
Fixpoint lcg_bytes (n : nat) (state : Z) : Z * bytes :=
  match n with
  | O => (state, [])
  | S n =>
      let state := lcg_next state in
      let '(state', l) := lcg_bytes n state in
      (state', lcg_byte state :: l)
  end.
Fixpoint lcg_sources (n sym_size : nat) (state : Z) : list bytes :=
  match n with
  | O => []
  | S n => let '(state, l) := lcg_bytes sym_size state in l :: lcg_sources n sym_size state
  end.
Definition drop_next (state : Z) : Z := u64 (u64 (state * 2862933555777941757) + 3037000499).
Definition dropped (loss_rate : f64) (state : Z) : bool :=
  f_lt (f_div (f_of_Z (Z.shiftr state 33)) (f_of_Z 4294967295)) loss_rate.

Definition f_ceil (x : f64) : f64 := SFopp (f_floor (SFopp x)).

Definition round_trip_with_loss (field : Field) (n_src sym_size : Z) (fec_rate loss_rate : f64) (seed : Z) : test :=
  let sources := lcg_sources (Z.to_nat n_src) (Z.to_nat sym_size) seed in
  let n_coded := f_to_usize (f_ceil (f_mul (f_of_Z n_src) fec_rate)) in
  coded ← coded_payloads field (Z.to_nat sym_size) sources (u32 n_coded);
  let drop_state := Z.lxor seed 3735928559 in
  let matrix := matrix_new field sym_size (n_src + n_coded) in
  '(drop_state, known) ← mfor (λ st src,
    let '(drop_state, known) := st in
    let drop_state := drop_next drop_state in
    Ok (drop_state, if dropped loss_rate drop_state then known else <[src.1 := src.2]> known))
    (drop_state, ∅ : gmap Z bytes) (enumerate sources);
  '(_, (_, known)) ← mfor (λ st pkt,
    let '(drop_state, st) := st in
    let drop_state := drop_next drop_state in
    if dropped loss_rate drop_state then Ok (drop_state, st)
    else st ← unwrap (deliver_coded field n_src st pkt); Ok (drop_state, st))
    (drop_state, (matrix, known)) coded;
  for_each (enumerate sources) (recovered_as known).

Definition round_trip_no_loss_gf2_8 : test := round_trip_with_loss Gf2_8 8 64 (f_lit 1 2) (f_of_Z 0) 42.
Definition round_trip_2_erasures_guaranteed_recovery : test :=
  let field := Gf2_8 in
  let n_src := 8 in
  let sources := (λ i, (λ j, u8 (i * 17 + j)) <$> range 0 48) <$> range 0 n_src in
  coded ← coded_payloads field 48 sources 4;
  let known : gmap Z bytes :=
    foldl (λ k src, if (src.1 =? 3) || (src.1 =? 5) then k else <[src.1 := src.2]> k) ∅ (enumerate sources) in
  '(_, known) ← mfor (λ st pkt, unwrap (deliver_coded field n_src st pkt)) (matrix_new field 48 64, known) coded;
  _ ← assert_eq (known !! 3) (sources !! 3%nat);
  assert_eq (known !! 5) (sources !! 5%nat).
Definition round_trip_burst_loss_gf2_8 : test :=
  let field := Gf2_8 in
  let n_src := 8 in
  let sources := (λ i, replicate 32 (u8 (i * 17))) <$> range 0 n_src in
  coded ← coded_payloads field 32 sources 4;
  let known : gmap Z bytes :=
    foldl (λ k src, if src.1 <? 4 then k else <[src.1 := src.2]> k) ∅ (enumerate sources) in
  '(_, known) ← mfor (λ st pkt, unwrap (deliver_coded field n_src st pkt)) (matrix_new field 32 64, known) coded;
  for_each (enumerate sources) (recovered_as known).
Definition redundant_equation_silently_discarded : test :=
  let field := Gf2_8 in
  let src0 := replicate 16 1 in
  let sources := [(0, src0)] in
  c1 ← compute_coded_payload field sources 1;
  let ev := make_ev field [0] 1 in
  let matrix := matrix_new field 16 256 in
  '(matrix, r1) ← unwrap (add_coded disp matrix ev c1 ∅);
  _ ← assert_eq (length r1) 1%nat;
  r ← unwrap_some (r1 !! 0%nat);
  let known : gmap Z bytes := <[0 := r.2]> ∅ in
  '(_, r2) ← unwrap (add_coded disp matrix ev c1 known);
  assert_eq (length r2) 0%nat.

Definition tests : list test :=
  [single_erasure_recovery_gf2_8; two_erasure_recovery_requires_two_coded; round_trip_no_loss_gf2_8;
   round_trip_2_erasures_guaranteed_recovery; round_trip_burst_loss_gf2_8; redundant_equation_silently_discarded].
End kernel.
End matrix.

(** ** codec/encoder/mod.rs *)
Module encoder_mod.
Section kernel.
Context (disp : Dispatch).

Definition DefaultEncoder : Type := Encoder AnyAckPolicy NoCongestionControl ConstantFecRate.

Definition make_encoder (sym_size fec_numer fec_denom : Z) : result DefaultEncoder :=
  cfg ← unwrap (EncoderBuilder.build
    (EncoderBuilder.fec_rate fec_numer fec_denom (EncoderBuilder.window_capacity 32 (EncoderBuilder.new sym_size))));
  encoder_with_defaults cfg.
(** The configuration of the tests that draw coded packets from one symbol. *)
Definition one_symbol (strategy : option MatrixStrategy) (byte : Z) : result DefaultEncoder :=
  let b := EncoderBuilder.window_capacity 32 (EncoderBuilder.new 8) in
  let b := match strategy with Some s => EncoderBuilder.matrix_strategy s b | None => b end in
  cfg ← unwrap (EncoderBuilder.build (EncoderBuilder.fec_rate 0 1 b));
  enc ← encoder_with_defaults cfg;
  '(enc, _) ← unwrap (submit_source disp enc (replicate 8 byte));
  Ok enc.
(** [n] coded packets, each of which is there. *)
Definition draw (n : Z) (enc : DefaultEncoder) : result DefaultEncoder :=
  mfor (λ enc _, '(enc, out) ← unwrap (generate_coded disp enc); _ ← unwrap_some out; Ok enc) enc (range 0 n).
Definition is_source_output (out : option EncoderOutput) : bool := match out with Some (OutSource _) => true | _ => false end.
Definition is_coded_output (out : option EncoderOutput) : bool := match out with Some (OutCoded _) => true | _ => false end.

Definition submit_returns_source_packet : test :=
  enc ← make_encoder 64 0 1;
  '(_, out) ← unwrap (submit_source disp enc (replicate 64 171));
  _ ← assert_eq (length out) 1%nat;
  rassert (is_source_output (out !! 0%nat)).
Definition submit_returns_coded_packet_at_rate : test :=
  cfg ← unwrap (EncoderBuilder.build
    (EncoderBuilder.fec_rate 1 1 (EncoderBuilder.window_capacity 32 (EncoderBuilder.new 64))));
  fec ← ConstantFecRate_new 1 1;
  let enc := encoder_new cfg AnyAck NoCc fec in
  '(_, out) ← unwrap (submit_source disp enc (replicate 64 0));
  _ ← assert_eq (length out) 2%nat;
  _ ← rassert (is_source_output (out !! 0%nat));
  rassert (is_coded_output (out !! 1%nat)).
Definition symbol_size_mismatch_error : test :=
  enc ← make_encoder 64 0 1;
  rassert (match submit_source disp enc (replicate 32 0) with Err (SymbolSizeMismatch _ _) => true | _ => false end).
Definition window_full_reject : test :=
  cfg ← unwrap (EncoderBuilder.build
    (EncoderBuilder.fec_rate 0 1 (EncoderBuilder.window_capacity 2 (EncoderBuilder.new 8))));
  enc ← encoder_with_defaults cfg;
  '(enc, _) ← unwrap (submit_source disp enc (replicate 8 1));
  '(enc, _) ← unwrap (submit_source disp enc (replicate 8 2));
  rassert (match submit_source disp enc (replicate 8 3) with Err (WindowFull _) => true | _ => false end).
Definition coded_payload_length_matches_symbol_size : test :=
  enc ← make_encoder 128 1 1;
  enc ← mfor (λ enc _, '(enc, _) ← unwrap (submit_source disp enc (replicate 128 255)); Ok enc) enc (range 0 4);
  match generate_coded disp enc with
  | Ok (_, Some (OutCoded pkt)) => rassert (negb (length pkt =? 0)%nat)
  | Panic => Panic
  | _ => Ok tt
  end.
Definition vandermonde_wraps_past_cycle_without_error : test :=
  enc ← one_symbol None 171;
  let cycle := coded_id_cycle (en_config enc) in
  enc ← draw (cycle * 3) enc;
  _ ← assert_eq (en_coded_ids_used enc) (cycle * 3);
  assert_eq (en_generation enc) 0.
Definition cauchy_generation_rotates_on_wrap : test :=
  enc ← one_symbol (Some Cauchy) 66;
  enc ← draw 127 enc;
  _ ← assert_eq (en_generation enc) 0;
  enc ← draw 1 enc;
  _ ← assert_eq (en_generation enc) 1;
  enc ← draw (128 * 6) enc;
  _ ← assert_eq (en_generation enc) 7;
  assert_eq (en_coded_ids_used enc) (128 * 7).
Definition cauchy_generation_survives_wire_round_trip : test :=
  enc ← one_symbol (Some Cauchy) 85;
  enc ← draw 128 enc;
  _ ← assert_eq (en_generation enc) 1;
  '(_, out) ← unwrap (generate_coded disp enc);
  match out with
  | Some (OutCoded raw) =>
      parsed ← unwrap (Coded.parse raw);
      _ ← assert_eq (ev_generation (Coded.ev parsed)) 1;
      rassert (has_explicit_coefs (Coded.ev parsed))
  | _ => Panic
  end.

Definition tests : list test :=
  [submit_returns_source_packet; submit_returns_coded_packet_at_rate; symbol_size_mismatch_error; window_full_reject;
   coded_payload_length_matches_symbol_size; vandermonde_wraps_past_cycle_without_error;
   cauchy_generation_rotates_on_wrap; cauchy_generation_survives_wire_round_trip].
End kernel.
End encoder_mod.

(** ** codec/decoder/mod.rs *)
Module decoder_mod.
Section kernel.
Context (disp : Dispatch).

(** One packet, by its type byte; the events that deliver a symbol are kept. *)
Definition receive_one (st : Decoder ConstantFeedbackPolicy * list (Z * bytes)) (pkt : bytes)
  : result (Decoder ConstantFeedbackPolicy * list (Z * bytes)) :=
  let '(dec, out) := st in
  pkt_type ← index pkt 3;
  '(dec, events) ← (if pkt_type =? 0
                    then sp ← unwrap (Source.parse pkt); unwrap (handle_source disp dec sp)
                    else cp ← unwrap (Coded.parse pkt); unwrap (handle_coded disp dec cp));
  Ok (dec, out ++ delivered events).

(** [sort_by_key(|(id, _)| *id)], a stable sort *)
Definition by_id (a b : Z * bytes) : Prop := a.1 ≤ b.1.
#[local] Instance by_id_dec : RelDecision by_id := λ a b, decide (a.1 ≤ b.1).

Definition run_round_trip (sym_size n_symbols : Z) (field : Field) (fec_numer fec_denom : Z)
    (drop_indices : list Z) : result (list (Z * bytes)) :=
  enc_cfg ← unwrap (EncoderBuilder.build
    (EncoderBuilder.fec_rate fec_numer fec_denom
    (EncoderBuilder.window_capacity 64 (EncoderBuilder.field field (EncoderBuilder.new sym_size)))));
  dec_cfg ← unwrap (DecoderBuilder.build
    (DecoderBuilder.feedback_every 1000 (DecoderBuilder.field field (DecoderBuilder.new sym_size))));
  enc ← encoder_with_defaults enc_cfg;
  dec ← decoder_with_defaults dec_cfg;
  let payloads := (λ i, replicate (Z.to_nat sym_size) (Z.land i 255)) <$> range 0 n_symbols in
  '(_, all_pkts) ← mfor (λ st payload,
    let '(enc, pkts) := st in
    '(enc, out) ← unwrap (submit_source disp enc payload);
    Ok (enc, pkts ++ ((λ item, match item with OutSource b | OutCoded b => b end) <$> out)))
    (enc, []) payloads;
  '(_, out) ← mfor (λ st pkt, if bool_decide (pkt.1 ∈ drop_indices) then Ok st else receive_one st pkt.2)
    (dec, []) (enumerate all_pkts);
  Ok (merge_sort by_id out).

Definition no_loss_full_delivery : test :=
  delivered ← run_round_trip 64 8 Gf2_8 0 1 [];
  _ ← assert_eq (length delivered) 8%nat;
  for_each (enumerate delivered) (λ d,
    let '(i, (id, data)) := d in
    _ ← assert_eq id (u32 i);
    byte ← index data 0;
    assert_eq byte (Z.land i 255)).
Definition single_erasure_recovered_with_fec : test :=
  delivered ← run_round_trip 64 4 Gf2_8 1 1 [2];
  assert_eq (length delivered) 4%nat.
Definition gf2_4_no_loss : test :=
  delivered ← run_round_trip 64 6 Gf2_4 0 1 [];
  assert_eq (length delivered) 6%nat.
Definition source_size_mismatch_rejected : test :=
  cfg ← unwrap (DecoderBuilder.build (DecoderBuilder.new 64));
  dec ← decoder_with_defaults cfg;
  raw ← Source.serialise 0 (replicate 32 0) [] None;
  sp ← unwrap (Source.parse raw);
  rassert (match handle_source disp dec sp with Err (_, SymbolSizeMismatch _ _) => true | _ => false end).

Definition tests : list test :=
  [no_loss_full_delivery; single_erasure_recovered_with_fec; gf2_4_no_loss; source_size_mismatch_rejected].
End kernel.
End decoder_mod.

(** ** policy/defaults.rs *)
Module defaults.
Definition dummy_state : EncoderState := {|
  es_window_size := 4; es_window_capacity := 256; es_next_source_id := 10; es_next_coded_id := 3;
  es_loss_rate := f_of_Z 0; es_window_ids := [] |}.
(** [n] calls of the rate controller, with their answers. *)
Definition counts (n : Z) (ctrl : ConstantFecRate) : result (list nat) :=
  '(_, l) ← mfor (λ st _,
    let '(ctrl, l) := st in
    '(ctrl, k) ← coded_packets_to_generate ctrl dummy_state;
    Ok (ctrl, l ++ [k])) (ctrl, []) (range 0 n);
  Ok l.

Definition constant_fec_rate_one_to_one : test :=
  ctrl ← one_to_one;
  l ← counts 8 ctrl;
  for_each l (λ k, assert_eq k 1%nat).
Definition constant_fec_rate_one_in_four : test :=
  ctrl ← ConstantFecRate_new 1 4;
  l ← counts 8 ctrl;
  assert_eq (sum_list l) 2%nat.
Definition adaptive_rate_increases_on_loss : test :=
  ctrl ← AdaptiveFecRate_new (f_lit 1 4) (f_lit 1 10) (f_of_Z 1) (f_lit 1 20);
  let ctrl := fec_on_feedback ctrl dummy_state (f_lit 1 5) 5 0 in
  rassert (f_lt (f_lit 1 4) (af_current_rate ctrl)).
Definition adaptive_rate_decreases_on_low_loss : test :=
  ctrl ← AdaptiveFecRate_new (f_lit 1 2) (f_lit 1 10) (f_of_Z 1) (f_lit 1 20);
  let ctrl := fec_on_feedback ctrl dummy_state (f_of_Z 0) 0 0 in
  rassert (f_lt (af_current_rate ctrl) (f_lit 1 2)).
Definition any_ack_policy_removes_on_first_ack : test :=
  let state := ack_default in
  let acked := [10; 11; 12] in
  pkt ← build 10 0 0 (f_of_Z 0) acked;
  let state := ack_update state 1 pkt in
  '(_, to_remove) ← symbols_to_remove AnyAck state (range 10 15);
  _ ← rassert (bool_decide (10 ∈ to_remove));
  _ ← rassert (bool_decide (11 ∈ to_remove));
  _ ← rassert (bool_decide (12 ∈ to_remove));
  rassert (negb (bool_decide (13 ∈ to_remove))).
Definition all_ack_policy_requires_all_receivers : test :=
  let state := ack_default in
  pkt1 ← build 10 0 0 (f_of_Z 0) [10; 11];
  pkt2 ← build 10 0 0 (f_of_Z 0) [10];
  let state := ack_update state 1 pkt1 in
  let state := ack_update state 2 pkt2 in
  '(_, to_remove) ← symbols_to_remove AllAck state (range 10 13);
  _ ← rassert (bool_decide (10 ∈ to_remove));
  _ ← rassert (negb (bool_decide (11 ∈ to_remove)));
  rassert (negb (bool_decide (12 ∈ to_remove))).

Definition tests : list test :=
  [constant_fec_rate_one_to_one; constant_fec_rate_one_in_four; adaptive_rate_increases_on_loss;
   adaptive_rate_decreases_on_low_loss; any_ack_policy_removes_on_first_ack; all_ack_policy_requires_all_receivers].
End defaults.

Definition codec_tests (cpu : Dispatch) : list test :=
  buffer.tests ++ window.tests ++ matrix.tests cpu ++ encoder_mod.tests cpu ++ decoder_mod.tests cpu ++ defaults.tests.

Lemma codec_tests_run cpu : Forall passes (codec_tests cpu).
Proof.
  unfold codec_tests. repeat apply Forall_app_2; destruct cpu;
    repeat (constructor; [vm_compute; reflexivity|]); constructor.
Qed.

(** ** All of them *)
Definition repository_tests (cpu : Dispatch) (host : Host) : list test :=
  gf_tests cpu host ++ wire_tests ++ codec_tests cpu.

(** Every unit test of the source files passes on the model, on each of the
    four byte kernels and every host: fields, coefficients, kernels, wire formats, ID storage,
    buffer, window, matrix, encoder, decoder and policies. *)
Theorem repository_tests_pass cpu host : Forall passes (repository_tests cpu host).
Proof. apply Forall_app_2; [apply gf_tests_run|]. apply Forall_app_2; [exact wire_tests_run|apply codec_tests_run]. Qed.
