(* ===== verification/Pipeline.v ===== *)
(** * tests/proptest_codec.rs: the property-based tests of the whole codec

    Each test is a function of the values proptest draws; the theorem says that it
    passes for all of them, on every CPU, and with which seeds one of them panics.
    Tests run with overflow checks: the sum that can overflow is [usize_add]; the
    other sums and products stay far below 2^64 for the values drawn. *)

From S2P Require Import Prelude Error Config Gf CoefGen Simd IdStorage EncVec Common Packets F64 Feedback Packet Policy Window LinComb Encoder BTree Buffer Matrix Dense Elim Decoder Recovery Delivery Consumer Transport EndToEnd Lossless Testing.
From stdpp Require Import sorting.
#[global] Open Scope Z_scope.

(** ** Helpers *)
Definition Lcg_new (seed : Z) : Z := Z.lor seed 1.
Definition next_u32 (state : Z) : Z * Z :=
  let state := u64 (u64 (state * 6364136223846793005) + 1442695040888963407) in
  (state, u32 (Z.shiftr state 33)).

Local Abbreviation DefaultEncoder := (Encoder AnyAckPolicy NoCongestionControl ConstantFecRate).
Local Abbreviation DefaultDecoder := (Decoder ConstantFeedbackPolicy).

Definition new_encoder (field : Field) (strategy : MatrixStrategy) (sym_size n_symbols fec_n fec_d : Z)
  : result DefaultEncoder :=
  enc_cfg ← unwrap (EncoderBuilder.build
    (EncoderBuilder.fec_rate fec_n fec_d
    (EncoderBuilder.window_capacity (Z.max n_symbols 1)
    (EncoderBuilder.matrix_strategy strategy
    (EncoderBuilder.field field (EncoderBuilder.new sym_size))))));
  encoder_with_defaults enc_cfg.
Definition new_decoder (field : Field) (sym_size : Z) : result DefaultDecoder :=
  dec_cfg ← unwrap (DecoderBuilder.build
    (DecoderBuilder.feedback_every 4294967295
    (DecoderBuilder.field field (DecoderBuilder.new sym_size))));
  decoder_with_defaults dec_cfg.

(** [a + b] on [usize], with overflow checks. *)
Definition usize_add (a b : Z) : result Z := if a + b <? 18446744073709551616 then Ok (a + b) else Panic.

(** The symbols of [run_pipeline], and of the test without sources. *)
Definition mixed_symbol (sym_size i : Z) : bytes :=
  (λ j, u8 (Z.land (u64 (u64 (i * 31) + u64 (j * 7))) 255)) <$> range 0 sym_size.
Definition seeded_byte (seed i j : Z) : result Z :=
  s ← usize_add i j; s ← usize_add s seed; Ok (u8 (Z.land s 255)).
Definition seeded_symbol (seed sym_size i : Z) : result bytes := mmap (seeded_byte seed i) (range 0 sym_size).

Section pipeline.
Context (disp : Dispatch) `{HeaderCast}.

Definition encode_one (s : DefaultEncoder * list bytes) (p : bytes) : result (DefaultEncoder * list bytes) :=
  let '(enc, wire) := s in
  '(enc, outs) ← unwrap (submit_source disp enc p);
  Ok (enc, wire ++ (raw_of <$> outs)).

Record Decoding := { dg_decoder : DefaultDecoder; dg_delivered : list (Z * bytes) }.
Definition push_ready (s : Decoding) (st : DefaultDecoder * list DecoderEvent) : Decoding :=
  {| dg_decoder := st.1; dg_delivered := dg_delivered s ++ delivered st.2 |}.

Definition decode_coded (s : Decoding) (pkt : bytes) : result Decoding :=
  cp ← unwrap (Coded.parse pkt);
  st ← unwrap (handle_coded disp (dg_decoder s) cp);
  Ok (push_ready s st).
Definition decode_one (s : Decoding) (pkt : bytes) : result Decoding :=
  ty ← index pkt 3;
  if ty =? 0 then
    sp ← unwrap (Source.parse pkt);
    st ← unwrap (handle_source disp (dg_decoder s) sp);
    Ok (push_ready s st)
  else decode_coded s pkt.

(** The loop over the wire, with the drop decision of the generator. *)
Definition lossy_one (drop_pct : Z) (s : Z * Decoding) (pkt : bytes) : result (Z * Decoding) :=
  let '(rng, s) := s in
  let '(rng, x) := next_u32 rng in
  if x mod 100 <? drop_pct then Ok (rng, s)
  else s ← decode_one s pkt; Ok (rng, s).

Definition run_pipeline (field : Field) (strategy : MatrixStrategy)
    (sym_size n_symbols fec_n fec_d drop_pct seed : Z) : result (list (Z * bytes) * list bytes) :=
  enc ← new_encoder field strategy sym_size n_symbols fec_n fec_d;
  dec ← new_decoder field sym_size;
  let payloads := mixed_symbol sym_size <$> range 0 n_symbols in
  '(_, wire) ← mfor encode_one (enc, []) payloads;
  '(_, s) ← mfor (lossy_one drop_pct) (Lcg_new seed, {| dg_decoder := dec; dg_delivered := [] |}) wire;
  Ok (dg_delivered s, payloads).

(** ** The tests *)

(** Every symbol, byte-exact and under its ID. *)
Definition all_delivered (n_symbols : Z) (delivered : list (Z * bytes)) (expected : list bytes) : test :=
  _ ← assert_eq (Z.of_nat (length delivered)) n_symbols;
  for_each (enumerate delivered) (λ '(i, (id, data)),
    _ ← assert_eq id i;
    e ← index expected (Z.to_nat i);
    assert_eq data e).
(** Whatever is delivered is byte-exact and in ascending order. *)
Definition never_corrupt (delivered : list (Z * bytes)) (expected : list bytes) : test :=
  _ ← for_each (zip delivered (tail delivered)) (λ '(a, b), rassert (a.1 <? b.1));
  for_each delivered (λ '(id, data), e ← index expected (Z.to_nat id); assert_eq data e).

Definition lossless_round_trip_delivers_all (sym_size n_symbols fec_n fec_d : Z) : test :=
  '(delivered, expected) ← run_pipeline Gf2_8 Vandermonde sym_size n_symbols fec_n fec_d 0 0;
  all_delivered n_symbols delivered expected.

Definition coded_only (s : Decoding) (pkt : bytes) : result Decoding :=
  ty ← index pkt 3;
  if ty =? 0 then Ok s else decode_coded s pkt.
Definition pure_fec_recovery_with_1to1 (sym_size n_symbols seed : Z) : test :=
  enc ← new_encoder Gf2_8 Vandermonde sym_size n_symbols 1 1;
  dec ← new_decoder Gf2_8 sym_size;
  payloads ← mmap (seeded_symbol seed sym_size) (range 0 n_symbols);
  '(_, wire) ← mfor encode_one (enc, []) payloads;
  s ← mfor coded_only {| dg_decoder := dec; dg_delivered := [] |} wire;
  all_delivered n_symbols (dg_delivered s) payloads.

Definition never_corrupt_under_random_loss (sym_size n_symbols drop_pct seed : Z) : test :=
  '(delivered, expected) ← run_pipeline Gf2_8 Vandermonde sym_size n_symbols 1 1 drop_pct seed;
  never_corrupt delivered expected.
Definition cauchy_never_corrupt_under_random_loss (sym_size n_symbols drop_pct seed : Z) : test :=
  '(delivered, expected) ← run_pipeline Gf2_8 Cauchy sym_size n_symbols 1 1 drop_pct seed;
  never_corrupt delivered expected.
Definition gf2_4_never_corrupt (sym_size n_symbols drop_pct seed : Z) : test :=
  '(delivered, expected) ← run_pipeline Gf2_4 Vandermonde sym_size n_symbols 1 1 drop_pct seed;
  never_corrupt delivered expected.
End pipeline.

(** ** Encoding *)
Section encoding.
Context (disp : Dispatch) `{HeaderCastLaw} (src : Z → bytes).
Implicit Types e : DefaultEncoder.

(** An encoder that has submitted the symbols below [n] and whose window has
    not moved: every coded packet covers the symbols up to some ID. *)
Record encoded config (n : Z) e (sent : list EncoderOutput) : Prop := {
  ec_session : enc_session disp src e sent;
  ec_config : en_config e = config;
  ec_next : w_next_id (en_window e) = n;
  ec_window : id_slice (en_window e) = seqZ 0 n;
  ec_covers : Forall (λ ev, ∃ x, 0 ≤ x < n ∧ ev_source_ids ev = seqZ 0 (x + 1)) (sent_vectors sent);
}.

(** One coded packet for each symbol. *)
Definition one_each (n : Z) e (sent : list EncoderOutput) : Prop :=
  en_fec e = {| cf_numer := 1; cf_denom := 1; cf_acc := 0 |} ∧
  ∀ x, 0 ≤ x < n → ∃ ev, ev ∈ sent_vectors sent ∧ ev_source_ids ev = seqZ 0 (x + 1).

Lemma sent_vectors_app out out' : sent_vectors (out ++ out') = sent_vectors out ++ sent_vectors out'.
Proof. apply omap_app. Qed.

Lemma full_cover_vectors ids new : Forall (full_cover ids) new →
  Forall (λ ev, ev_source_ids ev = ids) (sent_vectors new) ∧ length (sent_vectors new) = length new.
Proof.
  induction 1 as [|[pkt|pkt] new Ho _ [IH Hl]]; [done|done|]. destruct Ho as (p & Hp & Hids).
  cbn. rw Hp. split; [by constructor|]. by rw -Hl.
Qed.

Lemma encoded_not_full config n e sent : n < ec_window_capacity config → 0 ≤ n → encoded config n e sent →
  window_is_full (en_window e) = false.
Proof.
  intros Hn Hpos [Hs Hc _ Hids _]. pose proof (enc_session_inv disp _ e sent Hs) as [He _ _ _ _].
  unfold window_is_full. rw (eok_winconf _ _ He) Hc. apply Z.leb_gt. unfold window_len.
  apply (f_equal length) in Hids. unfold id_slice in Hids. rw length_fmap length_seqZ in Hids. lia.
Qed.

Lemma encode_one_ok config n e sent : 0 ≤ n < ec_window_capacity config → n < 65536 →
  encoded config n e sent →
  ∃ e' sent', encode_one disp (e, raw_of <$> sent) (src n) = Ok (e', raw_of <$> sent') ∧
    encoded config (n + 1) e' sent' ∧ (one_each n e sent → one_each (n + 1) e' sent').
Proof.
  intros Hn Hn' Hat. pose proof (encoded_not_full config n e sent ltac:(lia) ltac:(lia) Hat) as Hfull.
  destruct Hat as [Hs Hc Hnext Hids Hcov].
  destruct (submit_total disp _ e sent Hs ltac:(lia) (or_introl Hfull))
    as (e' & pkt & new & Hsub & Hs' & Hc' & Hn1 & Hids' & p & Hp & Hid & Hpay).
  pose proof (submit_covers disp src e sent e' _ new Hs ltac:(lia) Hsub) as Hnew.
  pose proof (submit_count disp _ _ _ _ Hsub) as (st & k & Hfec & Hlen).
  rw Hnext in Hsub Hids'.
  assert (id_slice (en_window e') = seqZ 0 (n + 1)) as Hids1.
  { rw Hids' // Hids seqZ_app; [done|lia|lia]. }
  rw Hids1 in Hnew. apply full_cover_vectors in Hnew as [Hnew Hlnew].
  assert (∀ ev, ev ∈ sent_vectors new → ev_source_ids ev = seqZ 0 (n + 1)) as Hev by by apply Forall_forall.
  assert (sent_vectors (sent ++ OutSource pkt :: new) = sent_vectors sent ++ sent_vectors new) as Hsv
    by by rw sent_vectors_app.
  exists e', (sent ++ OutSource pkt :: new). split_and!.
  - unfold encode_one. rw Hsub. cbn [unwrap]. rw bind_Ok. by rw fmap_app.
  - constructor; [done|by rw Hc'|by rw Hn1 Hnext|done|]. rw Hsv. apply Forall_app_2.
    + eapply Forall_impl; [exact Hcov|]. intros ev (x & ? & ?). exists x. split; [lia|done].
    + apply Forall_forall. intros ev Hin%Hev. exists n. split; [lia|done].
  - intros [Hf Hone]. rw Hf in Hfec. injection Hfec as Hf' <-. split; [done|]. rw Hsv. intros x Hx.
    destruct (decide (x = n)) as [->|Hne].
    + destruct (sent_vectors new) as [|ev l] eqn:El; [by destruct new|].
      exists ev. split; [apply elem_of_app; right; by left|]. apply Hev. by left.
    + destruct (Hone x ltac:(lia)) as (ev & Hin & ?). exists ev. split; [apply elem_of_app; by left|done].
Qed.

Lemma encode_all_ok config k : ∀ n e sent, 0 ≤ n → n + Z.of_nat k ≤ ec_window_capacity config →
  n + Z.of_nat k ≤ 65536 → encoded config n e sent →
  ∃ e' sent', mfor (encode_one disp) (e, raw_of <$> sent) (src <$> seqZ n (Z.of_nat k)) = Ok (e', raw_of <$> sent') ∧
    encoded config (n + Z.of_nat k) e' sent' ∧ (one_each n e sent → one_each (n + Z.of_nat k) e' sent').
Proof.
  induction k as [|k IH]; intros n e sent Hn Hk Hm Hat; [exists e, sent; by rw Z.add_0_r|].
  destruct (encode_one_ok config n e sent) as (e1 & sent1 & H1 & Hat1 & Hone1); [lia|lia|done|].
  destruct (IH (n + 1) e1 sent1) as (e2 & sent2 & H2 & Hat2 & Hone2); [lia|lia|lia|done|].
  exists e2, sent2. rw seqZ_cons; [|lia]. cbn [fmap list_fmap mfor]. rw H1 bind_Ok.
  replace (Z.pred (Z.of_nat (S k))) with (Z.of_nat k) by lia.
  replace (n + Z.of_nat (S k)) with (n + 1 + Z.of_nat k) by lia. split_and!; [exact H2|done|auto].
Qed.
End encoding.

(** ** Decoding *)
Section decoding.
Context (disp : Dispatch) `{HeaderCastLaw}.

#[export] Instance pipeline_consumer : Consumer ConstantFeedbackPolicy Decoding DelpError :=
  {| cs_decoder := dg_decoder; cs_feed := decode_one disp; cs_got s l := dg_delivered s = l |}.

Lemma source_type pkt p : Source.parse pkt = Ok p → pkt !! 3%nat = Some 0.
Proof.
  intros Hp. destruct (source_parse_type _ _ Hp) as (h & Hh & Ht). by destruct (header_parse_type _ _ _ Hh Ht) as [-> _].
Qed.
Lemma coded_type pkt p : Coded.parse pkt = Ok p → pkt !! 3%nat = Some 1.
Proof.
  intros Hp. destruct (coded_parse_type _ _ Hp) as (h & Hh & Ht). by destruct (header_parse_type _ _ _ Hh Ht) as [-> _].
Qed.

#[export] Instance pipeline_consumer_laws : ConsumerLaws disp ConstantFeedbackPolicy Decoding DelpError.
Proof.
  constructor; cbn; intros s raw p d new l <- Hp Hd; exists (push_ready s (d, new)); unfold decode_one, index.
  - rw (source_type _ _ Hp) bind_Ok Z.eqb_refl Hp. cbn [unwrap]. by rw bind_Ok Hd.
  - rw (coded_type _ _ Hp) bind_Ok /=. unfold decode_coded. rw Hp. cbn [unwrap]. by rw bind_Ok Hd.
Qed.

(** What the drop decisions let through. *)
Lemma lossy_feed pct sent : ∀ rng s, ∃ out, out `sublist_of` sent ∧ (pct ≤ 0 → out = sent) ∧
  ∃ rng', mfor (lossy_one disp pct) (rng, s) (raw_of <$> sent)
    = s' ← feed_all s (raw_of <$> out); Ok (rng', s').
Proof.
  induction sent as [|o sent IH]; intros rng s; [exists []; split_and!; [done..|by exists rng]|].
  cbn [fmap list_fmap mfor]. destruct (next_u32 rng) as [rng1 x] eqn:Hx.
  assert (lossy_one disp pct (rng, s) (raw_of o)
    = if x mod 100 <? pct then Ok (rng1, s) else s ← decode_one disp s (raw_of o); Ok (rng1, s)) as ->
    by (unfold lossy_one; by rw Hx).
  destruct (Z.ltb_spec (x mod 100) pct) as [Hlt|Hge].
  - destruct (IH rng1 s) as (out & Hsub & Hall & Hr). exists out. rw bind_Ok. split_and!; [by constructor| |done].
    intros Hp. pose proof (Z.mod_pos_bound x 100). lia.
  - destruct (decode_one disp s (raw_of o)) as [s1|err|] eqn:Hd.
    + destruct (IH rng1 s1) as (out & Hsub & Hall & rng2 & Hr). exists (o :: out). rw !bind_Ok.
      split_and!; [by constructor|intros Hp; by rw Hall|]. exists rng2. rw Hr. unfold feed_all.
      cbn [fmap list_fmap mfor cs_feed pipeline_consumer]. by rw Hd bind_Ok.
    + destruct (IH rng1 s) as (out & Hsub & Hall & _). exists (o :: out).
      split_and!; [by constructor|intros Hp; by rw Hall|]. exists rng1. unfold feed_all.
      cbn [fmap list_fmap mfor cs_feed pipeline_consumer]. by rw Hd.
    + destruct (IH rng1 s) as (out & Hsub & Hall & _). exists (o :: out).
      split_and!; [by constructor|intros Hp; by rw Hall|]. exists rng1. unfold feed_all.
      cbn [fmap list_fmap mfor cs_feed pipeline_consumer]. by rw Hd.
Qed.

(** The test without sources feeds the coded packets. *)
Definition only_coded (sent : list EncoderOutput) : list EncoderOutput :=
  filter (λ o, match o with OutCoded _ => true | OutSource _ => false end = true) sent.

Lemma coded_only_feed src config sent n m : emission src config n sent m → ∀ s,
  mfor (coded_only disp) s (raw_of <$> sent) = feed_all s (raw_of <$> only_coded sent).
Proof.
  induction 1 as [n|n pkt p sent m Hp _ _ _ IH|n pkt p sent m Hp _ _ IH]; intros s; [done|..].
  - cbn [fmap list_fmap mfor raw_of].
    assert (coded_only disp s pkt = Ok s) as -> by (unfold coded_only, index; by rw (source_type _ _ Hp)).
    rw bind_Ok. apply IH.
  - unfold only_coded. rw filter_cons_True //. cbn [fmap list_fmap mfor raw_of]. unfold feed_all.
    cbn [mfor cs_feed pipeline_consumer].
    assert (coded_only disp s pkt = decode_one disp s pkt) as ->
      by (unfold coded_only, decode_one, index; by rw (coded_type _ _ Hp)).
    destruct (decode_one disp s pkt) as [s1|err|]; [|done..]. rw !bind_Ok. apply IH.
Qed.

Lemma only_coded_spec sent : only_coded sent `sublist_of` sent ∧
  sent_source_ids (only_coded sent) = [] ∧ sent_vectors (only_coded sent) = sent_vectors sent.
Proof.
  unfold only_coded. induction sent as [|[pkt|pkt] sent (Hsub & Hs & Hv)]; [done|..].
  - rw filter_cons_False //. split_and!; [by constructor|done|done].
  - rw filter_cons_True //. split_and!; [by constructor|done|].
    unfold sent_vectors in *. cbn [omap list_omap]. by destruct (Coded.parse pkt); [rw Hv|..].
Qed.
End decoding.

(** ** The tests pass *)
Lemma byte_symbol n (f : Z → Z) : symbol (Z.to_nat n) ((λ j, u8 (f j)) <$> range 0 n).
Proof.
  unfold range. split; [by rw length_fmap length_seqZ Z.sub_0_r|]. apply Forall_fmap, Forall_true. intros j. apply u8_is.
Qed.

Section properties.
Context (disp : Dispatch) `{HeaderCastLaw}.
Local Abbreviation feed := (feed_all (Consumer0 := pipeline_consumer disp)).

(** Valid arguments of the configuration. *)
Record arguments_ok (field : Field) (strategy : MatrixStrategy) (sym_size n_symbols fec_n fec_d : Z) : Prop := {
  ar_size : 1 ≤ sym_size ≤ 65535;
  ar_symbols : 1 ≤ n_symbols < 256;
  ar_rate : 0 ≤ fec_n ∧ 1 ≤ fec_d;
  ar_cauchy : strategy = Cauchy → n_symbols ≤ EncoderBuilder.cauchy_max field;
}.

Lemma new_encoder_ok src field strategy sym_size n_symbols fec_n fec_d :
  arguments_ok field strategy sym_size n_symbols fec_n fec_d → (∀ i, symbol (Z.to_nat sym_size) (src i)) →
  ∃ config e, new_encoder field strategy sym_size n_symbols fec_n fec_d = Ok e ∧ encoded disp src config 0 e [] ∧
    ec_symbol_size config = sym_size ∧ ec_field config = field ∧ ec_window_capacity config = n_symbols ∧
    ec_matrix_strategy config = strategy ∧ (fec_n = 1 → fec_d = 1 → one_each 0 e []).
Proof.
  intros [Hs Hn [Hfn Hfd] Hc] Hsrc. unfold new_encoder.
  rw build_valid; [|unfold builder_usize; cbn; lia|unfold encoder_config_ok; cbn; rw Z.max_l; [|lia]; by split_and!; try lia].
  cbn [unwrap]. rw bind_Ok. unfold encoder_with_defaults, ConstantFecRate_new. cbn [config_of ec_fec_denom ec_fec_numer].
  rw (proj2 (Z.ltb_lt _ _)); [|cbn; lia]. cbn [rassert]. rw !bind_Ok. eexists _, _. split; [done|].
  split.
  - constructor; try done.
    apply session_new; [unfold encoder_config_ok; cbn; rw Z.max_l; [|lia]; by split_and!; try lia|cbn; lia|cbn; lia|done].
  - cbn. split_and!; [done|done|lia|done|]. intros -> ->. split; [done|lia].
Qed.

Lemma new_decoder_ok field sym_size : 1 ≤ sym_size ≤ 65535 →
  ∃ dconfig policy, new_decoder field sym_size = Ok (decoder_new dconfig policy) ∧ dc_field dconfig = field ∧
    dc_symbol_size dconfig = sym_size ∧ dc_max_matrix_rows dconfig = 512.
Proof.
  intros Hs. unfold new_decoder, DecoderBuilder.build. cbn.
  rw (proj2 (Z.eqb_neq _ _)); [|lia]. rw (proj2 (Z.ltb_ge _ _)); [|lia]. cbn. by eexists _, _.
Qed.

Lemma run_pipeline_ok field strategy sym_size n_symbols fec_n fec_d drop_pct seed :
  arguments_ok field strategy sym_size n_symbols fec_n fec_d →
  let src := mixed_symbol sym_size in
  ∃ l, run_pipeline disp field strategy sym_size n_symbols fec_n fec_d drop_pct seed
      = Ok (l, src <$> range 0 n_symbols) ∧
    Forall (λ '(id, data), data = src id) l ∧ StronglySorted Z.lt l.*1 ∧ l.*1 ⊆ seqZ 0 n_symbols ∧
    (drop_pct ≤ 0 → l = symbols_upto src 0 n_symbols).
Proof.
  intros Hargs src. pose proof Hargs as [Hs Hn _ _].
  destruct (new_encoder_ok src _ _ _ _ _ _ Hargs) as (config & e & He & Hat & Hsz & Hf & Hcap & _ & _);
    [intros i; apply byte_symbol|].
  destruct (new_decoder_ok field sym_size Hs) as (dconfig & policy & Hd & Hdf & Hds & _).
  unfold run_pipeline. rw He Hd !bind_Ok.
  destruct (encode_all_ok disp src config (Z.to_nat n_symbols) 0 e []) as (e' & sent & Hr & Hat' & _); [lia|lia|lia|done|].
  rw Z2Nat.id in Hr Hat'; [|lia]. unfold range. rw Z.sub_0_r. change (raw_of <$> []) with (@nil bytes) in Hr. rw Hr bind_Ok.
  destruct Hat' as [Hses Hc Hnext _ _]. destruct (enc_session_inv disp _ e' sent Hses) as [_ _ Hsrc _ Hem].
  rw Hc in Hsrc Hem. rw Hnext in Hem.
  set (s0 := {| dg_decoder := decoder_new dconfig policy; dg_delivered := [] |}).
  destruct (lossy_feed disp drop_pct sent (Lcg_new seed) s0) as (out & Hsub & Hall & rng & ->).
  assert (matching config dconfig) as Hmatch by by split; congruence.
  assert (drop_pct ≤ 0 → ∃ s, feed s0 (raw_of <$> out) = Ok s ∧ dg_delivered s = symbols_upto src 0 n_symbols) as Hlossless.
  { intros ->%Hall. destruct (emission_source_ids _ _ _ _ _ Hem) as [_ Hids].
    destruct (session_lossless (Consumer0 := pipeline_consumer disp) disp src config Hsrc n_symbols dconfig policy s0 sent sent)
      as (s & Hfeed & _ & Hgot); [done|done|lia|lia|done|done|done|by rw Hids Z.sub_0_r|by exists s]. }
  destruct (consumer_delivery (Consumer0 := pipeline_consumer disp) disp src config Hsrc n_symbols dconfig policy s0 sent out)
    as (s & l & Hfeed & Hgot & Hh & Hso & Hin); [done|done|lia|lia|done|done|done|].
  exists l. rw Hfeed !bind_Ok. cbn in Hgot. rw Hgot. split_and!; try done.
  intros Hp. destruct (Hlossless Hp) as (s' & Hfeed' & <-). rw Hfeed in Hfeed'. injection Hfeed' as <-. done.
Qed.

Lemma symbols_delivered (src : Z → bytes) n : 0 ≤ n → passes (all_delivered n (symbols_upto src 0 n) (src <$> range 0 n)).
Proof.
  intros Hn. unfold all_delivered. assert (length (symbols_upto src 0 n) = Z.to_nat n) as Hlen
    by (unfold symbols_upto; by rw length_fmap length_seqZ).
  rw Hlen Z2Nat.id // (assert_eq_refl n n eq_refl) bind_Ok.
  apply for_each_passes. unfold enumerate, range. rw Hlen Z2Nat.id // !Z.sub_0_r. unfold symbols_upto.
  rw zip_fmap_id Forall_fmap. apply Forall_forall. intros i Hi%elem_of_seqZ. cbn.
  rw (assert_eq_refl i i eq_refl) bind_Ok. unfold index.
  rw list_lookup_fmap lookup_seqZ_lt; [|lia]. cbn [fmap option_fmap option_map]. rw bind_Ok. apply assert_eq_refl.
  f_equal. lia.
Qed.

Lemma not_corrupt (src : Z → bytes) n l : 0 ≤ n → Forall (λ '(id, data), data = src id) l →
  StronglySorted Z.lt l.*1 → l.*1 ⊆ seqZ 0 n → passes (never_corrupt l (src <$> range 0 n)).
Proof.
  intros Hn Hh Hso Hin. unfold never_corrupt.
  assert (passes (for_each (zip l (tail l)) (λ '(a, b), rassert (a.1 <? b.1)))) as ->.
  { apply for_each_passes. clear Hh Hin. induction l as [|a [|b l] IH]; [constructor|constructor|].
    cbn in *. inversion Hso as [|?? Hso' Ha]; subst. constructor; [|by apply IH].
    inversion Ha; subst. unfold passes. by rw (proj2 (Z.ltb_lt _ _)). }
  rw bind_Ok. apply for_each_passes. apply Forall_forall. intros [id data] Hd.
  rw Forall_forall in Hh. pose proof (Hh _ Hd) as Heq. cbn in Heq. subst data.
  assert (id ∈ seqZ 0 n) as Hid%elem_of_seqZ by (apply Hin, list_elem_of_fmap; by exists (id, src id)).
  unfold index, range. rw list_lookup_fmap lookup_seqZ_lt; [|lia]. cbn [fmap option_fmap option_map]. rw bind_Ok. apply assert_eq_refl.
  f_equal. lia.
Qed.

(** A packet over the symbols up to each ID determines them all, one by one. *)
Lemma triangular_determined f m vs : m ≤ 65536 →
  (∀ ev, ev ∈ vs → ∀ x, coef_ok f (coef_at (ev_terms ev) x)) →
  (∀ x, 0 ≤ x < m → ∃ ev, ev ∈ vs ∧ ev_source_ids ev = seqZ 0 (x + 1) ∧ vandermonde_packet f ev ∧ ev_field ev = f) →
  determined f (session_ids m) [] vs.
Proof.
  intros Hm Hco Hev v Hv _ Hzero.
  assert (∀ k x, 0 ≤ x < Z.of_nat k → x < m → v x = 0) as Hall.
  { induction k as [|k IH]; intros x Hx Hxm; [lia|].
    destruct (decide (x = Z.of_nat k)) as [->|Hne]; [|apply IH; lia].
    set (x := Z.of_nat k) in *. destruct (Hev x ltac:(lia)) as (ev & Hin & Hids & [Himp _] & Hf).
    destruct (vandermonde_coef_ok f x (ev_coded_id ev)) as [Hc Hc0].
    assert (coef_at (ev_terms ev) x = vandermonde_coef f x (ev_coded_id ev)) as Hx'.
    { unfold ev_terms. rw Himp Hf Hids.
      apply (coef_at_fmap (λ y, vandermonde_coef f y (ev_coded_id ev))), elem_of_seqZ. lia. }
    assert (inner f (session_ids m) (coef_at (ev_terms ev)) v
      = @gf_mul (gf_field f) (vandermonde_coef f x (ev_coded_id ev)) (v x)) as Heq.
    { rw -(gsum_single (session_ids m) x (@gf_mul (gf_field f) (vandermonde_coef f x (ev_coded_id ev)) (v x)));
        [|apply NoDup_seqZ|apply elem_of_seqZ; lia].
      apply gsum_ext. intros y [Hy Hym]%elem_of_seqZ. case_decide as Hyx; [by rw Hyx Hx'|].
      destruct (decide (y < x)) as [Hlt|Hge].
      - rw (IH y); [|lia|lia]. apply gf_mul_0_r; [apply _|by apply Hco].
      - rw coef_at_notin; [apply gf_mul_0_l; [apply _|apply Hv]|]. unfold ev_terms. rw Himp Hids.
        rw -list_fmap_compose list_fmap_id elem_of_seqZ. lia. }
    rw (Hzero ev Hin) in Heq. symmetry in Heq.
    apply gf_mul_eq_0 in Heq as [|]; [done|done|apply _|done|apply Hv]. }
  intros x [? ?]%elem_of_seqZ. apply (Hall (Z.to_nat m)); lia.
Qed.

Lemma corrupt_free field strategy sym_size n_symbols drop_pct seed :
  arguments_ok field strategy sym_size n_symbols 1 1 →
  passes ('(delivered, expected) ← run_pipeline disp field strategy sym_size n_symbols 1 1 drop_pct seed;
          never_corrupt delivered expected).
Proof.
  intros Hargs. destruct (run_pipeline_ok _ _ _ _ _ _ drop_pct seed Hargs) as (l & -> & Hh & Hso & Hin & _).
  rw bind_Ok. apply not_corrupt; [|done..]. destruct Hargs. lia.
Qed.

(** The seeded symbols, for the seeds that do not overflow, and the others. *)
Definition largest_sum (sym_size n_symbols seed : Z) : Z := n_symbols - 1 + (sym_size - 1) + seed.
Definition seeded_bytes (seed sym_size i : Z) : bytes :=
  (λ j, u8 (Z.land (i + j + seed) 255)) <$> range 0 sym_size.

Lemma seeded_symbols_ok sym_size n_symbols seed : 0 ≤ seed → largest_sum sym_size n_symbols seed < 18446744073709551616 →
  mmap (seeded_symbol seed sym_size) (range 0 n_symbols) = Ok (seeded_bytes seed sym_size <$> range 0 n_symbols).
Proof.
  intros Hseed Hmax. unfold largest_sum in Hmax. apply mmap_pure. intros i [? ?]%elem_of_seqZ.
  apply mmap_pure. intros j [? ?]%elem_of_seqZ. unfold seeded_byte, usize_add.
  rw (proj2 (Z.ltb_lt _ _)); [|lia]. rw bind_Ok (proj2 (Z.ltb_lt _ _)); [done|lia].
Qed.

Lemma seeded_symbols_overflow sym_size n_symbols seed : 1 ≤ sym_size → 1 ≤ n_symbols →
  18446744073709551616 ≤ largest_sum sym_size n_symbols seed →
  mmap (seeded_symbol seed sym_size) (range 0 n_symbols) = Panic.
Proof.
  intros Hs Hn Hmax. unfold largest_sum in Hmax.
  assert (∀ i j err, seeded_byte seed i j ≠ Err err) as Herr
    by (intros i j err; unfold seeded_byte, usize_add;
        destruct (i + j <? _); [rw bind_Ok; by destruct (_ <? _)|done]).
  apply (mmap_panics _ _ (n_symbols - 1)); [intros i; apply mmap_not_err, Herr|apply elem_of_seqZ; lia|].
  apply (mmap_panics _ _ (sym_size - 1)); [apply Herr|apply elem_of_seqZ; lia|].
  unfold seeded_byte, usize_add. destruct (_ + _ <? _); [|done]. rw bind_Ok (proj2 (Z.ltb_ge _ _)); [done|lia].
Qed.

(** When the sum overflows, the test panics before it sends anything. *)
Lemma pure_fec_overflows sym_size n_symbols seed : 1 ≤ sym_size ≤ 65535 → 1 ≤ n_symbols < 256 →
  18446744073709551616 ≤ largest_sum sym_size n_symbols seed →
  pure_fec_recovery_with_1to1 disp sym_size n_symbols seed = Panic.
Proof.
  intros Hs Hn Hmax. unfold pure_fec_recovery_with_1to1.
  destruct (new_encoder_ok (seeded_bytes seed sym_size) Gf2_8 Vandermonde sym_size n_symbols 1 1)
    as (config & e & -> & _); [by constructor|intros i; apply byte_symbol|].
  destruct (new_decoder_ok Gf2_8 sym_size Hs) as (dconfig & policy & -> & _).
  rw !bind_Ok. rw seeded_symbols_overflow; [done|lia|lia|done].
Qed.

Lemma pure_fec_ok sym_size n_symbols seed : 1 ≤ sym_size ≤ 65535 → 1 ≤ n_symbols < 256 → 0 ≤ seed →
  largest_sum sym_size n_symbols seed < 18446744073709551616 →
  passes (pure_fec_recovery_with_1to1 disp sym_size n_symbols seed).
Proof.
  intros Hs Hn Hseed Hsum. set (src := seeded_bytes seed sym_size).
  destruct (new_encoder_ok src Gf2_8 Vandermonde sym_size n_symbols 1 1) as (config & e & He & Hat & Hsz & Hf & Hcap & Hst & Hone0);
    [by constructor|intros i; apply byte_symbol|].
  destruct (new_decoder_ok Gf2_8 sym_size Hs) as (dconfig & policy & Hd & Hdf & Hds & Hmax).
  unfold pure_fec_recovery_with_1to1. rw He Hd !bind_Ok. rw seeded_symbols_ok; [|done|done]. rw bind_Ok -/src.
  destruct (encode_all_ok disp src config (Z.to_nat n_symbols) 0 e []) as (e' & sent & Hr & Hat' & Hone); [lia|lia|lia|done|].
  rw Z2Nat.id in Hr Hat' Hone; [|lia]. unfold range. rw Z.sub_0_r. change (raw_of <$> []) with (@nil bytes) in Hr. rw Hr bind_Ok.
  specialize (Hone (Hone0 eq_refl eq_refl)) as [_ Hone].
  destruct Hat' as [Hses Hc Hnext _ Hcov]. destruct (enc_session_inv disp _ e' sent Hses) as [_ _ Hsrc _ Hem].
  rw Hc in Hsrc Hem. rw Hnext in Hem. rw Z.add_0_l in Hem Hone Hcov.
  set (s0 := {| dg_decoder := decoder_new dconfig policy; dg_delivered := [] |}).
  rw (coded_only_feed disp src config sent 0 n_symbols Hem).
  destruct (only_coded_spec sent) as (Hsub & Hids & Hvs).
  destruct (session_solved_complete (Consumer0 := pipeline_consumer disp) disp src config Hsrc n_symbols dconfig policy s0
    sent (only_coded sent)) as (s & -> & Hgot & _); [done|done|lia|lia|by split; congruence|done|done|..].
  - rw Hmax. unfold lost_ids. pose proof (length_filter (λ x, x ∉ sent_source_ids (only_coded sent)) (seqZ 0 n_symbols)) as Hl.
    rw length_seqZ in Hl. lia.
  - rw Hids Hvs. rw Hf. apply triangular_determined; [lia| |].
    + intros ev Hev y. rw -Hf. by apply (sent_vector_coefs src config n_symbols sent sent).
    + intros x Hx. destruct (Hone x Hx) as (ev & Hev & Hi). exists ev. split; [done|]. split; [done|].
      destruct (sent_vector_honest src config n_symbols sent sent ev Hem) as (p & <- & [[Hpf _] _ _ _ _ Hv]); [done|done|].
      rw Hf in Hpf Hv. by split; [apply Hv|].
  - rw Hvs. unfold covers_first. eapply Forall_impl; [exact Hcov|]. intros ev (x & Hx & ->). rw seqZ_cons; [done|lia].
  - rw bind_Ok. cbn in Hgot. rw Hgot.
    pose proof (symbols_delivered src n_symbols ltac:(lia)) as Hp. unfold range in Hp. by rw Z.sub_0_r in Hp.
Qed.

(** C39: the property-based tests of the codec, for every value they may draw: over
    a lossless channel everything is delivered; with one coded packet per source
    packet everything is delivered when every source packet is lost, except that
    the largest seeds, with which [i + j + seed] leaves 64 bits, make this test
    panic in the profile tests run in; and under any loss, with both strategies
    and both fields, nothing corrupt and nothing out of order is delivered, and
    nothing panics. *)
Theorem pipeline_properties :
  (∀ sym_size n_symbols fec_n fec_d, 16 ≤ sym_size ≤ 512 → 1 ≤ n_symbols ≤ 32 → 0 ≤ fec_n ≤ 2 → 1 ≤ fec_d ≤ 4 →
    passes (lossless_round_trip_delivers_all disp sym_size n_symbols fec_n fec_d)) ∧
  (∀ sym_size n_symbols seed, 16 ≤ sym_size ≤ 256 → 1 ≤ n_symbols ≤ 24 → is_u64 seed →
    pure_fec_recovery_with_1to1 disp sym_size n_symbols seed
    = if largest_sum sym_size n_symbols seed <? 18446744073709551616 then Ok tt else Panic) ∧
  (∀ sym_size n_symbols drop_pct seed, 16 ≤ sym_size ≤ 256 → 1 ≤ n_symbols ≤ 20 → 0 ≤ drop_pct ≤ 80 → is_u64 seed →
    passes (never_corrupt_under_random_loss disp sym_size n_symbols drop_pct seed)) ∧
  (∀ sym_size n_symbols drop_pct seed, 16 ≤ sym_size ≤ 256 → 1 ≤ n_symbols ≤ 8 → 0 ≤ drop_pct ≤ 70 → is_u64 seed →
    passes (cauchy_never_corrupt_under_random_loss disp sym_size n_symbols drop_pct seed)) ∧
  (∀ sym_size n_symbols drop_pct seed, 16 ≤ sym_size ≤ 128 → 1 ≤ n_symbols ≤ 8 → 0 ≤ drop_pct ≤ 60 → is_u64 seed →
    passes (gf2_4_never_corrupt disp sym_size n_symbols drop_pct seed)).
Proof.
  split_and!.
  - intros sym n fn fd Hs Hn Hfn Hfd.
    destruct (run_pipeline_ok Gf2_8 Vandermonde sym n fn fd 0 0) as (l & Hr & _ & _ & _ & Hl); [by constructor; cbn; lia|].
    unfold lossless_round_trip_delivers_all. rw Hr bind_Ok Hl; [|lia]. apply symbols_delivered. lia.
  - intros sym n seed Hs Hn [Hseed _]. destruct (Z.ltb_spec (largest_sum sym n seed) 18446744073709551616).
    + apply pure_fec_ok; lia.
    + apply pure_fec_overflows; lia.
  - intros sym n pct seed Hs Hn _ _. by apply corrupt_free; constructor; cbn; first [done|lia].
  - intros sym n pct seed Hs Hn _ _. by apply corrupt_free; constructor; cbn; first [done|lia].
  - intros sym n pct seed Hs Hn _ _. by apply corrupt_free; constructor; cbn; first [done|lia].
Qed.
End properties.

Lemma pipeline_properties_witness :
  passes (@pure_fec_recovery_with_1to1 Avx2 ReprC.cast 64 24 1234567890123) ∧
  passes (@gf2_4_never_corrupt Neon ReprC.cast 16 8 60 7).
Proof.
  destruct (@pipeline_properties Avx2 ReprC.cast ReprC.cast_law) as (_ & Hfec & _).
  destruct (@pipeline_properties Neon ReprC.cast ReprC.cast_law) as (_ & _ & _ & _ & Hgf).
  split; [by unfold passes; rw Hfec; [|word_bound..]|apply Hgf; word_bound].
Defined.
