(* ===== verification/KernelProps.v ===== *)
(** * tests/proptest_simd.rs: the property-based tests of the byte kernels

    Each test is a function of the values proptest draws; the theorem says that it
    passes for all of them, on every CPU. *)

From S2P Require Import Prelude Error Config Gf Simd Testing TestsGf.
#[global] Open Scope Z_scope.

Section tests.
Context (cpu : Dispatch).

Definition mul_acc_gf2_8_matches_reference (coef : Z) (data : bytes) : test :=
  simd_dst ← mul_acc_gf2_8 cpu (replicate (length data) 0) data coef;
  assert_eq simd_dst (mul_acc_gf2_8_reference (replicate (length data) 0) data coef).
Definition mul_scale_gf2_8_matches_reference (coef : Z) (buf : bytes) : test :=
  simd_buf ← mul_scale_gf2_8 cpu buf coef;
  assert_eq simd_buf (mul_scale_gf2_8_reference buf coef).
Definition mul_acc_gf2_4_matches_reference (coef : Z) (data : bytes) : test :=
  simd_dst ← mul_acc_gf2_4 cpu (replicate (length data) 0) data coef;
  assert_eq simd_dst (mul_acc_gf2_4_reference (replicate (length data) 0) data coef).
Definition mul_scale_gf2_4_via_acc_consistency (coef : Z) (buf : bytes) : test :=
  scaled ← mul_scale_gf2_4 cpu buf coef;
  acc ← mul_acc_gf2_4 cpu (replicate (length buf) 0) buf coef;
  assert_eq scaled acc.
Definition mul_acc_gf2_8_identity_coef (len : nat) (seed : Z) : test :=
  let data := (λ i, u8 (seed + u8 i)) <$> range 0 (Z.of_nat len) in
  dst ← mul_acc_gf2_8 cpu (replicate len 0) data 1;
  assert_eq dst data.
Definition coef_zero_acc_is_noop_scale_zeros (buf : bytes) : test :=
  acc_dst ← mul_acc_gf2_8 cpu buf buf 0;
  _ ← assert_eq acc_dst buf;
  scale_buf ← mul_scale_gf2_8 cpu buf 0;
  rassert (forallb (λ b, b =? 0) scale_buf).
Definition tail_handling_all_short_lengths (coef : Z) (len : nat) (seed : Z) : test :=
  let data := (λ i, u8 (seed * u8 (u8 i + 1))) <$> range 0 (Z.of_nat len) in
  simd_dst ← mul_acc_gf2_8 cpu (replicate len 0) data coef;
  assert_eq simd_dst (mul_acc_gf2_8_reference (replicate len 0) data coef).
End tests.

(** ** They pass *)
Lemma vxor_zeros n (l : bytes) : length l = n → vxor (replicate n 0) l = l.
Proof. intros <-. induction l as [|a l IH]; [done|]. cbn. unfold vxor in IH. by rw IH. Qed.

(** Accumulating into zeros is scaling. *)
Lemma acc_zeros cpu f n data coef : length data = n → bytes_ok data → coef_ok f coef →
  mul_acc cpu f (replicate n 0) data coef = Ok (smul f coef <$> data).
Proof.
  intros <- Hd Hc. rw mul_acc_spec //; [|apply length_replicate]. by rw vxor_zeros ?length_fmap.
Qed.
Lemma range_bytes (f : Z → Z) n : bytes_ok ((λ i, u8 (f i)) <$> range 0 (Z.of_nat n)) ∧
  length ((λ i, u8 (f i)) <$> range 0 (Z.of_nat n)) = n.
Proof.
  unfold range. rw length_fmap length_seqZ Z.sub_0_r Nat2Z.id. split; [|done]. apply Forall_fmap, Forall_true. intros i. apply u8_is.
Qed.

(** The property-based tests of the kernels hold of every value they may draw,
    on every CPU: the kernels are the references, scaling is accumulating into
    zeros, the coefficient 1 copies, the coefficient 0 does nothing or clears. *)
Theorem kernel_properties cpu :
  (∀ coef data, 0 ≤ coef ≤ 255 → bytes_ok data → passes (mul_acc_gf2_8_matches_reference cpu coef data)) ∧
  (∀ coef buf, 0 ≤ coef ≤ 255 → bytes_ok buf → passes (mul_scale_gf2_8_matches_reference cpu coef buf)) ∧
  (∀ coef data, 0 ≤ coef < 16 → bytes_ok data → passes (mul_acc_gf2_4_matches_reference cpu coef data)) ∧
  (∀ coef buf, 0 ≤ coef < 16 → bytes_ok buf → passes (mul_scale_gf2_4_via_acc_consistency cpu coef buf)) ∧
  (∀ len seed, 0 ≤ seed ≤ 255 → passes (mul_acc_gf2_8_identity_coef cpu len seed)) ∧
  (∀ buf, bytes_ok buf → passes (coef_zero_acc_is_noop_scale_zeros cpu buf)) ∧
  (∀ coef len seed, 0 ≤ coef ≤ 255 → 0 ≤ seed ≤ 255 → passes (tail_handling_all_short_lengths cpu coef len seed)).
Proof.
  split_and!.
  - intros coef data Hc Hd. apply (acc_matches cpu Gf2_8); [apply length_replicate|done|apply coef8_ok; lia].
  - intros coef buf Hc Hb. unfold mul_scale_gf2_8_matches_reference. change (mul_scale_gf2_8 cpu buf coef) with (mul_scale cpu Gf2_8 buf coef).
    rw (mul_scale_spec cpu Gf2_8 buf coef Hb (coef8_ok coef ltac:(lia))) bind_Ok. by apply assert_eq_refl.
  - intros coef data Hc Hd. by apply (acc_matches cpu Gf2_4); [apply length_replicate|..].
  - intros coef buf Hc Hb. unfold mul_scale_gf2_4_via_acc_consistency.
    change (mul_scale_gf2_4 cpu buf coef) with (mul_scale cpu Gf2_4 buf coef).
    change (mul_acc_gf2_4 cpu) with (mul_acc cpu Gf2_4).
    rw (mul_scale_spec cpu Gf2_4 buf coef Hb Hc) (acc_zeros cpu Gf2_4 _ buf coef eq_refl Hb Hc) !bind_Ok. by apply assert_eq_refl.
  - intros len seed _. unfold mul_acc_gf2_8_identity_coef. destruct (range_bytes (λ i, seed + u8 i) len) as [Hd Hl].
    change (mul_acc_gf2_8 cpu) with (mul_acc cpu Gf2_8). rw (acc_zeros cpu Gf2_8 len _ 1 Hl Hd (coef8_ok 1 ltac:(clear; lia))) bind_Ok. apply assert_eq_refl.
    rw -{2}(list_fmap_id ((λ i, u8 (seed + u8 i)) <$> range 0 (Z.of_nat len))). apply list_fmap_ext.
    intros k b Hk. apply (smul_1 Gf2_8). rw Forall_lookup in Hd. exact (Hd k b Hk).
  - intros buf Hb. unfold coef_zero_acc_is_noop_scale_zeros.
    change (mul_acc_gf2_8 cpu) with (mul_acc cpu Gf2_8). change (mul_scale_gf2_8 cpu) with (mul_scale cpu Gf2_8).
    rw (mul_acc_spec cpu Gf2_8 buf buf 0 eq_refl Hb (coef8_ok 0 ltac:(lia))) bind_Ok vxor_zero //.
    rw (assert_eq_refl buf buf eq_refl) bind_Ok (mul_scale_spec cpu Gf2_8 buf 0 Hb (coef8_ok 0 ltac:(lia))) bind_Ok.
    unfold passes, rassert. rw (proj2 (forallb_forall _ _)) //. intros x (b & -> & Hin)%list_elem_of_In%list_elem_of_fmap.
    rw Forall_forall in Hb. by rw (smul_0_l Gf2_8); [|apply Hb].
  - intros coef len seed Hc _. unfold tail_handling_all_short_lengths.
    destruct (range_bytes (λ i, seed * u8 (u8 i + 1)) len) as [Hd Hl].
    apply (acc_matches cpu Gf2_8); [by rw length_replicate Hl|exact Hd|apply coef8_ok; lia].
Qed.

Lemma kernel_properties_witness :
  passes (mul_scale_gf2_8_matches_reference Avx2 29 (replicate 70 200)) ∧
  passes (tail_handling_all_short_lengths Neon 255 63 17).
Proof.
  split.
  - apply (proj1 (proj2 (kernel_properties Avx2))); [lia|]. apply Forall_replicate. word_bound.
  - apply (proj2 (proj2 (proj2 (proj2 (proj2 (proj2 (kernel_properties Neon))))))); lia.
Defined.
