(* ===== verification/TestsSession.v ===== *)
(** * The integration tests of tests/

    One Module per file, run on the model like the unit tests: altc.rs,
    cauchy_unlimited_session.rs, stress.rs and async_transport.rs, whose loopback
    sockets deliver every datagram in order and whose timeouts fire when nothing
    is left to arrive.  The property-based ones are in Pipeline.v and
    KernelProps.v. *)

From S2P Require Import Prelude Error Config Simd EncVec Common Packets F64 Feedback Packet Policy Window LinComb Encoder BTree Buffer Matrix Decoder Consumer Transport Sender Session EndToEnd Lossless CliSend CliBench CliDemo Testing Pipeline.
#[global] Open Scope Z_scope.

#[local] Existing Instance ReprC.cast.
#[local] Existing Instance ReprC.cast_law.

(** [EncoderOutput::Coded(b) => b, _ => panic!()] *)
Definition coded_raw (out : option EncoderOutput) : result bytes :=
  match out with Some (OutCoded b) => Ok b | _ => Panic end.

Module altc.
Section kernel.
Context (disp : Dispatch).

Definition SYM : Z := 64.
Definition N_SRC : Z := 32.

Definition payload (i : Z) : bytes := (λ j, u8 (Z.land (i * 17 + j * 5) 255)) <$> range 0 SYM.
Definition payloads : list bytes := payload <$> range 0 N_SRC.

Definition enc_cfg (strategy : MatrixStrategy) : result EncoderConfig :=
  unwrap (EncoderBuilder.build
    (EncoderBuilder.fec_rate 0 1
    (EncoderBuilder.window_capacity N_SRC
    (EncoderBuilder.matrix_strategy strategy (EncoderBuilder.new SYM))))).
Definition submit_all {W C F} `{WindowPolicy W} `{CongestionControl C} `{FecRateController F}
    (enc : Encoder W C F) (payloads : list bytes) : result (Encoder W C F) :=
  mfor (λ enc p, '(enc, _) ← unwrap (submit_source disp enc p); Ok enc) enc payloads.
Definition build_enc (strategy : MatrixStrategy) : result (Encoder AnyAckPolicy NoCongestionControl ConstantFecRate) :=
  cfg ← enc_cfg strategy;
  enc ← encoder_with_defaults cfg;
  submit_all enc payloads.
Definition build_dec : result (Decoder ConstantFeedbackPolicy) :=
  dec_cfg ← unwrap (DecoderBuilder.build
    (DecoderBuilder.feedback_every 4294967295 (DecoderBuilder.new SYM)));
  decoder_with_defaults dec_cfg.
(** An encoder that waits for every receiver, and makes no coded packets itself. *)
Definition build_all_ack (payloads : list bytes) : result (Encoder AllAckPolicy NoCongestionControl ConstantFecRate) :=
  cfg ← enc_cfg Vandermonde;
  fec ← disabled;
  submit_all (encoder_new cfg AllAck NoCc fec) payloads.

Definition targeted_cauchy_packet_is_smaller_than_full_window : test :=
  enc ← build_enc Cauchy;
  '(enc, targeted) ← unwrap (generate_coded_targeted disp enc (range (N_SRC - 4) N_SRC));
  targeted ← coded_raw targeted;
  '(enc, full) ← unwrap (generate_coded disp enc);
  full ← coded_raw full;
  _ ← rassert (length targeted <? length full)%nat;
  cp_t ← unwrap (Coded.parse targeted);
  cp_f ← unwrap (Coded.parse full);
  _ ← assert_eq (length (ev_source_ids (Coded.ev cp_t))) 4%nat;
  _ ← assert_eq (Z.of_nat (length (ev_source_ids (Coded.ev cp_f)))) N_SRC;
  _ ← assert_eq (length (ev_coefficients (Coded.ev cp_t))) 4%nat;
  assert_eq (Z.of_nat (length (ev_coefficients (Coded.ev cp_f)))) N_SRC.
Definition targeted_vandermonde_reduces_matrix_row_weight : test :=
  enc ← build_enc Vandermonde;
  '(enc, targeted) ← unwrap (generate_coded_targeted disp enc [1; 5; 9; 13; 17; 21]);
  targeted ← coded_raw targeted;
  '(enc, full) ← unwrap (generate_coded disp enc);
  full ← coded_raw full;
  cp_t ← unwrap (Coded.parse targeted);
  cp_f ← unwrap (Coded.parse full);
  _ ← assert_eq (length (ev_source_ids (Coded.ev cp_t))) 6%nat;
  _ ← assert_eq (Z.of_nat (length (ev_source_ids (Coded.ev cp_f)))) N_SRC;
  rassert (length (ev_source_ids (Coded.ev cp_t)) <? length (ev_source_ids (Coded.ev cp_f)))%nat.
Definition recent_selects_tail : test :=
  enc ← build_enc Vandermonde;
  '(_, pkt) ← unwrap (generate_coded_recent disp enc 8);
  pkt ← coded_raw pkt;
  cp ← unwrap (Coded.parse pkt);
  assert_eq (ev_source_ids (Coded.ev cp)) (range (N_SRC - 8) N_SRC).
Definition targeted_packet_recovers_lost_source : test :=
  enc ← build_enc Vandermonde;
  dec ← build_dec;
  dec ← mfor (λ dec ip,
    let '(i, p) := ip in
    if i =? 20 then Ok dec else
    raw ← Source.serialise (u32 i) p [] None;
    sp ← unwrap (Source.parse raw);
    '(dec, _) ← unwrap (handle_source disp dec sp);
    Ok dec) dec (enumerate payloads);
  '(_, pkt) ← unwrap (generate_coded_targeted disp enc (range 16 32));
  pkt ← coded_raw pkt;
  cp ← unwrap (Coded.parse pkt);
  _ ← assert_eq (length (ev_source_ids (Coded.ev cp))) 16%nat;
  '(_, events) ← unwrap (handle_coded disp dec cp);
  recovered_correct ← mfor (λ recovered_correct sym,
    if sym.1 =? 20 then _ ← assert_eq sym.2 (payload 20); Ok true else Ok recovered_correct)
    false (delivered events);
  rassert recovered_correct.
Definition for_receiver_excludes_acked_symbols : test :=
  enc ← build_enc Vandermonde;
  fb ← build 0 0 0 (f_of_Z 0) (range 0 16);
  _ ← handle_feedback enc 1 fb;
  enc2 ← build_all_ack payloads;
  fb ← build 0 0 0 (f_of_Z 0) (range 0 16);
  enc2 ← handle_feedback enc2 1 fb;
  '(_, pkt) ← unwrap (generate_coded_for_receiver disp enc2 1);
  pkt ← coded_raw pkt;
  cp ← unwrap (Coded.parse pkt);
  let cover := ev_source_ids (Coded.ev cp) in
  _ ← assert_eq (length cover) 16%nat;
  rassert (forallb (λ id, 16 <=? id) cover).
Definition for_receiver_returns_none_when_fully_acked : test :=
  enc ← build_all_ack ((λ i, replicate (Z.to_nat SYM) (u8 i)) <$> range 0 N_SRC);
  fb ← build 0 0 0 (f_of_Z 0) (range 0 N_SRC);
  enc ← handle_feedback enc 7 fb;
  '(_, result) ← unwrap (generate_coded_for_receiver disp enc 7);
  rassert (match result with None => true | Some _ => false end).
Definition targeted_with_empty_cover_returns_none : test :=
  enc ← build_enc Vandermonde;
  '(_, result) ← unwrap (generate_coded_targeted disp enc []);
  rassert (match result with None => true | Some _ => false end).
Definition targeted_filters_ids_not_in_window : test :=
  enc ← build_enc Vandermonde;
  '(_, pkt) ← unwrap (generate_coded_targeted disp enc [5; 6; 99999; 8; 1000000]);
  raw ← coded_raw pkt;
  cp ← unwrap (Coded.parse raw);
  assert_eq (ev_source_ids (Coded.ev cp)) [5; 6; 8].

Definition tests : list test :=
  [targeted_cauchy_packet_is_smaller_than_full_window; targeted_vandermonde_reduces_matrix_row_weight;
   recent_selects_tail; targeted_packet_recovers_lost_source; for_receiver_excludes_acked_symbols;
   for_receiver_returns_none_when_fully_acked; targeted_with_empty_cover_returns_none;
   targeted_filters_ids_not_in_window].
End kernel.
End altc.

Lemma altc_tests_run disp : Forall passes (altc.tests disp).
Proof. destruct disp; repeat (constructor; [vm_compute; reflexivity|]); constructor. Qed.

Module cauchy_unlimited_session.
Section kernel.
Context (disp : Dispatch).

Local Abbreviation DefaultEncoder := (Encoder AnyAckPolicy NoCongestionControl ConstantFecRate).
Local Abbreviation DefaultDecoder := (Decoder ConstantFeedbackPolicy).

Definition SYM : Z := 64.
Definition build_pair (n_src : Z) : result (DefaultEncoder * DefaultDecoder) :=
  enc_cfg ← unwrap (EncoderBuilder.build
    (EncoderBuilder.fec_rate 0 1
    (EncoderBuilder.window_capacity n_src
    (EncoderBuilder.matrix_strategy Cauchy (EncoderBuilder.new SYM)))));
  dec_cfg ← unwrap (DecoderBuilder.build
    (DecoderBuilder.feedback_every 4294967295 (DecoderBuilder.new SYM)));
  enc ← encoder_with_defaults enc_cfg;
  dec ← decoder_with_defaults dec_cfg;
  Ok (enc, dec).

(** Submit a symbol and give its source packet to the decoder, unless it is lost. *)
Definition submit_direct (lost : Z → bool) (st : DefaultEncoder * DefaultDecoder) (ip : Z * bytes)
  : result (DefaultEncoder * DefaultDecoder) :=
  let '(enc, dec) := st in
  '(enc, outs) ← unwrap (submit_source disp enc ip.2);
  dec ← mfor (λ dec out,
    match out with
    | OutSource raw =>
        if lost ip.1 then Ok dec else
        sp ← unwrap (Source.parse raw);
        '(dec, _) ← unwrap (handle_source disp dec sp);
        Ok dec
    | OutCoded _ => Ok dec
    end) dec outs;
  Ok (enc, dec).

Definition payload (i : Z) : bytes := (λ j, u8 (Z.land (i * 37 + j * 11) 255)) <$> range 0 SYM.
Definition coded_once (st : DefaultEncoder * DefaultDecoder * Z) (_ : Z) : result (DefaultEncoder * DefaultDecoder * Z) :=
  let '(enc, dec, seen) := st in
  '(enc, pkt) ← unwrap (generate_coded disp enc);
  raw ← coded_raw pkt;
  cp ← unwrap (Coded.parse raw);
  '(dec, _) ← unwrap (handle_coded disp dec cp);
  Ok (enc, dec, Z.max seen (ev_generation (Coded.ev cp))).
Definition run_long_cauchy_session (n_coded : Z) : test :=
  let N_SRC := 12 in
  '(enc, dec) ← build_pair N_SRC;
  let payloads := payload <$> range 0 N_SRC in
  '(enc, dec) ← mfor (submit_direct (λ _, false)) (enc, dec) (enumerate payloads);
  '(_, dec, max_generation_seen) ← mfor coded_once (enc, dec, 0) (range 0 n_coded);
  let expected_min_gen := u8 (Z.max 0 (n_coded / 128 - 1)) in
  _ ← rassert (expected_min_gen <=? max_generation_seen);
  assert_eq (next_delivery_id dec) N_SRC.

Definition cauchy_runs_past_old_128_limit : test := run_long_cauchy_session 200.
Definition cauchy_runs_for_thousand_packets : test := run_long_cauchy_session 1200.

(** [for _attempt in 0..8], left when symbol 1 was recovered *)
Fixpoint attempts (n : nat) (expected : bytes) (enc : DefaultEncoder) (dec : DefaultDecoder) : result bool :=
  match n with
  | O => Ok false
  | S n =>
      '(enc, pkt) ← unwrap (generate_coded disp enc);
      pkt ← unwrap_some pkt;
      match pkt with
      | OutCoded raw =>
          cp ← unwrap (Coded.parse raw);
          '(dec, events) ← unwrap (handle_coded disp dec cp);
          recovered ← mfor (λ recovered sym,
            if sym.1 =? 1 then _ ← assert_eq sym.2 expected; Ok true else Ok recovered) false (delivered events);
          if recovered : bool then Ok true else attempts n expected enc dec
      | OutSource _ => attempts n expected enc dec
      end
  end.
Definition cauchy_recovers_lost_source_across_generation_boundary : test :=
  let N_SRC := 4 in
  '(enc, dec) ← build_pair N_SRC;
  let payloads := (λ i, replicate (Z.to_nat SYM) (u8 (u8 i * 31))) <$> range 0 N_SRC in
  '(enc, dec) ← mfor (submit_direct (λ i, i =? 1)) (enc, dec) (enumerate payloads);
  enc ← mfor (λ enc _, '(enc, _) ← unwrap (generate_coded disp enc); Ok enc) enc (range 0 128);
  _ ← rassert (1 <=? en_generation enc);
  expected ← index payloads 1;
  recovered ← attempts 8 expected enc dec;
  rassert recovered.

Definition tests : list test :=
  [cauchy_runs_past_old_128_limit; cauchy_runs_for_thousand_packets;
   cauchy_recovers_lost_source_across_generation_boundary].
End kernel.
End cauchy_unlimited_session.

(** The long session passes for every number of coded packets. *)
Section long_session.
Import cauchy_unlimited_session.
Context (disp : Dispatch).
Local Abbreviation DefaultEncoder := (Encoder AnyAckPolicy NoCongestionControl ConstantFecRate).
Local Abbreviation DefaultDecoder := (Decoder ConstantFeedbackPolicy).
Implicit Types (e : DefaultEncoder) (d : DefaultDecoder).

(** Where the session is after [n] symbols. *)
Record session_at config n e d sent : Prop := {
  sa_encoded : encoded disp payload config n e sent;
  sa_fec : en_fec e = {| cf_numer := 0; cf_denom := 1; cf_acc := 0 |};
  sa_synced : synced payload config n d;
}.

Lemma submit_direct_ok config n e d sent : sym_size config = 64%nat →
  0 ≤ n < ec_window_capacity config → ec_window_capacity config ≤ 128 →
  session_at config n e d sent →
  ∃ e' d' sent', submit_direct disp (λ _, false) (e, d) (n, payload n) = Ok (e', d') ∧
    session_at config (n + 1) e' d' sent' ∧ coded_state e' = coded_state e.
Proof.
  intros Hsz Hn Hcap [Hat Hf Hsy].
  destruct (encode_one_ok disp payload config n e sent) as (e' & sent' & He & Hat' & _); [done|lia|done|].
  unfold encode_one in He. destruct (submit_source disp e (payload n)) as [[e1 outs]| |] eqn:Hsub; [|done..].
  cbn [unwrap] in He. rw bind_Ok in He. injection He as -> Hraw.
  pose proof Hat as [Hs Hc Hnext _ _]. pose proof Hat' as [Hs' Hc' Hnext' _ _].
  destruct (submit_no_fec disp _ _ _ _ Hf Hsub) as (Hlen & Hst & Hf').
  pose proof (enc_session_inv disp _ e sent Hs) as [He _ _ _ _].
  assert (window_is_full (en_window e) = false) as Hfull.
  { by apply (encoded_not_full disp payload config n e sent); [lia|lia|]. }
  destruct (submit_total disp _ e sent Hs ltac:(lia) (or_introl Hfull))
    as (e2 & pkt & new & Hsub2 & _ & _ & _ & _ & p & Hp & Hid & Hpay).
  rw Hnext Hsub in Hsub2. injection Hsub2 as <- ->. destruct new; [|done]. rw Hnext in Hid Hpay.
  assert (∀ id, symbol (sym_size config) (payload id)) as Hsym by (intros id; rw Hsz; apply (byte_symbol 64)).
  destruct (source_synced (P := ConstantFeedbackPolicy) disp payload config Hsym n d p)
    as (d' & evs & Hd & Hsy' & _); [lia|done..|].
  exists e', d', sent'. split_and!; [|by constructor|done].
  unfold submit_direct. cbn [fst snd]. rw Hsub. cbn [unwrap]. rw bind_Ok. cbn [mfor]. rw Hp. cbn [unwrap]. by rw bind_Ok Hd.
Qed.

Lemma submits_ok config k : ∀ n e d sent, sym_size config = 64%nat →
  0 ≤ n → n + Z.of_nat k ≤ ec_window_capacity config → ec_window_capacity config ≤ 128 →
  session_at config n e d sent →
  ∃ e' d' sent', mfor (submit_direct disp (λ _, false)) (e, d) ((λ i, (i, payload i)) <$> seqZ n (Z.of_nat k)) = Ok (e', d') ∧
    session_at config (n + Z.of_nat k) e' d' sent' ∧ coded_state e' = coded_state e.
Proof.
  induction k as [|k IH]; intros n e d sent Hsz Hn Hk Hcap Hat.
  { exists e, d, sent. by rw Z.add_0_r. }
  destruct (submit_direct_ok config n e d sent) as (e1 & d1 & sent1 & H1 & Hat1 & Hst1); [done|lia|done..|].
  destruct (IH (n + 1) e1 d1 sent1) as (e2 & d2 & sent2 & H2 & Hat2 & Hst2); [done|lia|lia|done..|].
  exists e2, d2, sent2. rw seqZ_cons; [|lia]. cbn [fmap list_fmap mfor]. rw H1 bind_Ok.
  replace (Z.pred (Z.of_nat (S k))) with (Z.of_nat k) by lia.
  replace (n + Z.of_nat (S k)) with (n + 1 + Z.of_nat k) by lia. split_and!; [exact H2|done|congruence].
Qed.

(** A coded packet carries the generation and changes only the counters. *)
Lemma coded_once_ok config n e d sent seen i : sym_size config = 64%nat → ec_matrix_strategy config = Cauchy →
  1 ≤ n ≤ 128 → session_at config n e d sent →
  ∃ e' d' sent', coded_once disp (e, d, seen) i = Ok (e', d', Z.max seen (en_generation e)) ∧
    session_at config n e' d' sent' ∧ coded_state e' = coded_state (advance_coded e).
Proof.
  intros Hsz Hcau Hn [[Hs Hc Hnext Hids Hcov] Hf Hsy].
  pose proof (enc_session_inv disp _ _ sent Hs) as Hi. pose proof (session_fits _ _ _ Hi) as Hfit.
  destruct Hi as [He _ Hsrc _ _].
  destruct (generate_coded_ok disp payload e) as (e' & o & Hg & He' & Hw' & Hc' & Hco & Ho); [done..| |].
  { intros Hnil. unfold id_slice in Hids. rw Hnil seqZ_cons in Hids; [done|lia]. }
  destruct o as [|pkt]; [done|]. destruct Ho as (p & Hp & Hh). rw Hids Hc in Hh.
  destruct Hco as (p' & Hp' & Hpids & _ & Hgen). rw Hp in Hp'. injection Hp' as <-.
  assert (∀ id, symbol (sym_size config) (payload id)) as Hsym by (intros id; rw Hsz; apply (byte_symbol 64)).
  destruct (coded_synced (P := ConstantFeedbackPolicy) disp payload config Hsym n n d p)
    as (d' & evs & Hd & Hsy' & _); [lia|lia|done..|].
  exists e', d', (sent ++ [OutCoded pkt]). split_and!.
  - unfold coded_once. rw Hg. cbn [unwrap]. rw bind_Ok. cbn [coded_raw]. rw bind_Ok Hp. cbn [unwrap]. rw bind_Ok Hd.
    cbn [unwrap]. rw bind_Ok Hgen //. by rw Hc.
  - constructor; [constructor|..]; try done.
    + by apply (Encoder.session_coded _ _ e).
    + by rw Hc'.
    + by rw Hw'.
    + by rw Hw'.
    + rw sent_vectors_app. apply Forall_app_2; [done|]. cbn. rw Hp. constructor; [|done]. exists (n - 1).
      rw Hpids Hids Z.sub_add. split; [lia|done].
    + by apply generate_coded_state in Hg as (_ & -> & _).
  - by apply generate_coded_state in Hg as (Hst & _ & _).
Qed.

Lemma coded_many_ok config n k : ∀ i e d sent seen, sym_size config = 64%nat → ec_matrix_strategy config = Cauchy →
  1 ≤ n ≤ 128 → session_at config n e d sent →
  ∃ e' d' sent' seen', mfor (coded_once disp) (e, d, seen) (seqZ i (Z.of_nat k)) = Ok (e', d', seen') ∧
    session_at config n e' d' sent' ∧ seen ≤ seen' ∧
    ∀ j, (j < k)%nat → en_generation (advance_n j e) ≤ seen'.
Proof.
  induction k as [|k IH]; intros i e d sent seen Hsz Hcau Hn Hat.
  { exists e, d, sent, seen. split_and!; [done|done|lia|lia]. }
  destruct (coded_once_ok config n e d sent seen i) as (e1 & d1 & sent1 & H1 & Hat1 & Hst1); [done..|].
  destruct (IH (Z.succ i) e1 d1 sent1 (Z.max seen (en_generation e))) as (e2 & d2 & sent2 & seen2 & H2 & Hat2 & Hle & Hall); [done..|].
  exists e2, d2, sent2, seen2. rw seqZ_cons; [|lia]. cbn [mfor]. rw H1 bind_Ok.
  replace (Z.pred (Z.of_nat (S k))) with (Z.of_nat k) by lia. split_and!; [done|done|lia|].
  intros [|j] Hj; [cbn; lia|]. cbn [advance_n].
  assert (coded_state (advance_n j e1) = coded_state (advance_n j (advance_coded e))) as [= _ _ <-]; [|apply Hall; lia].
  apply advance_n_state; [|done].
  by rw advance_coded_config (ec_config _ _ _ _ _ _ (sa_encoded _ _ _ _ _ Hat)) (ec_config _ _ _ _ _ _ (sa_encoded _ _ _ _ _ Hat1)).
Qed.

Definition long_config : EncoderConfig :=
  {| ec_symbol_size := 64; ec_window_capacity := 12; ec_field := Gf2_8; ec_fec_numer := 0; ec_fec_denom := 1;
     ec_backpressure := Reject; ec_matrix_strategy := Cauchy |}.
Definition long_dconfig : DecoderConfig :=
  {| dc_symbol_size := 64; dc_field := Gf2_8; dc_max_matrix_rows := 512; dc_feedback_every := 4294967295 |}.
Lemma long_pair : build_pair 12
  = Ok (encoder_new long_config AnyAck NoCc {| cf_numer := 0; cf_denom := 1; cf_acc := 0 |},
        decoder_new long_dconfig {| cp_period := 16; cp_counter := 0 |}).
Proof. vm_compute. reflexivity. Qed.

Lemma long_generation j :
  en_generation (advance_n j (encoder_new long_config AnyAck NoCc {| cf_numer := 0; cf_denom := 1; cf_acc := 0 |}))
  = u8 (Z.of_nat j / 128).
Proof.
  match goal with |- en_generation (advance_n j ?e) = _ =>
    destruct (advance_n_spec j e 0) as [_ ->]; [cbn; lia|done|done|] end.
  cbn -[Z.of_nat u8 Z.div]. by rw Z.add_0_l.
Qed.

Lemma long_session_passes n_coded : 0 ≤ n_coded → passes (run_long_cauchy_session disp n_coded).
Proof.
  intros Hk. unfold run_long_cauchy_session. rw long_pair bind_Ok.
  set (config := long_config). set (e0 := encoder_new _ _ _ _). set (d0 := decoder_new _ _).
  assert (session_at config 0 e0 d0 []) as Hat0.
  { constructor; [constructor|..]; try done; [|by apply synced_new].
    apply Encoder.session_new; [|cbn; lia|cbn; lia|intros id; apply (byte_symbol 64)].
    unfold encoder_config_ok, config. cbn. split_and!; lia. }
  destruct (submits_ok config 12 0 e0 d0 []) as (e1 & d1 & sent1 & H1 & Hat1 & Hst1); [done|lia|cbn; lia|cbn; lia|done|].
  assert (enumerate (payload <$> range 0 12) = (λ i, (i, payload i)) <$> seqZ 0 12) as -> by apply zip_fmap_id.
  rw H1 bind_Ok.
  destruct (coded_many_ok config 12 (Z.to_nat n_coded) 0 e1 d1 sent1 0)
    as (e2 & d2 & sent2 & seen & H2 & Hat2 & H0s & Hall); [done|done|lia|done|].
  unfold range. rw Z2Nat.id in H2; [|lia]. rw Z.sub_0_r H2 bind_Ok. clear H1 H2.
  assert (u8 (Z.max 0 (n_coded / 128 - 1)) ≤ seen) as Hseen.
  { set (g := u8 (Z.max 0 (n_coded / 128 - 1))). pose proof (u8_is (Z.max 0 (n_coded / 128 - 1))) as Hg. fold g in Hg.
    destruct (decide (g = 0)) as [->|Hg0]; [done|].
    assert (g ≤ n_coded / 128 - 1) as Hle.
    { assert (g ≤ Z.max 0 (n_coded / 128 - 1)) by (apply Z.mod_le; lia). word_bound. }
    pose proof (Z.div_mod n_coded 128). pose proof (Z.mod_pos_bound n_coded 128).
    specialize (Hall (Z.to_nat (128 * g)) ltac:(word_bound)).
    assert (coded_state (advance_n (Z.to_nat (128 * g)) e1) = coded_state (advance_n (Z.to_nat (128 * g)) e0)) as [= _ _ Hgen].
    { apply advance_n_state; [|done]. by rw (ec_config _ _ _ _ _ _ (sa_encoded _ _ _ _ _ Hat1)). }
    rw Hgen long_generation Z2Nat.id in Hall; [|word_bound].
    rw Z.mul_comm Z.div_mul in Hall; [|lia]. rw u8_small in Hall; [done|exact Hg]. }
  rw (proj2 (Z.leb_le _ _) Hseen). cbn [rassert]. rw bind_Ok. apply assert_eq_refl.
  apply (sy_next _ _ _ _ (sa_synced _ _ _ _ _ Hat2)).
Qed.
End long_session.

Lemma cauchy_tests_run disp : Forall passes (cauchy_unlimited_session.tests disp).
Proof.
  unfold cauchy_unlimited_session.tests.
  assert (passes (cauchy_unlimited_session.cauchy_recovers_lost_source_across_generation_boundary disp)) as Hb
    by (destruct disp; vm_compute; reflexivity).
  apply Forall_cons_2; [exact (long_session_passes disp 200 ltac:(lia))|].
  apply Forall_cons_2; [exact (long_session_passes disp 1200 ltac:(lia))|].
  by apply Forall_cons_2.
Qed.

(** Without its longest run, large_window_simd_path, which is millions of field
    operations. *)
Module stress.
Section kernel.
Context (disp : Dispatch).

Inductive Channel : Type :=
| Random (loss_pct : Z)
| Burst (burst_len cycle_len : Z)
| AllSourcesDropped
| HeadDropped (n : Z).

Definition should_drop (c : Channel) (idx : Z) (is_source : bool) (rng : Z) : Z * bool :=
  match c with
  | Random loss_pct => let '(rng, x) := next_u32 rng in (rng, x mod 100 <? loss_pct)
  | Burst burst_len cycle_len => (rng, idx mod cycle_len <? burst_len)
  | AllSourcesDropped => (rng, is_source)
  | HeadDropped n => (rng, idx <? n)
  end.

Record StressResult := {
  sr_delivered : list Z;
  sr_lost_count : Z;
  sr_pkts_sent : Z;
  sr_pkts_dropped : Z;
}.

(** One packet of the loop: the drop decision, the decoder, and the assertion on
    what it delivers. *)
Definition channel_one (payloads : list bytes) (channel : Channel) (st : Z * Z * Decoding) (ip : Z * bytes)
  : result (Z * Z * Decoding) :=
  let '(rng, dropped, s) := st in
  ty ← index ip.2 3;
  let '(rng, lost) := should_drop channel (u32 ip.1) ((ty : Z) =? 0) rng in
  if lost : bool then Ok (rng, u32 (dropped + 1), s)
  else
    s' ← decode_one disp s ip.2;
    _ ← for_each (drop (length (dg_delivered s)) (dg_delivered s')) (λ '(id, data),
          e ← index payloads (Z.to_nat id); assert_eq data e);
    Ok (rng, dropped, s').

Definition run_session (field : Field) (strategy : MatrixStrategy)
    (n_symbols sym_size fec_numer fec_denom window : Z) (channel : Channel) (seed : Z) : result StressResult :=
  enc_cfg ← unwrap (EncoderBuilder.build
    (EncoderBuilder.fec_rate fec_numer fec_denom
    (EncoderBuilder.window_capacity window
    (EncoderBuilder.matrix_strategy strategy
    (EncoderBuilder.field field (EncoderBuilder.new sym_size))))));
  enc ← encoder_with_defaults enc_cfg;
  dec ← new_decoder field sym_size;
  let payloads := mixed_symbol sym_size <$> range 0 n_symbols in
  '(_, wire) ← mfor (encode_one disp) (enc, []) payloads;
  '(_, dropped, s) ← mfor (channel_one payloads channel)
    (Lcg_new seed, 0, {| dg_decoder := dec; dg_delivered := [] |}) (enumerate wire);
  let delivered := (dg_delivered s).*1 in
  Ok {| sr_delivered := delivered;
        sr_lost_count := u32 (Z.of_nat (length (filter (λ i, i ∉ delivered) (range 0 n_symbols))));
        sr_pkts_sent := u32 (Z.of_nat (length wire)); sr_pkts_dropped := dropped |}.

Definition all_received (n_symbols : Z) (r : StressResult) : test :=
  assert_eq (Z.of_nat (length (sr_delivered r))) n_symbols.

Definition all_sources_dropped_recovers_via_fec : test :=
  for_each [4; 8; 16] (λ n_symbols,
    r ← run_session Gf2_8 Vandermonde n_symbols 128 1 1 n_symbols AllSourcesDropped 42;
    all_received n_symbols r).
Definition burst_loss_4_in_8_with_1to1_fec : test :=
  r ← run_session Gf2_8 Vandermonde 16 256 1 1 16 (Burst 4 8) 12648430;
  all_received 16 r.
Definition cauchy_head_drop_recovers_all : test :=
  r ← run_session Gf2_8 Cauchy 8 128 1 1 8 (HeadDropped 4) 0;
  all_received 8 r.
Definition gf2_4_all_sources_dropped_recovers : test :=
  r ← run_session Gf2_4 Vandermonde 6 64 1 1 6 AllSourcesDropped 2748;
  all_received 6 r.
Definition random_30pct_loss_2to1_fec_high_recovery : test :=
  total_lost ← mfor (λ total_lost seed,
    r ← run_session Gf2_8 Vandermonde 16 128 2 1 16 (Random 30) seed;
    _ ← rassert (sr_lost_count r <=? 1);
    Ok (u32 (total_lost + sr_lost_count r))) 0 [1; 7; 42; 100; 1234; 3735928559; 777; 49374];
  rassert (total_lost <=? 2).
Definition over_loss_does_not_panic : test :=
  r ← run_session Gf2_8 Vandermonde 12 128 1 4 12 (Random 70) 99;
  _ ← rassert (Z.of_nat (length (sr_delivered r)) <=? 12);
  for_each (sr_delivered r) (λ id, rassert (id <? 12)).
Definition delivery_is_strictly_in_order : test :=
  r ← run_session Gf2_8 Vandermonde 32 128 1 1 32 (Random 35) 48879;
  for_each (zip (sr_delivered r) (tail (sr_delivered r))) (λ '(a, b), rassert (a <? b)).

Definition tests : list test :=
  [all_sources_dropped_recovers_via_fec; burst_loss_4_in_8_with_1to1_fec; cauchy_head_drop_recovers_all;
   gf2_4_all_sources_dropped_recovers; random_30pct_loss_2to1_fec_high_recovery;
   over_loss_does_not_panic; delivery_is_strictly_in_order].
End kernel.
End stress.

Lemma stress_tests_run : Forall passes (stress.tests Scalar).
Proof. repeat (constructor; [vm_compute; reflexivity|]); constructor. Qed.

Module async_transport.
Section kernel.
Context (disp : Dispatch).

(** Addresses on the loopback device; the hash that makes receiver IDs of them is
    of no matter here. *)
Definition tx_addr : Z := 1.
Definition rx_addr : Z := 2.
Definition prx_addr : Z := 3.
Definition addr_to_receiver_id (addr : Z) : Z := addr.

Definition make_encoder (sym_size window fec_numer fec_denom : Z)
  : result (Encoder AnyAckPolicy NoCongestionControl ConstantFecRate) :=
  cfg ← unwrap (EncoderBuilder.build
    (EncoderBuilder.matrix_strategy Vandermonde
    (EncoderBuilder.window_capacity window (EncoderBuilder.new sym_size))));
  fec ← ConstantFecRate_new fec_numer fec_denom;
  Ok (encoder_new cfg AnyAck NoCc fec).
Definition make_decoder (sym_size : Z) : result (Decoder ConstantFeedbackPolicy) :=
  cfg ← unwrap (DecoderBuilder.build (DecoderBuilder.new sym_size));
  policy ← ConstantFeedbackPolicy_new 4;
  Ok (decoder_new cfg policy).
Definition make_decoder_immediate (sym_size : Z) : result (Decoder ImmediateFeedbackPolicy) :=
  cfg ← unwrap (DecoderBuilder.build (DecoderBuilder.new sym_size));
  Ok (decoder_new cfg Immediate).
Definition payload (sym_size seed : Z) : bytes := replicate (Z.to_nat sym_size) seed.

(** Send [n] symbols; the datagrams that reach the other socket. *)
Local Abbreviation Sender := (FecSender AnyAckPolicy NoCongestionControl ConstantFecRate Z).
Definition send_symbols (sym_size n : Z) (sender : Sender) : result (Sender * list bytes) :=
  mfor (λ st i,
    let '(sender, arrived) := st in
    match send_source disp sender (payload sym_size i) [] with
    | (sent, r) => sender ← unwrap r; Ok (sender, arrived ++ sent.*2)
    end) (sender, []) (range 0 n).

(** [n] times [recv_source], which times out when nothing is left to arrive; the
    symbols, and the feedback that was sent. *)
Fixpoint receive_symbols {P} `{FeedbackPolicy P} (n : nat) (receiver : FecReceiver P) (incoming : list received)
  : result (list (Z * bytes) * list bytes) :=
  match n with
  | O => Ok ([], [])
  | S n =>
      let '(sent, unread, r) := recv_source disp receiver incoming in
      '(receiver, sym) ← unwrap r;
      sym ← unwrap_some sym;
      '(syms, sent') ← receive_symbols n receiver unread;
      Ok (sym :: syms, sent ++ sent')
  end.

Definition round_trip_no_loss : test :=
  let SYM := 256 in let N := 8 in
  encoder ← make_encoder SYM N 1 2;
  decoder ← make_decoder SYM;
  '(_, arrived) ← send_symbols SYM N (sender_new addr_to_receiver_id encoder rx_addr);
  '(syms, _) ← receive_symbols (Z.to_nat N) (receiver_new decoder) (RecvDatagram <$> arrived);
  for_each (enumerate syms) (λ '(i, (id, data)), _ ← assert_eq id i; assert_eq data (payload SYM i)).
Definition round_trip_with_source_packet_loss : test :=
  let SYM := 512 in let N := 6 in
  encoder ← make_encoder SYM N 1 1;
  decoder ← make_decoder SYM;
  '(_, arrived) ← send_symbols SYM N (sender_new addr_to_receiver_id encoder prx_addr);
  let fwd := filter (λ raw, bool_decide (raw !! 3%nat = Some 1) = true) (take (Z.to_nat (N * 2)) arrived) in
  _ ← rassert (N * 2 <=? Z.of_nat (length arrived));
  _ ← assert_eq (Z.of_nat (length fwd)) N;
  '(_, _) ← receive_symbols (Z.to_nat N) (receiver_new decoder) (RecvDatagram <$> fwd);
  Ok tt.
Definition feedback_reaches_sender : test :=
  let SYM := 64 in let N := 4 in
  encoder ← make_encoder SYM N 1 1;
  decoder ← make_decoder_immediate SYM;
  '(sender, arrived) ← send_symbols SYM N (sender_new addr_to_receiver_id encoder rx_addr);
  '(_, feedback) ← receive_symbols (Z.to_nat N) (receiver_new decoder) (RecvDatagram <$> arrived);
  sender ← unwrap (wait_feedback addr_to_receiver_id sender
    match feedback with raw :: _ => InDatagram rx_addr raw | [] => InWouldBlock end);
  _ ← unwrap_some sender;
  Ok tt.
(** [receiver.next()]: polled until it is ready, or nothing is left to arrive. *)
Fixpoint next {P} `{FeedbackPolicy P} (receiver : FecReceiver P) (incoming : list received)
  : result (FecReceiver P * (Z * bytes) * list received) :=
  match poll_next disp receiver (default RecvWouldBlock (head incoming)) with
  | Ok (receiver', ReadySymbol sym, _) =>
      Ok (receiver', sym, if bool_decide (fr_ready receiver = []) then tail incoming else incoming)
  | Ok (receiver', Pending, _) => match incoming with [] => Panic | _ :: incoming => next receiver' incoming end
  | _ => Panic
  end.
Definition stream_trait_delivers_symbols : test :=
  let SYM := 128 in let N := 4 in
  encoder ← make_encoder SYM N 0 1;
  decoder ← make_decoder SYM;
  '(_, arrived) ← send_symbols SYM N (sender_new addr_to_receiver_id encoder rx_addr);
  '(_, _, received) ← mfor (λ st (_ : Z),
    let '(receiver, incoming, received) := st in
    '(receiver, sym, incoming) ← next receiver incoming;
    _ ← assert_eq sym.1 received;
    Ok (receiver, incoming, received + 1)) (receiver_new decoder, RecvDatagram <$> arrived, 0) (range 0 N);
  assert_eq received N.
Definition session_builder_constructs : test :=
  session ← unwrap (session_build addr_to_receiver_id
    (Setters.fec_rate 1 2 (Setters.window_capacity 8 (Setters.symbol_size 256 session_builder_default))) true rx_addr);
  let '(_, _) := split session in Ok tt.

Definition tests : list test :=
  [round_trip_no_loss; round_trip_with_source_packet_loss; feedback_reaches_sender;
   stream_trait_delivers_symbols; session_builder_constructs].
End kernel.
End async_transport.

Lemma async_transport_tests_run disp : Forall passes (async_transport.tests disp).
Proof. destruct disp; repeat (constructor; [vm_compute; reflexivity|]); constructor. Qed.

(** ** All of them *)
Definition session_tests (cpu : Dispatch) : list test :=
  altc.tests cpu ++ cauchy_unlimited_session.tests cpu ++ async_transport.tests cpu.

(** The integration tests pass on the model, on each of the four byte kernels,
    those of stress.rs on the scalar one; the long Cauchy session passes for every
    number of coded packets. *)
Theorem session_tests_pass cpu : Forall passes (session_tests cpu) ∧ Forall passes (stress.tests Scalar) ∧
  ∀ n_coded, 0 ≤ n_coded → passes (cauchy_unlimited_session.run_long_cauchy_session cpu n_coded).
Proof.
  split_and!; [|exact stress_tests_run|apply long_session_passes]. unfold session_tests.
  repeat apply Forall_app_2; [apply altc_tests_run|apply cauchy_tests_run|apply async_transport_tests_run].
Qed.

Lemma session_tests_pass_witness : passes (cauchy_unlimited_session.run_long_cauchy_session Neon 40000).
Proof. apply (proj2 (proj2 (session_tests_pass Neon))). lia. Defined.
